(** * inventree_part_import: the part importer and the DigiKey adapter

    A shallow embedding of [inventree_part_import/part_importer.py] and of
    [inventree_part_import/suppliers/supplier_digikey.py], and the
    properties of the reconciliation engine proved about it.

    Conventions of the embedding.
    - A Python [str] is a [string] whose characters are the code points
      U+0000..U+00FF (Latin-1): the glyph U+00B1 is the single character
      of code 177.
    - A Python [dict] is an association list in insertion order with
      unique keys ([Dict] below); a [set] is a duplicate-free list, and a
      loop over a set takes its elements in the order of the list.
    - A method of [PartImporter] is a function of the state [St], which
      holds the fields of [self], the repository behind [self.api], the
      console and the scripted user; it ends in a value, in a raised
      exception, or blocked on user input that never comes. *)

From Stdlib Require Import ZArith List String Ascii Bool Lia QArith Arith.
Import ListNotations.

Local Open Scope string_scope.
Local Open Scope Z_scope.

Set Implicit Arguments.

(* ===================================================================== *)
(** * Severity results *)
(* ===================================================================== *)

(** [class ImportResult(Enum)] with its values, part_importer.py:24-28. *)
Inductive ImportResult : Set := ERROR | FAILURE | INCOMPLETE | SUCCESS.

Definition value (r : ImportResult) : Z :=
  match r with
  | ERROR => 0
  | FAILURE => 1
  | INCOMPLETE => 2
  | SUCCESS => 3
  end.

(** [ImportResult.__or__]: [self if self.value < other.value else other]. *)
Definition or_ (self other : ImportResult) : ImportResult :=
  if value self <? value other then self else other.

Infix "|r" := or_ (at level 50, left associativity).

Definition ImportResult_eqb (a b : ImportResult) : bool := value a =? value b.

(** The order of the specification, SUCCESS < INCOMPLETE < FAILURE < ERROR,
    as a rank: a larger rank is a more severe result. *)
Definition severity (r : ImportResult) : nat :=
  match r with
  | SUCCESS => 0
  | INCOMPLETE => 1
  | FAILURE => 2
  | ERROR => 3
  end%nat.

Definition more_severe (a b : ImportResult) : ImportResult :=
  if (severity a <? severity b)%nat then b else a.

(* ===================================================================== *)
(** * Python strings *)
(* ===================================================================== *)

Module Str.

Definition code (c : ascii) : nat := nat_of_ascii c.

(** [str.isspace] on one code point below U+0100. *)
Definition isspace (c : ascii) : bool :=
  let n := code c in
  (((9 <=? n) && (n <=? 13)) || ((28 <=? n) && (n <=? 32))
   || (n =? 133) || (n =? 160))%nat.

Fixpoint lstrip (s : string) : string :=
  match s with
  | EmptyString => EmptyString
  | String c s' => if isspace c then lstrip s' else s
  end.

Fixpoint rstrip (s : string) : string :=
  match s with
  | EmptyString => EmptyString
  | String c s' =>
      match rstrip s' with
      | EmptyString => if isspace c then EmptyString else String c EmptyString
      | r => String c r
      end
  end.

(** [str.strip()] without argument. *)
Definition strip (s : string) : string := rstrip (lstrip s).

(** [s.startswith(p)]. *)
Fixpoint startswith (s p : string) : bool :=
  match p, s with
  | EmptyString, _ => true
  | String _ _, EmptyString => false
  | String a p', String b s' => Ascii.eqb a b && startswith s' p'
  end.

(** The scan of [str.replace] for a non-empty [old]: at a position where
    [old] starts, [new] is written and the scan resumes behind the
    occurrence ([skip] counts the characters of it still to pass). *)
Fixpoint replace_scan (old new : string) (skip : nat) (s : string) : string :=
  match s with
  | EmptyString => EmptyString
  | String c s' =>
      match skip with
      | S k => replace_scan old new k s'
      | O =>
          if startswith s old
          then new ++ replace_scan old new (String.length old - 1) s'
          else String c (replace_scan old new O s')
      end
  end.

Fixpoint intersperse (new s : string) : string :=
  match s with
  | EmptyString => new
  | String c s' => new ++ String c (intersperse new s')
  end.

(** [s.replace(old, new)]: every occurrence, left to right, without
    overlap; an empty [old] matches before every character and at the
    end. *)
Definition replace (old new s : string) : string :=
  match old with
  | EmptyString => intersperse new s
  | String _ _ => replace_scan old new O s
  end.

(** [str.lower] on one code point below U+0100: A-Z and the upper-case
    letters U+00C0..U+00DE (without the sign U+00D7) move by 32. *)
Definition lower_char (c : ascii) : ascii :=
  let n := code c in
  if (((65 <=? n) && (n <=? 90))
      || ((192 <=? n) && (n <=? 222) && negb (n =? 215)))%nat
  then ascii_of_nat (n + 32) else c.

Fixpoint lower (s : string) : string :=
  match s with
  | EmptyString => EmptyString
  | String c s' => String (lower_char c) (lower s')
  end.

(** The scan of [str.split(sep)] for a non-empty [sep]: [cur] is the
    piece being read, reversed. *)
Fixpoint split_scan (sep : string) (skip : nat) (cur : string) (s : string)
  : list string :=
  match s with
  | EmptyString => [cur]
  | String c s' =>
      match skip with
      | S k => split_scan sep k cur s'
      | O =>
          if startswith s sep
          then cur :: split_scan sep (String.length sep - 1) EmptyString s'
          else split_scan sep O (cur ++ String c EmptyString) s'
      end
  end.

Definition split (sep s : string) : list string :=
  split_scan sep O EmptyString s.

(** Truth value of a [str]: the empty string is false. *)
Definition truthy (s : string) : bool :=
  match s with EmptyString => false | String _ _ => true end.

End Str.

(** The pattern of [SANITIZE_PARAMETER = re.compile("±")]: the one
    character U+00B1. *)
Definition SANITIZE_PARAMETER : string := String (ascii_of_nat 177) EmptyString.

(** [sanitize_parameter_value], part_importer.py:461-467.
    [SANITIZE_PARAMETER.sub("", value)] removes every occurrence of the
    one-character pattern. *)
Definition sanitize_parameter_value (value : string) : string :=
  let value := Str.strip value in
  if String.eqb value "-" then ""
  else
    let value := Str.replace SANITIZE_PARAMETER "" value in
    let value := Str.replace "ohms" "ohm" (Str.replace "Ohm" "ohm" value) in
    value.

(** The glyph between two text pieces, to write the inputs of the
    sanitizer. *)
Definition with_glyph (a b : string) : string := a ++ SANITIZE_PARAMETER ++ b.

(* ===================================================================== *)
(** * Python dictionaries and truth values *)
(* ===================================================================== *)

(** Keys with a decidable equality (the [__eq__] of [str] and [int]). *)
Class Key (K : Type) := {
  keqb : K -> K -> bool;
  keqb_eq : forall a b, keqb a b = true <-> a = b
}.

#[export] Instance Key_string : Key string :=
  {| keqb := String.eqb; keqb_eq := String.eqb_eq |}.

#[export] Instance Key_Z : Key Z :=
  {| keqb := Z.eqb; keqb_eq := Z.eqb_eq |}.

Module Dict.
Section Ops.
Context {K V : Type} `{Key K}.

(** [d.get(k)] *)
Fixpoint get (d : list (K * V)) (k : K) : option V :=
  match d with
  | [] => None
  | (k', v) :: d' => if keqb k' k then Some v else get d' k
  end.

(** [k in d] *)
Definition mem (d : list (K * V)) (k : K) : bool :=
  match get d k with Some _ => true | None => false end.

(** [d[k] = v]: a present key keeps its place, a new key goes last. *)
Fixpoint set (d : list (K * V)) (k : K) (v : V) : list (K * V) :=
  match d with
  | [] => [(k, v)]
  | (k', v') :: d' =>
      if keqb k' k then (k', v) :: d' else (k', v') :: set d' k v
  end.

(** [{k: v for k, v in items}] *)
Definition of_items (items : list (K * V)) : list (K * V) :=
  fold_left (fun d kv => set d (fst kv) (snd kv)) items [].

Definition keys (d : list (K * V)) : list K := map fst d.
Definition values (d : list (K * V)) : list V := map snd d.
End Ops.
End Dict.

(** Membership in a list of keys, [x in l]. *)
Definition mem {K} `{Key K} (x : K) (l : list K) : bool :=
  existsb (keqb x) l.

(** [set(l)] as a duplicate-free list, in the order of first occurrence. *)
Fixpoint dedup {K} `{Key K} (l : list K) : list K :=
  match l with
  | [] => []
  | x :: l' => x :: filter (fun y => negb (keqb x y)) (dedup l')
  end.

(** [a - b] on sets. *)
Definition difference {K} `{Key K} (a b : list K) : list K :=
  filter (fun x => negb (mem x b)) a.

Definition is_some {A} (o : option A) : bool :=
  match o with Some _ => true | None => false end.

Definition is_nil {A} (l : list A) : bool :=
  match l with [] => true | _ :: _ => false end.

(* ===================================================================== *)
(** * Data model *)
(* ===================================================================== *)

(** Modelled from the spec: [suppliers/base.py], which declares the
    candidate record [ApiPart], is not among the sources. The record has
    the fields [DigiKey.get_api_part] passes to its constructor, the
    lazily fetched [datasheet_url], and the answer of [finalize()], which
    "may perform one additional network round-trip to populate lazy
    fields, returning false on unrecoverable failure" and is "triggered
    exactly once": the record holds the finalized data and the answer
    every call of [finalize()] gives. *)
Record ApiPart := {
  description : string;
  image_url : string;
  datasheet_url : string;
  supplier_link : string;
  SKU : string;
  manufacturer : string;
  manufacturer_link : string;
  MPN : string;
  quantity_available : Z;
  packaging : string;
  category_path : list string;
  api_parameters : list (string * string);
  api_price_breaks : list (Z * Q);
  currency : string;
  finalize : bool
}.

(** Repository entities, as far as the importer reads or writes them. *)
Record Company := { company_pk : Z; company_name : string }.

Record Part := {
  part_pk : Z;
  part_name : string;
  part_description : string;
  part_link : string;
  part_category : Z;
  part_image : string
}.

Record ManufacturerPart := {
  mp_pk : Z;
  mp_part : Z;
  mp_manufacturer : Z;
  mp_MPN : string;
  mp_description : string;
  mp_link : string
}.

Record SupplierPart := {
  sp_pk : Z;
  sp_part : Z;
  sp_manufacturer_part : option Z;
  sp_supplier : Z;
  sp_SKU : string;
  sp_link : string;
  sp_packaging : string;
  sp_available : Z
}.

Record SupplierPriceBreak := {
  pb_pk : Z;
  pb_part : Z;
  pb_quantity : Z;
  pb_price : Q;
  pb_currency : string
}.

(** A parameter of a part; [param_name] is [template_detail["name"]]. *)
Record PartParameter := {
  param_pk : Z;
  param_part : Z;
  param_template : Z;
  param_name : string;
  param_data : string
}.

Record ParameterTemplate := { tpl_pk : Z; tpl_name : string }.

Record Attachment := {
  att_part : Z;
  att_comment : string;
  att_link : string
}.

(** Modelled from the spec: [categories.py] is not among the sources;
    an internal category, with its path, the parameters it requires and
    the category of the repository it stands for, and a configured
    parameter. *)
Record PartCategory := { pc_pk : Z; pathstring : string }.

Record Category := {
  cat_name : string;
  cat_path : list string;
  cat_parameters : list string;
  part_category_of : PartCategory
}.

Record ParameterConf := { conf_name : string }.

(** Modelled from the spec: the value of [datasheets] in the
    configuration ([config.py]). *)
Inductive Datasheets :=
| DS_upload
| DS_link
| DS_off
| DS_invalid (mode : string).

(** The store behind [self.api]. *)
Record Repo := {
  parts : list Part;
  companies : list Company;
  manufacturer_parts : list ManufacturerPart;
  supplier_parts : list SupplierPart;
  price_breaks : list SupplierPriceBreak;
  parameters : list PartParameter;
  attachments : list Attachment;
  next_pk : Z
}.

(** A mutating call that reached the repository. *)
Inductive Write :=
| W_create (kind : string) (pk : Z)
| W_save (kind : string) (pk : Z)
| W_upload (kind : string) (part : Z).

(** Modelled from the spec: the console output of [error_helper.py],
    the level and what is said; the wording of a message is outside the
    model. *)
Inductive Level :=
| L_info | L_hint | L_warning | L_error | L_prompt | L_success | L_print.

Inductive Message :=
| Msg_searching (term : string)
| Msg_searching_at (supplier : string)
| Msg_no_results (supplier : string)
| Msg_select_part (supplier : string)
| Msg_only_showing (count : Z) (shown : nat)
| Msg_skipping_import (count : Z) (supplier : string)
| Msg_failed_to_import (detail : option (list (string * string)))
| Msg_traceback
| Msg_found_existing (supplier sku : string)
| Msg_importing (supplier sku : string)
| Msg_updating (label : string)
| Msg_invalid_datasheets (mode : string)
| Msg_supplier_part_done (updated : bool) (supplier sku : string)
| Msg_category_unmatched (path : list string)
| Msg_select_category (path : list string)
| Msg_creating_part (mpn pathstring : string)
| Msg_creating_manufacturer_part (mpn : string)
| Msg_no_such_category (name : string)
| Msg_select_category_again
| Msg_updating_price_breaks
| Msg_category_undefined (part_category : Z)
| Msg_available_parameters
| Msg_parameter (name value : string)
| Msg_unmatched_prompt (link : string)
| Msg_select_value (name : string)
| Msg_alias_failed (alias name : string)
| Msg_updating_parameters
| Msg_create_failed (name body : string)
| Msg_update_failed (name value body : string)
| Msg_no_template (name : string)
| Msg_unmatched_parameters (names : list string).

Definition Event : Type := Level * Message.

(** [requests.exceptions.HTTPError] as the importer reads it: the tuple
    [e.args] is empty, or [e.args[0]] is not a [dict] (the message text an
    error of [requests] itself carries), or it is a [dict], of which the
    importer reads the entry "body", the text of the response, when the
    dictionary has one. *)
Inductive HTTPError :=
| Args_empty
| Args_text (message : string)
| Args_dict (body : option string).

(** What [json.loads(body)] gives: it raises [JSONDecodeError], or the
    value is an object, with its entries in order and the values as
    [str] prints them, or it is a value of another kind (a list, a
    string, a number, [true], [false] or [null]). *)
Inductive Json :=
| Json_invalid
| Json_object (items : list (string * string))
| Json_other.

(** A pending search call of one supplier: the handle of
    [thread_pool.apply_async] and what [get()] returns, the candidates
    and the result count. *)
Record AsyncResult := {
  handle : nat;
  search_result : list ApiPart * Z
}.

(** Modelled from the spec: [suppliers.search], which starts one search
    per supplier and returns the suppliers with their pending calls.
    Beside it, what the importer takes from other packages and what the
    model keeps as a parameter: [requests.compat.quote] (with
    [safe=":/"]), [thefuzz.fuzz.ratio] and [fuzz.partial_ratio],
    [json.loads], the attribute [name] of a parameter object of the
    client, for an object that has one, and the error the client raises
    for an identifier the repository does not know. *)
Record Lib := {
  quote : string -> string;
  ratio : string -> string -> Z;
  partial_ratio : string -> string -> Z;
  json_loads : string -> Json;
  parameter_name : PartParameter -> option string;
  not_found : HTTPError;
  search : string -> option string -> bool -> list (Company * AsyncResult)
}.

(** The state a method of [PartImporter] runs in.
    - [lib]: the functions of other modules;
    - [interactive] .. [existing_manufacturer_part]: the fields of [self];
      [cfg_max_results] and [cfg_datasheets] are the two configuration
      values read through [get_config()].
    - [repo], [writes]: the repository and the mutating calls it served.
    - [faults]: what the coming mutating calls do, [Some e] for a call
      that raises [e]; past the end every call succeeds.
    - [keys], [typed]: the answers of the user, to [select] and to
      [prompt_input].
    - [console]: the messages, newest first.
    - [aliases]: the aliases added with [add_alias], newest first.
    - [joined]: the search calls that were waited on, newest first.
    - [stocked]: the calls of [add_stock], newest first, each with its
      location, part and amount. *)
Record St := {
  lib : Lib;
  interactive : bool;
  verbose : bool;
  dry_run : bool;
  category_map : list (string * Category);
  parameter_map : list (string * list ParameterConf);
  parameter_templates : list (string * ParameterTemplate);
  existing_manufacturer_part : option ManufacturerPart;
  cfg_max_results : positive;
  cfg_datasheets : Datasheets;
  repo : Repo;
  writes : list Write;
  faults : list (option HTTPError);
  keys : list nat;
  typed : list string;
  console : list Event;
  aliases : list (string * string);
  joined : list nat;
  stocked : list (Z * Z * Z)
}.

(** Field updates of the state. *)
Definition set_parameter_map x (s : St) : St :=
  {| lib := lib s;
     interactive := interactive s;
     verbose := verbose s;
     dry_run := dry_run s;
     category_map := category_map s;
     parameter_map := x;
     parameter_templates := parameter_templates s;
     existing_manufacturer_part := existing_manufacturer_part s;
     cfg_max_results := cfg_max_results s;
     cfg_datasheets := cfg_datasheets s;
     repo := repo s;
     writes := writes s;
     faults := faults s;
     keys := keys s;
     typed := typed s;
     console := console s;
     aliases := aliases s;
     joined := joined s;
     stocked := stocked s |}.

Definition set_existing_manufacturer_part x (s : St) : St :=
  {| lib := lib s;
     interactive := interactive s;
     verbose := verbose s;
     dry_run := dry_run s;
     category_map := category_map s;
     parameter_map := parameter_map s;
     parameter_templates := parameter_templates s;
     existing_manufacturer_part := x;
     cfg_max_results := cfg_max_results s;
     cfg_datasheets := cfg_datasheets s;
     repo := repo s;
     writes := writes s;
     faults := faults s;
     keys := keys s;
     typed := typed s;
     console := console s;
     aliases := aliases s;
     joined := joined s;
     stocked := stocked s |}.

Definition set_repo x (s : St) : St :=
  {| lib := lib s;
     interactive := interactive s;
     verbose := verbose s;
     dry_run := dry_run s;
     category_map := category_map s;
     parameter_map := parameter_map s;
     parameter_templates := parameter_templates s;
     existing_manufacturer_part := existing_manufacturer_part s;
     cfg_max_results := cfg_max_results s;
     cfg_datasheets := cfg_datasheets s;
     repo := x;
     writes := writes s;
     faults := faults s;
     keys := keys s;
     typed := typed s;
     console := console s;
     aliases := aliases s;
     joined := joined s;
     stocked := stocked s |}.

Definition set_writes x (s : St) : St :=
  {| lib := lib s;
     interactive := interactive s;
     verbose := verbose s;
     dry_run := dry_run s;
     category_map := category_map s;
     parameter_map := parameter_map s;
     parameter_templates := parameter_templates s;
     existing_manufacturer_part := existing_manufacturer_part s;
     cfg_max_results := cfg_max_results s;
     cfg_datasheets := cfg_datasheets s;
     repo := repo s;
     writes := x;
     faults := faults s;
     keys := keys s;
     typed := typed s;
     console := console s;
     aliases := aliases s;
     joined := joined s;
     stocked := stocked s |}.

Definition set_faults x (s : St) : St :=
  {| lib := lib s;
     interactive := interactive s;
     verbose := verbose s;
     dry_run := dry_run s;
     category_map := category_map s;
     parameter_map := parameter_map s;
     parameter_templates := parameter_templates s;
     existing_manufacturer_part := existing_manufacturer_part s;
     cfg_max_results := cfg_max_results s;
     cfg_datasheets := cfg_datasheets s;
     repo := repo s;
     writes := writes s;
     faults := x;
     keys := keys s;
     typed := typed s;
     console := console s;
     aliases := aliases s;
     joined := joined s;
     stocked := stocked s |}.

Definition set_keys x (s : St) : St :=
  {| lib := lib s;
     interactive := interactive s;
     verbose := verbose s;
     dry_run := dry_run s;
     category_map := category_map s;
     parameter_map := parameter_map s;
     parameter_templates := parameter_templates s;
     existing_manufacturer_part := existing_manufacturer_part s;
     cfg_max_results := cfg_max_results s;
     cfg_datasheets := cfg_datasheets s;
     repo := repo s;
     writes := writes s;
     faults := faults s;
     keys := x;
     typed := typed s;
     console := console s;
     aliases := aliases s;
     joined := joined s;
     stocked := stocked s |}.

Definition set_typed x (s : St) : St :=
  {| lib := lib s;
     interactive := interactive s;
     verbose := verbose s;
     dry_run := dry_run s;
     category_map := category_map s;
     parameter_map := parameter_map s;
     parameter_templates := parameter_templates s;
     existing_manufacturer_part := existing_manufacturer_part s;
     cfg_max_results := cfg_max_results s;
     cfg_datasheets := cfg_datasheets s;
     repo := repo s;
     writes := writes s;
     faults := faults s;
     keys := keys s;
     typed := x;
     console := console s;
     aliases := aliases s;
     joined := joined s;
     stocked := stocked s |}.

Definition set_console x (s : St) : St :=
  {| lib := lib s;
     interactive := interactive s;
     verbose := verbose s;
     dry_run := dry_run s;
     category_map := category_map s;
     parameter_map := parameter_map s;
     parameter_templates := parameter_templates s;
     existing_manufacturer_part := existing_manufacturer_part s;
     cfg_max_results := cfg_max_results s;
     cfg_datasheets := cfg_datasheets s;
     repo := repo s;
     writes := writes s;
     faults := faults s;
     keys := keys s;
     typed := typed s;
     console := x;
     aliases := aliases s;
     joined := joined s;
     stocked := stocked s |}.

Definition set_aliases x (s : St) : St :=
  {| lib := lib s;
     interactive := interactive s;
     verbose := verbose s;
     dry_run := dry_run s;
     category_map := category_map s;
     parameter_map := parameter_map s;
     parameter_templates := parameter_templates s;
     existing_manufacturer_part := existing_manufacturer_part s;
     cfg_max_results := cfg_max_results s;
     cfg_datasheets := cfg_datasheets s;
     repo := repo s;
     writes := writes s;
     faults := faults s;
     keys := keys s;
     typed := typed s;
     console := console s;
     aliases := x;
     joined := joined s;
     stocked := stocked s |}.

Definition set_joined x (s : St) : St :=
  {| lib := lib s;
     interactive := interactive s;
     verbose := verbose s;
     dry_run := dry_run s;
     category_map := category_map s;
     parameter_map := parameter_map s;
     parameter_templates := parameter_templates s;
     existing_manufacturer_part := existing_manufacturer_part s;
     cfg_max_results := cfg_max_results s;
     cfg_datasheets := cfg_datasheets s;
     repo := repo s;
     writes := writes s;
     faults := faults s;
     keys := keys s;
     typed := typed s;
     console := console s;
     aliases := aliases s;
     joined := x;
     stocked := stocked s |}.

Definition set_stocked x (s : St) : St :=
  {| lib := lib s;
     interactive := interactive s;
     verbose := verbose s;
     dry_run := dry_run s;
     category_map := category_map s;
     parameter_map := parameter_map s;
     parameter_templates := parameter_templates s;
     existing_manufacturer_part := existing_manufacturer_part s;
     cfg_max_results := cfg_max_results s;
     cfg_datasheets := cfg_datasheets s;
     repo := repo s;
     writes := writes s;
     faults := faults s;
     keys := keys s;
     typed := typed s;
     console := console s;
     aliases := aliases s;
     joined := joined s;
     stocked := x |}.

(** Field updates of the repository. *)
Definition with_parts x (r : Repo) : Repo :=
  {| parts := x;
     companies := companies r;
     manufacturer_parts := manufacturer_parts r;
     supplier_parts := supplier_parts r;
     price_breaks := price_breaks r;
     parameters := parameters r;
     attachments := attachments r;
     next_pk := next_pk r |}.

Definition with_companies x (r : Repo) : Repo :=
  {| parts := parts r;
     companies := x;
     manufacturer_parts := manufacturer_parts r;
     supplier_parts := supplier_parts r;
     price_breaks := price_breaks r;
     parameters := parameters r;
     attachments := attachments r;
     next_pk := next_pk r |}.

Definition with_manufacturer_parts x (r : Repo) : Repo :=
  {| parts := parts r;
     companies := companies r;
     manufacturer_parts := x;
     supplier_parts := supplier_parts r;
     price_breaks := price_breaks r;
     parameters := parameters r;
     attachments := attachments r;
     next_pk := next_pk r |}.

Definition with_supplier_parts x (r : Repo) : Repo :=
  {| parts := parts r;
     companies := companies r;
     manufacturer_parts := manufacturer_parts r;
     supplier_parts := x;
     price_breaks := price_breaks r;
     parameters := parameters r;
     attachments := attachments r;
     next_pk := next_pk r |}.

Definition with_price_breaks x (r : Repo) : Repo :=
  {| parts := parts r;
     companies := companies r;
     manufacturer_parts := manufacturer_parts r;
     supplier_parts := supplier_parts r;
     price_breaks := x;
     parameters := parameters r;
     attachments := attachments r;
     next_pk := next_pk r |}.

Definition with_parameters x (r : Repo) : Repo :=
  {| parts := parts r;
     companies := companies r;
     manufacturer_parts := manufacturer_parts r;
     supplier_parts := supplier_parts r;
     price_breaks := price_breaks r;
     parameters := x;
     attachments := attachments r;
     next_pk := next_pk r |}.

Definition with_attachments x (r : Repo) : Repo :=
  {| parts := parts r;
     companies := companies r;
     manufacturer_parts := manufacturer_parts r;
     supplier_parts := supplier_parts r;
     price_breaks := price_breaks r;
     parameters := parameters r;
     attachments := x;
     next_pk := next_pk r |}.

Definition with_next_pk x (r : Repo) : Repo :=
  {| parts := parts r;
     companies := companies r;
     manufacturer_parts := manufacturer_parts r;
     supplier_parts := supplier_parts r;
     price_breaks := price_breaks r;
     parameters := parameters r;
     attachments := attachments r;
     next_pk := x |}.

(* ===================================================================== *)
(** * Outcomes and sequencing *)
(* ===================================================================== *)

(** The exceptions a method can end in; [import_part] and the pool tasks
    catch [HTTPError] only. *)
Inductive Exception :=
| HTTP (e : HTTPError)
| IndexError
| ValueError
| AttributeError
| KeyError
| TypeError.

Inductive Outcome (A : Type) : Type :=
| Ret (a : A) (s : St)
| Raise (e : Exception) (s : St)
| Blocked (s : St).

Arguments Ret {A} a s.
Arguments Raise {A} e s.
Arguments Blocked {A} s.

Definition M (A : Type) : Type := St -> Outcome A.

Definition ret {A} (a : A) : M A := fun s => Ret a s.

Definition bind {A B} (m : M A) (k : A -> M B) : M B :=
  fun s =>
    match m s with
    | Ret a s' => k a s'
    | Raise e s' => Raise e s'
    | Blocked s' => Blocked s'
    end.

Notation "x <- m ;; k" := (bind m (fun x => k))
  (at level 61, m at next level, right associativity).
Notation "' pat <- m ;; k" := (bind m (fun x => match x with pat => k end))
  (at level 61, pat pattern, m at next level, right associativity).
Notation "m ;; k" := (bind m (fun _ => k))
  (at level 61, right associativity).

(** [try: m except HTTPError as e: h(e)] *)
Definition catch {A} (m : M A) (h : HTTPError -> M A) : M A :=
  fun s =>
    match m s with
    | Raise (HTTP e) s' => h e s'
    | o => o
    end.

Definition raise {A} (e : Exception) : M A := fun s => Raise e s.

Definition gets {A} (f : St -> A) : M A := fun s => Ret (f s) s.

Definition modify (f : St -> St) : M unit := fun s => Ret tt (f s).

(** [for x in l: body(x)] *)
Fixpoint for_each {A} (l : list A) (body : A -> M unit) : M unit :=
  match l with
  | [] => ret tt
  | x :: l' => body x ;; for_each l' body
  end.

(** The state an outcome ends in. *)
Definition final {A} (o : Outcome A) : St :=
  match o with Ret _ s | Raise _ s | Blocked s => s end.

(* ===================================================================== *)
(** * Console and user *)
(* ===================================================================== *)

Definition say (l : Level) (m : Message) : M unit :=
  modify (fun s => set_console ((l, m) :: console s) s).

Definition info := say L_info.
Definition hint := say L_hint.
Definition warning := say L_warning.
Definition error := say L_error.
Definition prompt := say L_prompt.
Definition success := say L_success.
Definition print := say L_print.

(** [cutie.select(choices, ...)]: the index of the choice the user makes
    among [n] choices; [min] keeps a scripted answer inside the list of
    choices. Without a further answer the call does not return. *)
Definition select (n : nat) : M nat :=
  fun s =>
    match keys s with
    | [] => Blocked s
    | k :: ks => Ret (Nat.min k (n - 1)) (set_keys ks s)
    end.

(** Modelled from the spec: [prompt_input(...)] of [error_helper.py],
    the line the user types. *)
Definition prompt_input : M string :=
  fun s =>
    match typed s with
    | [] => Blocked s
    | t :: ts => Ret t (set_typed ts s)
    end.

(* ===================================================================== *)
(** * The repository client *)
(* ===================================================================== *)

(** Modelled from the spec: the client package [inventree] and the module
    [inventree_helpers.py] are not among the sources. The client offers
    "lookup-by-key and create/update operations for Manufacturer,
    ManufacturerPart, Part, SupplierPart, Parameter, PriceBreak"; "each
    entity exposes a stable numeric identifier, and updates are expressed
    as partial-field patches that the collaborator applies server-side";
    "a dry run mode flag disables all mutating calls while still running
    matching logic, returning synthetic zero identifiers where a real
    identifier would otherwise be required".

    A mutating call: in a dry run nothing reaches the repository and
    [dry] is handed back; otherwise the call raises when the next fault
    says so, and else changes the repository and is recorded. *)
Definition mutating {A} (dry : A) (f : Repo -> A * Repo * Write) : M A :=
  fun s =>
    if dry_run s then Ret dry s
    else
      match faults s with
      | Some e :: fs => Raise (HTTP e) (set_faults fs s)
      | fs =>
          let '(a, r, w) := f (repo s) in
          Ret a (set_repo r (set_writes (w :: writes s) (set_faults (tl fs) s)))
      end.

Definition bump (r : Repo) : Repo := with_next_pk (next_pk r + 1) r.

(** Modelled from the spec: [ApiPart.get_part_data()] of
    [suppliers/base.py]. The fields of a part the candidate determines,
    of a manufacturer-part ([get_manufacturer_part_data()]) and of a
    supplier-part ([supplier_part_data] of [import_supplier_part]). *)
Record PartData := { pd_name : string; pd_description : string; pd_link : string }.

Definition get_part_data (a : ApiPart) : PartData :=
  {| pd_name := MPN a; pd_description := description a;
     pd_link := manufacturer_link a |}.

Record SupplierPartData := {
  spd_part : Z;
  spd_manufacturer_part : Z;
  spd_supplier : Z;
  spd_SKU : string;
  spd_link : string;
  spd_packaging : string;
  spd_available : Z
}.

(** Modelled from the spec: the lookups of [inventree_helpers.py],
    "lookup-by-key" by name, MPN and SKU. *)
Definition get_part (mpn : string) : M (option Part) :=
  gets (fun s => find (fun p => String.eqb (part_name p) mpn) (parts (repo s))).

Definition get_manufacturer_part (mpn : string) : M (option ManufacturerPart) :=
  gets (fun s =>
          find (fun m => String.eqb (mp_MPN m) mpn) (manufacturer_parts (repo s))).

Definition get_supplier_part (sku : string) : M (option SupplierPart) :=
  gets (fun s =>
          find (fun p => String.eqb (sp_SKU p) sku) (supplier_parts (repo s))).

(** Modelled from the spec: [Part(api, pk)] and
    [ManufacturerPart(api, pk)] of the client, the entity of that
    identifier; the request fails when there is none. *)
Definition Part_of_pk (pk : Z) : M Part :=
  fun s =>
    match find (fun p => part_pk p =? pk) (parts (repo s)) with
    | Some p => Ret p s
    | None => Raise (HTTP (not_found (lib s))) s
    end.

Definition ManufacturerPart_of_pk (pk : Z) : M ManufacturerPart :=
  fun s =>
    match find (fun m => mp_pk m =? pk) (manufacturer_parts (repo s)) with
    | Some m => Ret m s
    | None => Raise (HTTP (not_found (lib s))) s
    end.

Definition SupplierPriceBreak_list (part : Z) : M (list SupplierPriceBreak) :=
  gets (fun s => filter (fun b => pb_part b =? part) (price_breaks (repo s))).

Definition Parameter_list (part : Z) : M (list PartParameter) :=
  gets (fun s => filter (fun p => param_part p =? part) (parameters (repo s))).

Definition getAttachments (part : Part) : M (list Attachment) :=
  gets (fun s => filter (fun a => att_part a =? part_pk part) (attachments (repo s))).

(** Modelled from the spec: the "create" operations of the client; the
    new entity gets the next "stable numeric identifier". *)
Definition new_part (pk category : Z) (d : PartData) : Part :=
  {| part_pk := pk; part_name := pd_name d; part_description := pd_description d;
     part_link := pd_link d; part_category := category; part_image := "" |}.

Definition Part_create (category : Z) (d : PartData) : M Part :=
  mutating (new_part 0 category d)
    (fun r =>
       let p := new_part (next_pk r) category d in
       (p, bump (with_parts (parts r ++ [p]) r), W_create "part" (next_pk r))).

Definition new_manufacturer_part (pk part manufacturer : Z) (a : ApiPart)
  : ManufacturerPart :=
  {| mp_pk := pk; mp_part := part; mp_manufacturer := manufacturer;
     mp_MPN := MPN a; mp_description := description a;
     mp_link := manufacturer_link a |}.

Definition ManufacturerPart_create (part manufacturer : Z) (a : ApiPart)
  : M ManufacturerPart :=
  mutating (new_manufacturer_part 0 part manufacturer a)
    (fun r =>
       let m := new_manufacturer_part (next_pk r) part manufacturer a in
       (m, bump (with_manufacturer_parts (manufacturer_parts r ++ [m]) r),
        W_create "manufacturer part" (next_pk r))).

(** Modelled from the spec: [create_manufacturer(api, name)] of
    [inventree_helpers.py], the manufacturer of that name, made when there
    is none. *)
Definition create_manufacturer (name : string) : M Company :=
  found <- gets (fun s =>
                   find (fun c => String.eqb (company_name c) name)
                        (companies (repo s))) ;;
  match found with
  | Some c => ret c
  | None =>
      mutating {| company_pk := 0; company_name := name |}
        (fun r =>
           let c := {| company_pk := next_pk r; company_name := name |} in
           (c, bump (with_companies (companies r ++ [c]) r),
            W_create "company" (next_pk r)))
  end.

Definition new_supplier_part (pk : Z) (d : SupplierPartData) : SupplierPart :=
  {| sp_pk := pk; sp_part := spd_part d;
     sp_manufacturer_part := Some (spd_manufacturer_part d);
     sp_supplier := spd_supplier d; sp_SKU := spd_SKU d; sp_link := spd_link d;
     sp_packaging := spd_packaging d; sp_available := spd_available d |}.

Definition SupplierPart_create (d : SupplierPartData) : M SupplierPart :=
  mutating (new_supplier_part 0 d)
    (fun r =>
       let p := new_supplier_part (next_pk r) d in
       (p, bump (with_supplier_parts (supplier_parts r ++ [p]) r),
        W_create "supplier part" (next_pk r))).

Definition SupplierPriceBreak_create (part quantity : Z) (price : Q) (cur : string)
  : M unit :=
  mutating tt
    (fun r =>
       let b := {| pb_pk := next_pk r; pb_part := part; pb_quantity := quantity;
                   pb_price := price; pb_currency := cur |} in
       (tt, bump (with_price_breaks (price_breaks r ++ [b]) r),
        W_create "price break" (next_pk r))).

Definition Parameter_create (part : Z) (t : ParameterTemplate) (data : string)
  : M unit :=
  mutating tt
    (fun r =>
       let p := {| param_pk := next_pk r; param_part := part;
                   param_template := tpl_pk t; param_name := tpl_name t;
                   param_data := data |} in
       (tt, bump (with_parameters (parameters r ++ [p]) r),
        W_create "parameter" (next_pk r))).

(** [add_stock(api, location, part, amount)] of [inventree_helpers.py]
    is not among the sources, and the specification has no word on
    stock: the model records the call with its arguments, and nothing of
    what the helper does with them. *)
Definition add_stock (location part amount : Z) : M unit :=
  modify (fun s => set_stocked ((location, part, amount) :: stocked s) s).

(** Modelled from the spec: "updates are expressed as partial-field
    patches"; [save(data)] rewrites the fields of [data] in the entity of
    that identifier. *)
Definition patch {A} (pk_of : A -> Z) (pk : Z) (f : A -> A) (l : list A) : list A :=
  map (fun x => if pk_of x =? pk then f x else x) l.

Definition price_break_save (b : SupplierPriceBreak) (price : Q) (cur : string)
  : M unit :=
  mutating tt
    (fun r =>
       let f x := {| pb_pk := pb_pk x; pb_part := pb_part x;
                     pb_quantity := pb_quantity x; pb_price := price;
                     pb_currency := cur |} in
       (tt, with_price_breaks (patch pb_pk (pb_pk b) f (price_breaks r)) r,
        W_save "price break" (pb_pk b))).

Definition parameter_save (p : PartParameter) (data : string) : M unit :=
  mutating tt
    (fun r =>
       let f x := {| param_pk := param_pk x; param_part := param_part x;
                     param_template := param_template x;
                     param_name := param_name x; param_data := data |} in
       (tt, with_parameters (patch param_pk (param_pk p) f (parameters r)) r,
        W_save "parameter" (param_pk p))).

(** Modelled from the spec: [update_object_data(obj, data, label)] of
    [inventree_helpers.py]. Nothing is sent when the entity already has
    the data; else the patch is announced under its
    label, when it has one, and saved. The three uses of the importer
    follow. *)
Definition set_part_data (d : PartData) (p : Part) : Part :=
  {| part_pk := part_pk p; part_name := pd_name d;
     part_description := pd_description d; part_link := pd_link d;
     part_category := part_category p; part_image := part_image p |}.

Definition update_part_data (p : Part) (d : PartData) (label : string) : M Part :=
  if String.eqb (part_name p) (pd_name d)
     && String.eqb (part_description p) (pd_description d)
     && String.eqb (part_link p) (pd_link d)
  then ret p
  else
    info (Msg_updating label) ;;
    mutating p
      (fun r =>
         (set_part_data d p,
          with_parts (patch part_pk (part_pk p) (set_part_data d) (parts r)) r,
          W_save "part" (part_pk p))).

Definition set_mp_part (part : Z) (m : ManufacturerPart) : ManufacturerPart :=
  {| mp_pk := mp_pk m; mp_part := part; mp_manufacturer := mp_manufacturer m;
     mp_MPN := mp_MPN m; mp_description := mp_description m; mp_link := mp_link m |}.

Definition update_manufacturer_part_part (m : ManufacturerPart) (part : Z)
  : M ManufacturerPart :=
  if mp_part m =? part then ret m
  else
    mutating m
      (fun r =>
         (set_mp_part part m,
          with_manufacturer_parts
            (patch mp_pk (mp_pk m) (set_mp_part part) (manufacturer_parts r)) r,
          W_save "manufacturer part" (mp_pk m))).

Definition set_supplier_part_data (d : SupplierPartData) (p : SupplierPart)
  : SupplierPart := new_supplier_part (sp_pk p) d.

Definition option_Z_eqb (a b : option Z) : bool :=
  match a, b with
  | Some x, Some y => x =? y
  | None, None => true
  | _, _ => false
  end.

Definition update_supplier_part_data (p : SupplierPart) (d : SupplierPartData)
  (label : string) : M SupplierPart :=
  if (sp_part p =? spd_part d)
     && option_Z_eqb (sp_manufacturer_part p) (Some (spd_manufacturer_part d))
     && (sp_supplier p =? spd_supplier d)
     && String.eqb (sp_SKU p) (spd_SKU d)
     && String.eqb (sp_link p) (spd_link d)
     && String.eqb (sp_packaging p) (spd_packaging d)
     && (sp_available p =? spd_available d)
  then ret p
  else
    info (Msg_updating label) ;;
    mutating p
      (fun r =>
         (set_supplier_part_data d p,
          with_supplier_parts
            (patch sp_pk (sp_pk p) (set_supplier_part_data d) (supplier_parts r)) r,
          W_save "supplier part" (sp_pk p))).

(** Modelled from the spec: [upload_image] and [upload_datasheet] of
    [inventree_helpers.py], and [part.addLinkAttachment] of the client. *)
Definition set_part_image (url : string) (p : Part) : Part :=
  {| part_pk := part_pk p; part_name := part_name p;
     part_description := part_description p; part_link := part_link p;
     part_category := part_category p; part_image := url |}.

Definition upload_image (p : Part) (url : string) : M unit :=
  mutating tt
    (fun r =>
       (tt, with_parts (patch part_pk (part_pk p) (set_part_image url) (parts r)) r,
        W_upload "image" (part_pk p))).

Definition add_attachment (p : Part) (link : string) : M unit :=
  mutating tt
    (fun r =>
       let a := {| att_part := part_pk p; att_comment := "datasheet";
                   att_link := link |} in
       (tt, with_attachments (attachments r ++ [a]) r,
        W_upload "datasheet" (part_pk p))).

Definition upload_datasheet (p : Part) (url : string) : M unit :=
  add_attachment p url.

Definition addLinkAttachment (p : Part) (link : string) : M unit :=
  add_attachment p link.

(** Modelled from the spec: [Category.add_alias] and the [add_alias] of
    a configured parameter, of [categories.py]; they extend the
    configuration, not the repository. *)
Definition add_alias (name alias : string) : M unit :=
  modify (fun s => set_aliases ((name, alias) :: aliases s) s).

(* ===================================================================== *)
(** * PartImporter *)
(* ===================================================================== *)

(** [self.part_category_to_category] and [self.categories], which
    [__init__] derives from [self.category_map]. *)
Definition part_category_to_category (s : St) : list (Z * Category) :=
  Dict.of_items
    (map (fun c => (pc_pk (part_category_of c), c)) (Dict.values (category_map s))).

Definition Category_eqb (a b : Category) : bool :=
  String.eqb (cat_name a) (cat_name b)
  && (pc_pk (part_category_of a) =? pc_pk (part_category_of b)).

Fixpoint unique {A} (eqb : A -> A -> bool) (l : list A) : list A :=
  match l with
  | [] => []
  | x :: l' => x :: filter (fun y => negb (eqb x y)) (unique eqb l')
  end.

Definition categories (s : St) : list Category :=
  unique Category_eqb (Dict.values (category_map s)).

(** [select_api_part], part_importer.py:119-138: the choices are the
    candidates and "Skip ...". *)
Definition select_api_part (api_parts : list ApiPart) : M (option ApiPart) :=
  match api_parts with
  | [] => raise ValueError
  | _ :: _ =>
      index <- select (List.length api_parts + 1) ;;
      ret (nth index (map Some api_parts ++ [None]) None)
  end.

(** [add_or_update_stock], part_importer.py:140-142. *)
Definition add_or_update_stock (part_id stock_location_id amount : Z) : M unit :=
  add_stock stock_location_id part_id amount.

(** [sorted(l, key=key, reverse=True)]: descending and stable. *)
Fixpoint insert_desc {A} (key : A -> Z) (x : A) (l : list A) : list A :=
  match l with
  | [] => [x]
  | y :: l' => if key y <=? key x then x :: l else y :: insert_desc key x l'
  end.

Definition sorted_desc {A} (key : A -> Z) (l : list A) : list A :=
  fold_right (insert_desc key) [] l.

(** [max(...)] of a non-empty sequence of numbers. *)
Definition maximum (x : Z) (l : list Z) : Z := fold_left Z.max l x.

(** [l[-2:]] and [" ".join(l)]. *)
Definition last_two {A} (l : list A) : list A := skipn (List.length l - 2) l.

Definition join (sep : string) (l : list string) : string := String.concat sep l.

(** The loop [while True] of [select_category], part_importer.py:281-292.
    Every round takes one answer of the user, so a round count above the
    number of answers left is never used up. *)
Fixpoint select_category_loop (rounds : nat) (category_matches : list Category)
  (N_MATCHES : nat) : M (option Category) :=
  match rounds with
  | O => fun s => Blocked s
  | S rounds' =>
      index <- select (N_MATCHES + 2) ;;
      if (index =? N_MATCHES + 1)%nat then ret None
      else if (index <? N_MATCHES)%nat
      then ret (nth_error category_matches index)
      else
        name <- prompt_input ;;
        cmap <- gets category_map ;;
        match Dict.get cmap name with
        | Some category =>
            if String.eqb (cat_name category) name then ret (Some category)
            else
              warning (Msg_no_such_category name) ;;
              prompt Msg_select_category_again ;;
              select_category_loop rounds' category_matches N_MATCHES
        | None =>
            warning (Msg_no_such_category name) ;;
            prompt Msg_select_category_again ;;
            select_category_loop rounds' category_matches N_MATCHES
        end
  end.

(** [select_category], part_importer.py:264-292. *)
Definition select_category (category_path : list string) : M (option Category) :=
  match rev category_path with
  | [] => raise IndexError
  | leaf :: _ =>
      let search_terms := [leaf; join " " (last_two category_path)] in
      l <- gets lib ;;
      let rate_category category :=
        match
          flat_map (fun name => map (fun term => ratio l term name) search_terms)
                   [cat_name category; join " " (last_two (cat_path category))]
        with
        | [] => 0
        | x :: xs => maximum x xs
        end in
      cats <- gets categories ;;
      let category_matches := sorted_desc rate_category cats in
      let N_MATCHES := Nat.min 5 (List.length category_matches) in
      rounds <- gets (fun s => S (List.length (keys s))) ;;
      select_category_loop rounds category_matches N_MATCHES
  end.

(** The loop of [create_manufacturer_part], part_importer.py:237-239, over
    [reversed(api_part.category_path)]. *)
Fixpoint first_category (cmap : list (string * Category)) (segments : list string)
  : option Category :=
  match segments with
  | [] => None
  | subcategory :: rest =>
      match Dict.get cmap subcategory with
      | Some category => Some category
      | None => first_category cmap rest
      end
  end.

(** The end of [create_manufacturer_part], part_importer.py:254-262, with
    the part the manufacturer-part is made for. *)
Definition make_manufacturer_part (api_part : ApiPart) (p : Part)
  : M (ImportResult + ManufacturerPart * Part) :=
  manufacturer_ <- create_manufacturer (manufacturer api_part) ;;
  info (Msg_creating_manufacturer_part (MPN api_part)) ;;
  manufacturer_part <-
    ManufacturerPart_create (part_pk p) (company_pk manufacturer_) api_part ;;
  ret (inr (manufacturer_part, p)).

(** Lines 251-252 of [create_manufacturer_part] and its end: the part is
    made in [category]. *)
Definition create_in_category (api_part : ApiPart) (category : Category)
  : M (ImportResult + ManufacturerPart * Part) :=
  info (Msg_creating_part (MPN api_part)
          (pathstring (part_category_of category))) ;;
  p <- Part_create (pc_pk (part_category_of category)) (get_part_data api_part) ;;
  make_manufacturer_part api_part p.

(** [create_manufacturer_part], part_importer.py:228-262; the result is an
    [ImportResult] or the pair [(manufacturer_part, part)]. *)
Definition create_manufacturer_part (api_part : ApiPart) (part : option Part)
  : M (ImportResult + ManufacturerPart * Part) :=
  let part_data := get_part_data api_part in
  found <- match part with
           | Some p => ret (Some p)
           | None => get_part (MPN api_part)
           end ;;
  match found with
  | Some p =>
      p' <- update_part_data p part_data ("part " ++ MPN api_part) ;;
      make_manufacturer_part api_part p'
  | None =>
      cmap <- gets category_map ;;
      match first_category cmap (rev (category_path api_part)) with
      | Some category => create_in_category api_part category
      | None =>
          is_interactive <- gets interactive ;;
          if negb is_interactive
          then error (Msg_category_unmatched (category_path api_part)) ;;
               ret (inl FAILURE)
          else
            prompt (Msg_select_category (category_path api_part)) ;;
            selected <- select_category (category_path api_part) ;;
            match selected with
            | None => ret (inl FAILURE)
            | Some category =>
                add_alias (cat_name category)
                          (last (category_path api_part) "") ;;
                create_in_category api_part category
            end
      end
  end.

(** The loop of [setup_price_breaks], part_importer.py:301-314, with
    [updated_pricing] as its result. *)
Fixpoint price_break_loop (existing : list (Z * SupplierPriceBreak))
  (supplier_part : SupplierPart) (api_part : ApiPart)
  (items : list (Z * Q)) (updated_pricing : bool) : M bool :=
  match items with
  | [] => ret updated_pricing
  | (quantity, price) :: rest =>
      match Dict.get existing quantity with
      | Some price_break =>
          if Qeq_bool price (pb_price price_break)
          then price_break_loop existing supplier_part api_part rest updated_pricing
          else
            price_break_save price_break price (currency api_part) ;;
            price_break_loop existing supplier_part api_part rest true
      | None =>
          SupplierPriceBreak_create (sp_pk supplier_part) quantity price
                                    (currency api_part) ;;
          price_break_loop existing supplier_part api_part rest true
      end
  end.

(** [setup_price_breaks], part_importer.py:294-317. Prices are rationals:
    [float(price_break.price)] is the stored number and [==] is equality
    of numbers. *)
Definition setup_price_breaks (supplier_part : SupplierPart) (api_part : ApiPart)
  : M unit :=
  listed <- SupplierPriceBreak_list (sp_pk supplier_part) ;;
  let existing := Dict.of_items (map (fun b => (pb_quantity b, b)) listed) in
  updated_pricing <-
    price_break_loop existing supplier_part api_part (api_price_breaks api_part)
                     false ;;
  if updated_pricing then info Msg_updating_price_breaks else ret tt.

(** [select_parameter], part_importer.py:413-439: the alias and the value
    chosen, [None, None] for "Skip ...". *)
Definition select_parameter (parameter_name : string)
  (parameters_ : list (string * string)) : M (option string * option string) :=
  let N_MATCHES := Nat.min 20 (List.length parameters_) in
  l <- gets lib ;;
  let key (item : string * string) :=
    maximum (partial_ratio l parameter_name (fst item))
            [partial_ratio l parameter_name (snd item)] in
  let parameter_matches_items := sorted_desc key parameters_ in
  match firstn N_MATCHES parameter_matches_items with
  | [] => raise ValueError
  | _ :: _ =>
      index <- select (N_MATCHES + 2) ;;
      if (index =? N_MATCHES + 1)%nat then ret (None, None)
      else if (index <? N_MATCHES)%nat
      then
        match nth_error parameter_matches_items index with
        | Some (name, value_) => ret (Some name, Some value_)
        | None => raise IndexError
        end
      else
        value_ <- prompt_input ;;
        ret (None, Some value_)
  end.

(** [e.args[0]["body"]], part_importer.py:449 and 456: an empty tuple
    has no first element, a text is not indexed by a string, and a
    dictionary without the key raises [KeyError]. *)
Definition body_of (e : HTTPError) : M string :=
  match e with
  | Args_empty => raise IndexError
  | Args_text _ => raise TypeError
  | Args_dict None => raise KeyError
  | Args_dict (Some body) => ret body
  end.

(** [create_parameter] and [update_parameter], part_importer.py:441-457:
    the warning text when the request fails, else [None]. The handler of
    [update_parameter] reads [parameter.name] after the body. *)
Definition create_parameter (part : Part) (parameter_template : ParameterTemplate)
  (value_ : string) : M (option Message) :=
  catch (Parameter_create (part_pk part) parameter_template value_ ;; ret None)
        (fun e =>
           msg <- body_of e ;;
           ret (Some (Msg_create_failed (tpl_name parameter_template) msg))).

Definition update_parameter (parameter : PartParameter) (value_ : string)
  : M (option Message) :=
  catch (parameter_save parameter value_ ;; ret None)
        (fun e =>
           msg <- body_of e ;;
           l <- gets lib ;;
           match parameter_name l parameter with
           | Some name => ret (Some (Msg_update_failed name value_ msg))
           | None => raise AttributeError
           end).

(** A task of the pool: [thread_pool.apply_async(task, ...)] keeps what
    the task returns or the exception it raises, and [result.get()] hands
    the one back or raises the other. *)
Inductive TaskResult :=
| Returned (warning_str : option Message)
| Failed (e : Exception).

Definition apply_async (task : M (option Message)) : M TaskResult :=
  fun s =>
    match task s with
    | Ret warning_str s' => Ret (Returned warning_str) s'
    | Raise e s' => Ret (Failed e) s'
    | Blocked s' => Blocked s'
    end.

Definition result_get (result : TaskResult) : M (option Message) :=
  match result with
  | Returned warning_str => ret warning_str
  | Failed e => raise e
  end.

(** The matching loop of [setup_parameters], part_importer.py:339-344. *)
Definition match_parameters (pmap : list (string * list ParameterConf))
  (category : Category) (parameters_ : list (string * string))
  : list (string * string) :=
  fold_left
    (fun matched (item : string * string) =>
       fold_left
         (fun matched parameter =>
            let name := conf_name parameter in
            if mem name (cat_parameters category) && negb (Dict.mem matched name)
            then Dict.set matched name (snd item)
            else matched)
         (match Dict.get pmap (fst item) with Some l => l | None => [] end)
         matched)
    parameters_ [].

(** [set.remove] *)
Definition remove_name (name : string) (l : list string) : list string :=
  filter (fun x => negb (String.eqb x name)) l.

(** The interactive loop of [setup_parameters], part_importer.py:353-373,
    over a copy of the unassigned names; it gives [matched_parameters]
    and [unassigned_parameters]. *)
Fixpoint resolve_parameters (names : list string) (api_part : ApiPart)
  (matched : list (string * string)) (unassigned : list string)
  : M (list (string * string) * list string) :=
  match names with
  | [] => ret (matched, unassigned)
  | parameter_name :: rest =>
      prompt (Msg_select_value parameter_name) ;;
      ' (alias, value_) <- select_parameter parameter_name (api_parameters api_part) ;;
      match value_ with
      | None => resolve_parameters rest api_part matched unassigned
      | Some v =>
          let matched := Dict.set matched parameter_name v in
          let unassigned := remove_name parameter_name unassigned in
          match alias with
          | None => resolve_parameters rest api_part matched unassigned
          | Some alias =>
              if negb (Str.truthy alias)
              then resolve_parameters rest api_part matched unassigned
              else
                pmap <- gets parameter_map ;;
                match Dict.get pmap parameter_name with
                | Some [parameter] =>
                    add_alias (conf_name parameter) alias ;;
                    modify (fun s =>
                              let pmap := parameter_map s in
                              let existing :=
                                match Dict.get pmap alias with
                                | Some l => l
                                | None => []
                                end in
                              set_parameter_map
                                (Dict.set pmap alias (existing ++ [parameter])%list) s) ;;
                    resolve_parameters rest api_part matched unassigned
                | _ =>
                    warning (Msg_alias_failed alias parameter_name) ;;
                    resolve_parameters rest api_part matched unassigned
                end
          end
      end
  end.

(** The loop over [matched_parameters], part_importer.py:377-393. A task
    given to the pool runs when it is submitted; [async_results] holds
    the results of the tasks, in the order of submission. *)
Fixpoint apply_parameters (items : list (string * string)) (part : Part)
  (existing_parameters : list (string * PartParameter)) (update_existing : bool)
  (async_results : list TaskResult) (import_result : ImportResult)
  : M (list TaskResult * ImportResult) :=
  match items with
  | [] => ret (async_results, import_result)
  | (name, value_) :: rest =>
      let value_ := sanitize_parameter_value value_ in
      if negb (Str.truthy value_)
      then apply_parameters rest part existing_parameters update_existing
                            async_results import_result
      else
        match Dict.get existing_parameters name with
        | Some existing_parameter =>
            if update_existing
               && negb (String.eqb (param_data existing_parameter) value_)
            then
              r <- apply_async (update_parameter existing_parameter value_) ;;
              apply_parameters rest part existing_parameters update_existing
                               (async_results ++ [r])%list import_result
            else
              apply_parameters rest part existing_parameters update_existing
                               async_results import_result
        | None =>
            templates <- gets parameter_templates ;;
            match Dict.get templates name with
            | Some parameter_template =>
                r <- apply_async (create_parameter part parameter_template value_) ;;
                apply_parameters rest part existing_parameters update_existing
                                 (async_results ++ [r])%list import_result
            | None =>
                dry <- gets dry_run ;;
                if negb dry
                then
                  warning (Msg_no_template name) ;;
                  apply_parameters rest part existing_parameters update_existing
                                   async_results (import_result |r INCOMPLETE)
                else
                  apply_parameters rest part existing_parameters update_existing
                                   async_results import_result
            end
        end
  end.

(** The loop over [async_results], part_importer.py:398-401. *)
Fixpoint collect_results (async_results : list TaskResult)
  (import_result : ImportResult) : M ImportResult :=
  match async_results with
  | [] => ret import_result
  | result :: rest =>
      answer <- result_get result ;;
      match answer with
      | Some warning_str =>
          warning warning_str ;;
          collect_results rest (import_result |r INCOMPLETE)
      | None => collect_results rest import_result
      end
  end.

(** The lines 351-373 of [setup_parameters]: the user is asked when
    there are unassigned names and the importer is interactive. *)
Definition ask_parameters (api_part : ApiPart)
  (matched_parameters : list (string * string))
  (unassigned_parameters : list string) (is_interactive : bool)
  : M (list (string * string) * list string) :=
  if negb (is_nil unassigned_parameters) && is_interactive
  then
    prompt (Msg_unmatched_prompt (supplier_link api_part)) ;;
    resolve_parameters unassigned_parameters api_part
                       matched_parameters unassigned_parameters
  else ret (matched_parameters, unassigned_parameters).

(** The second half of [setup_parameters], part_importer.py:351-411, from
    the dictionaries and sets the first half computes. *)
Definition finish_parameters (part : Part) (api_part : ApiPart)
  (update_existing : bool) (existing_parameters : list (string * PartParameter))
  (matched_parameters : list (string * string))
  (unassigned_parameters : list string) (is_interactive : bool)
  : M ImportResult :=
  let import_result := SUCCESS in
  ' (matched_parameters, unassigned_parameters) <-
    ask_parameters api_part matched_parameters unassigned_parameters
                   is_interactive ;;
  ' (async_results, import_result) <-
    apply_parameters matched_parameters part existing_parameters
                     update_existing [] import_result ;;
  (if negb (is_nil async_results) then info Msg_updating_parameters
   else ret tt) ;;
  import_result <- collect_results async_results import_result ;;
  if negb (is_nil unassigned_parameters)
  then
    warning (Msg_unmatched_parameters unassigned_parameters) ;;
    ret (import_result |r INCOMPLETE)
  else ret import_result.

(** [setup_parameters], part_importer.py:319-411. *)
Definition setup_parameters (part : option Part) (api_part : ApiPart)
  (update_existing : bool) : M ImportResult :=
  let import_result := SUCCESS in
  dry <- gets dry_run ;;
  match part with
  | None => if dry then ret import_result else raise AttributeError
  | Some part =>
      by_pk <- gets part_category_to_category ;;
      match Dict.get by_pk (part_category part) with
      | None =>
          error (Msg_category_undefined (part_category part)) ;;
          ret FAILURE
      | Some category =>
          listed <- Parameter_list (part_pk part) ;;
          let existing_parameters :=
            Dict.of_items (map (fun p => (param_name p, p)) listed) in
          print Msg_available_parameters ;;
          for_each (api_parameters api_part)
                   (fun item => print (Msg_parameter (fst item) (snd item))) ;;
          pmap <- gets parameter_map ;;
          let matched_parameters :=
            match_parameters pmap category (api_parameters api_part) in
          let already_set_parameters :=
            map fst (filter (fun item => Str.truthy (param_data (snd item)))
                            existing_parameters) in
          let unassigned_parameters :=
            difference
              (difference (dedup (cat_parameters category))
                          (Dict.keys matched_parameters))
              already_set_parameters in
          is_interactive <- gets interactive ;;
          finish_parameters part api_part update_existing existing_parameters
                            matched_parameters unassigned_parameters
                            is_interactive
      end
  end.

(** The choice of the manufacturer-part in [import_supplier_part],
    part_importer.py:152-164: the result to return at once, or the
    manufacturer-part with the part known so far. *)
Definition choose_manufacturer_part (supplier_part : option SupplierPart)
  (api_part : ApiPart) (part : option Part)
  : M (ImportResult + ManufacturerPart * option Part) :=
  match
    match supplier_part with
    | Some sp => sp_manufacturer_part sp
    | None => None
    end
  with
  | Some linked =>
      manufacturer_part <- ManufacturerPart_of_pk linked ;;
      ret (inr (manufacturer_part, part))
  | None =>
      by_mpn <- get_manufacturer_part (MPN api_part) ;;
      match by_mpn with
      | Some manufacturer_part => ret (inr (manufacturer_part, part))
      | None =>
          existing <- gets existing_manufacturer_part ;;
          match existing with
          | Some manufacturer_part => ret (inr (manufacturer_part, part))
          | None =>
              if negb (finalize api_part) then ret (inl FAILURE)
              else
                result <- create_manufacturer_part api_part part ;;
                match result with
                | inl r => ret (inl r)
                | inr (manufacturer_part, part) =>
                    ret (inr (manufacturer_part, Some part))
                end
          end
      end
  end.

(** Truth value of [update_stock_location]. *)
Definition truthy_Z (o : option Z) : bool :=
  match o with Some z => negb (z =? 0) | None => false end.

(** The block under [if not self.dry_run], part_importer.py:170-195: the
    result to return at once, or the part. *)
Definition sync_part (api_part : ApiPart) (manufacturer_part : ManufacturerPart)
  (part : option Part) (update_part : bool) : M (ImportResult + Part) :=
  part <- match part with
          | None => Part_of_pk (mp_part manufacturer_part)
          | Some p =>
              (if negb (part_pk p =? mp_part manufacturer_part)
               then update_manufacturer_part_part manufacturer_part (part_pk p) ;;
                    ret tt
               else ret tt) ;;
              ret p
          end ;;
  if update_part && negb (finalize api_part) then ret (inl FAILURE)
  else
    part <- (if update_part
             then update_part_data part (get_part_data api_part)
                                   ("part " ++ MPN api_part)
             else ret part) ;;
    (if negb (Str.truthy (part_image part)) && Str.truthy (image_url api_part)
     then upload_image part (image_url api_part)
     else ret tt) ;;
    listed <- getAttachments part ;;
    let attachment_types := map att_comment listed in
    (if negb (mem "datasheet" attachment_types)
        && Str.truthy (datasheet_url api_part)
     then
       mode <- gets cfg_datasheets ;;
       match mode with
       | DS_upload => upload_datasheet part (datasheet_url api_part)
       | DS_link =>
           l <- gets lib ;;
           let datasheet_url_safe := quote l (datasheet_url api_part) in
           addLinkAttachment part (substring 0 200 datasheet_url_safe)
       | DS_off => ret tt
       | DS_invalid invalid_mode => warning (Msg_invalid_datasheets invalid_mode)
       end
     else ret tt) ;;
    ret (inr part).

(** The end of [import_supplier_part], part_importer.py:201-226, from the
    manufacturer-part and the result so far. *)
Definition store_supplier_part (supplier : Company) (api_part : ApiPart)
  (supplier_part : option SupplierPart) (manufacturer_part : ManufacturerPart)
  (part : option Part) (update_stock_location : option Z)
  (update_stock_amount : Z) (import_result : ImportResult) : M ImportResult :=
  modify (set_existing_manufacturer_part (Some manufacturer_part)) ;;
  dry <- gets dry_run ;;
  part_id <- (if dry then ret 0
              else match part with
                   | Some p => ret (part_pk p)
                   | None => raise AttributeError
                   end) ;;
  let supplier_part_data :=
    {| spd_part := part_id;
       spd_manufacturer_part := mp_pk manufacturer_part;
       spd_supplier := company_pk supplier;
       spd_SKU := SKU api_part;
       spd_link := supplier_link api_part;
       spd_packaging := packaging api_part;
       spd_available := quantity_available api_part |} in
  supplier_part' <-
    match supplier_part with
    | Some sp =>
        update_supplier_part_data sp supplier_part_data
                                  (company_name supplier ++ " part")
    | None => SupplierPart_create supplier_part_data
    end ;;
  setup_price_breaks supplier_part' api_part ;;
  success (Msg_supplier_part_done (is_some supplier_part)
             (company_name supplier) (sp_SKU supplier_part')) ;;
  (if truthy_Z update_stock_location
   then add_or_update_stock part_id
          (match update_stock_location with Some z => z | None => 0 end)
          update_stock_amount
   else ret tt) ;;
  ret import_result.

(** [import_supplier_part] from line 166 on, with the manufacturer-part
    chosen. *)
Definition finish_supplier_part (supplier : Company) (api_part : ApiPart)
  (supplier_part : option SupplierPart) (manufacturer_part : ManufacturerPart)
  (part : option Part) (update_stock_location : option Z)
  (update_stock_amount : Z) : M ImportResult :=
  let import_result := SUCCESS in
  existing <- gets existing_manufacturer_part ;;
  let update_part :=
    match existing with
    | None => true
    | Some e => negb (mp_pk e =? mp_pk manufacturer_part)
    end in
  dry <- gets dry_run ;;
  synced <- (if negb dry
             then
               r <- sync_part api_part manufacturer_part part update_part ;;
               match r with
               | inl result => ret (inl result)
               | inr p => ret (inr (Some p))
               end
             else ret (inr part)) ;;
  match synced with
  | inl result => ret result
  | inr part =>
      import_result <-
        (if negb (is_nil (api_parameters api_part))
         then
           result <- setup_parameters part api_part update_part ;;
           ret (import_result |r result)
         else ret import_result) ;;
      store_supplier_part supplier api_part supplier_part manufacturer_part part
                          update_stock_location update_stock_amount import_result
  end.

(** [import_supplier_part], part_importer.py:144-226. *)
Definition import_supplier_part (supplier : Company) (api_part : ApiPart)
  (part : option Part) (update_stock_location : option Z)
  (update_stock_amount : Z) : M ImportResult :=
  supplier_part <- get_supplier_part (SKU api_part) ;;
  match supplier_part with
  | Some sp => info (Msg_found_existing (company_name supplier) (sp_SKU sp))
  | None => info (Msg_importing (company_name supplier) (SKU api_part))
  end ;;
  chosen <- choose_manufacturer_part supplier_part api_part part ;;
  match chosen with
  | inl result => ret result
  | inr (manufacturer_part, part) =>
      finish_supplier_part supplier api_part supplier_part manufacturer_part part
                           update_stock_location update_stock_amount
  end.

(** [AsyncResult.wait()] and [AsyncResult.get()]. *)
Definition wait (a : AsyncResult) : M unit :=
  modify (fun s => set_joined (handle a :: joined s) s).

Definition get (a : AsyncResult) : M (list ApiPart * Z) :=
  wait a ;; ret (search_result a).

(** [error_str] of the handler of [import_part], part_importer.py:94-101:
    the entries of the body when the error carries a dictionary with a
    body that is true and is a JSON object, and 'unknown HTTPError'
    ([None]) when it is not JSON or there is none; only [JSONDecodeError]
    is caught, so [.items()] of another JSON value ends the handler in
    [AttributeError]. *)
Definition error_str (e : HTTPError) : M (option (list (string * string))) :=
  match e with
  | Args_dict (Some body) =>
      if Str.truthy body
      then
        l <- gets lib ;;
        match json_loads l body with
        | Json_object items => ret (Some items)
        | Json_invalid => ret None
        | Json_other => raise AttributeError
        end
      else ret None
  | _ => ret None
  end.

(** What [import_part] does with the candidate it selected,
    part_importer.py:89-111, before it goes on with [continue_]. *)
Definition import_selected (search_results : list (Company * AsyncResult))
  (supplier : Company) (api_part : ApiPart) (existing_part : option Part)
  (update_stock_location : option Z) (update_stock_amount : Z)
  (import_result : ImportResult) (continue_ : ImportResult -> M ImportResult)
  : M ImportResult :=
  import_result <-
    catch (result <- import_supplier_part supplier api_part existing_part
                       update_stock_location update_stock_amount ;;
           ret (import_result |r result))
          (fun e =>
             detail <- error_str e ;;
             error (Msg_failed_to_import detail) ;;
             is_verbose <- gets verbose ;;
             (if is_verbose then error Msg_traceback else ret tt) ;;
             ret ERROR) ;;
  if ImportResult_eqb import_result ERROR
  then
    for_each search_results (fun other => wait (snd other)) ;;
    ret ERROR
  else continue_ import_result.

(** The loop of [import_part] over [search_results], part_importer.py:66-111,
    and the lines behind it, 113-116. *)
Fixpoint import_part_loop (search_results rest : list (Company * AsyncResult))
  (existing_part : option Part) (update_stock_location : option Z)
  (update_stock_amount : Z) (import_result : ImportResult) : M ImportResult :=
  match rest with
  | [] =>
      existing <- gets existing_manufacturer_part ;;
      ret (if is_some existing then import_result else import_result |r FAILURE)
  | (supplier, async_results) :: rest' =>
      let continue_ :=
        import_part_loop search_results rest' existing_part
                         update_stock_location update_stock_amount in
      info (Msg_searching_at (company_name supplier)) ;;
      ' (results, result_count) <- get async_results ;;
      match results with
      | [] =>
          hint (Msg_no_results (company_name supplier)) ;;
          continue_ import_result
      | [api_part] =>
          import_selected search_results supplier api_part existing_part
            update_stock_location update_stock_amount import_result continue_
      | _ :: _ :: _ =>
          is_interactive <- gets interactive ;;
          if is_interactive
          then
            prompt (Msg_select_part (company_name supplier)) ;;
            max_results <- gets cfg_max_results ;;
            let results := firstn (Pos.to_nat max_results) results in
            (if result_count >? Z.of_nat (List.length results)
             then hint (Msg_only_showing result_count (List.length results))
             else ret tt) ;;
            selected <- select_api_part results ;;
            match selected with
            | None => continue_ (import_result |r INCOMPLETE)
            | Some api_part =>
                import_selected search_results supplier api_part existing_part
                  update_stock_location update_stock_amount import_result
                  continue_
            end
          else
            warning (Msg_skipping_import result_count (company_name supplier)) ;;
            continue_ (import_result |r INCOMPLETE)
      end
  end.

(** [import_part], part_importer.py:52-116. *)
Definition import_part (search_term : string) (existing_part : option Part)
  (supplier_id : option string) (only_supplier : bool)
  (update_stock_location : option Z) (update_stock_amount : Z) : M ImportResult :=
  info (Msg_searching search_term) ;;
  let import_result := SUCCESS in
  modify (set_existing_manufacturer_part None) ;;
  l <- gets lib ;;
  let search_results := search l search_term supplier_id only_supplier in
  import_part_loop search_results search_results existing_part
                   update_stock_location update_stock_amount import_result.

(* ===================================================================== *)
(** * The DigiKey adapter *)
(* ===================================================================== *)

Module DigiKey.

(** A product of the DigiKey API, a [ProductDetailsResponse]
    ([dk_is_details]) or a product of a keyword search, with the
    attributes [get_api_part] reads. *)
Record MediaLink := { media_type : string; url : string }.

Record Product := {
  dk_is_details : bool;
  dk_quantity_available : Z;
  manufacturer_public_quantity : Z;
  media_links : list MediaLink;
  category_value : string;
  family_value : string;
  dk_parameters : list (string * string);
  standard_pricing : list (Z * Q);
  product_description : string;
  primary_photo : string;
  product_url : string;
  digi_key_part_number : string;
  manufacturer_value : string;
  manufacturer_part_number : string;
  packaging_value : string
}.

(** The response of [digikey.keyword_search]. *)
Record KeywordSearchResponse := {
  exact_manufacturer_products_count : Z;
  exact_manufacturer_products : list Product;
  products : list Product;
  products_count : Z
}.

(** The two requests of the package [digikey] the adapter sends:
    [product_details(term)] and [keyword_search] with the keywords and
    the record count. *)
Record Api := {
  product_details : string -> option Product;
  keyword_search : string -> nat -> KeywordSearchResponse
}.

(** The fields of [self] that [setup] sets. *)
Record Self := {
  self_currency : string;
  self_language : string;
  self_location : string
}.

(** The loop over [media_links], supplier_digikey.py:72-75. *)
Fixpoint product_page (links : list MediaLink) : string :=
  match links with
  | [] => ""
  | media :: rest =>
      if String.eqb (media_type media) "Manufacturer Product Page"
      then url media
      else product_page rest
  end.

(** [get_api_part], supplier_digikey.py:66-103. The constructor call
    leaves [datasheet_url] empty, and a DigiKey candidate has nothing to
    fetch on [finalize()]. *)
Definition get_api_part (self : Self) (digikey_part : Product) : ApiPart :=
  let quantity_available_ :=
    dk_quantity_available digikey_part + manufacturer_public_quantity digikey_part in
  let manufacturer_link_ :=
    if dk_is_details digikey_part then product_page (media_links digikey_part)
    else "" in
  let category_path_ :=
    category_value digikey_part :: Str.split " - " (family_value digikey_part) in
  let parameters_ := Dict.of_items (dk_parameters digikey_part) in
  let price_breaks_ := Dict.of_items (standard_pricing digikey_part) in
  {| description := product_description digikey_part;
     image_url := primary_photo digikey_part;
     datasheet_url := "";
     supplier_link := product_url digikey_part;
     SKU := digi_key_part_number digikey_part;
     manufacturer := manufacturer_value digikey_part;
     manufacturer_link := manufacturer_link_;
     MPN := manufacturer_part_number digikey_part;
     quantity_available := quantity_available_;
     packaging := packaging_value digikey_part;
     category_path := category_path_;
     api_parameters := parameters_;
     api_price_breaks := price_breaks_;
     currency := self_currency self;
     finalize := true |}.

(** [filtered_results] and [product_count] after the branch of
    supplier_digikey.py:46-54. *)
Definition filtered_results (results : KeywordSearchResponse) (search_term : string)
  : list Product * Z :=
  if exact_manufacturer_products_count results >? 0
  then (exact_manufacturer_products results,
        exact_manufacturer_products_count results)
  else
    (filter
       (fun digikey_part =>
          Str.startswith (Str.lower (manufacturer_part_number digikey_part))
                         (Str.lower search_term))
       (products results),
     products_count results).

(** [exact_matches], supplier_digikey.py:56-59. *)
Definition exact_matches (filtered : list Product) (search_term : string)
  : list Product :=
  filter
    (fun digikey_part =>
       String.eqb (Str.lower (manufacturer_part_number digikey_part))
                  (Str.lower search_term))
    filtered.

(** [DigiKey.search], supplier_digikey.py:29-64. *)
Definition search (self : Self) (api : Api) (search_term : string)
  : list ApiPart * Z :=
  match product_details api search_term with
  | Some digikey_part => ([get_api_part self digikey_part], 1)
  | None =>
      let results := keyword_search api search_term 10 in
      let '(filtered, product_count) := filtered_results results search_term in
      let exact := exact_matches filtered search_term in
      let '(filtered, product_count) :=
        if (List.length exact =? 1)%nat then (exact, 1)
        else (filtered, product_count) in
      (map (get_api_part self) filtered, product_count)
  end.

End DigiKey.

(* ===================================================================== *)
(** * Statements of the specification and example data *)
(* ===================================================================== *)

(** The result count as the specification words it, "the true (possibly
    larger) result count" of the query behind the candidates: one for a
    product found by its number, else the count the keyword search
    reports for the list the candidates are taken from. *)
Definition query_total (api : DigiKey.Api) (search_term : string) : Z :=
  match DigiKey.product_details api search_term with
  | Some _ => 1
  | None =>
      let results := DigiKey.keyword_search api search_term 10 in
      if DigiKey.exact_manufacturer_products_count results >? 0
      then DigiKey.exact_manufacturer_products_count results
      else DigiKey.products_count results
  end.

Definition dk_self : DigiKey.Self :=
  {| DigiKey.self_currency := "EUR"; DigiKey.self_language := "en";
     DigiKey.self_location := "DE" |}.

Definition dk_product (mpn sku : string) : DigiKey.Product :=
  {| DigiKey.dk_is_details := false;
     DigiKey.dk_quantity_available := 100;
     DigiKey.manufacturer_public_quantity := 0;
     DigiKey.media_links := [];
     DigiKey.category_value := "Resistors";
     DigiKey.family_value := "Chip Resistor - Surface Mount";
     DigiKey.dk_parameters := [("Resistance", "10 Ohms")];
     DigiKey.standard_pricing := [(1, 1 # 10); (10, 8 # 100)];
     DigiKey.product_description := "RES 10 OHM";
     DigiKey.primary_photo := "";
     DigiKey.product_url := "";
     DigiKey.digi_key_part_number := sku;
     DigiKey.manufacturer_value := "Yageo";
     DigiKey.manufacturer_part_number := mpn;
     DigiKey.packaging_value := "Reel" |}.

(** A keyword search with 12 results in all, of which the response lists
    those in [listed]; no product has the term as its number. *)
Definition dk_api (listed : list DigiKey.Product) : DigiKey.Api :=
  {| DigiKey.product_details := fun _ => None;
     DigiKey.keyword_search := fun _ _ =>
       {| DigiKey.exact_manufacturer_products_count := 0;
          DigiKey.exact_manufacturer_products := [];
          DigiKey.products := listed;
          DigiKey.products_count := 12 |} |}.

(** [R] holds between the state a computation starts in and the state
    it ends in, however it ends. *)
Definition keeps {A} (R : St -> St -> Prop) (m : M A) : Prop :=
  forall s, R s (final (m s)).

(** A price break with a new price and currency, as [save] leaves it. *)
Definition repriced (price : Q) (cur : string) (b : SupplierPriceBreak)
  : SupplierPriceBreak :=
  {| pb_pk := pb_pk b; pb_part := pb_part b; pb_quantity := pb_quantity b;
     pb_price := price; pb_currency := cur |}.

(** The dictionary [price_breaks] of [setup_price_breaks]. *)
Definition price_breaks_by_quantity (r : Repo) (supplier_part : SupplierPart)
  : list (Z * SupplierPriceBreak) :=
  Dict.of_items
    (map (fun b => (pb_quantity b, b))
         (filter (fun b => pb_part b =? sp_pk supplier_part) (price_breaks r))).

(** What identifies a price-break tier: identifier, supplier-part and
    quantity. *)
Definition tier (b : SupplierPriceBreak) : Z * Z * Z :=
  (pb_pk b, pb_part b, pb_quantity b).

(** What the specification asks for a candidate tier: "if a record
    exists with the same price (numeric equality after converting to the
    same representation), no-op; if it exists with a different price,
    update it; if absent, create it". *)
Inductive TierAction :=
| Tier_keep (b : SupplierPriceBreak)
| Tier_update (b : SupplierPriceBreak)
| Tier_create.

Definition tier_action (existing : list (Z * SupplierPriceBreak)) (q : Z) (p : Q)
  : TierAction :=
  match Dict.get existing q with
  | Some b => if Qeq_bool p (pb_price b) then Tier_keep b else Tier_update b
  | None => Tier_create
  end.

Definition is_keep (t : TierAction) : bool :=
  match t with Tier_keep _ => true | _ => false end.

(** The requests these actions amount to, oldest first, and the tiers
    they create; a creation takes the next identifier. *)
Fixpoint sync_writes (existing : list (Z * SupplierPriceBreak))
  (items : list (Z * Q)) (next : Z) : list Write :=
  match items with
  | [] => []
  | (q, p) :: rest =>
      match tier_action existing q p with
      | Tier_keep _ => sync_writes existing rest next
      | Tier_update b =>
          W_save "price break" (pb_pk b) :: sync_writes existing rest next
      | Tier_create =>
          W_create "price break" next :: sync_writes existing rest (next + 1)
      end
  end.

Fixpoint new_tiers (existing : list (Z * SupplierPriceBreak)) (part : Z)
  (items : list (Z * Q)) (next : Z) : list (Z * Z * Z) :=
  match items with
  | [] => []
  | (q, p) :: rest =>
      match tier_action existing q p with
      | Tier_create => (next, part, q) :: new_tiers existing part rest (next + 1)
      | _ => new_tiers existing part rest next
      end
  end.

(** A write of the loop of [setup_price_breaks]: a creation with a
    fresh identifier, or the save of the tier found for a candidate
    quantity with another price. *)
Definition loop_write (existing : list (Z * SupplierPriceBreak))
  (items : list (Z * Q)) (low : Z) (w : Write) : Prop :=
  (exists k, w = W_create "price break" k /\ low <= k)
  \/ (exists q p b, In (q, p) items /\ Dict.get existing q = Some b
                    /\ Qeq_bool p (pb_price b) = false
                    /\ w = W_save "price break" (pb_pk b)).

(** The fields of the state no method assigns. *)
Definition settings (s : St)
  : Lib * bool * bool * bool * list (string * Category)
    * list (string * ParameterTemplate) * positive * Datasheets :=
  (lib s, interactive s, verbose s, dry_run s, category_map s,
   parameter_templates s, cfg_max_results s, cfg_datasheets s).

(** The footprint of [setup_price_breaks]: the console, and in the
    repository the price breaks. *)
Definition frame_price_breaks (s s' : St) : Prop :=
  settings s' = settings s
  /\ (faults s = [] -> faults s' = [])
  /\ existing_manufacturer_part s' = existing_manufacturer_part s
  /\ parameter_map s' = parameter_map s
  /\ keys s' = keys s /\ typed s' = typed s
  /\ aliases s' = aliases s /\ joined s' = joined s
  /\ parts (repo s') = parts (repo s)
  /\ companies (repo s') = companies (repo s)
  /\ manufacturer_parts (repo s') = manufacturer_parts (repo s)
  /\ supplier_parts (repo s') = supplier_parts (repo s)
  /\ parameters (repo s') = parameters (repo s)
  /\ attachments (repo s') = attachments (repo s)
  /\ stocked s' = stocked s.

(** The footprint of the block under [if not self.dry_run] of
    [import_supplier_part]: the console, the attachments, and fields of
    parts and manufacturer-parts that are there; none is made and none
    is lost. *)
Definition frame_sync (s s' : St) : Prop :=
  settings s' = settings s
  /\ (faults s = [] -> faults s' = [])
  /\ existing_manufacturer_part s' = existing_manufacturer_part s
  /\ parameter_map s' = parameter_map s
  /\ keys s' = keys s /\ typed s' = typed s
  /\ aliases s' = aliases s /\ joined s' = joined s
  /\ map part_pk (parts (repo s')) = map part_pk (parts (repo s))
  /\ map part_category (parts (repo s')) = map part_category (parts (repo s))
  /\ companies (repo s') = companies (repo s)
  /\ map mp_pk (manufacturer_parts (repo s'))
     = map mp_pk (manufacturer_parts (repo s))
  /\ map mp_MPN (manufacturer_parts (repo s'))
     = map mp_MPN (manufacturer_parts (repo s))
  /\ supplier_parts (repo s') = supplier_parts (repo s)
  /\ price_breaks (repo s') = price_breaks (repo s)
  /\ parameters (repo s') = parameters (repo s)
  /\ stocked s' = stocked s
  /\ next_pk (repo s') = next_pk (repo s).

(** Nothing is asked of the user: no answer is taken, no prompt is
    printed and no alias is added. *)
Definition quiet (s s' : St) : Prop :=
  keys s' = keys s /\ typed s' = typed s /\ aliases s' = aliases s
  /\ exists events,
       console s' = (events ++ console s)%list
       /\ forall e, In e events -> fst e <> L_prompt.

(** In a dry run the repository is not written to. *)
Definition dry_frame (s s' : St) : Prop :=
  dry_run s = true ->
  settings s' = settings s /\ repo s' = repo s /\ writes s' = writes s
  /\ faults s' = faults s.

(** The footprint of [create_manufacturer_part]: the console, the
    answers of the user and the aliases, and in the repository the parts,
    the manufacturers and the manufacturer-parts. *)
Definition frame_create (s s' : St) : Prop :=
  settings s' = settings s
  /\ (faults s = [] -> faults s' = [])
  /\ existing_manufacturer_part s' = existing_manufacturer_part s
  /\ parameter_map s' = parameter_map s
  /\ joined s' = joined s
  /\ supplier_parts (repo s') = supplier_parts (repo s)
  /\ price_breaks (repo s') = price_breaks (repo s)
  /\ parameters (repo s') = parameters (repo s)
  /\ attachments (repo s') = attachments (repo s)
  /\ stocked s' = stocked s.

(** A run in which every request reaches the repository and succeeds. *)
Definition steady (s : St) : Prop := dry_run s = false /\ faults s = [].

(** The link of the supplier-part found for the SKU, if any. *)
Definition linked (supplier_part : option SupplierPart) : option Z :=
  match supplier_part with
  | Some sp => sp_manufacturer_part sp
  | None => None
  end.

(** The first rule of the specification as it is worded: "if a
    supplier-part already exists for the candidate's SKU, reuse its
    linked manufacturer-part", for whatever [choose_manufacturer_part]
    gives. *)
Definition reuses_link_of_existing_supplier_part : Prop :=
  forall (s s' : St) (a : ApiPart) (part part' : option Part)
         (sp : SupplierPart) (mp : ManufacturerPart),
    find (fun p => String.eqb (sp_SKU p) (SKU a)) (supplier_parts (repo s)) = Some sp ->
    choose_manufacturer_part (Some sp) a part s = Ret (inr (mp, part')) s' ->
    sp_manufacturer_part sp = Some (mp_pk mp).

(** Example data: two suppliers, a category with two required
    parameters, and a candidate resistor. Of [json.loads] the examples
    need the answers for three bodies: "[]" is a list, "{}" an object
    without entries, and "unavailable" is not JSON. The parameter objects
    of the examples have no attribute [name]. *)
Definition ex_json_loads (body : string) : Json :=
  if String.eqb body "[]" then Json_other
  else if String.eqb body "{}" then Json_object []
  else Json_invalid.

Definition ex_lib (search_results : list (Company * AsyncResult)) : Lib :=
  {| quote := fun url => url;
     ratio := fun _ _ => 0;
     partial_ratio := fun _ _ => 0;
     json_loads := ex_json_loads;
     parameter_name := fun _ => None;
     not_found := Args_dict (Some "{}");
     search := fun _ _ _ => search_results |}.

Definition ex_empty_repo : Repo :=
  {| parts := []; companies := []; manufacturer_parts := [];
     supplier_parts := []; price_breaks := []; parameters := [];
     attachments := []; next_pk := 100 |}.

Definition ex_resistors : Category :=
  {| cat_name := "Resistors";
     cat_path := ["Passives"; "Resistors"];
     cat_parameters := ["Resistance"; "Tolerance"];
     part_category_of := {| pc_pk := 10; pathstring := "Passives/Resistors" |} |}.

Definition ex_part (sku mpn : string) : ApiPart :=
  {| description := "RES 10 OHM 1%";
     image_url := "";
     datasheet_url := "";
     supplier_link := "";
     SKU := sku;
     manufacturer := "Yageo";
     manufacturer_link := "";
     MPN := mpn;
     quantity_available := 5;
     packaging := "Reel";
     category_path := ["Resistors"; "Chip Resistor"; "Surface Mount"];
     api_parameters := [("Resistance", "10 Ohms")];
     api_price_breaks := [(10, 1 # 1); (100, 8 # 10)];
     currency := "EUR";
     finalize := true |}.

Definition ex_candidate : ApiPart := ex_part "S-1" "RC0603".

Definition ex_supplier (pk : Z) (name : string) : Company :=
  {| company_pk := pk; company_name := name |}.

(** A non-interactive importer over [r] with the categories [cats] and
    the parameter templates [templates]. *)
Definition ex_state_with (cats : list (string * Category))
  (templates : list (string * ParameterTemplate))
  (search_results : list (Company * AsyncResult)) (r : Repo) : St :=
  {| lib := ex_lib search_results;
     interactive := false; verbose := false; dry_run := false;
     category_map := cats;
     parameter_map := [("Resistance", [{| conf_name := "Resistance" |}])];
     parameter_templates := templates;
     existing_manufacturer_part := None;
     cfg_max_results := 10%positive;
     cfg_datasheets := DS_off;
     repo := r; writes := []; faults := []; keys := []; typed := [];
     console := []; aliases := []; joined := []; stocked := [] |}.

Definition ex_state : list (Company * AsyncResult) -> Repo -> St :=
  ex_state_with
    [("Chip Resistor", ex_resistors); ("Resistors", ex_resistors)]
    [("Resistance", {| tpl_pk := 50; tpl_name := "Resistance" |})].

Definition ex_manufacturer_part : ManufacturerPart :=
  {| mp_pk := 7; mp_part := 3; mp_manufacturer := 2; mp_MPN := "RC0603";
     mp_description := ""; mp_link := "" |}.

Definition ex_stored_part : Part :=
  {| part_pk := 3; part_name := "RC0603"; part_description := "";
     part_link := ""; part_category := 10; part_image := "" |}.

(** A supplier-part of the SKU of the candidate without a linked
    manufacturer-part, beside the manufacturer-part of its MPN. *)
Definition ex_unlinked_supplier_part : SupplierPart :=
  {| sp_pk := 8; sp_part := 3; sp_manufacturer_part := None; sp_supplier := 1;
     sp_SKU := "S-1"; sp_link := ""; sp_packaging := ""; sp_available := 0 |}.

Definition ex_unlinked : St :=
  ex_state []
    (with_supplier_parts [ex_unlinked_supplier_part]
       (with_manufacturer_parts [ex_manufacturer_part]
          (with_parts [ex_stored_part] ex_empty_repo))).

(** The state of [import_part] after [async_results.get()] at a
    supplier, part_importer.py:67-68, and after it has reported an HTTP
    error, part_importer.py:102-105. *)
Definition searched (supplier : Company) (async_results : AsyncResult) (s : St) : St :=
  set_joined (handle async_results :: joined s)
    (set_console ((L_info, Msg_searching_at (company_name supplier)) :: console s) s).

Definition reported (detail : option (list (string * string))) (s : St) : St :=
  let s1 := set_console ((L_error, Msg_failed_to_import detail) :: console s) s in
  if verbose s then set_console ((L_error, Msg_traceback) :: console s1) s1 else s1.

(** The candidate [import_part] selects at a supplier,
    part_importer.py:70-87, when the turn of the supplier starts in [s]:
    the one result, or the one the user picks among several; [s_a] is the
    state in which the candidate is handed to [import_supplier_part]. *)
Definition selects (supplier : Company) (async_results : AsyncResult) (s : St)
  (api_part : ApiPart) (s_a : St) : Prop :=
  let s0 := searched supplier async_results s in
  let result_count := snd (search_result async_results) in
  match fst (search_result async_results) with
  | [] => False
  | [only_result] => api_part = only_result /\ s_a = s0
  | results =>
      interactive s = true
      /\ let shown := firstn (Pos.to_nat (cfg_max_results s)) results in
         let s1 :=
           set_console ((L_prompt, Msg_select_part (company_name supplier))
                        :: console s0) s0 in
         let s2 :=
           if result_count >? Z.of_nat (List.length shown)
           then set_console ((L_hint, Msg_only_showing result_count (List.length shown))
                             :: console s1) s1
           else s1 in
         select_api_part shown s2 = Ret (Some api_part) s_a
  end.

(** The claim on HTTP errors as the specification words it: whenever the
    import of the selected candidate of a supplier raises an HTTP error,
    [import_part] returns ERROR, after it has waited on every search
    call. *)
Definition http_error_always_caught : Prop :=
  forall (term : string) (part : option Part) (supplier_id : option string)
         (only : bool) (loc : option Z) (amount : Z) (s : St)
         (before after : list (Company * AsyncResult)) (supplier : Company)
         (async_results : AsyncResult) (import_result : ImportResult)
         (s_i s_a s_e : St) (api_part : ApiPart) (e : HTTPError),
    search (lib s) term supplier_id only
    = (before ++ (supplier, async_results) :: after)%list ->
    import_part term part supplier_id only loc amount s
    = import_part_loop (search (lib s) term supplier_id only)
                       ((supplier, async_results) :: after) part loc amount
                       import_result s_i ->
    selects supplier async_results s_i api_part s_a ->
    import_supplier_part supplier api_part part loc amount s_a = Raise (HTTP e) s_e ->
    exists s',
      import_part term part supplier_id only loc amount s = Ret ERROR s'
      /\ forall x, In x (search (lib s) term supplier_id only) ->
                   In (handle (snd x)) (joined s').

(** Three suppliers: the first has no candidate, the second has two, of
    which the user picks the second, and the third has one; the first
    request to the repository fails with [e]. *)
Definition ex_three_searches : list (Company * AsyncResult) :=
  [(ex_supplier 1 "Alpha", {| handle := 0%nat; search_result := ([], 0) |});
   (ex_supplier 2 "Beta",
    {| handle := 1%nat;
       search_result := ([ex_part "B-1" "RC0603"; ex_part "B-2" "RC0805"], 2) |});
   (ex_supplier 3 "Gamma",
    {| handle := 2%nat; search_result := ([ex_part "C-1" "RC1206"], 1) |})].

Definition ex_erroring (e : HTTPError) : St :=
  {| lib := ex_lib ex_three_searches;
     interactive := true; verbose := false; dry_run := false;
     category_map := [("Chip Resistor", ex_resistors); ("Resistors", ex_resistors)];
     parameter_map := [("Resistance", [{| conf_name := "Resistance" |}])];
     parameter_templates := [("Resistance", {| tpl_pk := 50; tpl_name := "Resistance" |})];
     existing_manufacturer_part := None;
     cfg_max_results := 10%positive;
     cfg_datasheets := DS_off;
     repo := ex_empty_repo; writes := []; faults := [Some e]; keys := [1%nat];
     typed := []; console := []; aliases := []; joined := []; stocked := [] |}.

(** The state in which the turn of the second supplier starts, and the
    state in which its candidate is imported. *)
Definition ex_erroring_at_beta (e : HTTPError) : St :=
  let s0 := set_existing_manufacturer_part None
              (set_console [(L_info, Msg_searching "RC")] (ex_erroring e)) in
  let s1 := searched (ex_supplier 1 "Alpha")
                     {| handle := 0%nat; search_result := ([], 0) |} s0 in
  set_console ((L_hint, Msg_no_results "Alpha") :: console s1) s1.

Definition ex_erroring_selected (e : HTTPError) : St :=
  let s0 := searched (ex_supplier 2 "Beta")
              {| handle := 1%nat;
                 search_result := ([ex_part "B-1" "RC0603"; ex_part "B-2" "RC0805"], 2) |}
              (ex_erroring_at_beta e) in
  set_keys [] (set_console ((L_prompt, Msg_select_part "Beta") :: console s0) s0).

(** The footprint of printing: the console. *)
Definition frame_console (s s' : St) : Prop :=
  settings s' = settings s
  /\ existing_manufacturer_part s' = existing_manufacturer_part s
  /\ parameter_map s' = parameter_map s
  /\ repo s' = repo s /\ writes s' = writes s /\ faults s' = faults s
  /\ keys s' = keys s /\ typed s' = typed s
  /\ aliases s' = aliases s /\ joined s' = joined s.

(** The footprint of asking the user: the console, the answers, the
    aliases and [self.parameter_map]. *)
Definition frame_ask (s s' : St) : Prop :=
  settings s' = settings s
  /\ existing_manufacturer_part s' = existing_manufacturer_part s
  /\ repo s' = repo s /\ writes s' = writes s /\ faults s' = faults s
  /\ joined s' = joined s.

(** The dictionary [existing_parameters] of [setup_parameters], the set
    [already_set_parameters], the parameters matched through the alias
    table, and the set [unassigned_parameters] before the user is asked. *)
Definition existing_parameters_of (r : Repo) (p : Part)
  : list (string * PartParameter) :=
  Dict.of_items
    (map (fun row => (param_name row, row))
         (filter (fun row => param_part row =? part_pk p) (parameters r))).

Definition already_set_of (r : Repo) (p : Part) : list string :=
  map fst (filter (fun item => Str.truthy (param_data (snd item)))
                  (existing_parameters_of r p)).

Definition matched_by_alias (s : St) (c : Category) (a : ApiPart)
  : list (string * string) :=
  match_parameters (parameter_map s) c (api_parameters a).

Definition unassigned_of (s : St) (p : Part) (c : Category) (a : ApiPart)
  : list string :=
  difference
    (difference (dedup (cat_parameters c)) (Dict.keys (matched_by_alias s c a)))
    (already_set_of (repo s) p).

(** The rank [select_parameter] sorts the parameters of the candidate
    by, for the name it asks about. *)
Definition match_rank (l : Lib) (parameter_name_ : string) (item : string * string)
  : Z :=
  maximum (partial_ratio l parameter_name_ (fst item))
          [partial_ratio l parameter_name_ (snd item)].

(** Interactive resolution as the answers of the user give it: for
    every name asked, in order, the user picks one of the values
    offered, or "Enter Value Manually ..." and types a line, or
    "Skip ..."; a name with a value counts as matched. [keys] are the
    choices of the user and [typed] the lines. *)
Fixpoint resolved_by_user (l : Lib) (parameters_ : list (string * string))
  (names : list string) (keys : list nat) (typed : list string)
  : list (string * string) :=
  match names with
  | [] => []
  | name :: rest =>
      let N_MATCHES := Nat.min 20 (List.length parameters_) in
      let offered := sorted_desc (match_rank l name) parameters_ in
      match keys with
      | [] => []
      | k :: ks =>
          let index := Nat.min k (N_MATCHES + 2 - 1) in
          if (index =? N_MATCHES + 1)%nat
          then resolved_by_user l parameters_ rest ks typed
          else if (index <? N_MATCHES)%nat
          then
            match nth_error offered index with
            | Some (_, v) => (name, v) :: resolved_by_user l parameters_ rest ks typed
            | None => []
            end
          else
            match typed with
            | t :: ts => (name, t) :: resolved_by_user l parameters_ rest ks ts
            | [] => []
            end
      end
  end.

(** The matched and the unmatched names after all matching attempts, as
    the specification has them: matched are the parameters found through
    the alias table and those the user gave a value, when there are
    unassigned names and a user to ask; unmatched are the names "required
    by category, minus matched, minus already-populated". *)
Definition given_by_user (s : St) (p : Part) (c : Category) (a : ApiPart)
  : list (string * string) :=
  if negb (is_nil (unassigned_of s p c a)) && interactive s
  then resolved_by_user (lib s) (api_parameters a) (unassigned_of s p c a)
                        (keys s) (typed s)
  else [].

Definition matched_of (s : St) (p : Part) (c : Category) (a : ApiPart)
  : list (string * string) :=
  fold_left (fun d kv => Dict.set d (fst kv) (snd kv)) (given_by_user s p c a)
            (matched_by_alias s c a).

Definition unmatched_of (s : St) (p : Part) (c : Category) (a : ApiPart)
  : list string :=
  filter (fun n => negb (mem n (map fst (given_by_user s p c a))))
         (unassigned_of s p c a).

(** A request that, when it fails, fails with a body to report, and a
    state in which the parameter tasks all give an answer: a dry run, a
    run without failing request, or a run that updates no parameter and
    whose failing requests have a body. *)
Definition has_body (f : option HTTPError) : Prop :=
  match f with
  | Some (Args_dict (Some _)) | None => True
  | Some _ => False
  end.

Definition tasks_answer (update_existing : bool) (s : St) : Prop :=
  dry_run s = true \/ faults s = []
  \/ (update_existing = false /\ Forall has_body (faults s)).

Definition returned (r : TaskResult) : Prop :=
  match r with Returned _ => True | Failed _ => False end.

(** A category with three required parameters, and an interactive
    importer over the repository with the part of the candidate: asked
    for the tolerance the user types a value, asked for the power the
    user skips. *)
Definition ex_three_parameters : Category :=
  {| cat_name := "Resistors";
     cat_path := ["Passives"; "Resistors"];
     cat_parameters := ["Resistance"; "Tolerance"; "Power"];
     part_category_of := {| pc_pk := 10; pathstring := "Passives/Resistors" |} |}.

Definition ex_asked_with (category : Category)
  (templates : list (string * ParameterTemplate)) : St :=
  {| lib := ex_lib [];
     interactive := true; verbose := false; dry_run := false;
     category_map := [("Resistors", category)];
     parameter_map := [("Resistance", [{| conf_name := "Resistance" |}])];
     parameter_templates := templates;
     existing_manufacturer_part := None;
     cfg_max_results := 10%positive;
     cfg_datasheets := DS_off;
     repo := with_manufacturer_parts [ex_manufacturer_part]
               (with_parts [ex_stored_part] ex_empty_repo);
     writes := []; faults := []; keys := [1%nat; 2%nat]; typed := ["1%"];
     console := []; aliases := []; joined := []; stocked := [] |}.

Definition ex_asked : St :=
  ex_asked_with ex_three_parameters
    [("Resistance", {| tpl_pk := 50; tpl_name := "Resistance" |});
     ("Tolerance", {| tpl_pk := 51; tpl_name := "Tolerance" |})].

(** The same importer with the two required parameters of
    [ex_resistors], knowing the template of the resistance only: the
    tolerance the user types has no template. *)
Definition ex_typed : St :=
  ex_asked_with ex_resistors
    [("Resistance", {| tpl_pk := 50; tpl_name := "Resistance" |})].

(** The parameters of the name [n] in the repository. *)
Definition rows_named (n : string) (r : Repo) : list PartParameter :=
  filter (fun row => String.eqb (param_name row) n) (parameters r).

(** A result of [setup_parameters] once the category is known. *)
Definition mild (r : ImportResult) : Prop := r = SUCCESS \/ r = INCOMPLETE.

(** The parameters of the repository have identifiers of their own, below
    the next one. *)
Definition parameters_wf (r : Repo) : Prop :=
  NoDup (map param_pk (parameters r))
  /\ forall row, In row (parameters r) -> param_pk row < next_pk r.

(** What [apply_parameters] relies on: a parameter of the identifier of
    an entry of [existing_parameters] has the name of the entry, and the
    identifier is below the next one. *)
Definition entries_named (existing : list (string * PartParameter)) (r : Repo)
  : Prop :=
  forall name e,
    Dict.get existing name = Some e ->
    param_pk e < next_pk r
    /\ forall row, In row (parameters r) -> param_pk row = param_pk e ->
                   param_name row = name.

(** The same importer in or out of dry-run mode. *)
Definition set_dry_run x (s : St) : St :=
  {| lib := lib s;
     interactive := interactive s;
     verbose := verbose s;
     dry_run := x;
     category_map := category_map s;
     parameter_map := parameter_map s;
     parameter_templates := parameter_templates s;
     existing_manufacturer_part := existing_manufacturer_part s;
     cfg_max_results := cfg_max_results s;
     cfg_datasheets := cfg_datasheets s;
     repo := repo s;
     writes := writes s;
     faults := faults s;
     keys := keys s;
     typed := typed s;
     console := console s;
     aliases := aliases s;
     joined := joined s;
     stocked := stocked s |}.

(** An outcome with [g] applied to the state it ends in, and a
    computation that does the same whether [g] is applied before it or
    after it. *)
Definition map_state {A} (g : St -> St) (o : Outcome A) : Outcome A :=
  match o with
  | Ret a s => Ret a (g s)
  | Raise e s => Raise e (g s)
  | Blocked s => Blocked (g s)
  end.

Definition commutes {A} (g : St -> St) (m : M A) : Prop :=
  forall s, m (g s) = map_state g (m s).

(** The state after the prints of [setup_parameters],
    part_importer.py:335-337. *)
Definition printed (a : ApiPart) (s : St) : St :=
  fold_left
    (fun s item =>
       set_console ((L_print, Msg_parameter (fst item) (snd item)) :: console s) s)
    (api_parameters a)
    (set_console ((L_print, Msg_available_parameters) :: console s) s).

(** The number of tasks [apply_parameters] gives to the pool for the
    matched parameters, and the matched parameters to create that have
    no template, in the order the loop meets them. *)
Fixpoint tasks_of (existing : list (string * PartParameter))
  (templates : list (string * ParameterTemplate)) (upd : bool)
  (items : list (string * string)) : nat :=
  match items with
  | [] => O
  | (name, v) :: rest =>
      let v := sanitize_parameter_value v in
      let n := tasks_of existing templates upd rest in
      if negb (Str.truthy v) then n
      else
        match Dict.get existing name with
        | Some e => if upd && negb (String.eqb (param_data e) v) then S n else n
        | None =>
            match Dict.get templates name with
            | Some _ => S n
            | None => n
            end
        end
  end.

Fixpoint missing_templates (existing : list (string * PartParameter))
  (templates : list (string * ParameterTemplate))
  (items : list (string * string)) : list string :=
  match items with
  | [] => []
  | (name, v) :: rest =>
      let more := missing_templates existing templates rest in
      if Str.truthy (sanitize_parameter_value v)
         && negb (is_some (Dict.get existing name))
         && negb (is_some (Dict.get templates name))
      then name :: more
      else more
  end.

Definition severity_of (b : bool) : ImportResult :=
  if b then INCOMPLETE else SUCCESS.

(** What parameter reconciliation prints, in and out of a dry run, once
    the user is asked: the note on the tasks, when there are some, and
    then the warning of the unmatched names, when there are some. The
    console has the latest line first. *)
Definition reconciliation_notes (tasks : nat) (unassigned : list string)
  : list Event :=
  ((if negb (is_nil unassigned)
    then [(L_warning, Msg_unmatched_parameters unassigned)]
    else [])
   ++ match tasks with
      | O => []
      | S _ => [(L_info, Msg_updating_parameters)]
      end)%list.

(** The footprint of the requests and of the console: the repository,
    the record of the requests, the faults and the console. *)
Definition frame_repo (s s' : St) : Prop :=
  settings s' = settings s
  /\ (faults s = [] -> faults s' = [])
  /\ existing_manufacturer_part s' = existing_manufacturer_part s
  /\ parameter_map s' = parameter_map s
  /\ keys s' = keys s /\ typed s' = typed s
  /\ aliases s' = aliases s /\ joined s' = joined s.

(** The claim on the severities of a dry run as the specification words
    it: "the reported severities are the same as in a non-dry-run run
    over the same data". *)
Definition dry_run_same_severity : Prop :=
  forall (s s_w s_d : St) (term : string) (part : option Part)
         (supplier_id : option string) (only : bool) (loc : option Z) (amount : Z)
         (r_w r_d : ImportResult),
    steady s ->
    import_part term part supplier_id only loc amount s = Ret r_w s_w ->
    import_part term part supplier_id only loc amount (set_dry_run true s)
    = Ret r_d s_d ->
    r_d = r_w.

(** A category that requires the resistance only, and an importer that
    knows no parameter template, over a repository with the part and the
    manufacturer-part of the candidate; one supplier returns the
    candidate. *)
Definition ex_plain_resistors : Category :=
  {| cat_name := "Resistors";
     cat_path := ["Passives"; "Resistors"];
     cat_parameters := ["Resistance"];
     part_category_of := {| pc_pk := 10; pathstring := "Passives/Resistors" |} |}.

Definition ex_one_supplier : list (Company * AsyncResult) :=
  [(ex_supplier 1 "Alpha",
    {| handle := 0%nat; search_result := ([ex_candidate], 1) |})].

Definition ex_no_template : St :=
  ex_state_with [("Resistors", ex_plain_resistors)] [] ex_one_supplier
    (with_manufacturer_parts [ex_manufacturer_part]
       (with_parts [ex_stored_part] ex_empty_repo)).

(** What the end of [import_supplier_part] leaves alone once the
    supplier-part is stored: the parts, the manufacturer-parts, the
    supplier-parts and the established manufacturer-part. *)
Definition frame_links (s s' : St) : Prop :=
  settings s' = settings s
  /\ (faults s = [] -> faults s' = [])
  /\ existing_manufacturer_part s' = existing_manufacturer_part s
  /\ parts (repo s') = parts (repo s)
  /\ manufacturer_parts (repo s') = manufacturer_parts (repo s)
  /\ supplier_parts (repo s') = supplier_parts (repo s).

(** The manufacturer-parts are left as they are. *)
Definition same_manufacturer_parts (s s' : St) : Prop :=
  manufacturer_parts (repo s') = manufacturer_parts (repo s).

(** The invariant of the specification as it is worded: in one import
    call, once the candidate of a supplier has established a
    manufacturer-part, the candidate of a later supplier whose SKU has no
    supplier-part and whose MPN has no manufacturer-part reuses it, so
    that the supplier-parts of the two reference the same
    manufacturer-part. *)
Definition established_once : Prop :=
  forall (s s' : St) (term : string) (part : option Part)
         (supplier_id : option string) (only : bool) (loc : option Z) (amount : Z)
         (r : ImportResult)
         (before between after : list (Company * AsyncResult))
         (sup1 sup2 : Company) (ar1 ar2 : AsyncResult) (a1 a2 : ApiPart)
         (n1 n2 : Z) (sp1 sp2 : SupplierPart),
    search (lib s) term supplier_id only
    = (before ++ (sup1, ar1) :: between ++ (sup2, ar2) :: after)%list ->
    search_result ar1 = ([a1], n1) ->
    search_result ar2 = ([a2], n2) ->
    find (fun p => String.eqb (sp_SKU p) (SKU a2)) (supplier_parts (repo s)) = None ->
    find (fun m => String.eqb (mp_MPN m) (MPN a2)) (manufacturer_parts (repo s)) = None ->
    import_part term part supplier_id only loc amount s = Ret r s' ->
    find (fun p => String.eqb (sp_SKU p) (SKU a1)) (supplier_parts (repo s')) = Some sp1 ->
    find (fun p => String.eqb (sp_SKU p) (SKU a2)) (supplier_parts (repo s')) = Some sp2 ->
    sp_manufacturer_part sp1 = sp_manufacturer_part sp2.

(** Three suppliers: the first two return candidates whose MPN have a
    manufacturer-part each, the third a candidate that is unknown. *)
Definition ex_second_manufacturer_part : ManufacturerPart :=
  {| mp_pk := 9; mp_part := 4; mp_manufacturer := 2; mp_MPN := "RC0805";
     mp_description := ""; mp_link := "" |}.

Definition ex_second_part : Part :=
  {| part_pk := 4; part_name := "RC0805"; part_description := "";
     part_link := ""; part_category := 10; part_image := "" |}.

Definition ex_async (h : nat) (a : ApiPart) : AsyncResult :=
  {| handle := h; search_result := ([a], 1) |}.

Definition ex_three_suppliers : list (Company * AsyncResult) :=
  [(ex_supplier 1 "Alpha", ex_async 0 (ex_part "A-1" "RC0603"));
   (ex_supplier 2 "Beta", ex_async 1 (ex_part "B-1" "RC0805"));
   (ex_supplier 3 "Gamma", ex_async 2 (ex_part "C-1" "RC1206"))].

Definition ex_two_known : St :=
  ex_state ex_three_suppliers
    (with_manufacturer_parts [ex_manufacturer_part; ex_second_manufacturer_part]
       (with_parts [ex_stored_part; ex_second_part] ex_empty_repo)).

(** Two suppliers return a candidate each of one MPN that the repository
    does not know. *)
Definition ex_two_suppliers : list (Company * AsyncResult) :=
  [(ex_supplier 1 "Alpha", ex_async 0 (ex_part "A-1" "RC0603"));
   (ex_supplier 2 "Beta", ex_async 1 (ex_part "B-1" "RC0603"))].

Definition ex_fresh : St := ex_state ex_two_suppliers ex_empty_repo.

(** The supplier-part of the candidate with two price-break tiers, 10 at
    1.00 and 50 at 0.90; the candidate has the tiers 10 at 1.00 and 100 at
    0.80. *)
Definition ex_supplier_part : SupplierPart :=
  {| sp_pk := 8; sp_part := 3; sp_manufacturer_part := Some 7; sp_supplier := 1;
     sp_SKU := "S-1"; sp_link := ""; sp_packaging := ""; sp_available := 0 |}.

Definition ex_tier_10 : SupplierPriceBreak :=
  {| pb_pk := 20; pb_part := 8; pb_quantity := 10; pb_price := 1 # 1;
     pb_currency := "EUR" |}.

Definition ex_tier_50 : SupplierPriceBreak :=
  {| pb_pk := 21; pb_part := 8; pb_quantity := 50; pb_price := 9 # 10;
     pb_currency := "EUR" |}.

Definition ex_priced : St :=
  ex_state []
    (with_price_breaks [ex_tier_10; ex_tier_50]
       (with_supplier_parts [ex_supplier_part]
          (with_manufacturer_parts [ex_manufacturer_part]
             (with_parts [ex_stored_part] ex_empty_repo)))).

(** An importer that knows no category. *)
Definition ex_no_category : St := ex_state_with [] [] ex_one_supplier ex_empty_repo.

(** The part of the candidate alone in the repository. *)
Definition ex_stored : St :=
  ex_state ex_one_supplier
    (with_manufacturer_parts [ex_manufacturer_part]
       (with_parts [ex_stored_part] ex_empty_repo)).

(** ** Further statements and example data *)

(** [c in s] for one character, and whether a string has whitespace
    only. *)
Fixpoint occurs (c : ascii) (s : string) : bool :=
  match s with
  | EmptyString => false
  | String x s' => Ascii.eqb c x || occurs c s'
  end.

Fixpoint blank (s : string) : bool :=
  match s with
  | EmptyString => true
  | String c s' => Str.isspace c && blank s'
  end.

(** [DigiKey.setup], supplier_digikey.py:15-27, as a function of
    [os.environ] and of the path [DIGIKEY_CACHE]: the environment it
    leaves, the fields of [self] and its answer. The level it gives the
    logger of the package [digikey] is outside the model. *)
Definition digikey_setup (environ : list (string * string)) (cache : string)
  (client_id client_secret currency_ language location : string)
  : list (string * string) * DigiKey.Self * bool :=
  let environ := Dict.set environ "DIGIKEY_CLIENT_ID" client_id in
  let environ := Dict.set environ "DIGIKEY_CLIENT_SECRET" client_secret in
  let environ := Dict.set environ "DIGIKEY_CLIENT_SANDBOX" "False" in
  let environ := Dict.set environ "DIGIKEY_STORAGE_PATH" cache in
  (environ,
   {| DigiKey.self_currency := currency_; DigiKey.self_language := language;
      DigiKey.self_location := location |},
   true).

(** A keyword search that lists products of which two have the term as
    the start of their number. *)
Definition dk_listed : list DigiKey.Product :=
  [dk_product "RC0603FR" "311-2"; dk_product "CRCW0603" "541-1";
   dk_product "rc0603jr" "311-3"].

(** Two suppliers, of which the first has no candidate and the second
    has two. *)
Definition ex_ambiguous : St :=
  ex_state
    [(ex_supplier 1 "Alpha", {| handle := 0%nat; search_result := ([], 0) |});
     (ex_supplier 2 "Beta",
      {| handle := 1%nat;
         search_result := ([ex_part "B-1" "RC0603"; ex_part "B-2" "RC0805"], 2) |})]
    ex_empty_repo.

(** What [import_supplier_part] leaves alone until it stores the
    supplier-part: the settings, the searches waited for, the
    supplier-parts and the stock. *)
Definition frame_core (s s' : St) : Prop :=
  settings s' = settings s
  /\ (faults s = [] -> faults s' = [])
  /\ joined s' = joined s
  /\ supplier_parts (repo s') = supplier_parts (repo s)
  /\ stocked s' = stocked s
  /\ existing_manufacturer_part s' = existing_manufacturer_part s.

(** What a candidate that is stored leaves: the manufacturer-part it is
    stored for is the established one, and out of a dry run the
    supplier-part of its SKU references it. *)
Definition stored_for (a : ApiPart) (mp : ManufacturerPart) (s s' : St) : Prop :=
  existing_manufacturer_part s' = Some mp
  /\ (dry_run s = true -> supplier_parts (repo s') = supplier_parts (repo s))
  /\ (dry_run s = false ->
      exists sp,
        In sp (supplier_parts (repo s'))
        /\ sp_SKU sp = SKU a
        /\ sp_manufacturer_part sp = Some (mp_pk mp)).

(** A candidate that ends in FAILURE before anything is stored for it:
    nothing is established and no supplier-part is touched. *)
Definition fails_early (r : ImportResult) (s s' : St) : Prop :=
  r = FAILURE
  /\ existing_manufacturer_part s' = existing_manufacturer_part s
  /\ supplier_parts (repo s') = supplier_parts (repo s).

(** The state of [import_supplier_part] once it has said what it does
    with the candidate, part_importer.py:147-150. *)
Definition announced (supplier : Company) (a : ApiPart) (s : St) : St :=
  set_console
    ((L_info,
      match find (fun p => String.eqb (sp_SKU p) (SKU a)) (supplier_parts (repo s)) with
      | Some sp => Msg_found_existing (company_name supplier) (sp_SKU sp)
      | None => Msg_importing (company_name supplier) (SKU a)
      end) :: console s) s.

(** [import_supplier_part] goes on from line 166 in the state [s1] with
    the manufacturer-part [mp] and the part [part']; so, when it returns,
    it has failed early or the candidate is stored for [mp]. *)
Definition goes_on_with (supplier : Company) (a : ApiPart) (part : option Part)
  (loc : option Z) (amount : Z) (s : St) (mp : ManufacturerPart)
  (part' : option Part) (s1 : St) : Prop :=
  import_supplier_part supplier a part loc amount s
  = finish_supplier_part supplier a
      (find (fun p => String.eqb (sp_SKU p) (SKU a)) (supplier_parts (repo s)))
      mp part' loc amount s1
  /\ forall r s',
       import_supplier_part supplier a part loc amount s = Ret r s' ->
       fails_early r s s' \/ stored_for a mp s s'.

(** A supplier-part of the SKU of the candidate that is linked to the
    manufacturer-part of another MPN. *)
Definition ex_linked_supplier_part : SupplierPart :=
  {| sp_pk := 8; sp_part := 4; sp_manufacturer_part := Some 9; sp_supplier := 1;
     sp_SKU := "S-1"; sp_link := ""; sp_packaging := ""; sp_available := 0 |}.

Definition ex_linked : St :=
  ex_state []
    (with_supplier_parts [ex_linked_supplier_part]
       (with_manufacturer_parts [ex_manufacturer_part; ex_second_manufacturer_part]
          (with_parts [ex_stored_part; ex_second_part] ex_empty_repo))).

(** The repository with the supplier-part of the candidate. *)
Definition ex_known_sku : St :=
  ex_state ex_one_supplier
    (with_supplier_parts [ex_unlinked_supplier_part]
       (with_manufacturer_parts [ex_manufacturer_part]
          (with_parts [ex_stored_part] ex_empty_repo))).

(** What identifies a parameter: its identifier, its part and its name. *)
Definition row_identity (row : PartParameter) : Z * Z * string :=
  (param_pk row, param_part row, param_name row).

(** The parameters of before are all there, with their identifier, part
    and name, and those added belong to the part [pk]. *)
Definition rows_kept (pk : Z) (s s' : St) : Prop :=
  exists added,
    map row_identity (parameters (repo s'))
    = (map row_identity (parameters (repo s)) ++ map row_identity added)%list
    /\ Forall (fun row => param_part row = pk) added.

(** The parameters of before are there unchanged, and those added belong
    to the part [pk]. *)
Definition rows_added (pk : Z) (s s' : St) : Prop :=
  exists added,
    parameters (repo s') = (parameters (repo s) ++ added)%list
    /\ Forall (fun row => param_part row = pk) added.

(** A computation that lets no HTTP error out. *)
Definition contained {A} (m : M A) : Prop :=
  forall s e s', m s <> Raise (HTTP e) s'.

(** The warnings among the answers of the parameter tasks. *)
Definition has_warning (r : TaskResult) : bool :=
  match r with Returned (Some _) => true | _ => false end.

Definition warnings_of (async_results : list TaskResult) : list Message :=
  flat_map (fun r => match r with Returned (Some w) => [w] | _ => [] end)
           async_results.

(** The exceptions a parameter task can be left with, those of the
    handlers of [create_parameter] and [update_parameter]; and what the
    task of a request that fails with [e] is left with: the warning with
    the body of the error, or the exception of the handler that finds no
    body in the error or no [name] on the parameter. *)
Definition task_exception (e : Exception) : Prop :=
  e = IndexError \/ e = TypeError \/ e = KeyError \/ e = AttributeError.

Definition task_result (r : TaskResult) : Prop :=
  match r with Returned _ => True | Failed e => task_exception e end.

Definition create_failed (name : string) (e : HTTPError) : TaskResult :=
  match e with
  | Args_empty => Failed IndexError
  | Args_text _ => Failed TypeError
  | Args_dict None => Failed KeyError
  | Args_dict (Some body) => Returned (Some (Msg_create_failed name body))
  end.

Definition update_failed (name : option string) (value_ : string) (e : HTTPError)
  : TaskResult :=
  match e with
  | Args_empty => Failed IndexError
  | Args_text _ => Failed TypeError
  | Args_dict None => Failed KeyError
  | Args_dict (Some body) =>
      match name with
      | Some n => Returned (Some (Msg_update_failed n value_ body))
      | None => Failed AttributeError
      end
  end.

(** What asking for a category leaves alone: the settings, the
    repository and the aliases. *)
Definition frame_choice (s s' : St) : Prop :=
  settings s' = settings s /\ repo s' = repo s /\ writes s' = writes s
  /\ faults s' = faults s /\ aliases s' = aliases s.

(** An importer with a user who picks the first choice, and a
    configuration that knows no segment of the path of the candidate. *)
Definition ex_asking : St :=
  {| lib := ex_lib [];
     interactive := true; verbose := false; dry_run := false;
     category_map := [("Thick Film", ex_resistors)];
     parameter_map := [];
     parameter_templates := [];
     existing_manufacturer_part := None;
     cfg_max_results := 10%positive;
     cfg_datasheets := DS_off;
     repo := ex_empty_repo; writes := []; faults := []; keys := [0%nat];
     typed := []; console := []; aliases := []; joined := []; stocked := [] |}.

(** The price breaks and the next identifier after the loop of
    [setup_price_breaks], when every request succeeds, as a function of
    the price breaks and the next identifier before. *)
Fixpoint synced_tiers (existing : list (Z * SupplierPriceBreak)) (part : Z)
  (cur : string) (items : list (Z * Q)) (next : Z) (l : list SupplierPriceBreak)
  : list SupplierPriceBreak * Z :=
  match items with
  | [] => (l, next)
  | (quantity, price) :: rest =>
      match Dict.get existing quantity with
      | Some price_break =>
          if Qeq_bool price (pb_price price_break)
          then synced_tiers existing part cur rest next l
          else synced_tiers existing part cur rest next
                 (patch pb_pk (pb_pk price_break) (repriced price cur) l)
      | None =>
          synced_tiers existing part cur rest (next + 1)
            (l ++ [{| pb_pk := next; pb_part := part; pb_quantity := quantity;
                      pb_price := price; pb_currency := cur |}])
      end
  end.

(** The price breaks of the repository have identifiers of their own,
    below the next one, and a supplier-part has one tier per quantity. *)
Definition tiers_wf (l : list SupplierPriceBreak) (next part : Z) : Prop :=
  NoDup (map pb_pk l)
  /\ (forall b, In b l -> pb_pk b < next)
  /\ NoDup (map pb_quantity (filter (fun b => pb_part b =? part) l)).

(** Every tier of the candidate is stored for the supplier-part with an
    equal price. *)
Definition in_sync (r : Repo) (supplier_part : SupplierPart) (api_part : ApiPart)
  : Prop :=
  forall q p,
    In (q, p) (api_price_breaks api_part) ->
    exists b,
      Dict.get (price_breaks_by_quantity r supplier_part) q = Some b
      /\ Qeq_bool p (pb_price b) = true.

(* ===================================================================== *)
(** * Properties *)
(* ===================================================================== *)

Unset Implicit Arguments.

(** ** Severity results *)

Lemma or_more_severe (x y : ImportResult) : x |r y = more_severe x y.
Proof. destruct x, y; reflexivity. Qed.

Lemma severity_inj (x y : ImportResult) : severity x = severity y -> x = y.
Proof. destruct x, y; simpl; intros E; congruence || discriminate E. Qed.

(** C4. The merge [__or__] of two results is commutative and associative,
    [merge(x, x) == x], the merge of any result with ERROR is ERROR, and
    the merge of two results is the more severe one in the order
    SUCCESS < INCOMPLETE < FAILURE < ERROR, which is strict and total. *)
Theorem or_merge_laws :
  (forall x y, x |r y = y |r x)
  /\ (forall x y z, (x |r y) |r z = x |r (y |r z))
  /\ (forall x, x |r x = x)
  /\ (forall x, x |r ERROR = ERROR /\ ERROR |r x = ERROR)
  /\ (forall x y, x |r y = more_severe x y
                  /\ (severity x <= severity (x |r y))%nat
                  /\ (severity y <= severity (x |r y))%nat
                  /\ (x |r y = x \/ x |r y = y))
  /\ (forall x y, severity x = severity y -> x = y)
  /\ (severity SUCCESS < severity INCOMPLETE < severity FAILURE)%nat
  /\ (severity FAILURE < severity ERROR)%nat.
Proof.
  repeat split; intros;
    repeat match goal with x : ImportResult |- _ => destruct x end;
    simpl in *; auto; try lia; discriminate.
Qed.

(** ** The sanitizer *)

Lemma sanitize_lone_dash (v : string) :
  Str.strip v = "-" -> sanitize_parameter_value v = "".
Proof. unfold sanitize_parameter_value. intros ->. reflexivity. Qed.

(** C8, as stated, fails on the code: for the input " 10 ± 5% " the
    sanitizer does not give "10 5%". *)
Lemma sanitize_tolerance_not_collapsed :
  sanitize_parameter_value (with_glyph " 10 " " 5% ") <> "10 5%".
Proof. vm_compute. discriminate. Qed.

(** C8, amended. [sanitize("-") == ""], [sanitize("10 Ohm") == "10 ohm"],
    [sanitize("10 ohms") == "10 ohm"], and [sanitize(" 10 ± 5% ")] is
    "10  5%": the glyph is taken out and the blank on either side of it
    stays. The sanitizer trims the value, gives the empty value for
    whatever trims to a lone "-", removes every glyph, and then writes
    "ohm" for every "Ohm" and "ohms". *)
Theorem sanitize_examples :
  sanitize_parameter_value "-" = ""
  /\ sanitize_parameter_value (with_glyph " 10 " " 5% ") = "10  5%"
  /\ sanitize_parameter_value "10 Ohm" = "10 ohm"
  /\ sanitize_parameter_value "10 ohms" = "10 ohm"
  /\ (forall v, Str.strip v = "-" -> sanitize_parameter_value v = "")
  /\ (forall v, Str.strip v <> "-" ->
        sanitize_parameter_value v =
        Str.replace "ohms" "ohm"
          (Str.replace "Ohm" "ohm"
             (Str.replace SANITIZE_PARAMETER "" (Str.strip v)))).
Proof.
  repeat split; try reflexivity.
  - apply sanitize_lone_dash.
  - intros v Hv. unfold sanitize_parameter_value.
    destruct (String.eqb_spec (Str.strip v) "-"); [contradiction | reflexivity].
Qed.

(** ** The DigiKey adapter *)

(** C10, as stated, fails on the code: a keyword search with 12 results
    of which one has the term as its number gives that one candidate with
    the count 1, not the count of the query. *)
Lemma digikey_count_not_query_total :
  let api := dk_api [dk_product "RC0603" "311-1"; dk_product "RC0603FR" "311-2"] in
  DigiKey.search dk_self api "rc0603"
  = ([DigiKey.get_api_part dk_self (dk_product "RC0603" "311-1")], 1)
  /\ query_total api "rc0603" = 12
  /\ snd (DigiKey.search dk_self api "rc0603") <> query_total api "rc0603".
Proof. vm_compute. repeat split; discriminate. Qed.

Lemma query_total_keyword (api : DigiKey.Api) (term : string) :
  DigiKey.product_details api term = None ->
  query_total api term
  = snd (DigiKey.filtered_results (DigiKey.keyword_search api term 10) term).
Proof.
  intros E. unfold query_total, DigiKey.filtered_results. rewrite E.
  destruct (_ >? 0); reflexivity.
Qed.

(** C10, amended. [DigiKey.search] returns a list of zero or more
    normalized candidates with a result count. The count is 1 with one
    candidate when the product is found by its number, and 1 with one
    candidate when exactly one product of the keyword search has the
    term as its manufacturer part number, whatever the query counts;
    otherwise it is the count the keyword search reports, which may be
    larger than the number of candidates. *)
Theorem digikey_search_count (self : DigiKey.Self) (api : DigiKey.Api)
  (term : string) :
  let results := DigiKey.keyword_search api term 10 in
  let filtered := fst (DigiKey.filtered_results results term) in
  let exact := DigiKey.exact_matches filtered term in
  (forall p, DigiKey.product_details api term = Some p ->
     DigiKey.search self api term = ([DigiKey.get_api_part self p], 1))
  /\ (forall p, DigiKey.product_details api term = None -> exact = [p] ->
        DigiKey.search self api term = ([DigiKey.get_api_part self p], 1))
  /\ (DigiKey.product_details api term = None -> List.length exact <> 1%nat ->
        DigiKey.search self api term
        = (map (DigiKey.get_api_part self) filtered, query_total api term))
  /\ (exists ps, fst (DigiKey.search self api term)
                 = map (DigiKey.get_api_part self) ps)
  /\ (snd (DigiKey.search self api term) = 1
      \/ snd (DigiKey.search self api term) = query_total api term)
  /\ (fst (DigiKey.search dk_self (dk_api []) "rc0603") = []
      /\ let found :=
           DigiKey.search dk_self
             (dk_api [dk_product "RC0603FR" "311-2"; dk_product "RC0603JR" "311-3"])
             "rc0603" in
         Z.of_nat (List.length (fst found)) < snd found).
Proof.
  cbv zeta. split; [|split; [|split; [|split; [|split]]]].
  - intros p E. unfold DigiKey.search. rewrite E. reflexivity.
  - intros p E X. unfold DigiKey.search. rewrite E.
    destruct (DigiKey.filtered_results _ term) as [f c]. simpl in X.
    rewrite X. reflexivity.
  - intros E X. unfold DigiKey.search. rewrite (query_total_keyword _ _ E), E.
    destruct (DigiKey.filtered_results _ term) as [f c]. simpl in *.
    destruct (Nat.eqb_spec (List.length (DigiKey.exact_matches f term)) 1);
      [contradiction | reflexivity].
  - unfold DigiKey.search.
    destruct (DigiKey.product_details api term) as [p|].
    + exists [p]. reflexivity.
    + destruct (DigiKey.filtered_results _ term) as [f c].
      destruct (_ =? _)%nat; eexists; reflexivity.
  - unfold DigiKey.search.
    destruct (DigiKey.product_details api term) as [p|] eqn:E.
    + left. reflexivity.
    + rewrite (query_total_keyword _ _ E).
      destruct (DigiKey.filtered_results _ term) as [f c].
      destruct (_ =? _)%nat; [left | right]; reflexivity.
  - vm_compute. split; reflexivity.
Qed.

(** ** Dictionaries *)

Section DictFacts.
Context {K V : Type} `{Key K}.

Lemma keqb_refl (k : K) : keqb k k = true.
Proof. apply keqb_eq. reflexivity. Qed.

Lemma keqb_neq (a b : K) : a <> b -> keqb a b = false.
Proof.
  intros N. destruct (keqb a b) eqn:E; [|reflexivity].
  apply keqb_eq in E. contradiction.
Qed.

Lemma keqb_false (a b : K) : keqb a b = false -> a <> b.
Proof. intros E ->. rewrite keqb_refl in E. discriminate. Qed.

Lemma get_set (d : list (K * V)) (k k' : K) (v : V) :
  Dict.get (Dict.set d k v) k' = if keqb k k' then Some v else Dict.get d k'.
Proof.
  induction d as [|[k0 v0] d IH]; simpl.
  - reflexivity.
  - destruct (keqb k0 k) eqn:E0; simpl.
    + apply keqb_eq in E0. subst k0.
      destruct (keqb k k'); reflexivity.
    + destruct (keqb k0 k') eqn:E1.
      * apply keqb_eq in E1. subst k0.
        apply keqb_false in E0.
        rewrite keqb_neq by congruence. reflexivity.
      * apply IH.
Qed.

Lemma get_fold_set (items : list (K * V)) (d : list (K * V)) (k : K) (v : V) :
  Dict.get (fold_left (fun d kv => Dict.set d (fst kv) (snd kv)) items d) k
  = Some v ->
  In (k, v) items \/ Dict.get d k = Some v.
Proof.
  revert d. induction items as [|[k0 v0] items IH]; simpl; intros d G.
  - right. exact G.
  - apply IH in G. destruct G as [G|G].
    + left. right. exact G.
    + rewrite get_set in G. destruct (keqb k0 k) eqn:E.
      * apply keqb_eq in E. inversion G. subst. left. left. reflexivity.
      * right. exact G.
Qed.

Lemma get_of_items (items : list (K * V)) (k : K) (v : V) :
  Dict.get (Dict.of_items items) k = Some v -> In (k, v) items.
Proof.
  intros G. apply get_fold_set in G. destruct G as [G|G]; [exact G|].
  discriminate G.
Qed.

Lemma get_In_keys (d : list (K * V)) (k : K) (v : V) :
  Dict.get d k = Some v -> In k (Dict.keys d).
Proof.
  induction d as [|[k0 v0] d IH]; simpl; [discriminate|].
  destruct (keqb k0 k) eqn:E; intros G.
  - apply keqb_eq in E. left. exact E.
  - right. apply IH. exact G.
Qed.

Lemma get_None_keys (d : list (K * V)) (k : K) :
  Dict.get d k = None -> ~ In k (Dict.keys d).
Proof.
  induction d as [|[k0 v0] d IH]; simpl; [tauto|].
  destruct (keqb k0 k) eqn:E; [discriminate|].
  intros G [->|I]; [rewrite keqb_refl in E; discriminate|].
  exact (IH G I).
Qed.

Lemma mem_In (x : K) (l : list K) : mem x l = true <-> In x l.
Proof.
  unfold mem. rewrite existsb_exists. split.
  - intros [y [I E]]. apply keqb_eq in E. subst. exact I.
  - intros I. exists x. split; [exact I | apply keqb_refl].
Qed.

End DictFacts.

(** ** Dictionaries built from items *)

Section DictItems.
Context {K V : Type} `{Key K}.

Lemma get_In (d : list (K * V)) (k : K) (v : V) :
  Dict.get d k = Some v -> In (k, v) d.
Proof.
  induction d as [|[k0 v0] d IH]; simpl; [discriminate|].
  destruct (keqb k0 k) eqn:E; intros G.
  - apply keqb_eq in E. inversion G. subst. left. reflexivity.
  - right. apply IH. exact G.
Qed.

Lemma In_keys_set (d : list (K * V)) (k k' : K) (v : V) :
  In k' (Dict.keys (Dict.set d k v)) <-> k' = k \/ In k' (Dict.keys d).
Proof.
  induction d as [|[k0 v0] d IH]; simpl.
  - intuition.
  - destruct (keqb k0 k) eqn:E; simpl.
    + apply keqb_eq in E. subst k0. intuition.
    + rewrite IH. intuition.
Qed.

Lemma NoDup_keys_set (d : list (K * V)) (k : K) (v : V) :
  NoDup (Dict.keys d) -> NoDup (Dict.keys (Dict.set d k v)).
Proof.
  induction d as [|[k0 v0] d IH]; simpl; intros N.
  - constructor; [intros [] | constructor].
  - inversion N as [|x l Nx Nl]. subst.
    destruct (keqb k0 k) eqn:E; simpl.
    + constructor; assumption.
    + constructor; [|apply IH; exact Nl].
      intros I. apply In_keys_set in I. destruct I as [->|I].
      * rewrite keqb_refl in E. discriminate.
      * exact (Nx I).
Qed.

Lemma NoDup_keys_fold_set (items d : list (K * V)) :
  NoDup (Dict.keys d) ->
  NoDup (Dict.keys (fold_left (fun d kv => Dict.set d (fst kv) (snd kv)) items d)).
Proof.
  revert d. induction items as [|[k v] items IH]; simpl; intros d N.
  - exact N.
  - apply IH. apply NoDup_keys_set. exact N.
Qed.

Lemma NoDup_keys_of_items (items : list (K * V)) :
  NoDup (Dict.keys (Dict.of_items items)).
Proof. apply NoDup_keys_fold_set. constructor. Qed.

Lemma get_fold_set_absent (items d : list (K * V)) (k : K) :
  ~ In k (map fst items) ->
  Dict.get (fold_left (fun d kv => Dict.set d (fst kv) (snd kv)) items d) k
  = Dict.get d k.
Proof.
  revert d. induction items as [|[k0 v0] items IH]; simpl; intros d N.
  - reflexivity.
  - rewrite IH by tauto. rewrite get_set.
    rewrite keqb_neq; [reflexivity|]. intros ->. apply N. left. reflexivity.
Qed.

(** The last item of a key is the one the dictionary holds. *)
Lemma get_of_items_last (before after : list (K * V)) (k : K) (v : V) :
  ~ In k (map fst after) ->
  Dict.get (Dict.of_items (before ++ (k, v) :: after)) k = Some v.
Proof.
  intros N. unfold Dict.of_items. rewrite fold_left_app. simpl.
  rewrite get_fold_set_absent by exact N.
  rewrite get_set, keqb_refl. reflexivity.
Qed.

Lemma keq_dec (a b : K) : {a = b} + {a <> b}.
Proof.
  destruct (keqb a b) eqn:E.
  - left. apply keqb_eq. exact E.
  - right. apply keqb_false. exact E.
Qed.

Lemma In_split_last (l : list (K * V)) (k : K) :
  In k (map fst l) ->
  exists before v after, l = (before ++ (k, v) :: after)%list /\ ~ In k (map fst after).
Proof.
  induction l as [|[k0 v0] l IH]; simpl; [tauto|].
  intros I.
  destruct (in_dec keq_dec k (map fst l)) as [J|J].
  - destruct (IH J) as (before & v & after & -> & N).
    exists ((k0, v0) :: before), v, after. split; [reflexivity | exact N].
  - destruct I as [->|I]; [|contradiction].
    exists [], v0, l. split; [reflexivity | exact J].
Qed.

Lemma get_of_items_Some (items : list (K * V)) (k : K) :
  In k (map fst items) ->
  exists v, Dict.get (Dict.of_items items) k = Some v /\ In (k, v) items.
Proof.
  intros I. destruct (In_split_last _ _ I) as (before & v & after & -> & N).
  exists v. split; [apply get_of_items_last; exact N|].
  apply in_or_app. right. left. reflexivity.
Qed.

Lemma In_of_items (items : list (K * V)) (k : K) (v : V) :
  In (k, v) (Dict.of_items items) -> In (k, v) items.
Proof.
  intros I. apply get_of_items.
  assert (N := NoDup_keys_of_items items).
  revert I N. generalize (Dict.of_items items) as d.
  induction d as [|[k0 v0] d IH]; simpl; [tauto|].
  intros [E|I] N; inversion N as [|x l Nx Nl]; subst.
  - inversion E. subst. rewrite keqb_refl. reflexivity.
  - destruct (keqb k0 k) eqn:E.
    + apply keqb_eq in E. subst k0. exfalso. apply Nx.
      change (In (fst (k, v)) (map fst d)). apply in_map. exact I.
    + apply IH; assumption.
Qed.

Lemma In_get (d : list (K * V)) (k : K) (v : V) :
  NoDup (Dict.keys d) -> In (k, v) d -> Dict.get d k = Some v.
Proof.
  induction d as [|[k0 v0] d IH]; simpl; [tauto|].
  intros N [E|I]; inversion N as [|x l Nx Nl]; subst.
  - inversion E. subst. rewrite keqb_refl. reflexivity.
  - destruct (keqb k0 k) eqn:E.
    + apply keqb_eq in E. subst k0. exfalso. apply Nx.
      change (In (fst (k, v)) (map fst d)). apply in_map. exact I.
    + apply IH; assumption.
Qed.

(** The value of a key is that of the last item of the key. *)
Lemma get_fold_set_find (items : list (K * V)) :
  forall d k,
    Dict.get (fold_left (fun d kv => Dict.set d (fst kv) (snd kv)) items d) k
    = match find (fun kv => keqb (fst kv) k) (rev items) with
      | Some kv => Some (snd kv)
      | None => Dict.get d k
      end.
Proof.
  induction items as [|[k0 v0] items IH]; intros d k; simpl; [reflexivity|].
  rewrite IH.
  assert (F : forall l1 l2 : list (K * V),
             find (fun kv => keqb (fst kv) k) (l1 ++ l2)
             = match find (fun kv => keqb (fst kv) k) l1 with
               | Some y => Some y
               | None => find (fun kv => keqb (fst kv) k) l2
               end).
  { induction l1 as [|x l1 IH1]; intros l2; simpl; [reflexivity|].
    destruct (keqb (fst x) k); [reflexivity | apply IH1]. }
  rewrite F. destruct (find _ (rev items)); [reflexivity|].
  simpl. rewrite get_set. destruct (keqb k0 k); reflexivity.
Qed.

Lemma get_of_items_filter (items : list (K * V)) (k : K) :
  Dict.get (Dict.of_items items) k
  = Dict.get (Dict.of_items (filter (fun kv => keqb (fst kv) k) items)) k.
Proof.
  unfold Dict.of_items. rewrite !get_fold_set_find, <- filter_rev.
  assert (F : forall l : list (K * V),
             find (fun kv => keqb (fst kv) k) (filter (fun kv => keqb (fst kv) k) l)
             = find (fun kv => keqb (fst kv) k) l).
  { induction l as [|x l IH]; simpl; [reflexivity|].
    destruct (keqb (fst x) k) eqn:E; simpl; [rewrite E; reflexivity | exact IH]. }
  rewrite F. reflexivity.
Qed.

End DictItems.

(** ** States and sequencing *)

Lemma set_faults_same (s : St) (fs : list (option HTTPError)) :
  faults s = fs -> set_faults fs s = s.
Proof. destruct s; simpl; intros <-; reflexivity. Qed.

Lemma bind_Ret {A B} (m : M A) (k : A -> M B) (s s2 : St) (b : B) :
  bind m k s = Ret b s2 -> exists a s1, m s = Ret a s1 /\ k a s1 = Ret b s2.
Proof.
  unfold bind. destruct (m s) as [a s1| |]; intros E; try discriminate E.
  exists a, s1. split; [reflexivity | exact E].
Qed.

Lemma bind_of_Ret {A B} (m : M A) (k : A -> M B) (s s1 : St) (a : A) :
  m s = Ret a s1 -> bind m k s = k a s1.
Proof. unfold bind. intros ->. reflexivity. Qed.

(** A mutating call that is neither dry nor faulty changes the repository
    and is recorded. *)
Lemma mutating_ok {A} (dry : A) (f : Repo -> A * Repo * Write) (s : St) :
  dry_run s = false -> faults s = [] ->
  mutating dry f s
  = Ret (fst (fst (f (repo s))))
        (set_repo (snd (fst (f (repo s))))
                  (set_writes (snd (f (repo s)) :: writes s) s)).
Proof.
  intros D F. unfold mutating. rewrite D, F.
  destruct (f (repo s)) as [[a r] w]. simpl.
  f_equal. f_equal. f_equal. apply set_faults_same. exact F.
Qed.

(** In a dry run a mutating call does nothing. *)
Lemma mutating_dry {A} (dry : A) (f : Repo -> A * Repo * Write) (s : St) :
  dry_run s = true -> mutating dry f s = Ret dry s.
Proof. intros D. unfold mutating. rewrite D. reflexivity. Qed.

Lemma bind_Raise {A B} (m : M A) (k : A -> M B) (s s1 : St) (e : Exception) :
  m s = Raise e s1 -> bind m k s = Raise e s1.
Proof. unfold bind. intros ->. reflexivity. Qed.

Lemma catch_HTTP {A} (m : M A) (h : HTTPError -> M A) (s s1 : St) (e : HTTPError) :
  m s = Raise (HTTP e) s1 -> catch m h s = h e s1.
Proof. unfold catch. intros ->. reflexivity. Qed.

Lemma catch_Ret {A} (m : M A) (h : HTTPError -> M A) (s s1 : St) (a : A) :
  m s = Ret a s1 -> catch m h s = Ret a s1.
Proof. unfold catch. intros ->. reflexivity. Qed.

(** Sequencing, one call at a time. *)
Lemma bind_say {B} (l : Level) (m : Message) (k : unit -> M B) (s : St) :
  bind (say l m) k s = k tt (set_console ((l, m) :: console s) s).
Proof. reflexivity. Qed.

Lemma bind_gets {A B} (f : St -> A) (k : A -> M B) (s : St) :
  bind (gets f) k s = k (f s) s.
Proof. reflexivity. Qed.

Lemma bind_ret {A B} (a : A) (k : A -> M B) (s : St) : bind (ret a) k s = k a s.
Proof. reflexivity. Qed.

Lemma bind_bind {A B C} (m : M A) (k1 : A -> M B) (k2 : B -> M C) (s : St) :
  bind (bind m k1) k2 s = bind m (fun a => bind (k1 a) k2) s.
Proof. unfold bind. destruct (m s); reflexivity. Qed.

Lemma bind_modify {B} (f : St -> St) (k : unit -> M B) (s : St) :
  bind (modify f) k s = k tt (f s).
Proof. reflexivity. Qed.

Lemma bind_mutating {A B} (dry : A) (f : Repo -> A * Repo * Write) (k : A -> M B)
  (s : St) :
  dry_run s = false -> faults s = [] ->
  bind (mutating dry f) k s
  = k (fst (fst (f (repo s))))
      (set_repo (snd (fst (f (repo s))))
                (set_writes (snd (f (repo s)) :: writes s) s)).
Proof. intros D F. apply bind_of_Ret. apply mutating_ok; assumption. Qed.

Lemma bind_mutating_dry {A B} (dry : A) (f : Repo -> A * Repo * Write)
  (k : A -> M B) (s : St) :
  dry_run s = true -> bind (mutating dry f) k s = k dry s.
Proof. intros D. apply bind_of_Ret. apply mutating_dry. exact D. Qed.

(** The fields of an updated state. *)
Ltac fields :=
  cbv beta;
  cbn [fst snd
       lib interactive verbose dry_run category_map parameter_map
       parameter_templates existing_manufacturer_part cfg_max_results
       cfg_datasheets repo writes faults keys typed console aliases joined
       stocked
       set_parameter_map set_existing_manufacturer_part set_repo set_writes
       set_faults set_keys set_typed set_console set_aliases set_joined
       set_stocked set_dry_run
       parts companies manufacturer_parts supplier_parts price_breaks
       parameters attachments next_pk
       with_parts with_companies with_manufacturer_parts with_supplier_parts
       with_price_breaks with_parameters with_attachments
       with_next_pk bump] in *.

(** One call of a computation that runs without dry run and faults. *)
Ltac run_step :=
  first
    [ rewrite bind_bind
    | rewrite bind_say
    | rewrite bind_gets
    | rewrite bind_ret
    | rewrite bind_modify
    | rewrite bind_mutating by (fields; assumption)
    | rewrite mutating_ok by (fields; assumption) ];
  fields.

Ltac run := repeat run_step.

(** ** Price breaks *)

Lemma price_break_save_ok (s : St) (b : SupplierPriceBreak) (p : Q) (cur : string) :
  dry_run s = false -> faults s = [] ->
  price_break_save b p cur s
  = Ret tt
      (set_repo
         (with_price_breaks
            (patch pb_pk (pb_pk b) (repriced p cur) (price_breaks (repo s)))
            (repo s))
         (set_writes (W_save "price break" (pb_pk b) :: writes s) s)).
Proof. intros D F. unfold price_break_save. rewrite mutating_ok by assumption. reflexivity. Qed.

Lemma SupplierPriceBreak_create_ok (s : St) (part q : Z) (p : Q) (cur : string) :
  dry_run s = false -> faults s = [] ->
  SupplierPriceBreak_create part q p cur s
  = Ret tt
      (set_repo
         (bump
            (with_price_breaks
               (price_breaks (repo s)
                ++ [{| pb_pk := next_pk (repo s); pb_part := part;
                       pb_quantity := q; pb_price := p; pb_currency := cur |}])%list
               (repo s)))
         (set_writes (W_create "price break" (next_pk (repo s)) :: writes s) s)).
Proof.
  intros D F. unfold SupplierPriceBreak_create.
  rewrite mutating_ok by assumption. reflexivity.
Qed.

Lemma map_tier_patch (k : Z) (p : Q) (cur : string) (l : list SupplierPriceBreak) :
  map tier (patch pb_pk k (repriced p cur) l) = map tier l.
Proof.
  unfold patch. rewrite map_map. apply map_ext.
  intros b. destruct (pb_pk b =? k); reflexivity.
Qed.

Lemma In_patch_other {A} (pk_of : A -> Z) (k : Z) (f : A -> A) (l : list A) (x : A) :
  In x l -> pk_of x <> k -> In x (patch pk_of k f l).
Proof.
  intros I N. unfold patch. apply in_map_iff. exists x. split; [|exact I].
  destruct (Z.eqb_spec (pk_of x) k); [contradiction | reflexivity].
Qed.

Lemma In_patch_same {A} (pk_of : A -> Z) (f : A -> A) (l : list A) (x : A) :
  In x l -> In (f x) (patch pk_of (pk_of x) f l).
Proof.
  intros I. unfold patch. apply in_map_iff. exists x. split; [|exact I].
  rewrite Z.eqb_refl. reflexivity.
Qed.

Section PriceBreakLoop.
Variables (existing : list (Z * SupplierPriceBreak)) (sp : SupplierPart) (a : ApiPart).

Lemma price_break_loop_runs (items : list (Z * Q)) :
  forall (s : St) (u : bool),
    dry_run s = false -> faults s = [] ->
    exists s' u' ws created,
      price_break_loop existing sp a items u s = Ret u' s'
      /\ dry_run s' = false /\ faults s' = []
      /\ console s' = console s
      /\ writes s' = (ws ++ writes s)%list
      /\ u' = u || negb (is_nil ws)
      /\ next_pk (repo s) <= next_pk (repo s')
      /\ map tier (price_breaks (repo s'))
         = (map tier (price_breaks (repo s)) ++ created)%list
      /\ (forall w, In w ws -> loop_write existing items (next_pk (repo s)) w).
Proof.
  induction items as [|[q p] items IH]; intros s u D F.
  - exists s, u, [], []. simpl. rewrite orb_false_r, app_nil_r.
    repeat split; auto; try lia.
  - simpl. destruct (Dict.get existing q) as [b|] eqn:G.
    + destruct (Qeq_bool p (pb_price b)) eqn:E.
      * destruct (IH s u D F) as (s' & u' & ws & created & R & D' & F' & C & W & U & N & T & L).
        exists s', u', ws, created. repeat split; auto.
        intros w I. destruct (L w I) as [L1|(q1 & p1 & b1 & I1 & L1)].
        -- left. exact L1.
        -- right. exists q1, p1, b1. split; [right; exact I1 | exact L1].
      * erewrite bind_of_Ret by (apply price_break_save_ok; assumption).
        match goal with |- context [price_break_loop _ _ _ _ true ?s1] =>
          destruct (IH s1 true D F)
            as (s' & u' & ws & created & R & D' & F' & C & W & U & N & T & L)
        end.
        simpl in *.
        exists s', u', (ws ++ [W_save "price break" (pb_pk b)])%list, created.
        repeat split; auto.
        -- rewrite W, <- app_assoc. reflexivity.
        -- rewrite U. destruct ws; simpl; rewrite ?orb_true_r; reflexivity.
        -- rewrite T, map_tier_patch. reflexivity.
        -- intros w I. apply in_app_iff in I. destruct I as [I|[<-|[]]].
           ++ destruct (L w I) as [L1|(q1 & p1 & b1 & I1 & L1)].
              ** left. exact L1.
              ** right. exists q1, p1, b1. split; [right; exact I1 | exact L1].
           ++ right. exists q, p, b. repeat split; auto. left. reflexivity.
    + erewrite bind_of_Ret by (apply SupplierPriceBreak_create_ok; assumption).
      match goal with |- context [price_break_loop _ _ _ _ true ?s1] =>
        destruct (IH s1 true D F)
          as (s' & u' & ws & created & R & D' & F' & C & W & U & N & T & L)
      end.
      simpl in *.
      eexists s', u', (ws ++ [W_create "price break" (next_pk (repo s))])%list, _.
      repeat split; auto.
      * rewrite W, <- app_assoc. reflexivity.
      * rewrite U. destruct ws; simpl; rewrite ?orb_true_r; reflexivity.
      * lia.
      * rewrite T, map_app, <- app_assoc. reflexivity.
      * intros w I. apply in_app_iff in I. destruct I as [I|[<-|[]]].
        -- destruct (L w I) as [(k & -> & L1)|(q1 & p1 & b1 & I1 & L1)].
           ++ left. exists k. split; [reflexivity | lia].
           ++ right. exists q1, p1, b1. split; [right; exact I1 | exact L1].
        -- left. exists (next_pk (repo s)). split; [reflexivity | lia].
Qed.

(** A tier stays as it is when no candidate tier makes the loop save the
    tier of its identifier. *)
Lemma price_break_loop_keeps (items : list (Z * Q)) :
  forall (s s' : St) (u u' : bool) (b : SupplierPriceBreak),
    dry_run s = false -> faults s = [] ->
    price_break_loop existing sp a items u s = Ret u' s' ->
    In b (price_breaks (repo s)) ->
    (forall q p b2, In (q, p) items -> Dict.get existing q = Some b2 ->
                    pb_pk b2 = pb_pk b -> Qeq_bool p (pb_price b2) = true) ->
    In b (price_breaks (repo s')).
Proof.
  induction items as [|[q p] items IH]; intros s s' u u' b D F R I H.
  - simpl in R. inversion R. subst. exact I.
  - simpl in R. destruct (Dict.get existing q) as [b2|] eqn:G.
    + destruct (Qeq_bool p (pb_price b2)) eqn:E.
      * eapply IH; eauto. intros. eapply H; eauto. right. assumption.
      * erewrite bind_of_Ret in R by (apply price_break_save_ok; assumption).
        eapply IH in R; eauto.
        -- simpl. apply In_patch_other; [exact I|].
           intros N. rewrite (H q p b2) in E; auto; [discriminate | left; reflexivity].
        -- intros. eapply H; eauto. right. assumption.
    + erewrite bind_of_Ret in R by (apply SupplierPriceBreak_create_ok; assumption).
      eapply IH in R; eauto.
      * simpl. apply in_or_app. left. exact I.
      * intros. eapply H; eauto. right. assumption.
Qed.

Hypothesis existing_key :
  forall q b, Dict.get existing q = Some b -> pb_quantity b = q.
Hypothesis existing_pk :
  forall q1 q2 b1 b2,
    Dict.get existing q1 = Some b1 -> Dict.get existing q2 = Some b2 ->
    pb_pk b1 = pb_pk b2 -> q1 = q2.

(** A tier found with another price ends with the price and the currency
    of the candidate. *)
Lemma price_break_loop_updates (items : list (Z * Q)) :
  forall (s s' : St) (u u' : bool) (q : Z) (p : Q) (b : SupplierPriceBreak),
    dry_run s = false -> faults s = [] ->
    NoDup (map fst items) ->
    price_break_loop existing sp a items u s = Ret u' s' ->
    In (q, p) items -> Dict.get existing q = Some b ->
    Qeq_bool p (pb_price b) = false ->
    In b (price_breaks (repo s)) ->
    In (repriced p (currency a) b) (price_breaks (repo s')).
Proof.
  induction items as [|[q0 p0] items IH]; intros s s' u u' q p b D F ND R I G E Ib.
  - destruct I.
  - inversion ND as [|? ? Nq ND']. subst.
    simpl in R. destruct I as [X|I].
    + inversion X. subst q0 p0. rewrite G, E in R.
      erewrite bind_of_Ret in R by (apply price_break_save_ok; assumption).
      eapply price_break_loop_keeps in R; eauto.
      * simpl. change (pb_pk b) with (pb_pk b). apply In_patch_same. exact Ib.
      * intros q2 p2 b2 I2 G2 Epk. exfalso. apply Nq.
        assert (q2 = q) by (eapply existing_pk; eauto).
        subst q2. apply in_map_iff. exists (q, p2). split; [reflexivity | exact I2].
    + assert (Nqq : q0 <> q).
      { intros ->. apply Nq. apply in_map_iff. exists (q, p). split; [reflexivity | exact I]. }
      destruct (Dict.get existing q0) as [b0|] eqn:G0.
      * destruct (Qeq_bool p0 (pb_price b0)) eqn:E0.
        -- eapply IH; eauto.
        -- erewrite bind_of_Ret in R by (apply price_break_save_ok; assumption).
           eapply IH in R; eauto. simpl.
           apply In_patch_other; [exact Ib|].
           intros N. apply Nqq. eapply existing_pk; eauto.
      * erewrite bind_of_Ret in R by (apply SupplierPriceBreak_create_ok; assumption).
        eapply IH in R; eauto. simpl. apply in_or_app. left. exact Ib.
Qed.

(** A candidate tier without a tier of its quantity ends with a new tier
    of the supplier-part. *)
Lemma price_break_loop_creates (items : list (Z * Q)) :
  forall (s s' : St) (u u' : bool) (q : Z) (p : Q),
    dry_run s = false -> faults s = [] ->
    (forall q2 b2, Dict.get existing q2 = Some b2 -> pb_pk b2 < next_pk (repo s)) ->
    price_break_loop existing sp a items u s = Ret u' s' ->
    In (q, p) items -> Dict.get existing q = None ->
    exists k,
      next_pk (repo s) <= k
      /\ In {| pb_pk := k; pb_part := sp_pk sp; pb_quantity := q; pb_price := p;
               pb_currency := currency a |} (price_breaks (repo s')).
Proof.
  induction items as [|[q0 p0] items IH]; intros s s' u u' q p D F B R I G.
  - destruct I.
  - simpl in R. destruct I as [X|I].
    + inversion X. subst q0 p0. rewrite G in R.
      erewrite bind_of_Ret in R by (apply SupplierPriceBreak_create_ok; assumption).
      exists (next_pk (repo s)). split; [lia|].
      eapply price_break_loop_keeps in R; eauto.
      * simpl. apply in_or_app. right. left. reflexivity.
      * intros q2 p2 b2 I2 G2 Epk. simpl in Epk.
        specialize (B q2 b2 G2). lia.
    + destruct (Dict.get existing q0) as [b0|] eqn:G0.
      * destruct (Qeq_bool p0 (pb_price b0)) eqn:E0.
        -- eapply IH; eauto.
        -- erewrite bind_of_Ret in R by (apply price_break_save_ok; assumption).
           eapply IH in R; eauto.
      * erewrite bind_of_Ret in R by (apply SupplierPriceBreak_create_ok; assumption).
        eapply IH in R; eauto.
        -- destruct R as (k & Lk & Ik). exists k. split; [simpl in Lk; lia | exact Ik].
        -- intros q2 b2 G2. simpl. specialize (B q2 b2 G2). lia.
Qed.

End PriceBreakLoop.

Lemma NoDup_map_eq {A B} (f : A -> B) (l : list A) (x y : A) :
  NoDup (map f l) -> In x l -> In y l -> f x = f y -> x = y.
Proof.
  induction l as [|z l IH]; simpl; intros ND Ix Iy E; [destruct Ix|].
  inversion ND as [|? ? N ND']. subst.
  destruct Ix as [->|Ix], Iy as [->|Iy]; auto.
  - exfalso. apply N. rewrite E. apply in_map. exact Iy.
  - exfalso. apply N. rewrite <- E. apply in_map. exact Ix.
Qed.

Lemma NoDup_fst_value {A B} (l : list (A * B)) (k : A) (v1 v2 : B) :
  NoDup (map fst l) -> In (k, v1) l -> In (k, v2) l -> v1 = v2.
Proof.
  intros ND I1 I2.
  assert (E : (k, v1) = (k, v2)) by (eapply NoDup_map_eq; eauto).
  inversion E. reflexivity.
Qed.

Lemma get_fold_set_None {K V} `{Key K} (items d : list (K * V)) (k : K) :
  Dict.get (fold_left (fun d kv => Dict.set d (fst kv) (snd kv)) items d) k = None ->
  ~ In k (map fst items) /\ Dict.get d k = None.
Proof.
  revert d. induction items as [|[k0 v0] items IH]; simpl; intros d G.
  - split; [tauto | exact G].
  - apply IH in G. destruct G as [N G]. rewrite get_set in G.
    destruct (keqb k0 k) eqn:E; [discriminate|].
    split; [|exact G]. intros [->|I]; [|exact (N I)].
    rewrite keqb_refl in E. discriminate.
Qed.

Lemma by_quantity_Some (r : Repo) (sp : SupplierPart) (q : Z) (b : SupplierPriceBreak) :
  Dict.get (price_breaks_by_quantity r sp) q = Some b ->
  In b (price_breaks r) /\ pb_part b = sp_pk sp /\ pb_quantity b = q.
Proof.
  intros G. apply get_of_items in G. apply in_map_iff in G.
  destruct G as (b' & E & I). inversion E. subst.
  apply filter_In in I. destruct I as [I P]. apply Z.eqb_eq in P. auto.
Qed.

Lemma by_quantity_None (r : Repo) (sp : SupplierPart) (q : Z) :
  Dict.get (price_breaks_by_quantity r sp) q = None ->
  forall b, In b (price_breaks r) -> pb_part b = sp_pk sp -> pb_quantity b <> q.
Proof.
  intros G b I P E. apply get_fold_set_None in G. destruct G as [N _].
  apply N. rewrite map_map. simpl. apply in_map_iff. exists b. split; [exact E|].
  apply filter_In. split; [exact I | apply Z.eqb_eq; exact P].
Qed.

(** The loop of [setup_price_breaks] when every request succeeds: the
    requests it sends and the price breaks it leaves. *)
Lemma price_break_loop_exact (existing : list (Z * SupplierPriceBreak))
  (sp : SupplierPart) (a : ApiPart) (items : list (Z * Q)) :
  forall s u,
    dry_run s = false -> faults s = [] ->
    exists s',
      price_break_loop existing sp a items u s
      = Ret (u || negb (is_nil (sync_writes existing items (next_pk (repo s))))) s'
      /\ dry_run s' = false /\ faults s' = []
      /\ console s' = console s
      /\ writes s'
         = (rev (sync_writes existing items (next_pk (repo s))) ++ writes s)%list
      /\ (price_breaks (repo s'), next_pk (repo s'))
         = synced_tiers existing (sp_pk sp) (currency a) items
                        (next_pk (repo s)) (price_breaks (repo s)).
Proof.
  induction items as [|[q p] items IH]; intros s u D F; simpl.
  - exists s. rewrite orb_false_r. repeat split; assumption.
  - unfold tier_action. destruct (Dict.get existing q) as [b|].
    + destruct (Qeq_bool p (pb_price b)); [apply IH; assumption|].
      erewrite bind_of_Ret by (apply price_break_save_ok; assumption).
      match goal with |- context [price_break_loop _ _ _ _ true ?s1] =>
        destruct (IH s1 true D F) as (s' & R & D' & F' & C & W & E)
      end.
      exists s'. fields. rewrite R. simpl. rewrite orb_true_r.
      repeat split; auto.
      rewrite W, <- app_assoc. reflexivity.
    + erewrite bind_of_Ret by (apply SupplierPriceBreak_create_ok; assumption).
      match goal with |- context [price_break_loop _ _ _ _ true ?s1] =>
        destruct (IH s1 true D F) as (s' & R & D' & F' & C & W & E)
      end.
      exists s'. fields. rewrite R. simpl. rewrite orb_true_r.
      repeat split; auto.
      rewrite W, <- app_assoc. reflexivity.
Qed.

Lemma map_tier_synced (existing : list (Z * SupplierPriceBreak)) (part : Z)
  (cur : string) (items : list (Z * Q)) :
  forall next l,
    map tier (fst (synced_tiers existing part cur items next l))
    = (map tier l ++ new_tiers existing part items next)%list.
Proof.
  induction items as [|[q p] items IH]; intros next l; simpl.
  - rewrite app_nil_r. reflexivity.
  - unfold tier_action. destruct (Dict.get existing q) as [b|].
    + destruct (Qeq_bool p (pb_price b)); [apply IH|].
      rewrite IH, map_tier_patch. reflexivity.
    + rewrite IH, map_app, <- app_assoc. reflexivity.
Qed.

(** Where the requests and the new tiers come from. *)
Lemma sync_writes_save (existing : list (Z * SupplierPriceBreak))
  (items : list (Z * Q)) (k : Z) :
  forall next,
    In (W_save "price break" k) (sync_writes existing items next)
    <-> exists q p b, In (q, p) items /\ tier_action existing q p = Tier_update b
                      /\ pb_pk b = k.
Proof.
  induction items as [|[q p] items IH]; intros next; simpl.
  - split; [intros [] | intros (? & ? & ? & [] & _)].
  - destruct (tier_action existing q p) as [b|b|] eqn:T; simpl; rewrite ?IH.
    + split.
      * intros (q1 & p1 & b1 & I & H). exists q1, p1, b1. split; [right; exact I | exact H].
      * intros (q1 & p1 & b1 & [X|I] & T1 & E).
        -- inversion X. subst. congruence.
        -- exists q1, p1, b1. auto.
    + split.
      * intros [X|(q1 & p1 & b1 & I & H)].
        -- inversion X. exists q, p, b. auto.
        -- exists q1, p1, b1. split; [right; exact I | exact H].
      * intros (q1 & p1 & b1 & [X|I] & T1 & E).
        -- inversion X. subst. left. congruence.
        -- right. exists q1, p1, b1. auto.
    + split.
      * intros [X|(q1 & p1 & b1 & I & H)]; [discriminate X|].
        exists q1, p1, b1. split; [right; exact I | exact H].
      * intros (q1 & p1 & b1 & [X|I] & T1 & E).
        -- inversion X. subst. congruence.
        -- right. exists q1, p1, b1. auto.
Qed.

Lemma new_tiers_from (existing : list (Z * SupplierPriceBreak)) (part : Z)
  (items : list (Z * Q)) (t : Z * Z * Z) :
  forall next,
    In t (new_tiers existing part items next) ->
    next <= fst (fst t) /\ snd (fst t) = part
    /\ In (W_create "price break" (fst (fst t))) (sync_writes existing items next)
    /\ exists p, In (snd t, p) items /\ tier_action existing (snd t) p = Tier_create.
Proof.
  induction items as [|[q p] items IH]; intros next; simpl; [intros []|].
  destruct (tier_action existing q p) as [b|b|] eqn:T; simpl.
  - intros I. destruct (IH _ I) as (L & P & W & p1 & I1 & T1).
    repeat split; auto. exists p1. auto.
  - intros I. destruct (IH _ I) as (L & P & W & p1 & I1 & T1).
    repeat split; auto. exists p1. auto.
  - intros [<-|I].
    + simpl. repeat split; auto; try lia. exists p. auto.
    + destruct (IH _ I) as (L & P & W & p1 & I1 & T1).
      repeat split; auto; try lia. exists p1. auto.
Qed.

Lemma length_sync_writes (existing : list (Z * SupplierPriceBreak))
  (items : list (Z * Q)) :
  forall next,
    List.length (sync_writes existing items next)
    = List.length
        (filter (fun item => negb (is_keep (tier_action existing (fst item) (snd item))))
                items).
Proof.
  induction items as [|[q p] items IH]; intros next; simpl; [reflexivity|].
  destruct (tier_action existing q p); simpl; rewrite IH; reflexivity.
Qed.

(** C7. Price-break synchronization when every request succeeds. The
    requests sent are exactly those the three rules ask for, one for
    every candidate tier that is created or changed and none for a tier
    found with an equal price: such a tier is left as it is, it is not
    saved and no tier is created for its quantity; a tier found with
    another price is saved and gets the price and currency of the
    candidate; a candidate quantity without a tier gets a new tier. Every
    tier of before is still there, and is unchanged when its quantity is
    not among the candidate's or it belongs to another supplier-part; and
    the note "updating price breaks" is printed exactly when a tier was
    created or saved. *)
Theorem setup_price_breaks_sync (s : St) (sp : SupplierPart) (a : ApiPart) :
  dry_run s = false -> faults s = [] ->
  NoDup (map pb_pk (price_breaks (repo s))) ->
  (forall b, In b (price_breaks (repo s)) -> pb_pk b < next_pk (repo s)) ->
  NoDup (map fst (api_price_breaks a)) ->
  let old := price_breaks (repo s) in
  let existing := price_breaks_by_quantity (repo s) sp in
  let ws := sync_writes existing (api_price_breaks a) (next_pk (repo s)) in
  let created :=
    new_tiers existing (sp_pk sp) (api_price_breaks a) (next_pk (repo s)) in
  exists s',
    setup_price_breaks sp a s = Ret tt s'
    /\ writes s' = (rev ws ++ writes s)%list
    /\ List.length ws
       = List.length
           (filter (fun item =>
                      negb (is_keep (tier_action existing (fst item) (snd item))))
                   (api_price_breaks a))
    /\ (forall q p, In (q, p) (api_price_breaks a) ->
          match tier_action existing q p with
          | Tier_keep b =>
              In b old /\ pb_part b = sp_pk sp /\ pb_quantity b = q
              /\ In b (price_breaks (repo s'))
              /\ ~ In (W_save "price break" (pb_pk b)) ws
              /\ (forall t, In t created -> snd t <> q)
          | Tier_update b =>
              In b old /\ pb_part b = sp_pk sp /\ pb_quantity b = q
              /\ In (repriced p (currency a) b) (price_breaks (repo s'))
              /\ In (W_save "price break" (pb_pk b)) ws
              /\ (forall t, In t created -> snd t <> q)
          | Tier_create =>
              (forall b, In b old -> pb_part b = sp_pk sp -> pb_quantity b <> q)
              /\ exists k,
                   next_pk (repo s) <= k
                   /\ In {| pb_pk := k; pb_part := sp_pk sp; pb_quantity := q;
                            pb_price := p; pb_currency := currency a |}
                         (price_breaks (repo s'))
                   /\ In (W_create "price break" k) ws
                   /\ In (k, sp_pk sp, q) created
          end)
    /\ map tier (price_breaks (repo s')) = (map tier old ++ created)%list
    /\ (forall b, In b old ->
          ~ In (pb_quantity b) (map fst (api_price_breaks a)) ->
          In b (price_breaks (repo s')))
    /\ (forall b, In b old -> pb_part b <> sp_pk sp -> In b (price_breaks (repo s')))
    /\ ((ws <> [] /\ console s' = (L_info, Msg_updating_price_breaks) :: console s)
        \/ (ws = [] /\ console s' = console s)).
Proof.
  intros D F NDpk Bpk NDq old existing ws created.
  assert (Ekey : forall q b, Dict.get existing q = Some b -> pb_quantity b = q).
  { intros q b G. apply by_quantity_Some in G. tauto. }
  assert (Epk : forall q1 q2 b1 b2,
             Dict.get existing q1 = Some b1 -> Dict.get existing q2 = Some b2 ->
             pb_pk b1 = pb_pk b2 -> q1 = q2).
  { intros q1 q2 b1 b2 G1 G2 E.
    apply by_quantity_Some in G1, G2.
    destruct G1 as (I1 & _ & <-), G2 as (I2 & _ & <-).
    f_equal. eapply NoDup_map_eq; eauto. }
  destruct (price_break_loop_exact existing sp a (api_price_breaks a) s false D F)
    as (s1 & R & D' & F' & C & W & E).
  fold ws in R, W. cbn [orb] in R.
  assert (T : map tier (price_breaks (repo s1)) = (map tier old ++ created)%list).
  { change (price_breaks (repo s1)) with (fst (price_breaks (repo s1), next_pk (repo s1))).
    rewrite E. apply map_tier_synced. }
  assert (Same : forall q p b b2 p2,
             In (q, p) (api_price_breaks a) -> Dict.get existing q = Some b ->
             In (p2 : Z * Q) (api_price_breaks a) -> Dict.get existing (fst p2) = Some b2 ->
             pb_pk b2 = pb_pk b -> b2 = b /\ snd p2 = p).
  { intros q p b b2 [q2 p2] I G I2 G2 E2. simpl in *.
    assert (q2 = q) by (eapply Epk; eauto). subst q2.
    split; [congruence|]. eapply NoDup_fst_value; eauto. }
  assert (Known : forall q b t, Dict.get existing q = Some b -> In t created ->
                                snd t <> q).
  { intros q b t G It Eq.
    destruct (new_tiers_from _ _ _ _ _ It) as (_ & _ & _ & p1 & _ & T1).
    unfold tier_action in T1. rewrite Eq, G in T1.
    destruct (Qeq_bool p1 (pb_price b)); discriminate T1. }
  set (s' := if negb (is_nil ws)
             then set_console ((L_info, Msg_updating_price_breaks) :: console s1) s1
             else s1).
  exists s'.
  assert (PB : price_breaks (repo s') = price_breaks (repo s1))
    by (unfold s'; destruct (negb (is_nil ws)); reflexivity).
  rewrite PB.
  split; [|split; [|split; [|split; [|split; [|split; [|split]]]]]].
  - unfold setup_price_breaks, SupplierPriceBreak_list, bind at 1, gets.
    fold old. change (Dict.of_items _) with existing.
    unfold bind. rewrite R. unfold s'. destruct (negb (is_nil ws)); reflexivity.
  - unfold s'. destruct (negb (is_nil ws)); exact W.
  - apply length_sync_writes.
  - intros q p I. unfold tier_action.
    destruct (Dict.get existing q) as [b|] eqn:G.
    + pose proof (by_quantity_Some _ _ _ _ G) as (Ib & Pb & Qb).
      destruct (Qeq_bool p (pb_price b)) eqn:Eq.
      * split; [exact Ib|]. split; [exact Pb|]. split; [exact Qb|]. split.
        -- eapply price_break_loop_keeps with (s := s) (s' := s1);
             [exact D|exact F|exact R|exact Ib|].
           intros q2 p2 b2 I2 G2 Epk2.
           destruct (Same q p b b2 (q2, p2) I G I2 G2 Epk2) as [-> X].
           simpl in X. subst p2. exact Eq.
        -- split; [|intros t; apply (Known q b t G)].
           intros Iw. apply sync_writes_save in Iw.
           destruct Iw as (q2 & p2 & b2 & I2 & T2 & Epk2).
           unfold tier_action in T2.
           destruct (Dict.get existing q2) as [b3|] eqn:G2; [|discriminate T2].
           destruct (Qeq_bool p2 (pb_price b3)) eqn:E2; inversion T2. subst b3.
           destruct (Same q p b b2 (q2, p2) I G I2 G2 Epk2) as [-> Y].
           simpl in Y. subst p2. congruence.
      * split; [exact Ib|]. split; [exact Pb|]. split; [exact Qb|]. split.
        -- eapply price_break_loop_updates with (s := s) (s' := s1) (q := q);
             [exact Epk|exact D|exact F|exact NDq|exact R|exact I|exact G|exact Eq|exact Ib].
        -- split; [|intros t; apply (Known q b t G)].
           apply sync_writes_save. exists q, p, b. split; [exact I|].
           split; [|reflexivity]. unfold tier_action. rewrite G, Eq. reflexivity.
    + split; [apply by_quantity_None; exact G|].
      destruct (price_break_loop_creates existing sp a (api_price_breaks a)
                  s s1 false (negb (is_nil ws)) q p D F) as (k & Lk & Ik);
        [|exact R|exact I|exact G|].
      { intros q2 b2 G2. apply Bpk. apply by_quantity_Some in G2. tauto. }
      exists k. split; [exact Lk|]. split; [exact Ik|].
      assert (It : In (k, sp_pk sp, q) created).
      { apply (in_map tier) in Ik. rewrite T in Ik. apply in_app_iff in Ik.
        destruct Ik as [Ik|Ik]; [|exact Ik].
        apply in_map_iff in Ik. destruct Ik as (b0 & E0 & I0).
        inversion E0 as [[Ek Ep Eq]]. specialize (Bpk b0 I0). lia. }
      split; [|exact It].
      apply (new_tiers_from _ _ _ _ _ It).
  - exact T.
  - intros b Ib Nq. eapply price_break_loop_keeps with (s := s) (s' := s1);
             [exact D|exact F|exact R|exact Ib|].
    intros q2 p2 b2 I2 G2 Epk2. exfalso. apply Nq.
    pose proof (by_quantity_Some _ _ _ _ G2) as (Ib2 & _ & Qb2).
    assert (b2 = b) by (eapply NoDup_map_eq; eauto). subst b2.
    rewrite Qb2. apply in_map_iff. exists (q2, p2). split; [reflexivity | exact I2].
  - intros b Ib Np. eapply price_break_loop_keeps with (s := s) (s' := s1);
             [exact D|exact F|exact R|exact Ib|].
    intros q2 p2 b2 I2 G2 Epk2. exfalso. apply Np.
    pose proof (by_quantity_Some _ _ _ _ G2) as (Ib2 & Pb2 & _).
    assert (b2 = b) by (eapply NoDup_map_eq; eauto). subst b2. exact Pb2.
  - unfold s'. destruct ws; simpl.
    + right. split; [reflexivity | exact C].
    + left. split; [discriminate | rewrite C; reflexivity].
Qed.

Lemma setup_price_breaks_sync_witness :
  exists s',
    setup_price_breaks ex_supplier_part ex_candidate ex_priced = Ret tt s'
    /\ writes s' = [W_create "price break" 100]
    /\ price_breaks (repo s')
       = [ex_tier_10; ex_tier_50;
          {| pb_pk := 100; pb_part := 8; pb_quantity := 100; pb_price := 8 # 10;
             pb_currency := "EUR" |}]
    /\ map tier (price_breaks (repo s')) = [(20, 8, 10); (21, 8, 50); (100, 8, 100)]
    /\ console s' = [(L_info, Msg_updating_price_breaks)].
Proof.
  destruct (setup_price_breaks_sync ex_priced ex_supplier_part ex_candidate)
    as (s' & R & W & _ & _ & T & _ & _ & N).
  - reflexivity.
  - reflexivity.
  - simpl. repeat constructor; simpl; intuition lia.
  - simpl. intros b [<-|[<-|[]]]; simpl; lia.
  - simpl. repeat constructor; simpl; intuition lia.
  - exists s'. split; [exact R|]. split; [exact W|].
    assert (E : s' = final (setup_price_breaks ex_supplier_part ex_candidate ex_priced))
      by (rewrite R; reflexivity).
    split; [rewrite E; vm_compute; reflexivity|]. split; [exact T|].
    destruct N as [[_ C]|[X _]]; [exact C | discriminate X].
Defined.

(** ** Footprints *)

Section KeepsRules.
Variable R : St -> St -> Prop.
Hypothesis R_refl : forall s, R s s.
Hypothesis R_trans : forall a b c, R a b -> R b c -> R a c.

Lemma keeps_ret {A} (a : A) : keeps R (ret a).
Proof. intros s. apply R_refl. Qed.

Lemma keeps_raise {A} (e : Exception) : keeps R (raise (A := A) e).
Proof. intros s. apply R_refl. Qed.

Lemma keeps_gets {A} (f : St -> A) : keeps R (gets f).
Proof. intros s. apply R_refl. Qed.

Lemma keeps_blocked {A} : keeps R (fun s => Blocked (A := A) s).
Proof. intros s. apply R_refl. Qed.

Lemma keeps_bind {A B} (m : M A) (k : A -> M B) :
  keeps R m -> (forall a, keeps R (k a)) -> keeps R (bind m k).
Proof.
  intros Hm Hk s. unfold bind. specialize (Hm s).
  destruct (m s) as [a s1|e s1|s1]; simpl in *; auto.
  eapply R_trans; [exact Hm | apply Hk].
Qed.

Lemma keeps_catch {A} (m : M A) (h : HTTPError -> M A) :
  keeps R m -> (forall e, keeps R (h e)) -> keeps R (catch m h).
Proof.
  intros Hm Hh s. unfold catch. specialize (Hm s).
  destruct (m s) as [a s1|[e| | | | |] s1|s1]; simpl in *; auto.
  eapply R_trans; [exact Hm | apply Hh].
Qed.

Lemma keeps_apply_async (m : M (option Message)) :
  keeps R m -> keeps R (apply_async m).
Proof.
  intros H s. unfold apply_async. specialize (H s). destruct (m s); exact H.
Qed.

Lemma keeps_modify (f : St -> St) : (forall s, R s (f s)) -> keeps R (modify f).
Proof. intros H s. apply H. Qed.

Lemma keeps_select (n : nat) : (forall s ks, R s (set_keys ks s)) -> keeps R (select n).
Proof. intros H s. unfold select. destruct (keys s); simpl; auto. Qed.

Lemma keeps_prompt_input : (forall s ts, R s (set_typed ts s)) -> keeps R prompt_input.
Proof. intros H s. unfold prompt_input. destruct (typed s); simpl; auto. Qed.

Lemma keeps_for_each {A} (l : list A) (body : A -> M unit) :
  (forall x, keeps R (body x)) -> keeps R (for_each l body).
Proof.
  intros H. induction l as [|x l IH]; simpl.
  - apply keeps_ret.
  - apply keeps_bind; auto.
Qed.

Lemma keeps_Part_of_pk (pk : Z) : keeps R (Part_of_pk pk).
Proof. intros s. unfold Part_of_pk. destruct (find _ _); apply R_refl. Qed.

Lemma keeps_ManufacturerPart_of_pk (pk : Z) : keeps R (ManufacturerPart_of_pk pk).
Proof. intros s. unfold ManufacturerPart_of_pk. destruct (find _ _); apply R_refl. Qed.

End KeepsRules.

(** The head of an application. *)
Ltac head_of t :=
  lazymatch t with
  | ?f _ => head_of f
  | _ => t
  end.

(** One step through the text of a computation; [leaf] closes what is
    left at a primitive, and the two laws of the relation. *)
Ltac keeps_step leaf :=
  lazymatch goal with
  | |- keeps _ (bind _ _) => apply keeps_bind; [solve [leaf] | | intro]
  | |- keeps _ (ret _) => apply keeps_ret; solve [leaf]
  | |- keeps _ (raise _) => apply keeps_raise; solve [leaf]
  | |- keeps _ (gets _) => apply keeps_gets; solve [leaf]
  | |- keeps _ (fun s => Blocked s) => apply keeps_blocked; solve [leaf]
  | |- keeps _ (catch _ _) => apply keeps_catch; [solve [leaf] | | intro]
  | |- keeps _ (apply_async _) => apply keeps_apply_async
  | |- keeps _ (for_each _ _) =>
      apply keeps_for_each; [solve [leaf] | solve [leaf] | intro]
  | |- keeps _ (Part_of_pk _) => apply keeps_Part_of_pk; solve [leaf]
  | |- keeps _ (ManufacturerPart_of_pk _) =>
      apply keeps_ManufacturerPart_of_pk; solve [leaf]
  | |- keeps _ (match ?x with _ => _ end) => destruct x
  | |- keeps _ ?m =>
      first [ solve [leaf]
            | let h := head_of m in progress unfold h ]
  end.

Ltac keeps_with leaf := repeat keeps_step leaf.

(** The leaves for a relation with the laws [refl] and [trans], of which
    [unf] proves an instance between a state and an update of it. *)
Ltac leaf_of refl trans unf :=
  first
    [ exact refl
    | exact trans
    | solve [auto with keeps]
    | apply keeps_modify; intros; solve [unf]
    | apply keeps_select; [exact refl | intros; solve [unf]]
    | apply keeps_prompt_input; [exact refl | intros; solve [unf]]
    | let s := fresh "s" in
      intros s; progress unfold mutating;
      destruct (dry_run s) eqn:?; [apply refl|];
      destruct (faults s) as [|[?|] ?] eqn:?; simpl; solve [unf] ].

Create HintDb keeps.

Lemma frame_price_breaks_refl (s : St) : frame_price_breaks s s.
Proof. unfold frame_price_breaks. intuition. Qed.

Lemma frame_price_breaks_trans (a b c : St) :
  frame_price_breaks a b -> frame_price_breaks b c -> frame_price_breaks a c.
Proof. unfold frame_price_breaks. intuition congruence. Qed.

Ltac leaf_price_breaks :=
  leaf_of frame_price_breaks_refl frame_price_breaks_trans
          ltac:(unfold frame_price_breaks; simpl; intuition congruence).

Lemma price_break_loop_frame (existing : list (Z * SupplierPriceBreak))
  (sp : SupplierPart) (a : ApiPart) (items : list (Z * Q)) :
  forall u, keeps frame_price_breaks (price_break_loop existing sp a items u).
Proof.
  induction items as [|[q p] items IH]; intros u; simpl;
    keeps_with leaf_price_breaks.
Qed.

#[local] Hint Resolve price_break_loop_frame : keeps.

Lemma setup_price_breaks_frame (sp : SupplierPart) (a : ApiPart) :
  keeps frame_price_breaks (setup_price_breaks sp a).
Proof. keeps_with leaf_price_breaks. Qed.

(** ** Category resolution *)

Lemma first_category_app (cmap : list (string * Category)) (l1 l2 : list string) :
  first_category cmap (l1 ++ l2)
  = match first_category cmap l1 with
    | Some c => Some c
    | None => first_category cmap l2
    end.
Proof.
  induction l1 as [|x l1 IH]; simpl; [reflexivity|].
  destruct (Dict.get cmap x); [reflexivity | exact IH].
Qed.

Lemma first_category_miss (cmap : list (string * Category)) (l : list string) :
  (forall x, In x l -> Dict.get cmap x = None) -> first_category cmap l = None.
Proof.
  induction l as [|x l IH]; simpl; intros H; [reflexivity|].
  rewrite (H x) by (left; reflexivity). apply IH. intros y I. apply H. right. exact I.
Qed.

(** The segment nearest to the leaf that the alias table knows decides. *)
Lemma first_category_hit (cmap : list (string * Category))
  (pre post : list string) (seg : string) (c : Category) :
  Dict.get cmap seg = Some c ->
  (forall x, In x post -> Dict.get cmap x = None) ->
  first_category cmap (rev (pre ++ seg :: post)) = Some c.
Proof.
  intros G N. rewrite rev_app_distr. simpl. rewrite <- app_assoc.
  rewrite first_category_app, first_category_miss.
  - simpl. rewrite G. reflexivity.
  - intros x I. apply N. apply in_rev. exact I.
Qed.

Lemma quiet_refl (s : St) : quiet s s.
Proof.
  unfold quiet. repeat split. exists []. split; [reflexivity | intros e []].
Qed.

Lemma quiet_trans (a b c : St) : quiet a b -> quiet b c -> quiet a c.
Proof.
  unfold quiet. intros (K1 & T1 & A1 & e1 & C1 & P1) (K2 & T2 & A2 & e2 & C2 & P2).
  repeat split; try congruence.
  exists (e2 ++ e1)%list. split.
  - rewrite C2, C1, app_assoc. reflexivity.
  - intros e I. apply in_app_iff in I. destruct I; auto.
Qed.

Ltac unf_quiet :=
  unfold quiet; simpl; repeat split;
  first [ exists []; split; [reflexivity | intros ? []]
        | eexists [_]; split;
          [reflexivity | intros ? [<-|[]]; simpl; discriminate] ].

Ltac leaf_quiet := leaf_of quiet_refl quiet_trans unf_quiet.

Lemma create_in_category_quiet (a : ApiPart) (c : Category) :
  keeps quiet (create_in_category a c).
Proof. keeps_with leaf_quiet. Qed.

Lemma make_manufacturer_part_runs (s : St) (a : ApiPart) (p : Part) :
  steady s ->
  exists mp s',
    make_manufacturer_part a p s = Ret (inr (mp, p)) s'
    /\ steady s'
    /\ manufacturer_parts (repo s') = (manufacturer_parts (repo s) ++ [mp])%list
    /\ mp_MPN mp = MPN a /\ mp_part mp = part_pk p
    /\ next_pk (repo s) <= mp_pk mp < next_pk (repo s')
    /\ parts (repo s') = parts (repo s).
Proof.
  intros [D F].
  unfold make_manufacturer_part, create_manufacturer, ManufacturerPart_create, info.
  run.
  match goal with |- context [match ?x with _ => _ end] => destruct x eqn:? end; run;
    eexists _, _; (split; [reflexivity|]); unfold steady; fields; simpl;
    repeat split; auto; lia.
Qed.

Lemma create_in_category_runs (s : St) (a : ApiPart) (c : Category) :
  steady s ->
  exists mp p s',
    create_in_category a c s = Ret (inr (mp, p)) s'
    /\ steady s'
    /\ p = new_part (next_pk (repo s)) (pc_pk (part_category_of c)) (get_part_data a)
    /\ parts (repo s') = (parts (repo s) ++ [p])%list
    /\ manufacturer_parts (repo s') = (manufacturer_parts (repo s) ++ [mp])%list
    /\ mp_MPN mp = MPN a /\ mp_part mp = part_pk p
    /\ next_pk (repo s) < mp_pk mp < next_pk (repo s').
Proof.
  intros [D F]. unfold create_in_category, Part_create, info. run.
  match goal with |- context [make_manufacturer_part a ?p ?s1] =>
    destruct (@make_manufacturer_part_runs s1 a p) as (mp & s' & R & S' & M & N & P & B & Q);
      [split; [exact D | exact F] |]
  end.
  fields. eexists mp, _, s'. split; [exact R|]. simpl in *.
  repeat split; auto; try lia; apply S'.
Qed.

(** Whatever [create_in_category] returns, the part is in that category. *)
Lemma create_in_category_result (s s' : St) (a : ApiPart) (c : Category)
  (x : ImportResult + ManufacturerPart * Part) :
  create_in_category a c s = Ret x s' ->
  exists mp p,
    x = inr (mp, p) /\ part_category p = pc_pk (part_category_of c)
    /\ part_name p = MPN a /\ mp_part mp = part_pk p.
Proof.
  unfold create_in_category, make_manufacturer_part. intros R.
  apply bind_Ret in R. destruct R as (u & s1 & _ & R).
  apply bind_Ret in R. destruct R as (p & s2 & P & R).
  apply bind_Ret in R. destruct R as (m & s3 & _ & R).
  apply bind_Ret in R. destruct R as (u' & s4 & _ & R).
  apply bind_Ret in R. destruct R as (mp & s5 & C & R).
  inversion R. subst. exists mp, p.
  assert (part_category p = pc_pk (part_category_of c) /\ part_name p = MPN a) as [Hc Hn].
  { unfold Part_create, mutating in P.
    destruct (dry_run s1); [inversion P; split; reflexivity|].
    destruct (faults s1) as [|[e|] fs]; inversion P; split; reflexivity. }
  repeat split; auto.
  unfold ManufacturerPart_create, mutating in C.
  destruct (dry_run s4); [inversion C; reflexivity|].
  destruct (faults s4) as [|[e|] fs]; inversion C; reflexivity.
Qed.

Lemma create_manufacturer_part_hit (s : St) (a : ApiPart) (c : Category) :
  find (fun p => String.eqb (part_name p) (MPN a)) (parts (repo s)) = None ->
  first_category (category_map s) (rev (category_path a)) = Some c ->
  create_manufacturer_part a None s = create_in_category a c s.
Proof.
  intros N H. unfold create_manufacturer_part, get_part.
  rewrite bind_gets, N, bind_gets, H. reflexivity.
Qed.

(** C5. When no part can be reused, [create_manufacturer_part] resolves
    the category of the candidate: the segment of the path nearest to the
    leaf that the alias table knows gives the category of the new part,
    and then the user is not asked (no prompt, no answer taken, no alias
    added), interactive or not; when the table knows no segment and the
    importer is not interactive, the result is FAILURE, and nothing but
    the error message has changed, so no alias was made. *)
Theorem category_resolution (s : St) (a : ApiPart) :
  find (fun p => String.eqb (part_name p) (MPN a)) (parts (repo s)) = None ->
  (forall pre seg post c,
      category_path a = (pre ++ seg :: post)%list ->
      Dict.get (category_map s) seg = Some c ->
      (forall x, In x post -> Dict.get (category_map s) x = None) ->
      quiet s (final (create_manufacturer_part a None s))
      /\ (forall x s', create_manufacturer_part a None s = Ret x s' ->
            exists mp p, x = inr (mp, p)
                         /\ part_category p = pc_pk (part_category_of c))
      /\ (dry_run s = false -> faults s = [] ->
          exists mp p s',
            create_manufacturer_part a None s = Ret (inr (mp, p)) s'
            /\ In p (parts (repo s'))
            /\ part_category p = pc_pk (part_category_of c)))
  /\ ((forall x, In x (category_path a) -> Dict.get (category_map s) x = None) ->
      interactive s = false ->
      create_manufacturer_part a None s
      = Ret (inl FAILURE)
            (set_console
               ((L_error, Msg_category_unmatched (category_path a)) :: console s) s)).
Proof.
  intros N. split.
  - intros pre seg post c E G Miss.
    assert (H : first_category (category_map s) (rev (category_path a)) = Some c)
      by (rewrite E; apply first_category_hit; assumption).
    rewrite (create_manufacturer_part_hit _ _ _ N H).
    split; [apply create_in_category_quiet|]. split.
    + intros x s' R. apply create_in_category_result in R.
      destruct R as (mp & p & -> & C & _). exists mp, p. split; [reflexivity | exact C].
    + intros D F.
      destruct (@create_in_category_runs s a c (conj D F))
        as (mp & p & s' & R & _ & -> & P & _).
      eexists mp, _, s'. split; [exact R|]. split; [|reflexivity].
      rewrite P. apply in_or_app. right. left. reflexivity.
  - intros Miss I. unfold create_manufacturer_part, get_part.
    rewrite bind_gets, N, bind_gets, first_category_miss.
    + rewrite bind_gets, I. reflexivity.
    + intros x Ix. apply Miss. apply in_rev. exact Ix.
Qed.

Lemma category_resolution_witness :
  (quiet ex_fresh (final (create_manufacturer_part ex_candidate None ex_fresh))
   /\ exists mp p s',
        create_manufacturer_part ex_candidate None ex_fresh = Ret (inr (mp, p)) s'
        /\ In p (parts (repo s'))
        /\ part_category p = 10)
  /\ create_manufacturer_part ex_candidate None ex_no_category
     = Ret (inl FAILURE)
           (set_console
              ((L_error, Msg_category_unmatched (category_path ex_candidate))
               :: console ex_no_category) ex_no_category)
  /\ aliases ex_no_category = [].
Proof.
  destruct (category_resolution ex_fresh ex_candidate eq_refl) as [Hit _].
  destruct (category_resolution ex_no_category ex_candidate eq_refl) as [_ Miss].
  destruct (Hit ["Resistors"] "Chip Resistor" ["Surface Mount"] ex_resistors)
    as (Q & _ & Run).
  - reflexivity.
  - reflexivity.
  - simpl. intros x [<-|[]]. reflexivity.
  - split; [split; [exact Q | exact (Run eq_refl eq_refl)]|].
    split; [|reflexivity].
    apply Miss; [|reflexivity]. intros x _. reflexivity.
Defined.

(** ** The choice of the manufacturer-part *)

Lemma map_patch_same {A B} (pk_of : A -> Z) (k : Z) (f : A -> A) (g : A -> B)
  (l : list A) :
  (forall x, g (f x) = g x) -> map g (patch pk_of k f l) = map g l.
Proof.
  intros H. unfold patch. rewrite map_map. apply map_ext.
  intros x. destruct (pk_of x =? k); auto.
Qed.

Lemma update_part_data_runs (s : St) (p : Part) (d : PartData) (label : string) :
  steady s ->
  exists p' s',
    update_part_data p d label s = Ret p' s'
    /\ steady s'
    /\ part_pk p' = part_pk p /\ part_category p' = part_category p
    /\ part_image p' = part_image p
    /\ map part_pk (parts (repo s')) = map part_pk (parts (repo s))
    /\ manufacturer_parts (repo s') = manufacturer_parts (repo s)
    /\ next_pk (repo s') = next_pk (repo s).
Proof.
  intros [D F]. unfold update_part_data.
  destruct (_ && _).
  - exists p, s. repeat split; auto.
  - unfold info. run. eexists _, _. split; [reflexivity|]. fields.
    repeat split; auto. apply map_patch_same. reflexivity.
Qed.

Lemma create_manufacturer_part_for (s : St) (a : ApiPart) (part : option Part)
  (p : Part) :
  steady s ->
  match part with
  | Some p0 => p0 = p
  | None => find (fun q => String.eqb (part_name q) (MPN a)) (parts (repo s)) = Some p
  end ->
  exists mp p' s',
    create_manufacturer_part a part s = Ret (inr (mp, p')) s'
    /\ steady s'
    /\ part_pk p' = part_pk p
    /\ map part_pk (parts (repo s')) = map part_pk (parts (repo s))
    /\ manufacturer_parts (repo s') = (manufacturer_parts (repo s) ++ [mp])%list
    /\ mp_MPN mp = MPN a /\ mp_part mp = part_pk p
    /\ next_pk (repo s) <= mp_pk mp < next_pk (repo s').
Proof.
  intros St0 H.
  assert (E : create_manufacturer_part a part s
              = bind (update_part_data p (get_part_data a) ("part " ++ MPN a))
                     (make_manufacturer_part a) s).
  { unfold create_manufacturer_part. destruct part as [p0|].
    - subst p0. rewrite bind_ret. reflexivity.
    - unfold get_part. rewrite bind_gets, H. reflexivity. }
  rewrite E.
  destruct (@update_part_data_runs s p (get_part_data a) ("part " ++ MPN a) St0)
    as (p' & s1 & R1 & S1 & K1 & _ & _ & P1 & M1 & N1).
  rewrite (bind_of_Ret _ _ _ _ _ R1).
  destruct (@make_manufacturer_part_runs s1 a p' S1)
    as (mp & s' & R2 & S2 & M2 & N2 & P2 & B2 & Q2).
  exists mp, p', s'. split; [exact R2|].
  repeat split; auto; try congruence; try lia; try apply S2.
Qed.

(** C2, as stated, fails on the code: a supplier-part exists for the SKU
    and has no manufacturer-part linked; the manufacturer-part of the MPN
    is chosen, the second rule, though the first rule is the one the
    claim gives this case. *)
Lemma supplier_part_without_link_falls_through :
  (find (fun p => String.eqb (sp_SKU p) (SKU ex_candidate))
        (supplier_parts (repo ex_unlinked)) = Some ex_unlinked_supplier_part
   /\ sp_manufacturer_part ex_unlinked_supplier_part = None
   /\ choose_manufacturer_part (Some ex_unlinked_supplier_part) ex_candidate None
                               ex_unlinked
      = Ret (inr (ex_manufacturer_part, None)) ex_unlinked
   /\ exists r s',
        import_supplier_part (ex_supplier 1 "Alpha") ex_candidate None None 0
                             ex_unlinked = Ret r s'
        /\ existing_manufacturer_part s' = Some ex_manufacturer_part
        /\ map sp_manufacturer_part (supplier_parts (repo s')) = [Some 7])
  /\ ~ reuses_link_of_existing_supplier_part.
Proof.
  split.
  { split; [reflexivity|]. split; [reflexivity|]. split; [reflexivity|].
    eexists _, _. vm_compute. repeat split. }
  intros H.
  specialize (H ex_unlinked ex_unlinked ex_candidate None None
                ex_unlinked_supplier_part ex_manufacturer_part
                eq_refl eq_refl).
  discriminate H.
Qed.

Lemma choose_create (s : St) (a : ApiPart) (part : option Part)
  (supplier_part : option SupplierPart) :
  linked supplier_part = None ->
  find (fun m => String.eqb (mp_MPN m) (MPN a)) (manufacturer_parts (repo s)) = None ->
  existing_manufacturer_part s = None ->
  finalize a = true ->
  choose_manufacturer_part supplier_part a part s
  = bind (create_manufacturer_part a part)
         (fun result =>
            match result with
            | inl r => ret (inl r)
            | inr (manufacturer_part, p) => ret (inr (manufacturer_part, Some p))
            end) s.
Proof.
  intros L N E Fz. unfold choose_manufacturer_part. fold (linked supplier_part).
  rewrite L. unfold get_manufacturer_part. rewrite bind_gets, N, bind_gets, E, Fz.
  reflexivity.
Qed.

(** The choice of the manufacturer-part by its four rules. *)
Lemma choose_manufacturer_part_rules (s : St) (a : ApiPart) (part : option Part)
  (supplier_part : option SupplierPart) :
  let choice := choose_manufacturer_part supplier_part a part s in
  let by_mpn :=
    find (fun m => String.eqb (mp_MPN m) (MPN a)) (manufacturer_parts (repo s)) in
  let by_name :=
    find (fun q => String.eqb (part_name q) (MPN a)) (parts (repo s)) in
  (forall k, linked supplier_part = Some k ->
     match find (fun m => mp_pk m =? k) (manufacturer_parts (repo s)) with
     | Some m => choice = Ret (inr (m, part)) s
     | None => choice = Raise (HTTP (not_found (lib s))) s
     end)
  /\ (linked supplier_part = None ->
      (forall m, by_mpn = Some m -> choice = Ret (inr (m, part)) s)
      /\ (by_mpn = None ->
          (forall m, existing_manufacturer_part s = Some m ->
                     choice = Ret (inr (m, part)) s)
          /\ (existing_manufacturer_part s = None ->
              (finalize a = false -> choice = Ret (inl FAILURE) s)
              /\ (finalize a = true -> steady s ->
                  (forall p,
                      match part with
                      | Some p0 => p0 = p
                      | None => by_name = Some p
                      end ->
                      exists mp p' s',
                        choice = Ret (inr (mp, Some p')) s'
                        /\ part_pk p' = part_pk p
                        /\ map part_pk (parts (repo s'))
                           = map part_pk (parts (repo s))
                        /\ manufacturer_parts (repo s')
                           = (manufacturer_parts (repo s) ++ [mp])%list
                        /\ mp_MPN mp = MPN a /\ mp_part mp = part_pk p)
                  /\ (part = None -> by_name = None ->
                      (forall c,
                          first_category (category_map s) (rev (category_path a))
                          = Some c ->
                          exists mp p' s',
                            choice = Ret (inr (mp, Some p')) s'
                            /\ parts (repo s') = (parts (repo s) ++ [p'])%list
                            /\ part_category p' = pc_pk (part_category_of c)
                            /\ part_name p' = MPN a
                            /\ manufacturer_parts (repo s')
                               = (manufacturer_parts (repo s) ++ [mp])%list
                            /\ mp_MPN mp = MPN a /\ mp_part mp = part_pk p')
                      /\ (first_category (category_map s) (rev (category_path a))
                          = None ->
                          interactive s = false ->
                          exists s', choice = Ret (inl FAILURE) s'
                                     /\ repo s' = repo s)))))).
Proof.
  intros choice by_mpn by_name. subst choice. split.
  - intros k L. unfold choose_manufacturer_part. fold (linked supplier_part).
    rewrite L. unfold ManufacturerPart_of_pk, bind.
    destruct (find (fun m => mp_pk m =? k) (manufacturer_parts (repo s)));
      reflexivity.
  - intros L. split.
    + intros m E. unfold choose_manufacturer_part. fold (linked supplier_part).
      rewrite L. unfold get_manufacturer_part. rewrite bind_gets.
      fold by_mpn. rewrite E. reflexivity.
    + intros N. split.
      * intros m E. unfold choose_manufacturer_part. fold (linked supplier_part).
        rewrite L. unfold get_manufacturer_part. rewrite bind_gets.
        fold by_mpn. rewrite N, bind_gets, E. reflexivity.
      * intros E. split.
        -- intros Fz. unfold choose_manufacturer_part. fold (linked supplier_part).
           rewrite L. unfold get_manufacturer_part. rewrite bind_gets.
           fold by_mpn. rewrite N, bind_gets, E, Fz. reflexivity.
        -- intros Fz St0. rewrite (choose_create _ _ _ _ L N E Fz). split.
           ++ intros p H.
              destruct (create_manufacturer_part_for s a part p St0 H)
                as (mp & p' & s' & R & _ & K & P & M & Mn & Mp & _).
              exists mp, p', s'. rewrite (bind_of_Ret _ _ _ _ _ R).
              repeat split; auto.
           ++ intros -> Nn. split.
              ** intros c H.
                 destruct (create_in_category_runs s a c St0)
                   as (mp & p' & s' & R & _ & -> & P & M & Mn & Mp & _).
                 rewrite <- (create_manufacturer_part_hit _ _ _ Nn H) in R.
                 eexists mp, _, s'. rewrite (bind_of_Ret _ _ _ _ _ R).
                 repeat split; auto.
              ** intros H I. eexists.
                 unfold create_manufacturer_part, get_part.
                 rewrite bind_bind, bind_gets. fold by_name. rewrite Nn.
                 rewrite bind_bind, bind_gets, H, bind_bind, bind_gets, I.
                 cbn [negb]. unfold error. rewrite bind_bind, bind_say, bind_ret.
                 split; reflexivity.
Qed.

(** ** HTTP errors in [import_part] *)

Lemma wait_all (l : list (Company * AsyncResult)) :
  forall s,
    exists s',
      for_each l (fun other => wait (snd other)) s = Ret tt s'
      /\ (forall x, In x l -> In (handle (snd x)) (joined s'))
      /\ (forall h, In h (joined s) -> In h (joined s'))
      /\ repo s' = repo s /\ writes s' = writes s /\ console s' = console s
      /\ existing_manufacturer_part s' = existing_manufacturer_part s.
Proof.
  induction l as [|x l IH]; intros s.
  - exists s. simpl. repeat split; auto. intros x [].
  - simpl. unfold wait at 1. rewrite bind_modify.
    destruct (IH (set_joined (handle (snd x) :: joined s) s))
      as (s' & R & J & K & Rp & W & C & E).
    exists s'. split; [exact R|]. fields. repeat split; auto.
    + intros y [<-|I]; [apply K; left; reflexivity | apply J; exact I].
    + intros h I. apply K. right. exact I.
Qed.

Lemma error_str_cases (e : HTTPError) (s : St) :
  (exists detail, error_str e s = Ret detail s)
  \/ error_str e s = Raise AttributeError s.
Proof.
  unfold error_str. destruct e as [|m|[body|]]; try (left; eexists; reflexivity).
  destruct (Str.truthy body); [|left; eexists; reflexivity].
  rewrite bind_gets. destruct (json_loads (lib s) body);
    [left; eexists; reflexivity | left; eexists; reflexivity | right; reflexivity].
Qed.

(** The turn of a supplier whose candidate is selected. *)
Lemma import_part_loop_selects (all rest : list (Company * AsyncResult))
  (supplier : Company) (ar : AsyncResult) (part : option Part) (loc : option Z)
  (amount : Z) (ir : ImportResult) (s s_a : St) (a : ApiPart) :
  selects supplier ar s a s_a ->
  import_part_loop all ((supplier, ar) :: rest) part loc amount ir s
  = import_selected all supplier a part loc amount ir
      (import_part_loop all rest part loc amount) s_a.
Proof.
  unfold selects, searched. intros H. cbn [import_part_loop]. unfold info.
  rewrite bind_say. unfold get, wait. rewrite bind_bind, bind_modify, bind_ret.
  destruct (search_result ar) as [results count]. fields.
  destruct results as [|x [|y results]].
  - destruct H.
  - destruct H as [-> ->]. reflexivity.
  - destruct H as [I H]. rewrite bind_gets. fields. rewrite I.
    unfold prompt. rewrite bind_say, bind_gets. fields.
    match type of H with
      select_api_part ?shown (if ?c then ?s2 else ?s1) = _ =>
        assert (E : (if c then hint (Msg_only_showing count (List.length shown))
                     else ret tt) s1
                    = Ret tt (if c then s2 else s1))
          by (destruct c; reflexivity)
    end.
    rewrite (bind_of_Ret _ _ _ _ _ E), (bind_of_Ret _ _ _ _ _ H). reflexivity.
Qed.

(** C3. The code misses a case of what the claim says. The HTTP error
    of the first request for the candidate picked at the second supplier
    carries the body "[]", which is JSON and not an object: the handler of
    [import_part], which expects [JSONDecodeError] only, ends in
    [AttributeError], which nothing catches. [import_part] returns no
    result, and the search call of the third supplier is not waited
    on. *)
Lemma http_error_escapes_import :
  (exists s_e,
      import_part "RC" None None false None 0 (ex_erroring (Args_dict (Some "[]")))
      = Raise AttributeError s_e
      /\ import_supplier_part (ex_supplier 2 "Beta") (ex_part "B-2" "RC0805") None None 0
           (ex_erroring_selected (Args_dict (Some "[]")))
         = Raise (HTTP (Args_dict (Some "[]"))) s_e
      /\ joined s_e = [1%nat; 0%nat])
  /\ ~ http_error_always_caught.
Proof.
  assert (R : exists s_e,
             import_part "RC" None None false None 0
                         (ex_erroring (Args_dict (Some "[]")))
             = Raise AttributeError s_e
             /\ import_supplier_part (ex_supplier 2 "Beta") (ex_part "B-2" "RC0805")
                  None None 0 (ex_erroring_selected (Args_dict (Some "[]")))
                = Raise (HTTP (Args_dict (Some "[]"))) s_e
             /\ joined s_e = [1%nat; 0%nat]).
  { eexists. vm_compute. repeat split; reflexivity. }
  split; [exact R|].
  intros H. destruct R as (s_e & R & Q & _).
  destruct (H "RC" None None false None 0 (ex_erroring (Args_dict (Some "[]")))
              [(ex_supplier 1 "Alpha", {| handle := 0%nat; search_result := ([], 0) |})]
              [(ex_supplier 3 "Gamma",
                {| handle := 2%nat; search_result := ([ex_part "C-1" "RC1206"], 1) |})]
              (ex_supplier 2 "Beta")
              {| handle := 1%nat;
                 search_result := ([ex_part "B-1" "RC0603"; ex_part "B-2" "RC0805"], 2) |}
              SUCCESS (ex_erroring_at_beta (Args_dict (Some "[]")))
              (ex_erroring_selected (Args_dict (Some "[]"))) s_e
              (ex_part "B-2" "RC0805") (Args_dict (Some "[]")))
    as (s' & X & _).
  - reflexivity.
  - vm_compute. reflexivity.
  - split; [reflexivity|]. vm_compute. reflexivity.
  - exact Q.
  - rewrite R in X. discriminate X.
Qed.

(** X21. When [import_supplier_part] raises an HTTP error for the
    candidate selected at a supplier (its one result, or the one the
    user picks), [import_part] catches it. Unless the error carries a
    dictionary whose body is true and is JSON of another kind than an
    object, it reports the error, waits on every search call of the
    import and returns ERROR: the repository and the requests are as the
    failed import left them, and no later supplier is processed. For such
    a body the handler ends in [AttributeError], which leaves
    [import_part] at once: nothing is reported and nothing is waited on.
    When [import_supplier_part] returns a result, FAILURE and INCOMPLETE
    included, the import goes on with the next supplier and the merged
    result. *)
Theorem http_error_ends_import
  (term : string) (part : option Part) (supplier_id : option string) (only : bool)
  (loc : option Z) (amount : Z) (s : St)
  (before after : list (Company * AsyncResult)) (supplier : Company)
  (async_results : AsyncResult) (import_result : ImportResult) (s_i s_a : St)
  (api_part : ApiPart) :
  let search_results := search (lib s) term supplier_id only in
  let run := import_part term part supplier_id only loc amount s in
  search_results = (before ++ (supplier, async_results) :: after)%list ->
  run = import_part_loop search_results ((supplier, async_results) :: after)
                         part loc amount import_result s_i ->
  selects supplier async_results s_i api_part s_a ->
  (forall e s_e,
      import_supplier_part supplier api_part part loc amount s_a
      = Raise (HTTP e) s_e ->
      match error_str e s_e with
      | Ret detail _ =>
          exists s',
            run = Ret ERROR s'
            /\ for_each search_results (fun other => wait (snd other))
                        (reported detail s_e) = Ret tt s'
            /\ (forall x, In x search_results -> In (handle (snd x)) (joined s'))
            /\ repo s' = repo s_e /\ writes s' = writes s_e
            /\ existing_manufacturer_part s' = existing_manufacturer_part s_e
            /\ console s'
               = ((if verbose s_e then [(L_error, Msg_traceback)] else [])
                  ++ (L_error, Msg_failed_to_import detail) :: console s_e)%list
      | Raise exn _ => exn = AttributeError /\ run = Raise AttributeError s_e
      | Blocked _ => False
      end)
  /\ (forall r s_r,
         import_supplier_part supplier api_part part loc amount s_a = Ret r s_r ->
         import_result |r r <> ERROR ->
         run = import_part_loop search_results after part loc amount
                                (import_result |r r) s_r)
  /\ (forall r, import_result <> ERROR -> r = FAILURE \/ r = INCOMPLETE ->
                import_result |r r <> ERROR).
Proof.
  intros search_results run Split Here Sel.
  assert (Loop : run = import_selected search_results supplier api_part part loc
                         amount import_result
                         (import_part_loop search_results after part loc amount) s_a).
  { rewrite Here. apply import_part_loop_selects. exact Sel. }
  split; [|split].
  - intros e s_e R.
    destruct (error_str_cases e s_e) as [(detail & Es)|Es]; rewrite Es.
    + destruct (wait_all search_results (reported detail s_e))
        as (s' & W & J & _ & Rp & Wr & C & E).
      exists s'. split.
      { rewrite Loop. unfold import_selected.
        erewrite bind_of_Ret with (a := ERROR) (s1 := reported detail s_e).
        2:{ erewrite catch_HTTP by (apply bind_Raise; exact R).
            rewrite (bind_of_Ret _ _ _ _ _ Es).
            unfold error. rewrite bind_say, bind_gets. unfold reported. fields.
            destruct (verbose s_e); reflexivity. }
        cbn [ImportResult_eqb value Z.eqb].
        unfold bind. rewrite W. reflexivity. }
      split; [exact W|]. split; [exact J|].
      rewrite Rp, Wr, E, C. unfold reported.
      destruct (verbose s_e); repeat split.
    + split; [reflexivity|]. rewrite Loop. unfold import_selected.
      apply bind_Raise. erewrite catch_HTTP by (apply bind_Raise; exact R).
      apply bind_Raise. exact Es.
  - intros r s_r R NE. rewrite Loop. unfold import_selected.
    erewrite bind_of_Ret with (a := import_result |r r) (s1 := s_r).
    2:{ apply catch_Ret. erewrite bind_of_Ret by exact R. reflexivity. }
    destruct (import_result |r r); try reflexivity. contradiction.
  - intros r NE [->| ->]; destruct import_result;
      try (exfalso; apply NE; reflexivity); discriminate.
Qed.

Lemma http_error_ends_import_witness :
  exists s',
    import_part "RC" None None false None 0
                (ex_erroring (Args_dict (Some "unavailable"))) = Ret ERROR s'
    /\ In 0%nat (joined s') /\ In 1%nat (joined s') /\ In 2%nat (joined s')
    /\ repo s' = ex_empty_repo /\ writes s' = []
    /\ console s'
       = [(L_error, Msg_failed_to_import None);
          (L_info, Msg_creating_part "RC0805" "Passives/Resistors");
          (L_info, Msg_importing "Beta" "B-2");
          (L_prompt, Msg_select_part "Beta");
          (L_info, Msg_searching_at "Beta");
          (L_hint, Msg_no_results "Alpha");
          (L_info, Msg_searching_at "Alpha");
          (L_info, Msg_searching "RC")].
Proof.
  set (e := Args_dict (Some "unavailable")).
  set (s_e := final (import_supplier_part (ex_supplier 2 "Beta") (ex_part "B-2" "RC0805")
                                          None None 0 (ex_erroring_selected e))).
  destruct (http_error_ends_import "RC" None None false None 0 (ex_erroring e)
              [(ex_supplier 1 "Alpha", {| handle := 0%nat; search_result := ([], 0) |})]
              [(ex_supplier 3 "Gamma",
                {| handle := 2%nat; search_result := ([ex_part "C-1" "RC1206"], 1) |})]
              (ex_supplier 2 "Beta")
              {| handle := 1%nat;
                 search_result := ([ex_part "B-1" "RC0603"; ex_part "B-2" "RC0805"], 2) |}
              SUCCESS (ex_erroring_at_beta e) (ex_erroring_selected e)
              (ex_part "B-2" "RC0805"))
    as (Raises & _).
  - reflexivity.
  - vm_compute. reflexivity.
  - split; [reflexivity|]. vm_compute. reflexivity.
  - specialize (Raises e s_e ltac:(vm_compute; reflexivity)).
    change (error_str e s_e) with (Ret (@None (list (string * string))) s_e) in Raises.
    destruct Raises as (s' & R & _ & J & Rp & W & _ & C).
    exists s'. split; [exact R|].
    split; [apply (J (ex_supplier 1 "Alpha",
                      {| handle := 0%nat; search_result := ([], 0) |}));
            left; reflexivity|].
    split; [apply (J (ex_supplier 2 "Beta",
                      {| handle := 1%nat;
                         search_result :=
                           ([ex_part "B-1" "RC0603"; ex_part "B-2" "RC0805"], 2) |}));
            right; left; reflexivity|].
    split; [apply (J (ex_supplier 3 "Gamma",
                      {| handle := 2%nat;
                         search_result := ([ex_part "C-1" "RC1206"], 1) |}));
            right; right; left; reflexivity|].
    split; [rewrite Rp; reflexivity|]. split; [rewrite W; reflexivity|].
    rewrite C. reflexivity.
Defined.

(** ** Settings *)

Lemma settings_eq (s1 s : St) :
  settings s1 = settings s ->
  lib s1 = lib s /\ interactive s1 = interactive s /\ verbose s1 = verbose s
  /\ dry_run s1 = dry_run s /\ category_map s1 = category_map s
  /\ parameter_templates s1 = parameter_templates s
  /\ cfg_max_results s1 = cfg_max_results s
  /\ cfg_datasheets s1 = cfg_datasheets s.
Proof. unfold settings. intros E. inversion E. repeat split; assumption. Qed.

Lemma settings_templates (s1 s : St) :
  settings s1 = settings s -> parameter_templates s1 = parameter_templates s.
Proof. intros E. apply settings_eq in E. tauto. Qed.

Lemma settings_dry_run (s1 s : St) :
  settings s1 = settings s -> dry_run s1 = dry_run s.
Proof. intros E. apply settings_eq in E. tauto. Qed.

Lemma settings_interactive (s1 s : St) :
  settings s1 = settings s -> interactive s1 = interactive s.
Proof. intros E. apply settings_eq in E. tauto. Qed.

Lemma settings_category_map (s1 s : St) :
  settings s1 = settings s -> category_map s1 = category_map s.
Proof. intros E. apply settings_eq in E. tauto. Qed.

(** ** Parameters *)

Lemma frame_console_refl (s : St) : frame_console s s.
Proof. unfold frame_console. intuition. Qed.

Lemma frame_console_trans (a b c : St) :
  frame_console a b -> frame_console b c -> frame_console a c.
Proof. unfold frame_console. intuition congruence. Qed.

Ltac leaf_console :=
  leaf_of frame_console_refl frame_console_trans
          ltac:(unfold frame_console; simpl; intuition congruence).

Lemma frame_ask_refl (s : St) : frame_ask s s.
Proof. unfold frame_ask. intuition. Qed.

Lemma frame_ask_trans (a b c : St) : frame_ask a b -> frame_ask b c -> frame_ask a c.
Proof. unfold frame_ask. intuition congruence. Qed.

Ltac leaf_ask :=
  leaf_of frame_ask_refl frame_ask_trans
          ltac:(unfold frame_ask; simpl; intuition congruence).

Lemma select_parameter_ask (name : string) (ps : list (string * string)) :
  keeps frame_ask (select_parameter name ps).
Proof. keeps_with leaf_ask. Qed.

#[local] Hint Resolve select_parameter_ask : keeps.

Lemma resolve_parameters_ask (names : list string) (a : ApiPart) :
  forall matched unassigned,
    keeps frame_ask (resolve_parameters names a matched unassigned).
Proof.
  induction names as [|n names IH]; intros matched unassigned; simpl;
    keeps_with leaf_ask.
Qed.

Lemma keys_set {V} (d : list (string * V)) (k n : string) (v : V) :
  In n (Dict.keys (Dict.set d k v)) <-> n = k \/ In n (Dict.keys d).
Proof.
  induction d as [|[k0 v0] d IH]; simpl.
  - intuition.
  - destruct (String.eqb_spec k0 k); simpl.
    + subst. intuition.
    + rewrite IH. intuition.
Qed.

Lemma In_remove_name (name n : string) (l : list string) :
  In n (remove_name name l) <-> In n l /\ n <> name.
Proof.
  unfold remove_name. rewrite filter_In.
  destruct (String.eqb_spec n name); simpl; intuition congruence.
Qed.

Lemma select_Ret (n i : nat) (s s' : St) :
  select n s = Ret i s' ->
  exists k ks, keys s = k :: ks /\ s' = set_keys ks s /\ i = Nat.min k (n - 1).
Proof.
  unfold select. destruct (keys s) as [|k ks]; intros E; inversion E.
  exists k, ks. repeat split.
Qed.

Lemma prompt_input_Ret (t : string) (s s' : St) :
  prompt_input s = Ret t s' ->
  exists ts, typed s = t :: ts /\ s' = set_typed ts s.
Proof.
  unfold prompt_input. destruct (typed s) as [|t0 ts]; intros E; inversion E.
  exists ts. split; reflexivity.
Qed.

Lemma keys_fold_set {V} (items d : list (string * V)) (n : string) :
  In n (Dict.keys (fold_left (fun d kv => Dict.set d (fst kv) (snd kv)) items d))
  <-> In n (map fst items) \/ In n (Dict.keys d).
Proof.
  revert d. induction items as [|[k v] items IH]; intros d; simpl.
  - tauto.
  - rewrite IH, keys_set. simpl. intuition.
Qed.

Lemma filter_filter {A} (f g : A -> bool) (l : list A) :
  filter f (filter g l) = filter (fun x => g x && f x) l.
Proof.
  induction l as [|x l IH]; simpl; [reflexivity|].
  destruct (g x); simpl; [destruct (f x)|]; rewrite IH; reflexivity.
Qed.

(** Asking the user: what is matched and what stays unassigned is what
    the answers of the user give. *)
Lemma resolve_parameters_user (names : list string) (a : ApiPart) :
  forall matched unassigned s m' u' s',
    resolve_parameters names a matched unassigned s = Ret (m', u') s' ->
    let given :=
      resolved_by_user (lib s) (api_parameters a) names (keys s) (typed s) in
    m' = fold_left (fun d kv => Dict.set d (fst kv) (snd kv)) given matched
    /\ u' = filter (fun n => negb (mem n (map fst given))) unassigned.
Proof.
  induction names as [|name names IH]; intros matched unassigned s m' u' s' R; cbv zeta.
  - simpl in R. inversion R. subst. simpl. split; [reflexivity|].
    symmetry. apply forallb_filter_id. apply forallb_forall. reflexivity.
  - cbn [resolve_parameters] in R. unfold prompt in R. rewrite bind_say in R.
    apply bind_Ret in R. destruct R as ([alias value_] & s2 & Sel & R).
    unfold select_parameter in Sel. rewrite bind_gets in Sel. fields.
    destruct (firstn _ _) as [|x0 xs0] eqn:Fn; [discriminate Sel|].
    apply bind_Ret in Sel. destruct Sel as (i & s1 & S1 & Sel).
    apply select_Ret in S1. destruct S1 as (k & ks & Ks & -> & Ei).
    fields. cbn [resolved_by_user]. rewrite Ks. cbv zeta. rewrite <- Ei.
    assert (Next : forall v s3 typed3,
               lib s3 = lib s -> keys s3 = ks -> typed s3 = typed3 ->
               (exists s4, resolve_parameters names a (Dict.set matched name v)
                             (remove_name name unassigned) s4 = Ret (m', u') s'
                           /\ lib s4 = lib s3 /\ keys s4 = keys s3
                           /\ typed s4 = typed s3) ->
               m' = fold_left (fun d kv => Dict.set d (fst kv) (snd kv))
                      ((name, v) :: resolved_by_user (lib s) (api_parameters a) names
                                                      ks typed3) matched
               /\ u' = filter (fun n => negb (mem n (map fst
                          ((name, v) :: resolved_by_user (lib s) (api_parameters a)
                                                          names ks typed3))))
                              unassigned).
    { intros v s3 typed3 L3 K3 T3 (s4 & R4 & L4 & K4 & T4).
      destruct (IH _ _ _ _ _ _ R4) as [-> ->].
      rewrite L4, K4, T4, L3, K3, T3. split; [reflexivity|].
      unfold remove_name. rewrite filter_filter. apply filter_ext.
      intros n. unfold mem. simpl. unfold keqb. simpl.
      rewrite negb_orb. reflexivity. }
    destruct (i =? _)%nat.
    + inversion Sel. subst alias value_ s2.
      destruct (IH _ _ _ _ _ _ R) as [-> ->]. split; reflexivity.
    + destruct (i <? _)%nat.
      * unfold match_rank.
        destruct (nth_error _ i) as [[al v]|]; [|discriminate Sel].
        inversion Sel. subst alias value_ s2.
        apply (Next v (set_keys ks s) (typed s)); try reflexivity.
        destruct (negb (Str.truthy al)); [eexists; split; [exact R|]; repeat split|].
        rewrite bind_gets in R.
        destruct (Dict.get _ name) as [[|parameter [|? ?]]|];
          unfold warning, add_alias in R;
          rewrite ?bind_say, ?bind_modify, ?bind_modify in R;
          eexists; (split; [exact R|]); repeat split.
      * apply bind_Ret in Sel. destruct Sel as (v & s3 & T3 & Sel).
        apply prompt_input_Ret in T3. destruct T3 as (ts & Ty & ->).
        inversion Sel. subst alias value_ s2. fields. rewrite Ty.
        apply (Next v (set_typed ts (set_keys ks s)) ts); try reflexivity.
        eexists. split; [exact R|]. repeat split.
Qed.

Lemma filter_patch {A} (pk_of : A -> Z) (k : Z) (f : A -> A) (g : A -> bool)
  (l : list A) :
  (forall x, In x l -> pk_of x = k -> g x = false /\ g (f x) = false) ->
  filter g (patch pk_of k f l) = filter g l.
Proof.
  induction l as [|x l IH]; simpl; intros H; [reflexivity|].
  rewrite IH by (intros y I; apply H; right; exact I).
  destruct (Z.eqb_spec (pk_of x) k) as [E|E]; [|reflexivity].
  destruct (H x (or_introl eq_refl) E) as [-> ->]. reflexivity.
Qed.

(** What a pool task leaves: nothing new, or the parameter it made or
    saved; the task itself never leaves the pool with an exception. *)
Lemma create_parameter_cases (p : Part) (t : ParameterTemplate) (v : string) (s : St) :
  exists r s1,
    apply_async (create_parameter p t v) s = Ret r s1
    /\ settings s1 = settings s
    /\ ((parameters (repo s1) = parameters (repo s)
         /\ next_pk (repo s1) = next_pk (repo s))
        \/ (parameters (repo s1)
            = (parameters (repo s)
               ++ [{| param_pk := next_pk (repo s); param_part := part_pk p;
                      param_template := tpl_pk t; param_name := tpl_name t;
                      param_data := v |}])%list
            /\ next_pk (repo s1) = next_pk (repo s) + 1)).
Proof.
  unfold apply_async, create_parameter, catch, bind, Parameter_create, mutating.
  destruct (dry_run s).
  - eexists _, _. split; [reflexivity|]. split; [reflexivity | left; auto].
  - destruct (faults s) as [|[[|m|[b|]]|] fs]; eexists _, _;
      (split; [reflexivity|]); (split; [reflexivity|]); fields;
      first [left; split; reflexivity | right; split; reflexivity].
Qed.

Lemma update_parameter_cases (e : PartParameter) (v : string) (s : St) :
  exists r s1,
    apply_async (update_parameter e v) s = Ret r s1
    /\ settings s1 = settings s
    /\ next_pk (repo s1) = next_pk (repo s)
    /\ (parameters (repo s1) = parameters (repo s)
        \/ exists f,
             parameters (repo s1) = patch param_pk (param_pk e) f (parameters (repo s))
             /\ forall x, param_pk (f x) = param_pk x
                          /\ param_name (f x) = param_name x).
Proof.
  unfold apply_async, update_parameter, catch, bind, parameter_save, mutating.
  destruct (dry_run s).
  - eexists _, _. split; [reflexivity|]. repeat split; auto.
  - destruct (faults s) as [|[[|m|[b|]]|] fs]; simpl;
      try destruct (parameter_name _ e); eexists _, _;
      (split; [reflexivity|]); (split; [reflexivity|]); fields;
      (split; [reflexivity|]);
      first [left; reflexivity
            | right; eexists; split; [reflexivity | intros x; split; reflexivity]].
Qed.

Lemma create_parameter_answers (p : Part) (t : ParameterTemplate) (v : string)
  (upd : bool) (s : St) :
  tasks_answer upd s ->
  exists w s1,
    apply_async (create_parameter p t v) s = Ret (Returned w) s1
    /\ tasks_answer upd s1.
Proof.
  unfold tasks_answer, apply_async, create_parameter, catch, bind, Parameter_create,
    mutating.
  intros [D|[F|[U B]]].
  - rewrite D. eexists _, _. split; [reflexivity|]. left. exact D.
  - destruct (dry_run s) eqn:D.
    + eexists _, _. split; [reflexivity|]. left. exact D.
    + rewrite F. eexists _, _. split; [reflexivity|]. right. left. reflexivity.
  - destruct (dry_run s) eqn:D.
    + eexists _, _. split; [reflexivity|]. left. exact D.
    + destruct (faults s) as [|[[|m|[b|]]|] fs]; inversion B as [|? ? Hb Bs]; subst;
        try destruct Hb; simpl;
        eexists _, _; (split; [reflexivity|]); right; right; fields; auto.
Qed.

Lemma update_parameter_answers (e : PartParameter) (v : string) (s : St) :
  tasks_answer true s ->
  exists w s1,
    apply_async (update_parameter e v) s = Ret (Returned w) s1
    /\ tasks_answer true s1.
Proof.
  unfold tasks_answer, apply_async, update_parameter, catch, bind, parameter_save,
    mutating.
  intros [D|[F|[U B]]]; [| |discriminate U].
  - rewrite D. eexists _, _. split; [reflexivity|]. left. exact D.
  - destruct (dry_run s) eqn:D.
    + eexists _, _. split; [reflexivity|]. left. exact D.
    + rewrite F. eexists _, _. split; [reflexivity|]. right. left. reflexivity.
Qed.

Lemma entries_named_append (existing : list (string * PartParameter)) (r r' : Repo)
  (row : PartParameter) :
  entries_named existing r ->
  parameters r' = (parameters r ++ [row])%list ->
  param_pk row = next_pk r -> next_pk r' = next_pk r + 1 ->
  entries_named existing r'.
Proof.
  intros H P K N name e G. destruct (H name e G) as [B Nm]. split; [lia|].
  intros x I E. rewrite P in I. apply in_app_iff in I. destruct I as [I|[<-|[]]].
  - apply Nm; assumption.
  - lia.
Qed.

Lemma entries_named_patch (existing : list (string * PartParameter)) (r r' : Repo)
  (k : Z) (f : PartParameter -> PartParameter) :
  entries_named existing r ->
  parameters r' = patch param_pk k f (parameters r) ->
  (forall x, param_pk (f x) = param_pk x /\ param_name (f x) = param_name x) ->
  next_pk r' = next_pk r ->
  entries_named existing r'.
Proof.
  intros H P F N name e G. destruct (H name e G) as [B Nm]. split; [lia|].
  intros x I E. rewrite P in I. unfold patch in I. apply in_map_iff in I.
  destruct I as (y & <- & I).
  destruct (param_pk y =? k).
  - destruct (F y) as [Fk Fn]. rewrite Fn. apply Nm; [exact I | congruence].
  - apply Nm; assumption.
Qed.

Lemma entries_named_same (existing : list (string * PartParameter)) (r r' : Repo) :
  entries_named existing r ->
  parameters r' = parameters r -> next_pk r' = next_pk r ->
  entries_named existing r'.
Proof.
  intros H P N name e G. destruct (H name e G) as [B Nm]. split; [lia|].
  rewrite P. exact Nm.
Qed.

Lemma or_mild (r : ImportResult) : mild r -> mild (r |r INCOMPLETE).
Proof. intros [->| ->]; right; reflexivity. Qed.

Lemma apply_parameters_spec (p : Part) (existing : list (string * PartParameter))
  (upd : bool) (items : list (string * string)) :
  forall s async ir async' ir' s',
    (forall name t, Dict.get (parameter_templates s) name = Some t -> tpl_name t = name) ->
    entries_named existing (repo s) ->
    apply_parameters items p existing upd async ir s = Ret (async', ir') s' ->
    mild ir ->
    mild ir'
    /\ entries_named existing (repo s')
    /\ (forall n, ~ In n (map fst items) ->
                  rows_named n (repo s') = rows_named n (repo s)).
Proof.
  induction items as [|[name v] items IH]; intros s async ir async' ir' s' T EN R Mi.
  - simpl in R. inversion R. subst. auto.
  - simpl in R.
    assert (Skip : forall n, ~ In n (map fst ((name, v) :: items)) ->
                             ~ In n (map fst items)).
    { intros n N I. apply N. right. exact I. }
    destruct (negb (Str.truthy (sanitize_parameter_value v))).
    { destruct (IH _ _ _ _ _ _ T EN R Mi) as (M' & E' & Rw). auto. }
    destruct (Dict.get existing name) as [e|] eqn:G.
    + destruct (upd && negb (String.eqb (param_data e) (sanitize_parameter_value v))).
      * destruct (update_parameter_cases e (sanitize_parameter_value v) s)
          as (r1 & s1 & R1 & S1 & N1 & C1).
        rewrite (bind_of_Ret _ _ _ _ _ R1) in R.
        assert (T1 : forall name t, Dict.get (parameter_templates s1) name = Some t ->
                                    tpl_name t = name).
        { rewrite (settings_templates _ _ S1). exact T. }
        destruct C1 as [C1|(f & C1 & Ff)].
        -- destruct (IH _ _ _ _ _ _ T1 (entries_named_same _ _ _ EN C1 N1) R Mi)
             as (M' & E' & Rw).
           split; [exact M'|]. split; [exact E'|]. intros n N. rewrite (Rw n (Skip n N)).
           unfold rows_named. rewrite C1. reflexivity.
        -- destruct (IH _ _ _ _ _ _ T1 (entries_named_patch _ _ _ _ _ EN C1 Ff N1) R Mi)
             as (M' & E' & Rw).
           split; [exact M'|]. split; [exact E'|]. intros n N. rewrite (Rw n (Skip n N)).
           unfold rows_named. rewrite C1. apply filter_patch.
           intros x I E. destruct (EN name e G) as [_ Nm].
           destruct (Ff x) as [_ Fn]. rewrite Fn, (Nm x I E).
           assert (name <> n) by (intros ->; apply N; left; reflexivity).
           destruct (String.eqb_spec name n); [contradiction | auto].
      * destruct (IH _ _ _ _ _ _ T EN R Mi) as (M' & E' & Rw). auto.
    + rewrite bind_gets in R.
      destruct (Dict.get (parameter_templates s) name) as [t|] eqn:Gt.
      * destruct (create_parameter_cases p t (sanitize_parameter_value v) s)
          as (r1 & s1 & R1 & S1 & C1).
        rewrite (bind_of_Ret _ _ _ _ _ R1) in R.
        assert (T1 : forall name t, Dict.get (parameter_templates s1) name = Some t ->
                                    tpl_name t = name).
        { rewrite (settings_templates _ _ S1). exact T. }
        destruct C1 as [[C1 N1]|[C1 N1]].
        -- destruct (IH _ _ _ _ _ _ T1 (entries_named_same _ _ _ EN C1 N1) R Mi)
             as (M' & E' & Rw).
           split; [exact M'|]. split; [exact E'|]. intros n N. rewrite (Rw n (Skip n N)).
           unfold rows_named. rewrite C1. reflexivity.
        -- destruct (IH _ _ _ _ _ _ T1
                        (entries_named_append _ _ _ _ EN C1 eq_refl N1) R Mi)
             as (M' & E' & Rw).
           split; [exact M'|]. split; [exact E'|]. intros n N. rewrite (Rw n (Skip n N)).
           unfold rows_named. rewrite C1, filter_app. simpl.
           rewrite (T name t Gt).
           assert (name <> n) by (intros ->; apply N; left; reflexivity).
           destruct (String.eqb_spec name n); [contradiction | apply app_nil_r].
      * rewrite bind_gets in R. destruct (negb (dry_run s)).
        -- unfold warning in R. rewrite bind_say in R.
           destruct (IH (set_console ((L_warning, Msg_no_template name) :: console s) s)
                        _ _ _ _ _ T EN R (or_mild _ Mi)) as (M' & E' & Rw). auto.
        -- destruct (IH _ _ _ _ _ _ T EN R Mi) as (M' & E' & Rw). auto.
Qed.

Lemma collect_results_spec (async : list TaskResult) :
  forall ir s r s',
    collect_results async ir s = Ret r s' ->
    mild ir -> mild r /\ repo s' = repo s.
Proof.
  induction async as [|[[w|]|e] async IH]; intros ir s r s' R Mi; simpl in R.
  - inversion R. subst. auto.
  - rewrite bind_ret in R. unfold warning in R. rewrite bind_say in R.
    destruct (IH _ _ _ _ R (or_mild _ Mi)) as [M' Rp]. auto.
  - rewrite bind_ret in R. eapply IH; eauto.
  - discriminate R.
Qed.

Lemma prints_run (l : list (string * string)) :
  forall s,
    for_each l (fun item => print (Msg_parameter (fst item) (snd item))) s
    = Ret tt
        (fold_left
           (fun s item =>
              set_console ((L_print, Msg_parameter (fst item) (snd item))
                           :: console s) s) l s).
Proof.
  induction l as [|x l IH]; intros s.
  - reflexivity.
  - simpl. unfold print at 1. rewrite bind_say. apply IH.
Qed.

Lemma printed_frame (a : ApiPart) (s : St) : frame_console s (printed a s).
Proof.
  unfold printed.
  assert (H : forall l s0,
             frame_console s0
               (fold_left
                  (fun s item =>
                     set_console ((L_print, Msg_parameter (fst item) (snd item))
                                  :: console s) s) l s0)).
  { induction l as [|x l IH]; intros s0; simpl.
    - apply frame_console_refl.
    - eapply frame_console_trans; [|apply IH].
      unfold frame_console. simpl. intuition. }
  eapply frame_console_trans; [|apply H].
  unfold frame_console. simpl. intuition.
Qed.

(** The first half of [setup_parameters] prints and computes. *)
Lemma setup_parameters_eq (s : St) (p : Part) (a : ApiPart) (upd : bool)
  (c : Category) :
  Dict.get (part_category_to_category s) (part_category p) = Some c ->
  setup_parameters (Some p) a upd s
  = finish_parameters p a upd (existing_parameters_of (repo s) p)
                      (matched_by_alias s c a) (unassigned_of s p c a)
                      (interactive s) (printed a s).
Proof.
  intros G. unfold setup_parameters. rewrite bind_gets, bind_gets, G.
  unfold Parameter_list, print. rewrite bind_gets, bind_say. cbv zeta.
  rewrite (bind_of_Ret _ _ _ _ _ (prints_run _ _)).
  fold (printed a s). rewrite bind_gets, bind_gets.
  destruct (printed_frame a s) as (S1 & _ & P1 & _).
  rewrite P1, (settings_interactive _ _ S1). reflexivity.
Qed.

Lemma entries_named_wf (r : Repo) (p : Part) :
  parameters_wf r -> entries_named (existing_parameters_of r p) r.
Proof.
  intros [ND B] name e G. apply get_of_items in G. apply in_map_iff in G.
  destruct G as (e' & E & I). inversion E. subst e' name.
  apply filter_In in I. destruct I as [I _].
  split; [apply B; exact I|].
  intros row Ir Ek. f_equal. eapply NoDup_map_eq; eauto.
Qed.

Lemma In_difference {K} `{Key K} (x : K) (a b : list K) :
  In x (difference a b) <-> In x a /\ ~ In x b.
Proof.
  unfold difference. rewrite filter_In. rewrite <- (mem_In x b).
  destruct (mem x b); simpl; intuition congruence.
Qed.

Lemma In_dedup {K} `{Key K} (x : K) (l : list K) : In x (dedup l) <-> In x l.
Proof.
  induction l as [|y l IH]; simpl; [tauto|].
  rewrite filter_In, IH. split.
  - intros [->|[I _]]; auto.
  - intros [->|I]; auto.
    destruct (keqb y x) eqn:E.
    + apply keqb_eq in E. auto.
    + right. split; [exact I | reflexivity].
Qed.

Lemma In_unassigned_of (s : St) (p : Part) (c : Category) (a : ApiPart) (n : string) :
  In n (unassigned_of s p c a)
  <-> (In n (cat_parameters c) /\ ~ In n (already_set_of (repo s) p))
      /\ ~ In n (Dict.keys (matched_by_alias s c a)).
Proof.
  unfold unassigned_of. rewrite !In_difference, In_dedup. tauto.
Qed.

(** When the tasks all give an answer, no result of the pool holds an
    exception. *)
Lemma apply_parameters_answers (p : Part) (existing : list (string * PartParameter))
  (upd : bool) (items : list (string * string)) :
  forall s async ir,
    tasks_answer upd s -> Forall returned async ->
    exists async' ir' s',
      apply_parameters items p existing upd async ir s = Ret (async', ir') s'
      /\ Forall returned async'.
Proof.
  induction items as [|[name v] items IH]; intros s async ir A Fa; simpl.
  - eexists _, _, _. split; [reflexivity | exact Fa].
  - destruct (negb (Str.truthy (sanitize_parameter_value v))); [apply IH; assumption|].
    destruct (Dict.get existing name) as [e|].
    + destruct upd; simpl; [|apply IH; assumption].
      destruct (negb _); [|apply IH; assumption].
      destruct (update_parameter_answers e (sanitize_parameter_value v) s A)
        as (w & s1 & R1 & A1).
      rewrite (bind_of_Ret _ _ _ _ _ R1). apply IH; [exact A1|].
      apply Forall_app. split; [exact Fa | repeat constructor].
    + rewrite bind_gets. destruct (Dict.get (parameter_templates s) name) as [t|].
      * destruct (create_parameter_answers p t (sanitize_parameter_value v) upd s A)
          as (w & s1 & R1 & A1).
        rewrite (bind_of_Ret _ _ _ _ _ R1). apply IH; [exact A1|].
        apply Forall_app. split; [exact Fa | repeat constructor].
      * rewrite bind_gets. destruct (negb (dry_run s)); [|apply IH; assumption].
        unfold warning. rewrite bind_say. apply IH; assumption.
Qed.

Lemma collect_results_returns (async : list TaskResult) :
  Forall returned async ->
  forall ir s, exists r s', collect_results async ir s = Ret r s'.
Proof.
  induction async as [|[[w|]|e] async IH]; intros Fa ir s; simpl.
  - eexists _, _. reflexivity.
  - inversion Fa. subst. rewrite bind_ret. unfold warning. rewrite bind_say.
    apply IH. assumption.
  - inversion Fa. subst. rewrite bind_ret. apply IH. assumption.
  - inversion Fa as [|? ? X]. destruct X.
Qed.

(** Without a user to ask, [finish_parameters] returns when the tasks
    all give an answer. *)
Lemma finish_parameters_returns (p : Part) (a : ApiPart) (upd : bool)
  (existing : list (string * PartParameter)) (matched : list (string * string))
  (unassigned : list string) (s : St) :
  tasks_answer upd s ->
  exists r s', finish_parameters p a upd existing matched unassigned false s = Ret r s'.
Proof.
  intros A. unfold finish_parameters, ask_parameters. rewrite andb_false_r, bind_ret.
  destruct (apply_parameters_answers p existing upd matched s [] SUCCESS A
              (Forall_nil _))
    as (async & ir & s2 & R2 & Fa).
  rewrite (bind_of_Ret _ _ _ _ _ R2).
  assert (R3 : exists s3, (if negb (is_nil async) then info Msg_updating_parameters
                           else ret tt) s2 = Ret tt s3).
  { destruct (negb (is_nil async)); eexists; reflexivity. }
  destruct R3 as (s3 & R3). rewrite (bind_of_Ret _ _ _ _ _ R3).
  destruct (collect_results_returns async Fa ir s3) as (ir4 & s4 & R4).
  rewrite (bind_of_Ret _ _ _ _ _ R4).
  destruct (negb (is_nil unassigned)).
  - unfold warning. rewrite bind_say. eexists _, _. reflexivity.
  - eexists _, _. reflexivity.
Qed.

(** Whether a name is set on a part depends on the parameters of that
    name only. *)
Lemma get_existing_parameters (r r' : Repo) (p : Part) (n : string) :
  rows_named n r' = rows_named n r ->
  Dict.get (existing_parameters_of r' p) n = Dict.get (existing_parameters_of r p) n.
Proof.
  assert (F : forall r0,
             Dict.get (existing_parameters_of r0 p) n
             = Dict.get
                 (Dict.of_items
                    (map (fun row => (param_name row, row))
                         (filter (fun row => param_part row =? part_pk p)
                                 (rows_named n r0)))) n).
  { intros r0. unfold existing_parameters_of. rewrite get_of_items_filter.
    f_equal. f_equal. unfold rows_named.
    induction (parameters r0) as [|row rows IH]; [reflexivity|].
    cbn [filter map].
    destruct (param_part row =? part_pk p) eqn:Ep;
      destruct (String.eqb (param_name row) n) eqn:En;
      cbn [filter map fst]; rewrite ?Ep;
      change (keqb (param_name row) n) with (String.eqb (param_name row) n);
      rewrite ?En, IH; reflexivity. }
  intros E. rewrite (F r'), (F r), E. reflexivity.
Qed.

Lemma In_already_set (r : Repo) (p : Part) (n : string) :
  In n (already_set_of r p)
  <-> exists row, Dict.get (existing_parameters_of r p) n = Some row
                  /\ Str.truthy (param_data row) = true.
Proof.
  unfold already_set_of. rewrite in_map_iff. split.
  - intros ([n0 row] & E & I). simpl in E. subst n0.
    apply filter_In in I. destruct I as [I T]. exists row. split; [|exact T].
    apply In_get; [|exact I]. unfold existing_parameters_of.
    apply NoDup_keys_of_items.
  - intros (row & G & T). exists (n, row). split; [reflexivity|].
    apply filter_In. split; [apply get_In; exact G | exact T].
Qed.

(** What asking the user gives is what the answers of the user give. *)
Lemma ask_parameters_user (s : St) (p : Part) (c : Category) (a : ApiPart)
  (m1 : list (string * string)) (u1 : list string) (s1 : St) :
  ask_parameters a (matched_by_alias s c a) (unassigned_of s p c a)
                 (interactive s) (printed a s) = Ret (m1, u1) s1 ->
  m1 = matched_of s p c a /\ u1 = unmatched_of s p c a
  /\ frame_ask (printed a s) s1.
Proof.
  intros R1. pose proof (printed_frame a s) as Fp. set (sp := printed a s) in *.
  unfold ask_parameters in R1. unfold matched_of, unmatched_of, given_by_user.
  destruct (negb (is_nil (unassigned_of s p c a)) && interactive s) eqn:Cnd.
  - unfold prompt in R1. rewrite bind_say in R1.
    pose proof (resolve_parameters_ask (unassigned_of s p c a) a
                  (matched_by_alias s c a) (unassigned_of s p c a)
                  (set_console ((L_prompt, Msg_unmatched_prompt (supplier_link a))
                                :: console sp) sp)) as K.
    rewrite R1 in K. simpl in K.
    apply resolve_parameters_user in R1. cbv zeta in R1. fields.
    destruct Fp as (S1 & _ & _ & _ & _ & _ & K1 & T1 & _).
    apply settings_eq in S1. destruct S1 as (L1 & _).
    rewrite L1, K1, T1 in R1. destruct R1 as [-> ->].
    split; [reflexivity|]. split; [reflexivity|].
    eapply frame_ask_trans; [|exact K]. unfold frame_ask. simpl. intuition.
  - inversion R1. subst. split; [reflexivity|]. split; [|apply frame_ask_refl].
    simpl. symmetry. apply forallb_filter_id. apply forallb_forall. reflexivity.
Qed.

(** C6. Parameter reconciliation for a part whose category is known.
    The matched parameters are those found through the alias table and
    those the user gave a value (asked, when the importer is interactive,
    for every required name that is neither found nor already set: a
    value picked or typed counts, "Skip ..." does not). The required
    names that are neither matched so nor already set on the part are the
    names the last warning reports; when there is such a name the result
    is INCOMPLETE, and no parameter of such a name is made or changed, so
    the part still lacks it. Without a user to ask, the reconciliation
    returns when no parameter task is left with an exception: in a dry
    run, when no request fails, or when it updates no parameter and the
    failing requests carry a body. *)
Theorem unmatched_parameters_reported (s : St) (p : Part) (a : ApiPart)
  (upd : bool) (c : Category) :
  Dict.get (part_category_to_category s) (part_category p) = Some c ->
  parameters_wf (repo s) ->
  (forall name t, Dict.get (parameter_templates s) name = Some t -> tpl_name t = name) ->
  let matched := matched_of s p c a in
  let unassigned := unmatched_of s p c a in
  (interactive s = false -> tasks_answer upd s ->
   exists r s', setup_parameters (Some p) a upd s = Ret r s')
  /\ (interactive s = false -> matched = matched_by_alias s c a)
  /\ (forall n, In n unassigned <->
                In n (cat_parameters c)
                /\ ~ In n (Dict.keys matched)
                /\ ~ In n (already_set_of (repo s) p))
  /\ forall r s',
      setup_parameters (Some p) a upd s = Ret r s' ->
      (exists s1,
          ask_parameters a (matched_by_alias s c a) (unassigned_of s p c a)
                         (interactive s) (printed a s)
          = Ret (matched, unassigned) s1)
      /\ (unassigned <> [] ->
          r = INCOMPLETE
          /\ exists before,
               console s'
               = (L_warning, Msg_unmatched_parameters unassigned) :: before)
      /\ (forall n, In n unassigned ->
                    rows_named n (repo s') = rows_named n (repo s)
                    /\ ~ In n (already_set_of (repo s') p)).
Proof.
  intros G WF T matched unassigned.
  assert (Grow : forall n, In n (Dict.keys matched)
                           <-> In n (map fst (given_by_user s p c a))
                               \/ In n (Dict.keys (matched_by_alias s c a))).
  { intros n. unfold matched, matched_of. apply keys_fold_set. }
  assert (Inv : forall n, In n unassigned <->
                          In n (cat_parameters c)
                          /\ ~ In n (Dict.keys matched)
                          /\ ~ In n (already_set_of (repo s) p)).
  { intros n. unfold unassigned, unmatched_of. rewrite filter_In, Grow, In_unassigned_of.
    rewrite negb_true_iff. rewrite <- not_true_iff_false, mem_In.
    split; [tauto|]. intros (I1 & I2 & I3). tauto. }
  split; [|split; [|split; [exact Inv|]]].
  { intros I A. rewrite (setup_parameters_eq s p a upd c G), I.
    apply finish_parameters_returns.
    destruct (printed_frame a s) as (S1 & _ & _ & _ & _ & F1 & _).
    unfold tasks_answer. rewrite (settings_dry_run _ _ S1), F1. exact A. }
  { intros I. unfold matched, matched_of, given_by_user.
    rewrite I, andb_false_r. reflexivity. }
  intros r s' R.
  rewrite (setup_parameters_eq s p a upd c G) in R.
  pose proof (printed_frame a s) as Fp. set (sp := printed a s) in *.
  unfold finish_parameters in R.
  apply bind_Ret in R. destruct R as ([m1 u1] & s1 & R1 & R).
  apply bind_Ret in R. destruct R as ([async ir] & s2 & R2 & R).
  apply bind_Ret in R. destruct R as (u3 & s3 & R3 & R).
  apply bind_Ret in R. destruct R as (ir4 & s4 & R4 & R).
  destruct (ask_parameters_user s p c a m1 u1 s1 R1) as (-> & -> & Fa).
  fold sp in Fa. fold matched unassigned in R1, R2, R.
  assert (Rs1 : repo s1 = repo s /\ settings s1 = settings s).
  { destruct Fp as (S1 & _ & _ & Rp & _). destruct Fa as (S2 & _ & Ra & _).
    split; congruence. }
  destruct Rs1 as [Rs1 Ss1].
  assert (T1 : forall name t, Dict.get (parameter_templates s1) name = Some t ->
                              tpl_name t = name).
  { rewrite (settings_templates _ _ Ss1). exact T. }
  assert (EN : entries_named (existing_parameters_of (repo s) p) (repo s1)).
  { rewrite Rs1. apply entries_named_wf. exact WF. }
  destruct (apply_parameters_spec _ _ _ _ _ _ _ _ _ _ T1 EN R2 (or_introl eq_refl))
    as (Mi & _ & Rows).
  assert (Rs3 : repo s3 = repo s2).
  { destruct (negb (is_nil async)); inversion R3; reflexivity. }
  destruct (collect_results_spec _ _ _ _ _ R4 Mi) as [Mi4 Rs4].
  assert (Rs' : repo s' = repo s4).
  { destruct (negb (is_nil unassigned)); inversion R; reflexivity. }
  split; [exists s1; exact R1|]. split.
  - intros NE. destruct unassigned as [|n0 u0]; [contradiction|].
    cbn [is_nil negb] in R. unfold warning in R. rewrite bind_say in R.
    inversion R. subst. split.
    + destruct Mi4 as [->| ->]; reflexivity.
    + eexists. reflexivity.
  - intros n I. apply Inv in I. destruct I as (_ & NM & NS).
    assert (Same : rows_named n (repo s') = rows_named n (repo s)).
    { transitivity (rows_named n (repo s2)).
      - unfold rows_named. rewrite Rs', Rs4, Rs3. reflexivity.
      - rewrite (Rows n NM). unfold rows_named. rewrite Rs1. reflexivity. }
    split; [exact Same|]. intros Set'. apply NS.
    apply In_already_set in Set'. apply In_already_set.
    rewrite (get_existing_parameters _ _ p n Same) in Set'. exact Set'.
Qed.

(** At [ex_asked] the category requires the resistance, the tolerance
    and the power, and the alias table finds the resistance. Asked for
    the tolerance the user types a value, asked for the power the user
    skips: the power is reported, the result is INCOMPLETE, and the part
    has no parameter of that name. *)
Lemma unmatched_parameters_reported_witness :
  let s' := final (setup_parameters (Some ex_stored_part) ex_candidate false
                                    ex_asked) in
  matched_of ex_asked ex_stored_part ex_three_parameters ex_candidate
  = [("Resistance", "10 Ohms"); ("Tolerance", "1%")]
  /\ unmatched_of ex_asked ex_stored_part ex_three_parameters ex_candidate = ["Power"]
  /\ setup_parameters (Some ex_stored_part) ex_candidate false ex_asked
     = Ret INCOMPLETE s'
  /\ (exists before,
         console s' = (L_warning, Msg_unmatched_parameters ["Power"]) :: before)
  /\ rows_named "Power" (repo s') = []
  /\ map param_name (parameters (repo s')) = ["Resistance"; "Tolerance"].
Proof.
  cbv zeta.
  assert (R : setup_parameters (Some ex_stored_part) ex_candidate false ex_asked
              = Ret INCOMPLETE
                    (final (setup_parameters (Some ex_stored_part) ex_candidate false
                                             ex_asked)))
    by (vm_compute; reflexivity).
  assert (M : matched_of ex_asked ex_stored_part ex_three_parameters ex_candidate
              = [("Resistance", "10 Ohms"); ("Tolerance", "1%")])
    by (vm_compute; reflexivity).
  assert (U : unmatched_of ex_asked ex_stored_part ex_three_parameters ex_candidate
              = ["Power"])
    by (vm_compute; reflexivity).
  destruct (unmatched_parameters_reported ex_asked ex_stored_part ex_candidate false
              ex_three_parameters eq_refl)
    as (_ & _ & _ & After).
  - split; [constructor | intros row []].
  - intros name t G.
    change (Dict.get [("Resistance", {| tpl_pk := 50; tpl_name := "Resistance" |});
                      ("Tolerance", {| tpl_pk := 51; tpl_name := "Tolerance" |})]
                     name = Some t) in G.
    cbn [Dict.get] in G.
    destruct (keqb "Resistance" name) eqn:E1;
      [apply keqb_eq in E1; inversion G; subst; reflexivity|].
    destruct (keqb "Tolerance" name) eqn:E2;
      [apply keqb_eq in E2; inversion G; subst; reflexivity | discriminate G].
  - destruct (After _ _ R) as (_ & Report & Rows).
    rewrite U in Report, Rows.
    destruct (Report ltac:(discriminate)) as (_ & C).
    destruct (Rows "Power" (or_introl eq_refl)) as (Same & _).
    split; [exact M|]. split; [exact U|]. split; [exact R|].
    split; [exact C|]. split; [rewrite Same; reflexivity|].
    vm_compute. reflexivity.
Defined.

(** ** What the import of a candidate leaves alone *)

Lemma frame_core_refl (s : St) : frame_core s s.
Proof. unfold frame_core. intuition. Qed.

Lemma frame_core_trans (a b c : St) :
  frame_core a b -> frame_core b c -> frame_core a c.
Proof. unfold frame_core. intuition congruence. Qed.

Ltac leaf_core :=
  leaf_of frame_core_refl frame_core_trans
          ltac:(unfold frame_core; simpl; intuition congruence).

Lemma select_category_loop_core (cats : list Category) (n : nat) (rounds : nat) :
  keeps frame_core (select_category_loop rounds cats n).
Proof.
  revert cats n. induction rounds as [|rounds IH]; intros cats n; simpl;
    keeps_with leaf_core.
Qed.

#[local] Hint Resolve select_category_loop_core : keeps.

Lemma select_category_core (path : list string) :
  keeps frame_core (select_category path).
Proof. keeps_with leaf_core. Qed.

#[local] Hint Resolve select_category_core : keeps.

Lemma create_manufacturer_part_core (a : ApiPart) (part : option Part) :
  keeps frame_core (create_manufacturer_part a part).
Proof. keeps_with leaf_core. Qed.

#[local] Hint Resolve create_manufacturer_part_core : keeps.

Lemma choose_manufacturer_part_core (sp : option SupplierPart) (a : ApiPart)
  (part : option Part) :
  keeps frame_core (choose_manufacturer_part sp a part).
Proof. keeps_with leaf_core. Qed.

#[local] Hint Resolve choose_manufacturer_part_core : keeps.

Lemma sync_part_core (a : ApiPart) (mp : ManufacturerPart) (part : option Part)
  (upd : bool) :
  keeps frame_core (sync_part a mp part upd).
Proof. keeps_with leaf_core. Qed.

#[local] Hint Resolve sync_part_core : keeps.

Lemma price_break_loop_core (existing : list (Z * SupplierPriceBreak))
  (sp : SupplierPart) (a : ApiPart) (items : list (Z * Q)) (u : bool) :
  keeps frame_core (price_break_loop existing sp a items u).
Proof.
  revert u. induction items as [|[q p] items IH]; intros u; simpl;
    keeps_with leaf_core.
Qed.

#[local] Hint Resolve price_break_loop_core : keeps.

Lemma setup_price_breaks_core (sp : SupplierPart) (a : ApiPart) :
  keeps frame_core (setup_price_breaks sp a).
Proof. keeps_with leaf_core. Qed.

#[local] Hint Resolve setup_price_breaks_core : keeps.

Lemma select_parameter_core (name : string) (ps : list (string * string)) :
  keeps frame_core (select_parameter name ps).
Proof. keeps_with leaf_core. Qed.

#[local] Hint Resolve select_parameter_core : keeps.

Lemma resolve_parameters_core (names : list string) (a : ApiPart)
  (matched : list (string * string)) (unassigned : list string) :
  keeps frame_core (resolve_parameters names a matched unassigned).
Proof.
  revert matched unassigned.
  induction names as [|n names IH]; intros matched unassigned; simpl;
    keeps_with leaf_core.
Qed.

#[local] Hint Resolve resolve_parameters_core : keeps.

Lemma apply_parameters_core (p : Part) (existing : list (string * PartParameter))
  (upd : bool) (items : list (string * string)) (async : list TaskResult)
  (ir : ImportResult) :
  keeps frame_core (apply_parameters items p existing upd async ir).
Proof.
  revert async ir. induction items as [|[name v] items IH]; intros async ir; simpl;
    keeps_with leaf_core.
Qed.

#[local] Hint Resolve apply_parameters_core : keeps.

Lemma collect_results_core (async : list TaskResult) (ir : ImportResult) :
  keeps frame_core (collect_results async ir).
Proof.
  revert ir. induction async as [|result async IH]; intros ir; simpl;
    keeps_with leaf_core.
Qed.

#[local] Hint Resolve collect_results_core : keeps.

Lemma setup_parameters_core (part : option Part) (a : ApiPart) (upd : bool) :
  keeps frame_core (setup_parameters part a upd).
Proof. keeps_with leaf_core. Qed.

#[local] Hint Resolve setup_parameters_core : keeps.

Lemma mutating_Ret {A} (dry : A) (f : Repo -> A * Repo * Write) (s s' : St) (a : A) :
  mutating dry f s = Ret a s' ->
  (dry_run s = true /\ a = dry /\ s' = s)
  \/ (dry_run s = false
      /\ a = fst (fst (f (repo s)))
      /\ s' = set_repo (snd (fst (f (repo s))))
                (set_writes (snd (f (repo s)) :: writes s)
                            (set_faults (tl (faults s)) s))).
Proof.
  unfold mutating. destruct (dry_run s).
  - intros E. inversion E. left. repeat split.
  - destruct (faults s) as [|[e|] fs]; destruct (f (repo s)) as [[x r0] w];
      intros E; inversion E; right; repeat split.
Qed.

Lemma create_manufacturer_part_inl (a : ApiPart) (part : option Part) (s s' : St)
  (r : ImportResult) :
  create_manufacturer_part a part s = Ret (inl r) s' -> r = FAILURE.
Proof.
  unfold create_manufacturer_part, make_manufacturer_part, create_in_category.
  intros R. apply bind_Ret in R. destruct R as (found & s1 & _ & R).
  assert (Mk : forall p s2,
             bind (create_manufacturer (manufacturer a))
                  (fun m => info (Msg_creating_manufacturer_part (MPN a)) ;;
                            mp <- ManufacturerPart_create (part_pk p) (company_pk m) a ;;
                            ret (inr (mp, p))) s2 = Ret (inl r) s' -> False).
  { intros p s2 Q. apply bind_Ret in Q. destruct Q as (m & s3 & _ & Q).
    apply bind_Ret in Q. destruct Q as (u & s4 & _ & Q).
    apply bind_Ret in Q. destruct Q as (mp & s5 & _ & Q). inversion Q. }
  destruct found as [p|].
  - apply bind_Ret in R. destruct R as (p' & s2 & _ & R). destruct (Mk _ _ R).
  - rewrite bind_gets in R.
    destruct (first_category _ _) as [c|].
    + apply bind_Ret in R. destruct R as (u & s2 & _ & R).
      apply bind_Ret in R. destruct R as (p & s3 & _ & R). destruct (Mk _ _ R).
    + rewrite bind_gets in R. destruct (negb (interactive s1)).
      * unfold error in R. rewrite bind_say in R. inversion R. reflexivity.
      * unfold prompt in R. rewrite bind_say in R.
        apply bind_Ret in R. destruct R as ([c|] & s2 & _ & R).
        -- apply bind_Ret in R. destruct R as (u & s3 & _ & R).
           apply bind_Ret in R. destruct R as (u' & s4 & _ & R).
           apply bind_Ret in R. destruct R as (p & s5 & _ & R). destruct (Mk _ _ R).
        -- inversion R. reflexivity.
Qed.

Lemma choose_manufacturer_part_inl (osp : option SupplierPart) (a : ApiPart)
  (part : option Part) (s s' : St) (r : ImportResult) :
  choose_manufacturer_part osp a part s = Ret (inl r) s' -> r = FAILURE.
Proof.
  unfold choose_manufacturer_part. intros R.
  destruct (match osp with Some sp => sp_manufacturer_part sp | None => None end).
  - apply bind_Ret in R. destruct R as (m & s1 & _ & R). inversion R.
  - apply bind_Ret in R. destruct R as ([m|] & s1 & _ & R); [inversion R|].
    rewrite bind_gets in R.
    destruct (existing_manufacturer_part s1); [inversion R|].
    destruct (negb (finalize a)); [inversion R; reflexivity|].
    apply bind_Ret in R. destruct R as ([r0|[mp p]] & s2 & C & R); inversion R.
    subst. eapply create_manufacturer_part_inl. exact C.
Qed.

Lemma sync_part_inl (a : ApiPart) (mp : ManufacturerPart) (part : option Part)
  (upd : bool) (s s' : St) (r : ImportResult) :
  sync_part a mp part upd s = Ret (inl r) s' -> r = FAILURE.
Proof.
  unfold sync_part. intros R.
  apply bind_Ret in R. destruct R as (p & s1 & _ & R).
  destruct (upd && negb (finalize a)); [inversion R; reflexivity|].
  apply bind_Ret in R. destruct R as (p' & s2 & _ & R).
  apply bind_Ret in R. destruct R as (u & s3 & _ & R).
  apply bind_Ret in R. destruct R as (l & s4 & _ & R).
  apply bind_Ret in R. destruct R as (u' & s5 & _ & R). inversion R.
Qed.

(** [import_supplier_part] from line 166 on returns FAILURE before it
    stores anything, or it stores the supplier-part for the
    manufacturer-part it is given. *)
Lemma finish_supplier_part_Ret (supplier : Company) (a : ApiPart)
  (osp : option SupplierPart) (mp : ManufacturerPart) (part : option Part)
  (loc : option Z) (amount : Z) (s s' : St) (r : ImportResult) :
  finish_supplier_part supplier a osp mp part loc amount s = Ret r s' ->
  (r = FAILURE /\ frame_core s s')
  \/ (exists part2 ir s2,
         frame_core s s2
         /\ store_supplier_part supplier a osp mp part2 loc amount ir s2 = Ret r s').
Proof.
  intros R. unfold finish_supplier_part in R. rewrite bind_gets, bind_gets in R.
  apply bind_Ret in R. destruct R as (synced & s3 & R3 & R).
  match type of R3 with ?m s = _ =>
    assert (K3 : keeps frame_core m) by keeps_with leaf_core;
    specialize (K3 s); rewrite R3 in K3; simpl in K3
  end.
  destruct synced as [r0|part2].
  - left. inversion R. subst. split; [|exact K3].
    destruct (negb (dry_run s)); [|inversion R3].
    apply bind_Ret in R3. destruct R3 as ([r1|p] & s4 & Sy & R3); inversion R3.
    subst. eapply sync_part_inl. exact Sy.
  - apply bind_Ret in R. destruct R as (ir & s4 & R4 & R).
    match type of R4 with ?m s3 = _ =>
      assert (K4 : keeps frame_core m) by keeps_with leaf_core;
      specialize (K4 s3); rewrite R4 in K4; simpl in K4
    end.
    right. exists part2, ir, s4. split; [|exact R].
    eapply frame_core_trans; eauto.
Qed.

(** [import_supplier_part] returns FAILURE before it stores anything, or
    it stores the supplier-part for the manufacturer-part it chose. *)
Lemma import_supplier_part_Ret (supplier : Company) (a : ApiPart)
  (part : option Part) (loc : option Z) (amount : Z) (s s' : St)
  (r : ImportResult) :
  import_supplier_part supplier a part loc amount s = Ret r s' ->
  (r = FAILURE /\ frame_core s s')
  \/ (exists mp part2 ir s2,
         frame_core s s2
         /\ store_supplier_part supplier a
              (find (fun p => String.eqb (sp_SKU p) (SKU a)) (supplier_parts (repo s)))
              mp part2 loc amount ir s2 = Ret r s').
Proof.
  unfold import_supplier_part, get_supplier_part. rewrite bind_gets.
  set (osp := find _ _). intros R.
  apply bind_Ret in R. destruct R as (u & s1 & R1 & R).
  assert (F1 : frame_core s s1).
  { assert (K : keeps frame_core
                  (match osp with
                   | Some sp => info (Msg_found_existing (company_name supplier) (sp_SKU sp))
                   | None => info (Msg_importing (company_name supplier) (SKU a))
                   end)) by keeps_with leaf_core.
    specialize (K s). rewrite R1 in K. exact K. }
  apply bind_Ret in R. destruct R as (chosen & s2 & R2 & R).
  assert (F2 : frame_core s s2).
  { pose proof (choose_manufacturer_part_core osp a part s1) as K.
    rewrite R2 in K. eapply frame_core_trans; [exact F1 | exact K]. }
  destruct chosen as [r0|[mp part1]].
  - left. inversion R. subst.
    split; [eapply choose_manufacturer_part_inl; exact R2 | exact F2].
  - apply finish_supplier_part_Ret in R.
    destruct R as [(-> & F3)|(part2 & ir & s4 & F3 & R)].
    + left. split; [reflexivity | eapply frame_core_trans; eauto].
    + right. exists mp, part2, ir, s4. split; [|exact R].
      eapply frame_core_trans; eauto.
Qed.

(** The end of [import_supplier_part]: the supplier-part of the SKU is
    updated where there is one and made where there is none, and
    [add_stock] is called for a location that counts as true. *)
Lemma store_supplier_part_effect (supplier : Company) (a : ApiPart)
  (osp : option SupplierPart) (mp : ManufacturerPart) (part : option Part)
  (loc : option Z) (amount : Z) (ir r : ImportResult) (s s' : St) :
  store_supplier_part supplier a osp mp part loc amount ir s = Ret r s' ->
  r = ir
  /\ existing_manufacturer_part s' = Some mp
  /\ settings s' = settings s /\ joined s' = joined s
  /\ stocked s'
     = ((if truthy_Z loc
         then [(match loc with Some z => z | None => 0 end,
                if dry_run s then 0
                else match part with Some p => part_pk p | None => 0 end,
                amount)]
         else []) ++ stocked s)%list
  /\ (dry_run s = true -> supplier_parts (repo s') = supplier_parts (repo s))
  /\ (dry_run s = false ->
      exists p sp',
        part = Some p
        /\ sp_SKU sp' = SKU a /\ sp_manufacturer_part sp' = Some (mp_pk mp)
        /\ sp_part sp' = part_pk p /\ sp_supplier sp' = company_pk supplier
        /\ match osp with
           | Some sp0 =>
               sp_pk sp' = sp_pk sp0
               /\ map sp_pk (supplier_parts (repo s'))
                  = map sp_pk (supplier_parts (repo s))
               /\ (In sp0 (supplier_parts (repo s)) ->
                   In sp' (supplier_parts (repo s')))
           | None =>
               supplier_parts (repo s') = (supplier_parts (repo s) ++ [sp'])%list
           end).
Proof.
  unfold store_supplier_part. rewrite bind_modify, bind_gets. fields.
  set (s0 := set_existing_manufacturer_part (Some mp) s).
  intros R.
  apply bind_Ret in R. destruct R as (part_id & s1 & R1 & R).
  apply bind_Ret in R. destruct R as (sp' & s2 & R2 & R).
  apply bind_Ret in R. destruct R as (u3 & s3 & R3 & R).
  pose proof (setup_price_breaks_core sp' a s2) as K3. rewrite R3 in K3.
  simpl in K3. destruct K3 as (S3 & _ & J3 & L3 & T3 & _).
  unfold success in R. rewrite bind_say in R.
  apply bind_Ret in R. destruct R as (u4 & s4 & R4 & R).
  inversion R. subst r s4. clear R.
  assert (E3 : existing_manufacturer_part s3 = existing_manufacturer_part s2).
  { pose proof (setup_price_breaks_frame sp' a s2) as K. rewrite R3 in K.
    simpl in K. unfold frame_price_breaks in K. tauto. }
  destruct (dry_run s) eqn:D.
  - (* a dry run *)
    inversion R1. subst part_id s1. clear R1.
    assert (Q2 : repo s2 = repo s /\ settings s2 = settings s
                 /\ joined s2 = joined s /\ stocked s2 = stocked s
                 /\ existing_manufacturer_part s2 = Some mp).
    { destruct osp as [sp0|].
      - unfold update_supplier_part_data in R2.
        match type of R2 with (if ?c then _ else _) _ = _ => destruct c end;
          [inversion R2; repeat split|].
        unfold info in R2. rewrite bind_say in R2.
        apply mutating_Ret in R2. destruct R2 as [(_ & _ & ->)|(D' & _)].
        + repeat split.
        + unfold s0 in D'. fields. congruence.
      - unfold SupplierPart_create in R2.
        apply mutating_Ret in R2. destruct R2 as [(_ & _ & ->)|(D' & _)];
          [repeat split | unfold s0 in D'; fields; congruence]. }
    destruct Q2 as (Rp2 & S2 & J2 & T2 & E2).
    assert (Q4 : repo s' = repo s3 /\ settings s' = settings s3
                 /\ joined s' = joined s3
                 /\ existing_manufacturer_part s' = existing_manufacturer_part s3
                 /\ stocked s'
                    = ((if truthy_Z loc
                        then [(match loc with Some z => z | None => 0 end, 0, amount)]
                        else []) ++ stocked s3)%list).
    { destruct (truthy_Z loc).
      - unfold add_or_update_stock, add_stock, modify in R4. inversion R4.
        repeat split.
      - inversion R4. repeat split. }
    destruct Q4 as (Q4 & S4 & J4 & E4 & T4). fields.
    split; [reflexivity|]. split; [congruence|]. split; [congruence|].
    split; [congruence|]. split; [rewrite T4; congruence|].
    split; [|discriminate]. intros _. rewrite Q4. congruence.
  - (* a real run *)
    destruct part as [p|]; [|discriminate R1].
    inversion R1. subst part_id s1. clear R1.
    set (d := {| spd_part := part_pk p; spd_manufacturer_part := mp_pk mp;
                 spd_supplier := company_pk supplier; spd_SKU := SKU a;
                 spd_link := supplier_link a; spd_packaging := packaging a;
                 spd_available := quantity_available a |}) in *.
    assert (Q2 : settings s2 = settings s /\ joined s2 = joined s
                 /\ existing_manufacturer_part s2 = Some mp
                 /\ stocked s2 = stocked s
                 /\ sp_SKU sp' = SKU a /\ sp_manufacturer_part sp' = Some (mp_pk mp)
                 /\ sp_part sp' = part_pk p /\ sp_supplier sp' = company_pk supplier
                 /\ match osp with
                    | Some sp0 =>
                        sp_pk sp' = sp_pk sp0
                        /\ map sp_pk (supplier_parts (repo s2))
                           = map sp_pk (supplier_parts (repo s))
                        /\ (In sp0 (supplier_parts (repo s)) ->
                            In sp' (supplier_parts (repo s2)))
                    | None =>
                        supplier_parts (repo s2)
                        = (supplier_parts (repo s) ++ [sp'])%list
                    end).
    { destruct osp as [sp0|].
      - unfold update_supplier_part_data in R2.
        match type of R2 with (if ?c then _ else _) _ = _ => destruct c eqn:C end.
        + inversion R2. subst sp' s2.
          repeat (apply andb_true_iff in C; destruct C as [C ?]).
          repeat match goal with
                 | H : (_ =? _) = true |- _ => apply Z.eqb_eq in H
                 | H : String.eqb _ _ = true |- _ => apply String.eqb_eq in H
                 end.
          assert (Mp : sp_manufacturer_part sp0 = Some (mp_pk mp)).
          { destruct (sp_manufacturer_part sp0) as [x|]; simpl in *;
              [|discriminate].
            match goal with H : (x =? _) = true |- _ => apply Z.eqb_eq in H; subst x end.
            reflexivity. }
          simpl in *. repeat split; auto.
        + unfold info in R2. rewrite bind_say in R2.
          apply mutating_Ret in R2.
          destruct R2 as [(D' & _)|(_ & -> & ->)]; [unfold s0 in D'; fields; congruence|].
          fields. repeat split; auto.
          * apply map_patch_same. reflexivity.
          * intros I. apply (In_patch_same sp_pk (set_supplier_part_data d) _ sp0 I).
      - unfold SupplierPart_create in R2. apply mutating_Ret in R2.
        destruct R2 as [(D' & _)|(_ & -> & ->)]; [unfold s0 in D'; fields; congruence|].
        fields. repeat split; auto. }
    destruct Q2 as (S2 & J2 & E2 & T2 & K1 & K2 & K3 & K4 & Sp).
    assert (D3 : dry_run s3 = false).
    { rewrite (settings_dry_run _ _ S3), (settings_dry_run _ _ S2). exact D. }
    assert (Q4 : settings s' = settings s3 /\ joined s' = joined s3
                 /\ existing_manufacturer_part s' = existing_manufacturer_part s3
                 /\ supplier_parts (repo s') = supplier_parts (repo s3)
                 /\ stocked s'
                    = ((if truthy_Z loc
                        then [(match loc with Some z => z | None => 0 end,
                               part_pk p, amount)]
                        else []) ++ stocked s3)%list).
    { destruct (truthy_Z loc).
      - unfold add_or_update_stock, add_stock, modify in R4. inversion R4.
        repeat split.
      - inversion R4. subst. repeat split. }
    destruct Q4 as (S4 & J4 & E4 & L4 & T4). fields.
    split; [reflexivity|]. split; [congruence|]. split; [congruence|].
    split; [congruence|]. split; [rewrite T4; congruence|]. split; [discriminate|].
    intros _. exists p, sp'. split; [reflexivity|].
    split; [exact K1|]. split; [exact K2|]. split; [exact K3|]. split; [exact K4|].
    destruct osp as [sp0|].
    + destruct Sp as (P1 & P2 & P3). split; [exact P1|].
      split; [congruence|]. intros I. rewrite L4, L3. apply P3. exact I.
    + congruence.
Qed.

Lemma store_supplier_part_stored (supplier : Company) (a : ApiPart)
  (mp : ManufacturerPart) (part : option Part) (loc : option Z) (amount : Z)
  (ir r : ImportResult) (s s2 s' : St) :
  frame_core s s2 ->
  store_supplier_part supplier a
    (find (fun p => String.eqb (sp_SKU p) (SKU a)) (supplier_parts (repo s)))
    mp part loc amount ir s2 = Ret r s' ->
  stored_for a mp s s'.
Proof.
  intros (S2 & _ & _ & L2 & _) R.
  apply store_supplier_part_effect in R.
  destruct R as (_ & E & _ & _ & _ & Dry & Real).
  rewrite (settings_dry_run _ _ S2) in Dry, Real.
  split; [exact E|]. split.
  - intros D. rewrite (Dry D). exact L2.
  - intros D. destruct (Real D) as (p & sp' & _ & K1 & K2 & _ & _ & Sp).
    exists sp'. split; [|split; assumption].
    destruct (find (fun q => String.eqb (sp_SKU q) (SKU a)) (supplier_parts (repo s)))
      as [sp0|] eqn:F.
    + destruct Sp as (_ & _ & P3). apply P3. rewrite L2.
      apply find_some in F. tauto.
    + rewrite Sp. apply in_or_app. right. left. reflexivity.
Qed.

(** What [import_supplier_part] leaves when it returns. *)
Lemma import_supplier_part_stored (supplier : Company) (a : ApiPart)
  (part : option Part) (loc : option Z) (amount : Z) (s s' : St)
  (r : ImportResult) :
  import_supplier_part supplier a part loc amount s = Ret r s' ->
  fails_early r s s' \/ exists mp, stored_for a mp s s'.
Proof.
  intros R. apply import_supplier_part_Ret in R.
  destruct R as [(-> & _ & _ & _ & L & _ & E)|(mp & part2 & ir & s2 & Fr & R)].
  - left. repeat split; assumption.
  - right. exists mp. eapply store_supplier_part_stored; eauto.
Qed.

Lemma announced_frame (supplier : Company) (a : ApiPart) (s : St) :
  frame_core s (announced supplier a s).
Proof. unfold frame_core, announced. simpl. intuition. Qed.

Lemma import_supplier_part_announced (supplier : Company) (a : ApiPart)
  (part : option Part) (loc : option Z) (amount : Z) (s : St) :
  import_supplier_part supplier a part loc amount s
  = bind (choose_manufacturer_part
            (find (fun p => String.eqb (sp_SKU p) (SKU a)) (supplier_parts (repo s)))
            a part)
         (fun chosen =>
            match chosen with
            | inl result => ret result
            | inr (manufacturer_part, part) =>
                finish_supplier_part supplier a
                  (find (fun p => String.eqb (sp_SKU p) (SKU a))
                        (supplier_parts (repo s)))
                  manufacturer_part part loc amount
            end)
         (announced supplier a s).
Proof.
  unfold import_supplier_part, get_supplier_part, announced. rewrite bind_gets.
  destruct (find _ _); unfold info; rewrite bind_say; reflexivity.
Qed.

(** Once the manufacturer-part is chosen, [import_supplier_part] goes on
    with it. *)
Lemma import_supplier_part_chosen (supplier : Company) (a : ApiPart)
  (part : option Part) (loc : option Z) (amount : Z) (s : St)
  (mp : ManufacturerPart) (part' : option Part) (s1 : St) :
  choose_manufacturer_part
    (find (fun p => String.eqb (sp_SKU p) (SKU a)) (supplier_parts (repo s)))
    a part (announced supplier a s)
  = Ret (inr (mp, part')) s1 ->
  goes_on_with supplier a part loc amount s mp part' s1.
Proof.
  intros Ch.
  assert (Eq : import_supplier_part supplier a part loc amount s
               = finish_supplier_part supplier a
                   (find (fun p => String.eqb (sp_SKU p) (SKU a))
                         (supplier_parts (repo s)))
                   mp part' loc amount s1).
  { rewrite import_supplier_part_announced, (bind_of_Ret _ _ _ _ _ Ch).
    reflexivity. }
  split; [exact Eq|]. intros r s' R. rewrite Eq in R.
  assert (F1 : frame_core s s1).
  { pose proof (choose_manufacturer_part_core
                  (find (fun p => String.eqb (sp_SKU p) (SKU a))
                        (supplier_parts (repo s)))
                  a part (announced supplier a s)) as K.
    rewrite Ch in K. eapply frame_core_trans; [apply announced_frame | exact K]. }
  apply finish_supplier_part_Ret in R.
  destruct R as [(-> & F3)|(part2 & ir & s4 & F3 & R)].
  - left. destruct (frame_core_trans _ _ _ F1 F3) as (_ & _ & _ & L & _ & E).
    repeat split; assumption.
  - right. eapply store_supplier_part_stored; [|exact R].
    eapply frame_core_trans; eauto.
Qed.

(** C2, amended. [import_supplier_part] looks up the supplier-part of
    the SKU of the candidate and chooses the manufacturer-part by this
    precedence. (1) When that supplier-part has a linked
    manufacturer-part, the manufacturer-part of that identifier is used
    (the lookup fails with an HTTP error when there is none). (2) Else,
    also when the supplier-part has no link, the manufacturer-part of the
    MPN is used when there is one. (3) Else the manufacturer-part
    established earlier in the call is used when there is one. (4) Else a
    candidate that cannot be finalized is FAILURE, and for one that can
    a manufacturer-part is made: for the part supplied, else for the
    part named like the MPN, else for a new part in the category found
    for the path, and FAILURE when none is found and nobody can be asked.
    With the manufacturer-part used, the import goes on from line 166:
    when it returns, it has failed early, with nothing established and no
    supplier-part touched, or that manufacturer-part is the established
    one and, out of a dry run, the supplier-part of the SKU references
    it. *)
Theorem manufacturer_part_precedence (s : St) (supplier : Company) (a : ApiPart)
  (part : option Part) (loc : option Z) (amount : Z) :
  let supplier_part :=
    find (fun p => String.eqb (sp_SKU p) (SKU a)) (supplier_parts (repo s)) in
  let by_mpn :=
    find (fun m => String.eqb (mp_MPN m) (MPN a)) (manufacturer_parts (repo s)) in
  let by_name :=
    find (fun q => String.eqb (part_name q) (MPN a)) (parts (repo s)) in
  let s0 := announced supplier a s in
  let run := import_supplier_part supplier a part loc amount s in
  let uses := goes_on_with supplier a part loc amount s in
  (forall k, linked supplier_part = Some k ->
     match find (fun m => mp_pk m =? k) (manufacturer_parts (repo s)) with
     | Some m => uses m part s0
     | None => run = Raise (HTTP (not_found (lib s))) s0
     end)
  /\ (linked supplier_part = None ->
      (forall m, by_mpn = Some m -> uses m part s0)
      /\ (by_mpn = None ->
          (forall m, existing_manufacturer_part s = Some m -> uses m part s0)
          /\ (existing_manufacturer_part s = None ->
              (finalize a = false -> run = Ret FAILURE s0)
              /\ (finalize a = true -> steady s ->
                  (forall p,
                      match part with
                      | Some p0 => p0 = p
                      | None => by_name = Some p
                      end ->
                      exists mp p' s1,
                        uses mp (Some p') s1
                        /\ part_pk p' = part_pk p
                        /\ map part_pk (parts (repo s1))
                           = map part_pk (parts (repo s))
                        /\ manufacturer_parts (repo s1)
                           = (manufacturer_parts (repo s) ++ [mp])%list
                        /\ mp_MPN mp = MPN a /\ mp_part mp = part_pk p)
                  /\ (part = None -> by_name = None ->
                      (forall c,
                          first_category (category_map s) (rev (category_path a))
                          = Some c ->
                          exists mp p' s1,
                            uses mp (Some p') s1
                            /\ parts (repo s1) = (parts (repo s) ++ [p'])%list
                            /\ part_category p' = pc_pk (part_category_of c)
                            /\ part_name p' = MPN a
                            /\ manufacturer_parts (repo s1)
                               = (manufacturer_parts (repo s) ++ [mp])%list
                            /\ mp_MPN mp = MPN a /\ mp_part mp = part_pk p')
                      /\ (first_category (category_map s) (rev (category_path a))
                          = None ->
                          interactive s = false ->
                          exists s', run = Ret FAILURE s'
                                     /\ repo s' = repo s)))))).
Proof.
  intros supplier_part by_mpn by_name s0 run uses.
  pose proof (choose_manufacturer_part_rules s0 a part supplier_part) as Rules.
  cbv zeta in Rules.
  change (repo s0) with (repo s) in Rules.
  change (lib s0) with (lib s) in Rules.
  change (existing_manufacturer_part s0) with (existing_manufacturer_part s) in Rules.
  change (category_map s0) with (category_map s) in Rules.
  change (interactive s0) with (interactive s) in Rules.
  fold by_mpn by_name in Rules.
  destruct Rules as [One Rest].
  assert (Fail : forall r0 s1,
             choose_manufacturer_part supplier_part a part s0 = Ret (inl r0) s1 ->
             run = Ret r0 s1).
  { intros r0 s1 Ch. unfold run. rewrite import_supplier_part_announced.
    fold supplier_part s0. rewrite (bind_of_Ret _ _ _ _ _ Ch). reflexivity. }
  assert (St0 : steady s -> steady s0) by (intros [D F]; split; assumption).
  split.
  - intros k L. specialize (One k L).
    destruct (find (fun m => mp_pk m =? k) (manufacturer_parts (repo s))) as [m|].
    + apply import_supplier_part_chosen. exact One.
    + unfold run. rewrite import_supplier_part_announced. fold supplier_part s0.
      unfold bind. rewrite One. reflexivity.
  - intros L. destruct (Rest L) as [Two Rest2]. split.
    + intros m E. apply import_supplier_part_chosen. exact (Two m E).
    + intros N. destruct (Rest2 N) as [Three Rest3]. split.
      * intros m E. apply import_supplier_part_chosen. exact (Three m E).
      * intros E. destruct (Rest3 E) as [Four Make]. split.
        -- intros Fz. apply Fail. exact (Four Fz).
        -- intros Fz St1. destruct (Make Fz (St0 St1)) as [Known New]. split.
           ++ intros p H.
              destruct (Known p H) as (mp & p' & s1 & Ch & Facts).
              exists mp, p', s1.
              split; [apply import_supplier_part_chosen; exact Ch | exact Facts].
           ++ intros Pn Nn. destruct (New Pn Nn) as [Hit Miss]. split.
              ** intros c H.
                 destruct (Hit c H) as (mp & p' & s1 & Ch & Facts).
                 exists mp, p', s1.
                 split; [apply import_supplier_part_chosen; exact Ch | exact Facts].
              ** intros H I. destruct (Miss H I) as (s' & Ch & Rp).
                 exists s'. split; [apply Fail; exact Ch | exact Rp].
Qed.

(** At [ex_linked] the supplier-part of the SKU S-1 is linked to the
    manufacturer-part 9 of the MPN RC0805, and the MPN RC0603 of the
    candidate has the manufacturer-part 7: rule 1 goes before rule 2. *)
Lemma manufacturer_part_precedence_witness :
  let s' := final (import_supplier_part (ex_supplier 1 "Alpha") ex_candidate None
                                        None 0 ex_linked) in
  linked (find (fun p => String.eqb (sp_SKU p) (SKU ex_candidate))
               (supplier_parts (repo ex_linked))) = Some 9
  /\ find (fun m => String.eqb (mp_MPN m) (MPN ex_candidate))
          (manufacturer_parts (repo ex_linked)) = Some ex_manufacturer_part
  /\ existing_manufacturer_part s' = Some ex_second_manufacturer_part
  /\ exists sp,
       In sp (supplier_parts (repo s'))
       /\ sp_SKU sp = "S-1" /\ sp_manufacturer_part sp = Some 9.
Proof.
  cbv zeta. split; [reflexivity|]. split; [reflexivity|].
  pose proof (proj1 (manufacturer_part_precedence ex_linked (ex_supplier 1 "Alpha")
                       ex_candidate None None 0) 9 eq_refl) as U.
  cbv beta iota zeta in U.
  change (find (fun m => mp_pk m =? 9) (manufacturer_parts (repo ex_linked)))
    with (Some ex_second_manufacturer_part) in U.
  cbv beta iota in U. destruct U as [_ U].
  destruct (U INCOMPLETE
              (final (import_supplier_part (ex_supplier 1 "Alpha") ex_candidate None
                                           None 0 ex_linked))
              ltac:(vm_compute; reflexivity))
    as [(F & _)|(E & _ & Real)]; [discriminate F|].
  split; [exact E|]. exact (Real eq_refl).
Defined.

(** ** Dry runs *)

Section CommuteRules.
Variable g : St -> St.

Lemma commutes_ret {A} (a : A) : commutes g (ret a).
Proof. intros s. reflexivity. Qed.

Lemma commutes_raise {A} (e : Exception) : commutes g (raise (A := A) e).
Proof. intros s. reflexivity. Qed.

Lemma commutes_bind {A B} (m : M A) (k : A -> M B) :
  commutes g m -> (forall a, commutes g (k a)) -> commutes g (bind m k).
Proof.
  intros Hm Hk s. unfold bind. rewrite Hm.
  destruct (m s) as [a s1|e s1|s1]; simpl; [apply Hk | reflexivity | reflexivity].
Qed.

Lemma commutes_gets {A} (f : St -> A) :
  (forall s, f (g s) = f s) -> commutes g (gets f).
Proof. intros H s. unfold gets. rewrite H. reflexivity. Qed.

Lemma commutes_modify (f : St -> St) :
  (forall s, f (g s) = g (f s)) -> commutes g (modify f).
Proof. intros H s. unfold modify. rewrite H. reflexivity. Qed.

Lemma commutes_select (n : nat) :
  (forall s, keys (g s) = keys s) ->
  (forall s ks, set_keys ks (g s) = g (set_keys ks s)) ->
  commutes g (select n).
Proof.
  intros H1 H2 s. unfold select. rewrite H1.
  destruct (keys s); simpl; [reflexivity | rewrite H2; reflexivity].
Qed.

Lemma commutes_prompt_input :
  (forall s, typed (g s) = typed s) ->
  (forall s ts, set_typed ts (g s) = g (set_typed ts s)) ->
  commutes g prompt_input.
Proof.
  intros H1 H2 s. unfold prompt_input. rewrite H1.
  destruct (typed s); simpl; [reflexivity | rewrite H2; reflexivity].
Qed.

End CommuteRules.

Ltac commutes_step :=
  lazymatch goal with
  | |- commutes _ (bind _ _) => apply commutes_bind; [| intro]
  | |- commutes _ (ret _) => apply commutes_ret
  | |- commutes _ (raise _) => apply commutes_raise
  | |- commutes _ (gets _) => apply commutes_gets; intros; reflexivity
  | |- commutes _ (modify _) => apply commutes_modify; intros; reflexivity
  | |- commutes _ (select _) => apply commutes_select; intros; reflexivity
  | |- commutes _ prompt_input => apply commutes_prompt_input; intros; reflexivity
  | |- commutes _ (match ?x with _ => _ end) => destruct x
  | |- commutes _ ?m =>
      first [ solve [auto with keeps]
            | let h := head_of m in progress unfold h ]
  end.

Ltac commutes_auto := repeat commutes_step.

Lemma select_parameter_commutes (b : bool) (name : string) (ps : list (string * string)) :
  commutes (set_dry_run b) (select_parameter name ps).
Proof. commutes_auto. Qed.

#[local] Hint Resolve select_parameter_commutes : keeps.

Lemma resolve_parameters_commutes (b : bool) (names : list string) (a : ApiPart) :
  forall matched unassigned,
    commutes (set_dry_run b) (resolve_parameters names a matched unassigned).
Proof.
  induction names as [|n names IH]; intros matched unassigned; simpl;
    commutes_auto.
Qed.

Lemma printed_dry_run (b : bool) (a : ApiPart) (s : St) :
  printed a (set_dry_run b s) = set_dry_run b (printed a s).
Proof.
  unfold printed.
  assert (H : forall l s0,
             fold_left
               (fun s item =>
                  set_console ((L_print, Msg_parameter (fst item) (snd item))
                               :: console s) s) l (set_dry_run b s0)
             = set_dry_run b
                 (fold_left
                    (fun s item =>
                       set_console ((L_print, Msg_parameter (fst item) (snd item))
                                    :: console s) s) l s0)).
  { induction l as [|x l IH]; intros s0; simpl; [reflexivity|].
    rewrite <- IH. reflexivity. }
  rewrite <- H. reflexivity.
Qed.

Lemma frame_repo_refl (s : St) : frame_repo s s.
Proof. unfold frame_repo. intuition. Qed.

Lemma frame_repo_trans (a b c : St) : frame_repo a b -> frame_repo b c -> frame_repo a c.
Proof. unfold frame_repo. intuition congruence. Qed.

Ltac leaf_repo :=
  leaf_of frame_repo_refl frame_repo_trans
          ltac:(unfold frame_repo; simpl; intuition congruence).

Lemma apply_parameters_repo (p : Part) (existing : list (string * PartParameter))
  (upd : bool) (items : list (string * string)) :
  forall async ir, keeps frame_repo (apply_parameters items p existing upd async ir).
Proof.
  induction items as [|[name v] items IH]; intros async ir; simpl;
    keeps_with leaf_repo.
Qed.

Lemma apply_async_Ret (task : M (option Message)) (w : option Message)
  (s s' : St) :
  task s = Ret w s' -> apply_async task s = Ret (Returned w) s'.
Proof. intros R. unfold apply_async. rewrite R. reflexivity. Qed.

(** In a dry run the pool tasks do nothing, and a matched parameter
    without a template is passed over. *)
Lemma apply_parameters_dry (p : Part) (existing : list (string * PartParameter))
  (upd : bool) (items : list (string * string)) :
  forall s async ir,
    dry_run s = true ->
    apply_parameters items p existing upd async ir s
    = Ret ((async ++ repeat (Returned None)
                            (tasks_of existing (parameter_templates s) upd items))%list,
           ir) s.
Proof.
  induction items as [|[name v] items IH]; intros s async ir D; simpl.
  - rewrite app_nil_r. reflexivity.
  - destruct (negb (Str.truthy (sanitize_parameter_value v))); [apply IH; exact D|].
    destruct (Dict.get existing name) as [e|].
    + destruct (upd && _); [|apply IH; exact D].
      unfold update_parameter, parameter_save.
      erewrite bind_of_Ret
        by (apply apply_async_Ret, catch_Ret; rewrite bind_mutating_dry by exact D;
            reflexivity).
      rewrite IH by exact D. rewrite <- app_assoc. reflexivity.
    + rewrite bind_gets. destruct (Dict.get (parameter_templates s) name) as [t|].
      * unfold create_parameter, Parameter_create.
        erewrite bind_of_Ret
          by (apply apply_async_Ret, catch_Ret; rewrite bind_mutating_dry by exact D;
              reflexivity).
        rewrite IH by exact D. rewrite <- app_assoc. reflexivity.
      * rewrite bind_gets, D. apply IH. exact D.
Qed.

Lemma or_INCOMPLETE_absorbs (r : ImportResult) (b : bool) :
  (r |r INCOMPLETE) |r severity_of b = r |r INCOMPLETE.
Proof. destruct r, b; reflexivity. Qed.

Lemma or_SUCCESS (r : ImportResult) : r |r SUCCESS = r.
Proof. destruct r; reflexivity. Qed.

(** Out of a dry run, when every request succeeds, the same tasks are
    given to the pool, and every matched parameter without a template
    is warned of and makes the result INCOMPLETE. *)
Lemma apply_parameters_wet (p : Part) (existing : list (string * PartParameter))
  (upd : bool) (items : list (string * string)) :
  forall s async ir,
    steady s ->
    let missing := missing_templates existing (parameter_templates s) items in
    exists s',
      apply_parameters items p existing upd async ir s
      = Ret ((async ++ repeat (Returned None)
                              (tasks_of existing (parameter_templates s) upd items))%list,
             ir |r severity_of (negb (is_nil missing)))
            s'
      /\ console s'
         = (map (fun n => (L_warning, Msg_no_template n)) (rev missing)
            ++ console s)%list.
Proof.
  induction items as [|[name v] items IH]; intros s async ir St0; simpl.
  - exists s. rewrite app_nil_r, or_SUCCESS. split; reflexivity.
  - destruct (Str.truthy (sanitize_parameter_value v)); simpl; [|apply IH; exact St0].
    destruct St0 as [D F].
    destruct (Dict.get existing name) as [e|]; simpl.
    + destruct (upd && _); [|apply IH; split; assumption].
      unfold update_parameter, parameter_save.
      erewrite bind_of_Ret
        by (apply apply_async_Ret, catch_Ret; rewrite bind_mutating by assumption;
            reflexivity).
      match goal with |- context [apply_parameters _ _ _ _ _ _ ?s1] =>
        destruct (IH s1 (async ++ [Returned None])%list ir (conj D F))
          as (s' & R & C) end.
      exists s'. rewrite R, <- app_assoc. split; [reflexivity | exact C].
    + rewrite bind_gets. destruct (Dict.get (parameter_templates s) name) as [t|]; simpl.
      * unfold create_parameter, Parameter_create.
        erewrite bind_of_Ret
          by (apply apply_async_Ret, catch_Ret; rewrite bind_mutating by assumption;
              reflexivity).
        match goal with |- context [apply_parameters _ _ _ _ _ _ ?s1] =>
          destruct (IH s1 (async ++ [Returned None])%list ir (conj D F))
            as (s' & R & C) end.
        exists s'. rewrite R, <- app_assoc. split; [reflexivity | exact C].
      * rewrite bind_gets, D. cbn [negb]. unfold warning. rewrite bind_say.
        match goal with |- context [apply_parameters _ _ _ _ _ _ ?s1] =>
          destruct (IH s1 async (ir |r INCOMPLETE) (conj D F)) as (s' & R & C) end.
        exists s'. rewrite R. fields. rewrite or_INCOMPLETE_absorbs. split.
        -- destruct ir; reflexivity.
        -- rewrite C, map_app, <- app_assoc. reflexivity.
Qed.

Lemma collect_results_none (k : nat) :
  forall ir s, collect_results (repeat (Returned None) k) ir s = Ret ir s.
Proof. induction k as [|k IH]; intros ir s; simpl; [reflexivity | apply IH]. Qed.

Lemma dry_frame_refl (s : St) : dry_frame s s.
Proof. unfold dry_frame. intuition. Qed.

Lemma dry_frame_trans (a b c : St) : dry_frame a b -> dry_frame b c -> dry_frame a c.
Proof.
  unfold dry_frame. intros H1 H2 D. destruct (H1 D) as (S1 & R1 & W1 & F1).
  assert (D' : dry_run b = true) by (rewrite (settings_dry_run _ _ S1); exact D).
  destruct (H2 D') as (S2 & R2 & W2 & F2). repeat split; congruence.
Qed.

Ltac leaf_dry_run :=
  leaf_of dry_frame_refl dry_frame_trans
          ltac:(unfold dry_frame; simpl; intuition congruence).

Lemma select_api_part_dry_run (l : list ApiPart) :
  keeps dry_frame (select_api_part l).
Proof.
  keeps_with leaf_dry_run.
Qed.

#[local] Hint Resolve select_api_part_dry_run : keeps.

Lemma select_category_loop_dry_run (cats : list Category) (n : nat) (rounds : nat) :
  keeps dry_frame (select_category_loop rounds cats n).
Proof.
  revert cats n. induction rounds as [|rounds IH]; intros cats n; simpl;
    keeps_with leaf_dry_run.
Qed.

#[local] Hint Resolve select_category_loop_dry_run : keeps.

Lemma select_category_dry_run (path : list string) :
  keeps dry_frame (select_category path).
Proof.
  keeps_with leaf_dry_run.
Qed.

#[local] Hint Resolve select_category_dry_run : keeps.

Lemma create_manufacturer_part_dry_run (a : ApiPart) (part : option Part) :
  keeps dry_frame (create_manufacturer_part a part).
Proof.
  keeps_with leaf_dry_run.
Qed.

#[local] Hint Resolve create_manufacturer_part_dry_run : keeps.

Lemma price_break_loop_dry_run (existing : list (Z * SupplierPriceBreak))
  (sp : SupplierPart) (a : ApiPart) (items : list (Z * Q)) (u : bool) :
  keeps dry_frame (price_break_loop existing sp a items u).
Proof.
  revert u. induction items as [|[q p] items IH]; intros u; simpl;
    keeps_with leaf_dry_run.
Qed.

#[local] Hint Resolve price_break_loop_dry_run : keeps.

Lemma setup_price_breaks_dry_run (sp : SupplierPart) (a : ApiPart) :
  keeps dry_frame (setup_price_breaks sp a).
Proof.
  keeps_with leaf_dry_run.
Qed.

#[local] Hint Resolve setup_price_breaks_dry_run : keeps.

Lemma select_parameter_dry_run (name : string) (ps : list (string * string)) :
  keeps dry_frame (select_parameter name ps).
Proof.
  keeps_with leaf_dry_run.
Qed.

#[local] Hint Resolve select_parameter_dry_run : keeps.

Lemma resolve_parameters_dry_run (names : list string) (a : ApiPart)
  (matched : list (string * string)) (unassigned : list string) :
  keeps dry_frame (resolve_parameters names a matched unassigned).
Proof.
  revert matched unassigned. induction names as [|n names IH]; intros matched unassigned; simpl;
    keeps_with leaf_dry_run.
Qed.

#[local] Hint Resolve resolve_parameters_dry_run : keeps.

Lemma apply_parameters_dry_run (p : Part)
  (existing : list (string * PartParameter)) (upd : bool)
  (items : list (string * string)) (async : list TaskResult)
  (ir : ImportResult) :
  keeps dry_frame (apply_parameters items p existing upd async ir).
Proof.
  revert async ir. induction items as [|[name v] items IH]; intros async ir; simpl;
    keeps_with leaf_dry_run.
Qed.

#[local] Hint Resolve apply_parameters_dry_run : keeps.

Lemma collect_results_dry_run (async : list TaskResult) (ir : ImportResult) :
  keeps dry_frame (collect_results async ir).
Proof.
  revert ir. induction async as [|result async IH]; intros ir; simpl;
    keeps_with leaf_dry_run.
Qed.

#[local] Hint Resolve collect_results_dry_run : keeps.

Lemma setup_parameters_dry_run (part : option Part) (a : ApiPart) (upd : bool) :
  keeps dry_frame (setup_parameters part a upd).
Proof.
  keeps_with leaf_dry_run.
Qed.

#[local] Hint Resolve setup_parameters_dry_run : keeps.

Lemma choose_manufacturer_part_dry_run (sp : option SupplierPart) (a : ApiPart)
  (part : option Part) :
  keeps dry_frame (choose_manufacturer_part sp a part).
Proof.
  keeps_with leaf_dry_run.
Qed.

#[local] Hint Resolve choose_manufacturer_part_dry_run : keeps.

Lemma sync_part_dry_run (a : ApiPart) (mp : ManufacturerPart) (part : option Part)
  (upd : bool) :
  keeps dry_frame (sync_part a mp part upd).
Proof.
  keeps_with leaf_dry_run.
Qed.

#[local] Hint Resolve sync_part_dry_run : keeps.

Lemma import_supplier_part_dry_run (supplier : Company) (a : ApiPart)
  (part : option Part) (loc : option Z) (amount : Z) :
  keeps dry_frame (import_supplier_part supplier a part loc amount).
Proof.
  keeps_with leaf_dry_run.
Qed.

#[local] Hint Resolve import_supplier_part_dry_run : keeps.

Lemma import_part_loop_dry_run (all rest : list (Company * AsyncResult))
  (part : option Part) (loc : option Z) (amount : Z) (ir : ImportResult) :
  keeps dry_frame (import_part_loop all rest part loc amount ir).
Proof.
  revert ir. induction rest as [|[supplier async] rest IH]; intros ir; simpl;
    keeps_with leaf_dry_run.
Qed.

#[local] Hint Resolve import_part_loop_dry_run : keeps.

Lemma import_part_dry_run (term : string) (part : option Part)
  (supplier_id : option string) (only : bool) (loc : option Z) (amount : Z) :
  keeps dry_frame (import_part term part supplier_id only loc amount).
Proof.
  keeps_with leaf_dry_run.
Qed.

#[local] Hint Resolve import_part_dry_run : keeps.

(** C9, as stated, fails on the code: the candidate has a parameter that
    is matched and has no template; the import is INCOMPLETE, and
    SUCCESS as a dry run over the same data. *)
Lemma dry_run_hides_missing_template :
  (exists s_w s_d,
      import_part "RC0603" (Some ex_stored_part) None false None 0 ex_no_template
      = Ret INCOMPLETE s_w
      /\ import_part "RC0603" (Some ex_stored_part) None false None 0
                     (set_dry_run true ex_no_template)
         = Ret SUCCESS s_d)
  /\ ~ dry_run_same_severity.
Proof.
  assert (W : exists s_w,
             import_part "RC0603" (Some ex_stored_part) None false None 0
                         ex_no_template = Ret INCOMPLETE s_w)
    by (eexists; vm_compute; reflexivity).
  assert (D : exists s_d,
             import_part "RC0603" (Some ex_stored_part) None false None 0
                         (set_dry_run true ex_no_template) = Ret SUCCESS s_d)
    by (eexists; vm_compute; reflexivity).
  destruct W as (s_w & W), D as (s_d & D).
  split; [exists s_w, s_d; split; assumption|].
  intros H.
  specialize (H ex_no_template s_w s_d "RC0603" (Some ex_stored_part) None false
                None 0 INCOMPLETE SUCCESS (conj eq_refl eq_refl) W D).
  discriminate H.
Qed.

Lemma or_severity_INCOMPLETE (b : bool) :
  (SUCCESS |r severity_of b) |r INCOMPLETE
  = (SUCCESS |r INCOMPLETE) |r severity_of b.
Proof. destruct b; reflexivity. Qed.

Lemma ask_parameters_commutes (b : bool) (a : ApiPart)
  (matched : list (string * string)) (unassigned : list string) (i : bool) :
  commutes (set_dry_run b) (ask_parameters a matched unassigned i).
Proof.
  unfold ask_parameters. destruct (_ && _).
  - apply commutes_bind.
    + unfold prompt, say. apply commutes_modify. intros; reflexivity.
    + intros _. apply resolve_parameters_commutes.
  - apply commutes_ret.
Qed.

(** Parameter reconciliation in and out of a dry run over the same data:
    the same answers are taken, the same names are matched and left
    unmatched, the same aliases are learnt and the same lines are
    printed, and the results differ only by the matched parameters
    without a template. *)
Lemma setup_parameters_dry_run_matches (s : St) (p : Part) (a : ApiPart)
  (upd : bool) (c : Category) (r_w : ImportResult) (s_w : St) :
  steady s ->
  Dict.get (part_category_to_category s) (part_category p) = Some c ->
  setup_parameters (Some p) a upd s = Ret r_w s_w ->
  let matched := matched_of s p c a in
  let unassigned := unmatched_of s p c a in
  let existing := existing_parameters_of (repo s) p in
  let missing := missing_templates existing (parameter_templates s) matched in
  let notes :=
    reconciliation_notes (tasks_of existing (parameter_templates s) upd matched)
                         unassigned in
  exists s_d s1,
    ask_parameters a (matched_by_alias s c a) (unassigned_of s p c a)
                   (interactive s) (printed a s)
    = Ret (matched, unassigned) s1
    /\ ask_parameters a (matched_by_alias s c a) (unassigned_of s p c a)
                      (interactive s) (printed a (set_dry_run true s))
       = Ret (matched, unassigned) (set_dry_run true s1)
    /\ setup_parameters (Some p) a upd (set_dry_run true s)
       = Ret (severity_of (negb (is_nil unassigned))) s_d
    /\ r_w = severity_of (negb (is_nil unassigned))
             |r severity_of (negb (is_nil missing))
    /\ keys s_d = keys s_w /\ typed s_d = typed s_w
    /\ aliases s_d = aliases s_w /\ parameter_map s_d = parameter_map s_w
    /\ console s_d = (notes ++ console s1)%list
    /\ console s_w
       = (notes ++ map (fun n => (L_warning, Msg_no_template n)) (rev missing)
                ++ console s1)%list.
Proof.
  intros St0 G Rw matched unassigned existing missing notes.
  rewrite (setup_parameters_eq s p a upd c G) in Rw.
  pose proof (setup_parameters_eq (set_dry_run true s) p a upd c G) as Ed.
  rewrite printed_dry_run in Ed.
  change (existing_parameters_of (repo (set_dry_run true s)) p) with existing in Ed.
  change (matched_by_alias (set_dry_run true s) c a)
    with (matched_by_alias s c a) in Ed.
  change (unassigned_of (set_dry_run true s) p c a)
    with (unassigned_of s p c a) in Ed.
  change (interactive (set_dry_run true s)) with (interactive s) in Ed.
  rewrite Ed, printed_dry_run. clear Ed.
  pose proof (printed_frame a s) as Fp.
  unfold finish_parameters in *.
  apply bind_Ret in Rw. destruct Rw as ([m1 u1] & s1 & R1 & Rw).
  destruct (ask_parameters_user s p c a m1 u1 s1 R1) as (-> & -> & Ka).
  fold matched unassigned existing in R1, Rw.
  pose proof (ask_parameters_commutes true a (matched_by_alias s c a)
                (unassigned_of s p c a) (interactive s) (printed a s)) as R1d.
  rewrite R1 in R1d. simpl in R1d.
  apply bind_Ret in Rw. destruct Rw as ([async ir] & s2 & R2 & Rw).
  assert (St1 : steady s1).
  { destruct Fp as (S1 & _ & _ & _ & _ & F1 & _).
    destruct Ka as (S2 & _ & _ & _ & F2 & _).
    destruct St0 as [D F]. split.
    - rewrite (settings_dry_run _ _ S2), (settings_dry_run _ _ S1). exact D.
    - congruence. }
  assert (T1 : parameter_templates s1 = parameter_templates s).
  { destruct Fp as (S1 & _). destruct Ka as (S2 & _).
    rewrite (settings_templates _ _ S2). apply settings_templates. exact S1. }
  destruct (apply_parameters_wet p existing upd matched s1 [] SUCCESS St1)
    as (s2' & R2' & C2).
  rewrite R2' in R2. inversion R2. subst async ir s2'. clear R2.
  pose proof (apply_parameters_repo p existing upd matched [] SUCCESS s1) as K2.
  rewrite R2' in K2. simpl in K2.
  destruct K2 as (_ & _ & _ & Pm2 & K2 & Ty2 & Al2 & _).
  rewrite T1 in *. fold missing in C2, Rw.
  set (k := tasks_of existing (parameter_templates s) upd matched) in *.
  simpl app in Rw.
  exists (set_console (notes ++ console s1)%list (set_dry_run true s1)), s1.
  split; [exact R1|]. split; [exact R1d|].
  rewrite (bind_of_Ret _ _ _ _ _ R1d).
  rewrite (bind_of_Ret _ _ _ _ _
             (apply_parameters_dry p existing upd matched
                                   (set_dry_run true s1) [] SUCCESS eq_refl)).
  change (parameter_templates (set_dry_run true s1)) with (parameter_templates s1).
  rewrite T1. fold k. simpl app.
  assert (Info : forall s0,
             (if negb (is_nil (repeat (Returned None) k))
              then info Msg_updating_parameters else ret tt) s0
             = Ret tt
                 (set_console (match k with
                               | O => []
                               | S _ => [(L_info, Msg_updating_parameters)]
                               end ++ console s0)%list s0)).
  { intros s0. destruct k; simpl; [destruct s0|]; reflexivity. }
  rewrite (bind_of_Ret _ _ _ _ _ (Info _)),
    (bind_of_Ret _ _ _ _ _ (collect_results_none _ _ _)) in Rw.
  rewrite (bind_of_Ret _ _ _ _ _ (Info _)),
    (bind_of_Ret _ _ _ _ _ (collect_results_none _ _ _)).
  unfold notes, reconciliation_notes. fold k.
  destruct (negb (is_nil unassigned)).
  - unfold warning in *. rewrite bind_say in *. inversion Rw. subst r_w s_w.
    fields. split; [reflexivity|]. split; [apply or_severity_INCOMPLETE|].
    rewrite C2. repeat split; congruence.
  - inversion Rw. subst r_w s_w.
    fields. split; [reflexivity|]. split; [destruct (negb (is_nil missing)); reflexivity|].
    rewrite C2. repeat split; congruence.
Qed.

(** C9, amended. In a dry run no mutating call reaches the repository in
    the whole of [import_part] and a creation hands back an entity of
    identifier 0 (the dry-run mode of the client); the supplier-part data
    carry the part identifier 0, with which [add_stock] is still called;
    and the matching logic still runs. Over the same data, the parameter
    reconciliation of a dry run and of a real run in which every request
    succeeds take the same answers of the user and have the same matched
    and the same unmatched names, those the alias table and the answers
    give; they learn the same aliases and print the same lines, but for
    the warnings of the real run about matched parameters without a
    template. The dry run is INCOMPLETE exactly when a name is
    unmatched; the real run is INCOMPLETE also when a matched parameter
    has no template, which the dry run passes over. A category that is
    not configured is FAILURE in both, and a dry run without a part
    object skips the reconciliation with SUCCESS: from line 166 on such
    a dry run does nothing but store the supplier-part. *)
Theorem dry_run_runs_matching_without_writes :
  (forall s term part supplier_id only loc amount,
      dry_run s = true ->
      let s' := final (import_part term part supplier_id only loc amount s) in
      repo s' = repo s /\ writes s' = writes s)
  /\ (forall s p a upd c r_w s_w,
         steady s ->
         Dict.get (part_category_to_category s) (part_category p) = Some c ->
         setup_parameters (Some p) a upd s = Ret r_w s_w ->
         let matched := matched_of s p c a in
         let unassigned := unmatched_of s p c a in
         let existing := existing_parameters_of (repo s) p in
         let missing := missing_templates existing (parameter_templates s) matched in
         let notes :=
           reconciliation_notes
             (tasks_of existing (parameter_templates s) upd matched) unassigned in
         exists s_d s1,
           ask_parameters a (matched_by_alias s c a) (unassigned_of s p c a)
                          (interactive s) (printed a s)
           = Ret (matched, unassigned) s1
           /\ ask_parameters a (matched_by_alias s c a) (unassigned_of s p c a)
                             (interactive s) (printed a (set_dry_run true s))
              = Ret (matched, unassigned) (set_dry_run true s1)
           /\ setup_parameters (Some p) a upd (set_dry_run true s)
              = Ret (severity_of (negb (is_nil unassigned))) s_d
           /\ r_w = severity_of (negb (is_nil unassigned))
                    |r severity_of (negb (is_nil missing))
           /\ keys s_d = keys s_w /\ typed s_d = typed s_w
           /\ aliases s_d = aliases s_w /\ parameter_map s_d = parameter_map s_w
           /\ console s_d = (notes ++ console s1)%list
           /\ console s_w
              = (notes
                 ++ map (fun n => (L_warning, Msg_no_template n)) (rev missing)
                 ++ console s1)%list)
  /\ (forall s p a upd,
         Dict.get (part_category_to_category s) (part_category p) = None ->
         exists s_w s_d,
           setup_parameters (Some p) a upd s = Ret FAILURE s_w
           /\ setup_parameters (Some p) a upd (set_dry_run true s) = Ret FAILURE s_d)
  /\ (forall s a upd,
         dry_run s = true -> setup_parameters None a upd s = Ret SUCCESS s)
  /\ (forall s,
         dry_run s = true ->
         (forall category d, Part_create category d s = Ret (new_part 0 category d) s)
         /\ (forall part m a,
                ManufacturerPart_create part m a s
                = Ret (new_manufacturer_part 0 part m a) s)
         /\ (forall d, SupplierPart_create d s = Ret (new_supplier_part 0 d) s))
  /\ (forall s supplier a osp mp part loc amount ir r s',
         dry_run s = true ->
         store_supplier_part supplier a osp mp part loc amount ir s = Ret r s' ->
         stocked s'
         = ((if truthy_Z loc
             then [(match loc with Some z => z | None => 0 end, 0, amount)]
             else []) ++ stocked s)%list)
  /\ (forall s supplier a osp mp loc amount,
         dry_run s = true ->
         finish_supplier_part supplier a osp mp None loc amount s
         = store_supplier_part supplier a osp mp None loc amount SUCCESS s).
Proof.
  split; [|split; [|split; [|split; [|split; [|split]]]]].
  - intros s term part supplier_id only loc amount D.
    destruct (import_part_dry_run term part supplier_id only loc amount s D)
      as (_ & R & W & _).
    split; assumption.
  - intros s p a upd c r_w s_w St0 G Rw.
    exact (setup_parameters_dry_run_matches s p a upd c r_w s_w St0 G Rw).
  - intros s p a upd G. eexists _, _. split.
    + unfold setup_parameters. rewrite bind_gets, bind_gets, G.
      unfold error. rewrite bind_say. reflexivity.
    + unfold setup_parameters. rewrite bind_gets, bind_gets.
      change (part_category_to_category (set_dry_run true s))
        with (part_category_to_category s).
      rewrite G. unfold error. rewrite bind_say. reflexivity.
  - intros s a upd D. unfold setup_parameters. rewrite bind_gets, D. reflexivity.
  - intros s D. repeat split; intros; apply mutating_dry; exact D.
  - intros s supplier a osp mp part loc amount ir r s' D R.
    destruct (store_supplier_part_effect _ _ _ _ _ _ _ _ _ _ _ R)
      as (_ & _ & _ & _ & T & _).
    rewrite D in T. exact T.
  - intros s supplier a osp mp loc amount D.
    unfold finish_supplier_part. rewrite bind_gets, bind_gets, D.
    cbn [negb]. rewrite bind_ret.
    destruct (negb (is_nil (api_parameters a))); [|rewrite bind_ret; reflexivity].
    rewrite bind_bind.
    erewrite bind_of_Ret
      by (unfold setup_parameters; rewrite bind_gets, D; reflexivity).
    rewrite bind_ret. reflexivity.
Qed.

Lemma dry_run_runs_matching_without_writes_witness :
  exists s_w s_d,
    setup_parameters (Some ex_stored_part) ex_candidate true ex_typed
    = Ret INCOMPLETE s_w
    /\ setup_parameters (Some ex_stored_part) ex_candidate true
                        (set_dry_run true ex_typed) = Ret SUCCESS s_d
    /\ matched_of ex_typed ex_stored_part ex_resistors ex_candidate
       = [("Resistance", "10 Ohms"); ("Tolerance", "1%")]
    /\ keys s_d = keys s_w /\ typed s_d = typed s_w
    /\ repo (final (import_part "RC0603" None None false None 0
                                (set_dry_run true ex_stored)))
       = repo ex_stored.
Proof.
  destruct dry_run_runs_matching_without_writes as (Dry & Same & _).
  assert (W : setup_parameters (Some ex_stored_part) ex_candidate true ex_typed
              = Ret INCOMPLETE
                    (final (setup_parameters (Some ex_stored_part) ex_candidate true
                                             ex_typed)))
    by (vm_compute; reflexivity).
  destruct (Same ex_typed ex_stored_part ex_candidate true ex_resistors _ _
                 (conj eq_refl eq_refl) eq_refl W)
    as (s_d & s1 & _ & _ & Rd & _ & K & T & _).
  exists (final (setup_parameters (Some ex_stored_part) ex_candidate true ex_typed)),
         s_d.
  split; [exact W|]. split; [exact Rd|]. split; [vm_compute; reflexivity|].
  split; [exact K|]. split; [exact T|].
  apply (Dry (set_dry_run true ex_stored) "RC0603" None None false None 0 eq_refl).
Defined.

(** ** The established manufacturer-part *)

Lemma frame_sync_refl (s : St) : frame_sync s s.
Proof. unfold frame_sync. intuition. Qed.

Lemma frame_sync_trans (a b c : St) : frame_sync a b -> frame_sync b c -> frame_sync a c.
Proof. unfold frame_sync. intuition congruence. Qed.

Ltac leaf_sync :=
  leaf_of frame_sync_refl frame_sync_trans
          ltac:(unfold frame_sync; simpl;
                rewrite ?map_patch_same by (intros; reflexivity);
                intuition congruence).

Lemma sync_part_frame (a : ApiPart) (mp : ManufacturerPart) (part : option Part)
  (upd : bool) :
  keeps frame_sync (sync_part a mp part upd).
Proof.
  keeps_with leaf_sync.
Qed.

#[local] Hint Resolve sync_part_frame : keeps.

Lemma frame_links_refl (s : St) : frame_links s s.
Proof. unfold frame_links. intuition. Qed.

Lemma frame_links_trans (a b c : St) :
  frame_links a b -> frame_links b c -> frame_links a c.
Proof. unfold frame_links. intuition congruence. Qed.

Ltac leaf_links :=
  leaf_of frame_links_refl frame_links_trans
          ltac:(unfold frame_links; simpl; intuition congruence).

Lemma price_break_loop_links (existing : list (Z * SupplierPriceBreak))
  (sp : SupplierPart) (a : ApiPart) (items : list (Z * Q)) (u : bool) :
  keeps frame_links (price_break_loop existing sp a items u).
Proof.
  revert u. induction items as [|[q p] items IH]; intros u; simpl;
    keeps_with leaf_links.
Qed.

#[local] Hint Resolve price_break_loop_links : keeps.

Lemma setup_price_breaks_links (sp : SupplierPart) (a : ApiPart) :
  keeps frame_links (setup_price_breaks sp a).
Proof.
  keeps_with leaf_links.
Qed.

#[local] Hint Resolve setup_price_breaks_links : keeps.

Lemma select_parameter_links (name : string) (ps : list (string * string)) :
  keeps frame_links (select_parameter name ps).
Proof.
  keeps_with leaf_links.
Qed.

#[local] Hint Resolve select_parameter_links : keeps.

Lemma resolve_parameters_links (names : list string) (a : ApiPart)
  (matched : list (string * string)) (unassigned : list string) :
  keeps frame_links (resolve_parameters names a matched unassigned).
Proof.
  revert matched unassigned. induction names as [|n names IH]; intros matched unassigned; simpl;
    keeps_with leaf_links.
Qed.

#[local] Hint Resolve resolve_parameters_links : keeps.

Lemma apply_parameters_links (p : Part) (existing : list (string * PartParameter))
  (upd : bool) (items : list (string * string)) (async : list TaskResult)
  (ir : ImportResult) :
  keeps frame_links (apply_parameters items p existing upd async ir).
Proof.
  revert async ir. induction items as [|[name v] items IH]; intros async ir; simpl;
    keeps_with leaf_links.
Qed.

#[local] Hint Resolve apply_parameters_links : keeps.

Lemma collect_results_links (async : list TaskResult) (ir : ImportResult) :
  keeps frame_links (collect_results async ir).
Proof.
  revert ir. induction async as [|result async IH]; intros ir; simpl;
    keeps_with leaf_links.
Qed.

#[local] Hint Resolve collect_results_links : keeps.

Lemma setup_parameters_links (part : option Part) (a : ApiPart) (upd : bool) :
  keeps frame_links (setup_parameters part a upd).
Proof.
  keeps_with leaf_links.
Qed.

#[local] Hint Resolve setup_parameters_links : keeps.

Lemma same_manufacturer_parts_refl (s : St) : same_manufacturer_parts s s.
Proof. reflexivity. Qed.

Lemma same_manufacturer_parts_trans (a b c : St) :
  same_manufacturer_parts a b -> same_manufacturer_parts b c ->
  same_manufacturer_parts a c.
Proof. unfold same_manufacturer_parts. congruence. Qed.

Ltac leaf_same_mps :=
  leaf_of same_manufacturer_parts_refl same_manufacturer_parts_trans
          ltac:(unfold same_manufacturer_parts; simpl; congruence).

(** [sync_part] leaves the manufacturer-parts alone when it has not to
    move the manufacturer-part to the part. *)
Lemma sync_part_same_mps (a : ApiPart) (mp : ManufacturerPart) (part : option Part)
  (upd : bool) :
  match part with Some p => part_pk p = mp_part mp | None => True end ->
  keeps same_manufacturer_parts (sync_part a mp part upd).
Proof.
  intros H. unfold sync_part. destruct part as [p|].
  - rewrite H, Z.eqb_refl. cbn [negb]. keeps_with leaf_same_mps.
  - keeps_with leaf_same_mps.
Qed.

Lemma sync_part_result (a : ApiPart) (mp : ManufacturerPart) (part : option Part)
  (upd : bool) (s s' : St) (x : ImportResult + Part) :
  (upd = true -> finalize a = true) ->
  sync_part a mp part upd s = Ret x s' -> exists p, x = inr p.
Proof.
  unfold sync_part. intros H R.
  apply bind_Ret in R. destruct R as (p & s1 & _ & R).
  assert (Fz : upd && negb (finalize a) = false).
  { destruct upd; [rewrite H by reflexivity|]; reflexivity. }
  rewrite Fz in R.
  apply bind_Ret in R. destruct R as (p' & s2 & _ & R).
  apply bind_Ret in R. destruct R as (u & s3 & _ & R).
  apply bind_Ret in R. destruct R as (l & s4 & _ & R).
  apply bind_Ret in R. destruct R as (u' & s5 & _ & R).
  inversion R. eexists. reflexivity.
Qed.

(** The end of [import_supplier_part] for a SKU without a supplier-part:
    the manufacturer-part is established, and out of a dry run a
    supplier-part that references it is made. *)
Lemma store_supplier_part_new (supplier : Company) (a : ApiPart)
  (mp : ManufacturerPart) (part : option Part) (loc : option Z) (amount : Z)
  (ir r : ImportResult) (s s' : St) :
  store_supplier_part supplier a None mp part loc amount ir s = Ret r s' ->
  r = ir
  /\ existing_manufacturer_part s' = Some mp
  /\ settings s' = settings s
  /\ (faults s = [] -> faults s' = [])
  /\ parts (repo s') = parts (repo s)
  /\ manufacturer_parts (repo s') = manufacturer_parts (repo s)
  /\ (dry_run s = true -> supplier_parts (repo s') = supplier_parts (repo s))
  /\ (dry_run s = false ->
      exists p sp,
        part = Some p
        /\ supplier_parts (repo s') = (supplier_parts (repo s) ++ [sp])%list
        /\ sp_SKU sp = SKU a
        /\ sp_manufacturer_part sp = Some (mp_pk mp)
        /\ sp_part sp = part_pk p).
Proof.
  unfold store_supplier_part. rewrite bind_modify, bind_gets. fields.
  set (s0 := set_existing_manufacturer_part (Some mp) s).
  intros R.
  apply bind_Ret in R. destruct R as (part_id & s1 & R1 & R).
  apply bind_Ret in R. destruct R as (sp & s2 & R2 & R).
  assert (Tail : r = ir /\ frame_links s2 s').
  { assert (K : keeps frame_links
                  (setup_price_breaks sp a ;;
                   success (Msg_supplier_part_done (is_some (@None SupplierPart))
                              (company_name supplier) (sp_SKU sp)) ;;
                   (if truthy_Z loc
                    then add_or_update_stock part_id
                           (match loc with Some z => z | None => 0 end) amount
                    else ret tt) ;;
                   ret ir))
      by keeps_with leaf_links.
    specialize (K s2). rewrite R in K. split; [|exact K].
    apply bind_Ret in R. destruct R as (? & ? & _ & R).
    apply bind_Ret in R. destruct R as (? & ? & _ & R).
    apply bind_Ret in R. destruct R as (? & ? & _ & R).
    inversion R. reflexivity. }
  destruct Tail as [-> (S2 & C2 & E2 & P2 & M2 & L2)].
  destruct (dry_run s) eqn:D.
  - inversion R1. subst part_id s1. clear R1.
    unfold SupplierPart_create in R2. rewrite mutating_dry in R2 by exact D.
    inversion R2. subst sp s2. clear R2.
    repeat split; auto; try discriminate.
  - destruct part as [p|]; [|discriminate R1].
    inversion R1. subst part_id s1. clear R1.
    unfold SupplierPart_create, mutating in R2. fold s0 in R2.
    change (dry_run s0) with (dry_run s) in R2. rewrite D in R2.
    change (faults s0) with (faults s) in R2.
    destruct (faults s) as [|[e|] fs] eqn:F; inversion R2; subst sp s2; clear R2;
      fields; (repeat split; auto; try discriminate);
      try (intros _; eexists _, _; repeat split; eauto);
      try (intros X; discriminate X).
Qed.

Lemma apply_parameters_mild (p : Part) (existing : list (string * PartParameter))
  (upd : bool) (items : list (string * string)) :
  forall s async ir async' ir' s',
    apply_parameters items p existing upd async ir s = Ret (async', ir') s' ->
    mild ir -> mild ir'.
Proof.
  induction items as [|[name v] items IH]; intros s async ir async' ir' s' A G;
    simpl in A.
  - inversion A. subst. exact G.
  - destruct (negb (Str.truthy (sanitize_parameter_value v))); [eapply IH; eauto|].
    destruct (Dict.get existing name) as [e|].
    + destruct (upd && negb (String.eqb (param_data e) (sanitize_parameter_value v)));
        [|eapply IH; eauto].
      apply bind_Ret in A. destruct A as (? & ? & _ & A). eapply IH; eauto.
    + rewrite bind_gets in A.
      destruct (Dict.get (parameter_templates s) name) as [t|].
      * apply bind_Ret in A. destruct A as (? & ? & _ & A). eapply IH; eauto.
      * rewrite bind_gets in A. destruct (negb (dry_run s)).
        -- unfold warning in A. rewrite bind_say in A.
           eapply IH; [exact A|]. apply or_mild. exact G.
        -- eapply IH; eauto.
Qed.

(** [setup_parameters] never gives ERROR. *)
Lemma setup_parameters_not_error (part : option Part) (a : ApiPart) (upd : bool)
  (s s' : St) (r : ImportResult) :
  setup_parameters part a upd s = Ret r s' -> SUCCESS |r r <> ERROR.
Proof.
  intros R. destruct part as [p|].
  - destruct (Dict.get (part_category_to_category s) (part_category p)) as [c|] eqn:G.
    + rewrite (setup_parameters_eq _ _ _ _ _ G) in R. unfold finish_parameters in R.
      apply bind_Ret in R. destruct R as ([m u] & t1 & _ & R).
      apply bind_Ret in R. destruct R as ([async ir0] & t2 & A & R).
      apply bind_Ret in R. destruct R as (? & t3 & _ & R).
      apply bind_Ret in R. destruct R as (ir4 & t4 & Cl & R).
      assert (Mi : mild ir4).
      { eapply collect_results_spec; [exact Cl|].
        eapply apply_parameters_mild; [exact A | left; reflexivity]. }
      destruct (negb (is_nil u)).
      * unfold warning in R. rewrite bind_say in R. inversion R.
        destruct Mi as [->| ->]; discriminate.
      * inversion R. subst. destruct Mi as [->| ->]; discriminate.
    + unfold setup_parameters in R. rewrite bind_gets, bind_gets, G in R.
      unfold error in R. rewrite bind_say in R. inversion R. discriminate.
  - unfold setup_parameters in R. rewrite bind_gets in R.
    destruct (dry_run s); inversion R. discriminate.
Qed.

(** [import_supplier_part] from line 166 on, for a SKU without a
    supplier-part, when the manufacturer-part has the identifier of the
    established one or the candidate can be finalized: the
    manufacturer-part is established, no part and no manufacturer-part is
    made or lost, and out of a dry run a supplier-part that references
    the manufacturer-part is made. *)
Lemma finish_supplier_part_facts (supplier : Company) (a : ApiPart)
  (mp : ManufacturerPart) (part : option Part) (loc : option Z) (amount : Z)
  (r : ImportResult) (s s' : St) :
  match existing_manufacturer_part s with
  | Some m0 => mp_pk m0 = mp_pk mp \/ finalize a = true
  | None => finalize a = true
  end ->
  finish_supplier_part supplier a None mp part loc amount s = Ret r s' ->
  existing_manufacturer_part s' = Some mp
  /\ settings s' = settings s
  /\ (faults s = [] -> faults s' = [])
  /\ map mp_pk (manufacturer_parts (repo s')) = map mp_pk (manufacturer_parts (repo s))
  /\ map mp_MPN (manufacturer_parts (repo s')) = map mp_MPN (manufacturer_parts (repo s))
  /\ map part_pk (parts (repo s')) = map part_pk (parts (repo s))
  /\ r <> ERROR
  /\ (match part with Some p => part_pk p = mp_part mp | None => True end ->
      manufacturer_parts (repo s') = manufacturer_parts (repo s))
  /\ (dry_run s = false ->
      exists sp,
        supplier_parts (repo s') = (supplier_parts (repo s) ++ [sp])%list
        /\ sp_SKU sp = SKU a
        /\ sp_manufacturer_part sp = Some (mp_pk mp)).
Proof.
  intros E R. unfold finish_supplier_part in R.
  rewrite bind_gets, bind_gets in R.
  set (upd := match existing_manufacturer_part s with
              | Some e => negb (mp_pk e =? mp_pk mp)
              | None => true
              end) in *.
  assert (Hu : upd = true -> finalize a = true).
  { unfold upd. destruct (existing_manufacturer_part s) as [m0|]; [|auto].
    destruct E as [E|E]; [|auto]. rewrite E, Z.eqb_refl. discriminate. }
  apply bind_Ret in R. destruct R as (synced & s1 & R1 & R).
  assert (Sy : frame_sync s s1
               /\ (match part with Some p => part_pk p = mp_part mp | None => True end ->
                   manufacturer_parts (repo s1) = manufacturer_parts (repo s))
               /\ exists part1, synced = inr part1).
  { destruct (dry_run s) eqn:D; cbn [negb] in R1.
    - inversion R1. subst.
      split; [apply frame_sync_refl | split; [reflexivity | eexists; reflexivity]].
    - apply bind_Ret in R1. destruct R1 as (x & s1' & R1 & R1').
      pose proof (sync_part_frame a mp part upd s) as K. rewrite R1 in K.
      destruct (sync_part_result _ _ _ _ _ _ _ Hu R1) as (p & ->).
      inversion R1'. subst. split; [exact K|]. split; [|eexists; reflexivity].
      intros Hp. pose proof (sync_part_same_mps a mp part upd Hp s) as K'.
      rewrite R1 in K'. exact K'. }
  destruct Sy as (Fs & Ms & part1 & ->).
  apply bind_Ret in R. destruct R as (ir & s2 & R2 & R).
  assert (Pa : frame_links s1 s2 /\ ir <> ERROR).
  { destruct (negb (is_nil (api_parameters a))).
    - apply bind_Ret in R2. destruct R2 as (x & s2' & R2 & R2').
      pose proof (setup_parameters_links part1 a upd s1) as K. rewrite R2 in K.
      inversion R2'. subst. split; [exact K|].
      eapply setup_parameters_not_error; eauto.
    - inversion R2. subst. split; [apply frame_links_refl | discriminate]. }
  destruct Pa as [Fl NE].
  destruct (store_supplier_part_new _ _ _ _ _ _ _ _ _ _ R)
    as (-> & E' & S3 & C3 & P3 & M3 & _ & New).
  destruct Fs as (S1 & C1 & _ & _ & _ & _ & _ & _ & Pk1 & _ & _ & Mk1 & Mn1 & L1 & _).
  destruct Fl as (S2 & C2 & _ & P2 & M2 & L2).
  split; [exact E'|]. split; [congruence|]. split; [auto|].
  split; [congruence|]. split; [congruence|]. split; [congruence|].
  split; [exact NE|].
  split; [intros Hp; rewrite M3, M2; apply Ms; exact Hp|].
  intros D.
  assert (D2 : dry_run s2 = false).
  { rewrite (settings_dry_run _ _ S2), (settings_dry_run _ _ S1). exact D. }
  destruct (New D2) as (p & sp & _ & L3 & K3 & Mp3 & _).
  exists sp. split; [congruence | auto].
Qed.

Lemma steady_of (s s' : St) :
  settings s' = settings s -> (faults s = [] -> faults s' = []) ->
  steady s -> steady s'.
Proof.
  intros S C [D F]. split; [|auto]. rewrite (settings_dry_run _ _ S). exact D.
Qed.

Ltac run_all :=
  repeat first
    [ run_step
    | match goal with
      | |- context [if ?b then _ else _] => destruct b eqn:?
      | |- context [match ?x with _ => _ end] => destruct x eqn:?
      end ].

Lemma sync_part_returns (a : ApiPart) (mp : ManufacturerPart) (part : option Part)
  (upd : bool) (s : St) :
  steady s ->
  match part with
  | Some _ => True
  | None => find (fun p => part_pk p =? mp_part mp) (parts (repo s)) <> None
  end ->
  (upd = true -> finalize a = true) ->
  exists p' s', sync_part a mp part upd s = Ret (inr p') s'.
Proof.
  intros [D F] Hp Hf. unfold sync_part.
  assert (First : exists p1 s1,
             match part with
             | Some p =>
                 (if negb (part_pk p =? mp_part mp)
                  then update_manufacturer_part_part mp (part_pk p);; ret tt
                  else ret tt);; ret p
             | None => Part_of_pk (mp_part mp)
             end s = Ret p1 s1 /\ dry_run s1 = false /\ faults s1 = []).
  { destruct part as [p|].
    - unfold update_manufacturer_part_part. run_all;
        eexists _, _; (split; [reflexivity|]); fields; auto.
    - unfold Part_of_pk. destruct (find _ _) as [p|]; [|contradiction].
      eexists _, _. split; [reflexivity|]. auto. }
  destruct First as (p1 & s1 & R1 & D1 & F1).
  rewrite (bind_of_Ret _ _ _ _ _ R1).
  assert (Fz : upd && negb (finalize a) = false).
  { destruct upd; [rewrite Hf by reflexivity|]; reflexivity. }
  rewrite Fz.
  unfold update_part_data, upload_image, getAttachments, upload_datasheet,
    addLinkAttachment, add_attachment, info, warning.
  run_all; eexists _, _; reflexivity.
Qed.

Lemma setup_parameters_returns (p : Part) (a : ApiPart) (upd : bool) (s : St) :
  interactive s = false -> tasks_answer upd s ->
  exists r s', setup_parameters (Some p) a upd s = Ret r s'.
Proof.
  intros I A.
  destruct (Dict.get (part_category_to_category s) (part_category p)) as [c|] eqn:G.
  - rewrite (setup_parameters_eq _ _ _ _ _ G), I. apply finish_parameters_returns.
    destruct (printed_frame a s) as (S1 & _ & _ & _ & _ & F1 & _).
    unfold tasks_answer. rewrite (settings_dry_run _ _ S1), F1. exact A.
  - unfold setup_parameters. rewrite bind_gets, bind_gets, G.
    unfold error. rewrite bind_say. eexists _, _. reflexivity.
Qed.

Lemma setup_price_breaks_returns (sp : SupplierPart) (a : ApiPart) (s : St) :
  steady s -> exists s', setup_price_breaks sp a s = Ret tt s'.
Proof.
  intros [D F]. unfold setup_price_breaks, SupplierPriceBreak_list.
  rewrite bind_gets.
  match goal with |- context [price_break_loop ?e sp a ?items false] =>
    destruct (price_break_loop_runs e sp a items s false D F)
      as (s1 & u' & ws & created & R & _) end.
  rewrite (bind_of_Ret _ _ _ _ _ R).
  destruct u'; eexists; reflexivity.
Qed.

Lemma store_supplier_part_returns (supplier : Company) (a : ApiPart)
  (mp : ManufacturerPart) (p : Part) (loc : option Z) (amount : Z)
  (ir : ImportResult) (s : St) :
  steady s ->
  exists s', store_supplier_part supplier a None mp (Some p) loc amount ir s = Ret ir s'.
Proof.
  intros [D F]. unfold store_supplier_part, SupplierPart_create.
  rewrite bind_modify, bind_gets. fields. rewrite D, bind_ret.
  rewrite bind_mutating by (fields; assumption). fields.
  match goal with |- context [setup_price_breaks ?sp a] =>
    match goal with |- context [bind (setup_price_breaks sp a) _ ?s1] =>
      destruct (setup_price_breaks_returns sp a s1 (conj D F)) as (s2 & R2);
      pose proof (setup_price_breaks_links sp a s1) as K; rewrite R2 in K;
      simpl in K
    end
  end.
  rewrite (bind_of_Ret _ _ _ _ _ R2). unfold success. rewrite bind_say.
  destruct K as (S2 & C2 & _).
  assert (D2 : dry_run s2 = false) by (rewrite (settings_dry_run _ _ S2); exact D).
  assert (F2 : faults s2 = []) by (apply C2; exact F).
  unfold add_or_update_stock, add_stock.
  destruct (truthy_Z loc); run; eexists; reflexivity.
Qed.

(** What [create_in_category] leaves alone, and when the end of
    [import_supplier_part] returns. *)
Lemma frame_create_refl (s : St) : frame_create s s.
Proof. unfold frame_create. intuition. Qed.

Lemma frame_create_trans (a b c : St) :
  frame_create a b -> frame_create b c -> frame_create a c.
Proof. unfold frame_create. intuition congruence. Qed.

Ltac leaf_create :=
  leaf_of frame_create_refl frame_create_trans
          ltac:(unfold frame_create; simpl; intuition congruence).

Lemma create_in_category_frame (a : ApiPart) (c : Category) :
  keeps frame_create (create_in_category a c).
Proof. keeps_with leaf_create. Qed.

Lemma finish_supplier_part_returns (supplier : Company) (a : ApiPart)
  (mp : ManufacturerPart) (part : option Part) (loc : option Z) (amount : Z)
  (s : St) :
  steady s -> interactive s = false ->
  match part with
  | Some _ => True
  | None => find (fun p => part_pk p =? mp_part mp) (parts (repo s)) <> None
  end ->
  match existing_manufacturer_part s with
  | Some m0 => mp_pk m0 = mp_pk mp \/ finalize a = true
  | None => finalize a = true
  end ->
  exists r s', finish_supplier_part supplier a None mp part loc amount s = Ret r s'.
Proof.
  intros St0 I Hp E. unfold finish_supplier_part.
  rewrite bind_gets, bind_gets.
  set (upd := match existing_manufacturer_part s with
              | Some e => negb (mp_pk e =? mp_pk mp)
              | None => true
              end) in *.
  assert (Hu : upd = true -> finalize a = true).
  { unfold upd. destruct (existing_manufacturer_part s) as [m0|]; [|auto].
    destruct E as [E|E]; [|auto]. rewrite E, Z.eqb_refl. discriminate. }
  destruct St0 as [D F]. rewrite D. cbn [negb].
  destruct (sync_part_returns a mp part upd s (conj D F) Hp Hu) as (p1 & s1 & R1).
  pose proof (sync_part_frame a mp part upd s) as K1. rewrite R1 in K1. simpl in K1.
  rewrite bind_bind, (bind_of_Ret _ _ _ _ _ R1), bind_ret.
  destruct K1 as (S1 & C1 & _).
  assert (St1 : steady s1) by (apply (steady_of s s1 S1 C1); split; assumption).
  assert (I1 : interactive s1 = false)
    by (rewrite (settings_interactive _ _ S1); exact I).
  assert (Pa : exists ir s2,
             (if negb (is_nil (api_parameters a))
              then result <- setup_parameters (Some p1) a upd;; ret (SUCCESS |r result)
              else ret SUCCESS) s1 = Ret ir s2 /\ steady s2).
  { destruct (negb (is_nil (api_parameters a))).
    - destruct (setup_parameters_returns p1 a upd s1 I1
                  (or_intror (or_introl (proj2 St1)))) as (r2 & s2 & R2).
      pose proof (setup_parameters_links (Some p1) a upd s1) as K2.
      rewrite R2 in K2. simpl in K2. destruct K2 as (S2 & C2 & _).
      exists (SUCCESS |r r2), s2. rewrite (bind_of_Ret _ _ _ _ _ R2).
      split; [reflexivity | exact (steady_of s1 s2 S2 C2 St1)].
    - exists SUCCESS, s1. split; [reflexivity | exact St1]. }
  destruct Pa as (ir & s2 & R2 & St2).
  rewrite (bind_of_Ret _ _ _ _ _ R2).
  destruct (store_supplier_part_returns supplier a mp p1 loc amount ir s2 St2)
    as (s3 & R3).
  exists ir, s3. exact R3.
Qed.

Lemma find_app_None {A} (f : A -> bool) (l1 l2 : list A) :
  find f l1 = None -> find f (l1 ++ l2) = find f l2.
Proof.
  induction l1 as [|x l1 IH]; simpl; [reflexivity|].
  destruct (f x); [discriminate | exact IH].
Qed.

Lemma find_pk_In (k : Z) (l : list Part) :
  In k (map part_pk l) -> find (fun p => part_pk p =? k) l <> None.
Proof.
  induction l as [|x l IH]; simpl; [tauto|].
  intros [E|I].
  - rewrite E, Z.eqb_refl. discriminate.
  - destruct (part_pk x =? k); [discriminate | apply IH; exact I].
Qed.

(** One turn of the loop of [import_part] for a supplier with one
    candidate whose import returns. *)
Lemma import_part_loop_step (search_results rest : list (Company * AsyncResult))
  (supplier : Company) (async_results : AsyncResult) (a : ApiPart) (count : Z)
  (part : option Part) (loc : option Z) (amount : Z) (ir r : ImportResult)
  (s s1 : St) :
  search_result async_results = ([a], count) ->
  import_supplier_part supplier a part loc amount
    (set_joined (handle async_results :: joined s)
       (set_console ((L_info, Msg_searching_at (company_name supplier)) :: console s) s))
  = Ret r s1 ->
  ir |r r <> ERROR ->
  import_part_loop search_results ((supplier, async_results) :: rest) part loc
                   amount ir s
  = import_part_loop search_results rest part loc amount (ir |r r) s1.
Proof.
  intros SR R NE. simpl. unfold info. rewrite bind_say.
  unfold get, wait. rewrite bind_bind, bind_modify, bind_ret, SR.
  unfold import_selected.
  erewrite bind_of_Ret with (a := ir |r r) (s1 := s1).
  2:{ apply catch_Ret. erewrite bind_of_Ret by exact R. reflexivity. }
  destruct (ir |r r); try reflexivity. contradiction NE. reflexivity.
Qed.

Lemma or_not_ERROR (x y : ImportResult) : x <> ERROR -> y <> ERROR -> x |r y <> ERROR.
Proof.
  destruct x, y; intros Hx Hy; try (contradiction Hx; reflexivity);
    try (contradiction Hy; reflexivity); discriminate.
Qed.

(** The candidate of a supplier whose SKU and MPN the repository does not
    know, when a manufacturer-part is established: the established one is
    used. *)
Lemma import_supplier_part_reuse (supplier : Company) (a : ApiPart)
  (part : option Part) (loc : option Z) (amount : Z) (m : ManufacturerPart)
  (r : ImportResult) (s s' : St) :
  existing_manufacturer_part s = Some m ->
  find (fun p => String.eqb (sp_SKU p) (SKU a)) (supplier_parts (repo s)) = None ->
  find (fun x => String.eqb (mp_MPN x) (MPN a)) (manufacturer_parts (repo s)) = None ->
  import_supplier_part supplier a part loc amount s = Ret r s' ->
  existing_manufacturer_part s' = Some m
  /\ map mp_pk (manufacturer_parts (repo s')) = map mp_pk (manufacturer_parts (repo s))
  /\ map mp_MPN (manufacturer_parts (repo s')) = map mp_MPN (manufacturer_parts (repo s))
  /\ map part_pk (parts (repo s')) = map part_pk (parts (repo s))
  /\ (dry_run s = false ->
      exists sp,
        supplier_parts (repo s') = (supplier_parts (repo s) ++ [sp])%list
        /\ sp_SKU sp = SKU a
        /\ sp_manufacturer_part sp = Some (mp_pk m)).
Proof.
  intros E Ns Nm R. unfold import_supplier_part, get_supplier_part in R.
  rewrite bind_gets, Ns in R. unfold info in R. rewrite bind_say in R.
  unfold choose_manufacturer_part, get_manufacturer_part in R.
  rewrite bind_bind, bind_gets in R. fields. rewrite Nm in R.
  rewrite bind_bind, bind_gets in R. fields. rewrite E in R.
  rewrite bind_ret in R.
  match type of R with finish_supplier_part _ _ _ _ _ _ _ ?s1 = _ =>
    assert (E1 : match existing_manufacturer_part s1 with
                 | Some m0 => mp_pk m0 = mp_pk m \/ finalize a = true
                 | None => finalize a = true
                 end) by (fields; rewrite E; left; reflexivity)
  end.
  destruct (finish_supplier_part_facts _ _ _ _ _ _ _ _ _ E1 R)
    as (E' & _ & _ & Mk & Mn & Pk & _ & _ & New).
  fields. repeat split; auto.
Qed.

(** The candidate of the first supplier, unknown to the repository: a part
    in the resolved category and a manufacturer-part are made and the
    manufacturer-part is established. *)
Lemma import_supplier_part_first (supplier : Company) (a : ApiPart)
  (loc : option Z) (amount : Z) (c : Category) (s : St) :
  steady s -> interactive s = false ->
  existing_manufacturer_part s = None ->
  find (fun p => String.eqb (sp_SKU p) (SKU a)) (supplier_parts (repo s)) = None ->
  find (fun x => String.eqb (mp_MPN x) (MPN a)) (manufacturer_parts (repo s)) = None ->
  find (fun q => String.eqb (part_name q) (MPN a)) (parts (repo s)) = None ->
  finalize a = true ->
  first_category (category_map s) (rev (category_path a)) = Some c ->
  exists r s' mp p sp,
    import_supplier_part supplier a None loc amount s = Ret r s'
    /\ r <> ERROR /\ steady s' /\ settings s' = settings s
    /\ existing_manufacturer_part s' = Some mp
    /\ manufacturer_parts (repo s') = (manufacturer_parts (repo s) ++ [mp])%list
    /\ mp_MPN mp = MPN a /\ mp_part mp = part_pk p
    /\ map part_pk (parts (repo s'))
       = (map part_pk (parts (repo s)) ++ [part_pk p])%list
    /\ supplier_parts (repo s') = (supplier_parts (repo s) ++ [sp])%list
    /\ sp_SKU sp = SKU a /\ sp_manufacturer_part sp = Some (mp_pk mp).
Proof.
  intros St0 I E Ns Nm Np Fz H. unfold import_supplier_part, get_supplier_part.
  rewrite bind_gets, Ns. unfold info. rewrite bind_say.
  set (s1 := set_console _ s).
  assert (St1 : steady s1) by (destruct St0; split; assumption).
  destruct (create_in_category_runs s1 a c St1)
    as (mp & p & s2 & R2 & St2 & _ & P2 & M2 & Mn & Mp & _).
  pose proof (create_in_category_frame a c s1) as K2. rewrite R2 in K2.
  simpl in K2. destruct K2 as (S2 & _ & E2 & _ & _ & L2 & _).
  assert (Ch : choose_manufacturer_part None a None s1 = Ret (inr (mp, Some p)) s2).
  { rewrite (choose_create s1 a None None eq_refl Nm E Fz).
    rewrite <- (create_manufacturer_part_hit s1 a c Np H) in R2.
    rewrite (bind_of_Ret _ _ _ _ _ R2). reflexivity. }
  rewrite (bind_of_Ret _ _ _ _ _ Ch).
  assert (I2 : interactive s2 = false)
    by (rewrite (settings_interactive _ _ S2); exact I).
  assert (E2' : match existing_manufacturer_part s2 with
                | Some m0 => mp_pk m0 = mp_pk mp \/ finalize a = true
                | None => finalize a = true
                end)
    by (rewrite E2; change (existing_manufacturer_part s1)
                      with (existing_manufacturer_part s); rewrite E; exact Fz).
  destruct (finish_supplier_part_returns supplier a mp (Some p) loc amount s2
              St2 I2 Logic.I E2') as (r & s3 & R3).
  destruct (finish_supplier_part_facts _ _ _ _ _ _ _ _ _ E2' R3)
    as (E3 & S3 & C3 & _ & _ & Pk & NE & Ms & New).
  destruct St2 as [D2 F2]. destruct (New D2) as (sp & L3 & K3 & Mp3).
  exists r, s3, mp, p, sp. split; [exact R3|]. split; [exact NE|].
  split; [apply (steady_of s2 s3 S3 C3); split; assumption|].
  split; [rewrite S3; exact S2|]. split; [exact E3|].
  split; [rewrite (Ms (eq_sym Mp)); exact M2|].
  split; [exact Mn|]. split; [exact Mp|].
  split; [rewrite Pk, P2, map_app; reflexivity|].
  split; [rewrite L3, L2; reflexivity|]. split; [exact K3 | exact Mp3].
Qed.

(** The candidate of a later supplier for the MPN of the established
    manufacturer-part: nothing but a supplier-part is made. *)
Lemma import_supplier_part_known (supplier : Company) (a : ApiPart)
  (loc : option Z) (amount : Z) (mp : ManufacturerPart) (s : St) :
  steady s -> interactive s = false ->
  existing_manufacturer_part s = Some mp ->
  find (fun p => String.eqb (sp_SKU p) (SKU a)) (supplier_parts (repo s)) = None ->
  find (fun x => String.eqb (mp_MPN x) (MPN a)) (manufacturer_parts (repo s)) = Some mp ->
  In (mp_part mp) (map part_pk (parts (repo s))) ->
  exists r s' sp,
    import_supplier_part supplier a None loc amount s = Ret r s'
    /\ r <> ERROR
    /\ existing_manufacturer_part s' = Some mp
    /\ manufacturer_parts (repo s') = manufacturer_parts (repo s)
    /\ map part_pk (parts (repo s')) = map part_pk (parts (repo s))
    /\ supplier_parts (repo s') = (supplier_parts (repo s) ++ [sp])%list
    /\ sp_SKU sp = SKU a /\ sp_manufacturer_part sp = Some (mp_pk mp).
Proof.
  intros St0 I E Ns Fm Ip. unfold import_supplier_part, get_supplier_part.
  rewrite bind_gets, Ns. unfold info. rewrite bind_say.
  set (s1 := set_console _ s).
  unfold choose_manufacturer_part, get_manufacturer_part.
  rewrite bind_bind, bind_gets. change (repo s1) with (repo s). rewrite Fm.
  rewrite bind_ret.
  assert (St1 : steady s1) by (destruct St0; split; assumption).
  assert (E1 : match existing_manufacturer_part s1 with
               | Some m0 => mp_pk m0 = mp_pk mp \/ finalize a = true
               | None => finalize a = true
               end)
    by (change (existing_manufacturer_part s1) with (existing_manufacturer_part s);
        rewrite E; left; reflexivity).
  destruct (finish_supplier_part_returns supplier a mp None loc amount s1
              St1 I (find_pk_In _ _ Ip) E1) as (r & s2 & R2).
  destruct (finish_supplier_part_facts _ _ _ _ _ _ _ _ _ E1 R2)
    as (E2 & _ & _ & _ & _ & Pk & NE & Ms & New).
  destruct St1 as [D1 F1]. destruct (New D1) as (sp & L2 & K2 & Mp2).
  exists r, s2, sp. split; [exact R2|]. split; [exact NE|]. split; [exact E2|].
  split; [exact (Ms Logic.I)|]. split; [exact Pk|]. split; [exact L2|].
  split; [exact K2 | exact Mp2].
Qed.

Lemma find_sku_snoc (sku : string) (l : list SupplierPart) (sp : SupplierPart) :
  find (fun p => String.eqb (sp_SKU p) sku) l = None ->
  sp_SKU sp <> sku ->
  find (fun p => String.eqb (sp_SKU p) sku) (l ++ [sp]) = None.
Proof.
  intros N D. rewrite (find_app_None _ _ _ N). simpl.
  destruct (String.eqb_spec (sp_SKU sp) sku); [contradiction | reflexivity].
Qed.

(** C1, as stated, fails on the code: the candidate of the first supplier
    establishes the manufacturer-part of its MPN, the candidate of the
    second the manufacturer-part of another MPN, and the unknown
    candidate of the third reuses the second one, not the first. *)
Lemma established_manufacturer_part_changes :
  (exists s',
      import_part "RC" None None false None 0 ex_two_known = Ret INCOMPLETE s'
      /\ find (fun p => String.eqb (sp_SKU p) "A-1") (supplier_parts (repo s'))
         = Some {| sp_pk := 101; sp_part := 3; sp_manufacturer_part := Some 7;
                   sp_supplier := 1; sp_SKU := "A-1"; sp_link := "";
                   sp_packaging := "Reel"; sp_available := 5 |}
      /\ find (fun p => String.eqb (sp_SKU p) "C-1") (supplier_parts (repo s'))
         = Some {| sp_pk := 108; sp_part := 4; sp_manufacturer_part := Some 9;
                   sp_supplier := 3; sp_SKU := "C-1"; sp_link := "";
                   sp_packaging := "Reel"; sp_available := 5 |})
  /\ ~ established_once.
Proof.
  assert (R : exists s',
             import_part "RC" None None false None 0 ex_two_known = Ret INCOMPLETE s'
             /\ find (fun p => String.eqb (sp_SKU p) "A-1") (supplier_parts (repo s'))
                = Some {| sp_pk := 101; sp_part := 3; sp_manufacturer_part := Some 7;
                          sp_supplier := 1; sp_SKU := "A-1"; sp_link := "";
                          sp_packaging := "Reel"; sp_available := 5 |}
             /\ find (fun p => String.eqb (sp_SKU p) "C-1") (supplier_parts (repo s'))
                = Some {| sp_pk := 108; sp_part := 4; sp_manufacturer_part := Some 9;
                          sp_supplier := 3; sp_SKU := "C-1"; sp_link := "";
                          sp_packaging := "Reel"; sp_available := 5 |}).
  { eexists. vm_compute. repeat split; reflexivity. }
  split; [exact R|].
  intros H.
  destruct R as (s' & R & F1 & F3).
  specialize (H ex_two_known s' "RC" None None false None 0 INCOMPLETE
                [] [(ex_supplier 2 "Beta", ex_async 1 (ex_part "B-1" "RC0805"))] []
                (ex_supplier 1 "Alpha") (ex_supplier 3 "Gamma")
                (ex_async 0 (ex_part "A-1" "RC0603"))
                (ex_async 2 (ex_part "C-1" "RC1206"))
                (ex_part "A-1" "RC0603") (ex_part "C-1" "RC1206") 1 1 _ _
                eq_refl eq_refl eq_refl eq_refl eq_refl R F1 F3).
  discriminate H.
Qed.

(** The candidate of a supplier whose MPN has a manufacturer-part while
    its SKU has no supplier-part: that manufacturer-part becomes the
    established one, whatever was established before. *)
Lemma import_supplier_part_by_mpn (supplier : Company) (a : ApiPart)
  (part : option Part) (loc : option Z) (amount : Z) (m' : ManufacturerPart)
  (r : ImportResult) (s s' : St) :
  find (fun p => String.eqb (sp_SKU p) (SKU a)) (supplier_parts (repo s)) = None ->
  find (fun x => String.eqb (mp_MPN x) (MPN a)) (manufacturer_parts (repo s))
  = Some m' ->
  finalize a = true ->
  import_supplier_part supplier a part loc amount s = Ret r s' ->
  existing_manufacturer_part s' = Some m'
  /\ (dry_run s = false ->
      exists sp,
        supplier_parts (repo s') = (supplier_parts (repo s) ++ [sp])%list
        /\ sp_SKU sp = SKU a
        /\ sp_manufacturer_part sp = Some (mp_pk m')).
Proof.
  intros Ns Fm Fz R. unfold import_supplier_part, get_supplier_part in R.
  rewrite bind_gets, Ns in R. unfold info in R. rewrite bind_say in R.
  unfold choose_manufacturer_part, get_manufacturer_part in R.
  rewrite bind_bind, bind_gets in R. fields. rewrite Fm in R.
  rewrite bind_ret in R.
  match type of R with finish_supplier_part _ _ _ _ _ _ _ ?s1 = _ =>
    assert (E1 : match existing_manufacturer_part s1 with
                 | Some m0 => mp_pk m0 = mp_pk m' \/ finalize a = true
                 | None => finalize a = true
                 end)
      by (destruct (existing_manufacturer_part s1); [right|]; exact Fz)
  end.
  destruct (finish_supplier_part_facts _ _ _ _ _ _ _ _ _ E1 R)
    as (E' & _ & _ & _ & _ & _ & _ & _ & New).
  fields. split; assumption.
Qed.

(** C1, amended. The established manufacturer-part is the one of the
    candidate stored last, so it can change within an import call; what
    holds is this. A candidate that [import_supplier_part] returns from
    has failed early, with the established manufacturer-part and the
    supplier-parts as they were, or is stored for a manufacturer-part
    that is the established one from then on and that, out of a dry
    run, the supplier-part of its SKU references. So a candidate that
    can be finalized, whose SKU has no supplier-part and whose MPN has a
    manufacturer-part, makes that manufacturer-part the established one
    whatever was established before; and [import_part] starts with
    nothing established, whatever an earlier call has left. When a
    manufacturer-part is established and a candidate comes whose SKU has
    no supplier-part and whose MPN has no manufacturer-part,
    [import_supplier_part] uses the established one: it stays
    established, no part and no manufacturer-part is made, and out of a
    dry run the new supplier-part references it. And when two suppliers
    return one candidate each for one MPN that the repository does not
    know (distinct SKUs, a category found in the alias table, no failing
    request, not interactive), [import_part] returns without ERROR,
    having made one manufacturer-part, one part and two supplier-parts,
    both of which reference that manufacturer-part. *)
Theorem established_manufacturer_part_reused :
  (forall (supplier : Company) (a : ApiPart) (part : option Part)
          (loc : option Z) (amount : Z) (r : ImportResult) (s s' : St),
      import_supplier_part supplier a part loc amount s = Ret r s' ->
      fails_early r s s' \/ exists mp, stored_for a mp s s')
  /\ (forall (supplier : Company) (a : ApiPart) (part : option Part)
             (loc : option Z) (amount : Z) (m' : ManufacturerPart)
             (r : ImportResult) (s s' : St),
         find (fun p => String.eqb (sp_SKU p) (SKU a)) (supplier_parts (repo s))
         = None ->
         find (fun x => String.eqb (mp_MPN x) (MPN a)) (manufacturer_parts (repo s))
         = Some m' ->
         finalize a = true ->
         import_supplier_part supplier a part loc amount s = Ret r s' ->
         existing_manufacturer_part s' = Some m'
         /\ (dry_run s = false ->
             exists sp,
               supplier_parts (repo s') = (supplier_parts (repo s) ++ [sp])%list
               /\ sp_SKU sp = SKU a
               /\ sp_manufacturer_part sp = Some (mp_pk m')))
  /\ (forall (term : string) (part : option Part) (supplier_id : option string)
             (only : bool) (loc : option Z) (amount : Z)
             (m : option ManufacturerPart) (s : St),
         import_part term part supplier_id only loc amount
                     (set_existing_manufacturer_part m s)
         = import_part term part supplier_id only loc amount
                       (set_existing_manufacturer_part None s))
  /\ (forall (supplier : Company) (a : ApiPart) (part : option Part)
          (loc : option Z) (amount : Z) (m : ManufacturerPart)
          (r : ImportResult) (s s' : St),
      existing_manufacturer_part s = Some m ->
      find (fun p => String.eqb (sp_SKU p) (SKU a)) (supplier_parts (repo s)) = None ->
      find (fun x => String.eqb (mp_MPN x) (MPN a)) (manufacturer_parts (repo s))
      = None ->
      import_supplier_part supplier a part loc amount s = Ret r s' ->
      existing_manufacturer_part s' = Some m
      /\ map mp_pk (manufacturer_parts (repo s'))
         = map mp_pk (manufacturer_parts (repo s))
      /\ map part_pk (parts (repo s')) = map part_pk (parts (repo s))
      /\ (dry_run s = false ->
          exists sp,
            supplier_parts (repo s') = (supplier_parts (repo s) ++ [sp])%list
            /\ sp_SKU sp = SKU a
            /\ sp_manufacturer_part sp = Some (mp_pk m)))
  /\ (forall (s : St) (term : string) (supplier_id : option string) (only : bool)
             (loc : option Z) (amount : Z) (sup1 sup2 : Company)
             (ar1 ar2 : AsyncResult) (a1 a2 : ApiPart) (n1 n2 : Z) (c : Category),
         steady s -> interactive s = false ->
         search (lib s) term supplier_id only = [(sup1, ar1); (sup2, ar2)] ->
         search_result ar1 = ([a1], n1) ->
         search_result ar2 = ([a2], n2) ->
         MPN a2 = MPN a1 -> String.eqb (SKU a1) (SKU a2) = false ->
         finalize a1 = true ->
         find (fun p => String.eqb (sp_SKU p) (SKU a1)) (supplier_parts (repo s))
         = None ->
         find (fun p => String.eqb (sp_SKU p) (SKU a2)) (supplier_parts (repo s))
         = None ->
         find (fun x => String.eqb (mp_MPN x) (MPN a1)) (manufacturer_parts (repo s))
         = None ->
         find (fun q => String.eqb (part_name q) (MPN a1)) (parts (repo s)) = None ->
         first_category (category_map s) (rev (category_path a1)) = Some c ->
         exists r s' mp pk sp1 sp2,
           import_part term None supplier_id only loc amount s = Ret r s'
           /\ r <> ERROR
           /\ manufacturer_parts (repo s')
              = (manufacturer_parts (repo s) ++ [mp])%list
           /\ map part_pk (parts (repo s'))
              = (map part_pk (parts (repo s)) ++ [pk])%list
           /\ supplier_parts (repo s')
              = (supplier_parts (repo s) ++ [sp1; sp2])%list
           /\ mp_MPN mp = MPN a1 /\ mp_part mp = pk
           /\ existing_manufacturer_part s' = Some mp
           /\ sp_SKU sp1 = SKU a1 /\ sp_SKU sp2 = SKU a2
           /\ sp_manufacturer_part sp1 = Some (mp_pk mp)
           /\ sp_manufacturer_part sp2 = Some (mp_pk mp)).
Proof.
  split; [|split; [|split]].
  { intros supplier a part loc amount r s s' R.
    exact (import_supplier_part_stored _ _ _ _ _ _ _ _ R). }
  { intros supplier a part loc amount m' r s s' Ns Fm Fz R.
    exact (import_supplier_part_by_mpn _ _ _ _ _ _ _ _ _ Ns Fm Fz R). }
  { intros term part supplier_id only loc amount m s. reflexivity. }
  split.
  - intros supplier a part loc amount m r s s' E Ns Nm R.
    destruct (import_supplier_part_reuse _ _ _ _ _ _ _ _ _ E Ns Nm R)
      as (E' & Mk & _ & Pk & New).
    split; [exact E'|]. split; [exact Mk|]. split; [exact Pk | exact New].
  - intros s term supplier_id only loc amount sup1 sup2 ar1 ar2 a1 a2 n1 n2 c
           St0 I Sr R1 R2 Em Ds Fz Ns1 Ns2 Nm Np H.
    unfold import_part, info. rewrite bind_say, bind_modify, bind_gets. fields.
    rewrite Sr.
    set (sa := set_existing_manufacturer_part None _).
    set (s0 := set_joined (handle ar1 :: joined sa)
                 (set_console ((L_info, Msg_searching_at (company_name sup1))
                               :: console sa) sa)).
    assert (St0' : steady s0) by (destruct St0; split; assumption).
    destruct (import_supplier_part_first sup1 a1 loc amount c s0 St0' I eq_refl
                Ns1 Nm Np Fz H)
      as (r1 & s1 & mp & p & sp1 & Q1 & NE1 & St1 & S1 & E1 & M1 & Mn1 & Mp1 & P1
          & L1 & K1 & Mk1).
    assert (NE1' : SUCCESS |r r1 <> ERROR)
      by (apply or_not_ERROR; [discriminate | exact NE1]).
    rewrite (import_part_loop_step _ [(sup2, ar2)] sup1 ar1 a1 n1 None loc amount
               SUCCESS r1 sa s1 R1 Q1 NE1').
    set (s0' := set_joined (handle ar2 :: joined s1)
                  (set_console ((L_info, Msg_searching_at (company_name sup2))
                                :: console s1) s1)).
    assert (St1' : steady s0') by (destruct St1; split; assumption).
    assert (I1 : interactive s0' = false)
      by (change (interactive s0') with (interactive s1);
          rewrite (settings_interactive _ _ S1); exact I).
    assert (Ns2' : find (fun q => String.eqb (sp_SKU q) (SKU a2))
                     (supplier_parts (repo s0')) = None).
    { change (repo s0') with (repo s1). rewrite L1.
      apply find_sku_snoc; [exact Ns2 | rewrite K1; apply String.eqb_neq; exact Ds]. }
    assert (Fm : find (fun x => String.eqb (mp_MPN x) (MPN a2))
                   (manufacturer_parts (repo s0')) = Some mp).
    { change (repo s0') with (repo s1). rewrite M1, Em.
      rewrite (find_app_None _ _ _ Nm). simpl. rewrite Mn1, String.eqb_refl.
      reflexivity. }
    assert (Ip : In (mp_part mp) (map part_pk (parts (repo s0')))).
    { change (repo s0') with (repo s1). rewrite P1, Mp1.
      apply in_or_app. right. left. reflexivity. }
    destruct (import_supplier_part_known sup2 a2 loc amount mp s0' St1' I1 E1
                Ns2' Fm Ip)
      as (r2 & s2 & sp2 & Q2 & NE2 & E2 & M2 & P2 & L2 & K2 & Mk2).
    assert (NE2' : (SUCCESS |r r1) |r r2 <> ERROR)
      by (apply or_not_ERROR; assumption).
    rewrite (import_part_loop_step _ [] sup2 ar2 a2 n2 None loc amount
               (SUCCESS |r r1) r2 s1 s2 R2 Q2 NE2').
    simpl. rewrite bind_gets, E2. simpl.
    exists ((SUCCESS |r r1) |r r2), s2, mp, (part_pk p), sp1, sp2.
    split; [reflexivity|]. split; [exact NE2'|].
    split; [rewrite M2; exact M1|]. split; [rewrite P2; exact P1|].
    split; [rewrite L2; change (repo s0') with (repo s1); rewrite L1, <- app_assoc;
            reflexivity|].
    repeat split; auto.
Qed.

(** Over [ex_two_known] the candidates of three suppliers in turn: the
    first establishes the manufacturer-part 7 of its MPN, the second
    the manufacturer-part 9 of its MPN, and the third, which the
    repository does not know, is stored for the manufacturer-part 9. *)
Lemma established_manufacturer_part_reused_witness :
  let s1 := final (import_supplier_part (ex_supplier 1 "Alpha")
                     (ex_part "A-1" "RC0603") None None 0 ex_two_known) in
  let s2 := final (import_supplier_part (ex_supplier 2 "Beta")
                     (ex_part "B-1" "RC0805") None None 0 s1) in
  let s3 := final (import_supplier_part (ex_supplier 3 "Gamma")
                     (ex_part "C-1" "RC1206") None None 0 s2) in
  existing_manufacturer_part s1 = Some ex_manufacturer_part
  /\ existing_manufacturer_part s2 = Some ex_second_manufacturer_part
  /\ existing_manufacturer_part s3 = Some ex_second_manufacturer_part
  /\ map mp_pk (manufacturer_parts (repo s3)) = [7; 9]
  /\ (exists sp,
         supplier_parts (repo s3) = (supplier_parts (repo s2) ++ [sp])%list
         /\ sp_SKU sp = "C-1" /\ sp_manufacturer_part sp = Some 9)
  /\ exists r s' mp pk sp1 sp2,
       import_part "RC0603" None None false None 0 ex_fresh = Ret r s'
       /\ r <> ERROR
       /\ manufacturer_parts (repo s')
          = (manufacturer_parts (repo ex_fresh) ++ [mp])%list
       /\ map part_pk (parts (repo s'))
          = (map part_pk (parts (repo ex_fresh)) ++ [pk])%list
       /\ supplier_parts (repo s')
          = (supplier_parts (repo ex_fresh) ++ [sp1; sp2])%list
       /\ mp_MPN mp = "RC0603" /\ mp_part mp = pk
       /\ existing_manufacturer_part s' = Some mp
       /\ sp_SKU sp1 = "A-1" /\ sp_SKU sp2 = "B-1"
       /\ sp_manufacturer_part sp1 = Some (mp_pk mp)
       /\ sp_manufacturer_part sp2 = Some (mp_pk mp).
Proof.
  intros s1 s2 s3.
  destruct established_manufacturer_part_reused as (_ & Change & _ & Reuse & Two).
  assert (E1 : existing_manufacturer_part s1 = Some ex_manufacturer_part)
    by (vm_compute; reflexivity).
  destruct (Change (ex_supplier 2 "Beta") (ex_part "B-1" "RC0805") None None 0
                   ex_second_manufacturer_part INCOMPLETE s1 s2
                   ltac:(vm_compute; reflexivity) ltac:(vm_compute; reflexivity)
                   eq_refl ltac:(vm_compute; reflexivity))
    as (E2 & _).
  destruct (Reuse (ex_supplier 3 "Gamma") (ex_part "C-1" "RC1206") None None 0
                  ex_second_manufacturer_part INCOMPLETE s2 s3
                  E2 ltac:(vm_compute; reflexivity) ltac:(vm_compute; reflexivity)
                  ltac:(vm_compute; reflexivity))
    as (E3 & Mk & _ & New).
  split; [exact E1|]. split; [exact E2|]. split; [exact E3|].
  split; [rewrite Mk; vm_compute; reflexivity|].
  split; [exact (New ltac:(vm_compute; reflexivity))|].
  apply (Two ex_fresh "RC0603" None false
             None 0 (ex_supplier 1 "Alpha") (ex_supplier 2 "Beta")
             (ex_async 0 (ex_part "A-1" "RC0603")) (ex_async 1 (ex_part "B-1" "RC0603"))
             (ex_part "A-1" "RC0603") (ex_part "B-1" "RC0603") 1 1 ex_resistors);
    first [reflexivity | split; reflexivity].
Defined.

(* ===================================================================== *)
(** * Further properties of the code *)
(* ===================================================================== *)

(** ** The tables [__init__] derives and the tables of a DigiKey candidate *)

(** X1. [self.part_category_to_category] maps the identifier of a
    repository category to a configured category that stands for it: a
    lookup gives a category of the configuration with that identifier,
    every configured category is found under its identifier (when two
    stand for one repository category, one of them), and no identifier
    has two entries. *)
Theorem part_category_to_category_lookup (s : St) :
  (forall k c,
      Dict.get (part_category_to_category s) k = Some c ->
      pc_pk (part_category_of c) = k /\ In c (Dict.values (category_map s)))
  /\ (forall c,
         In c (Dict.values (category_map s)) ->
         exists c',
           Dict.get (part_category_to_category s) (pc_pk (part_category_of c))
           = Some c'
           /\ pc_pk (part_category_of c') = pc_pk (part_category_of c))
  /\ NoDup (Dict.keys (part_category_to_category s)).
Proof.
  unfold part_category_to_category. split; [|split].
  - intros k c G. apply get_of_items in G. apply in_map_iff in G.
    destruct G as (c0 & E & I). inversion E. subst. split; [reflexivity | exact I].
  - intros c I.
    destruct (get_of_items_Some
                (map (fun c => (pc_pk (part_category_of c), c))
                     (Dict.values (category_map s)))
                (pc_pk (part_category_of c))) as (c' & G & J).
    + rewrite map_map. simpl.
      change (In ((fun x => pc_pk (part_category_of x)) c)
                 (map (fun x => pc_pk (part_category_of x))
                      (Dict.values (category_map s)))).
      apply in_map. exact I.
    + exists c'. split; [exact G|]. apply in_map_iff in J.
      destruct J as (c0 & E & _). inversion E. subst. congruence.
  - apply NoDup_keys_of_items.
Qed.

(** X2. The candidate [get_api_part] makes of a DigiKey product has one
    price per quantity and one value per parameter name: the entries come
    from the product, and where the product lists a quantity or a name
    more than once, the entry listed last is the one kept. *)
Theorem digikey_candidate_tables (self : DigiKey.Self) (p : DigiKey.Product) :
  let a := DigiKey.get_api_part self p in
  NoDup (map fst (api_price_breaks a))
  /\ NoDup (map fst (api_parameters a))
  /\ (forall q price, In (q, price) (api_price_breaks a) ->
                      In (q, price) (DigiKey.standard_pricing p))
  /\ (forall name v, In (name, v) (api_parameters a) ->
                     In (name, v) (DigiKey.dk_parameters p))
  /\ (forall before q price after,
         DigiKey.standard_pricing p = (before ++ (q, price) :: after)%list ->
         ~ In q (map fst after) ->
         Dict.get (api_price_breaks a) q = Some price)
  /\ (forall before name v after,
         DigiKey.dk_parameters p = (before ++ (name, v) :: after)%list ->
         ~ In name (map fst after) ->
         Dict.get (api_parameters a) name = Some v).
Proof.
  cbv zeta. simpl.
  split; [apply NoDup_keys_of_items|]. split; [apply NoDup_keys_of_items|].
  split; [intros q price; apply In_of_items|].
  split; [intros name v; apply In_of_items|].
  split.
  - intros before q price after -> N. apply get_of_items_last. exact N.
  - intros before name v after -> N. apply get_of_items_last. exact N.
Qed.

(** ** The DigiKey adapter *)

Lemma In_exact_matches (filtered : list DigiKey.Product) (term : string)
  (p : DigiKey.Product) :
  In p (DigiKey.exact_matches filtered term) -> In p filtered.
Proof. unfold DigiKey.exact_matches. intros I. apply filter_In in I. tauto. Qed.

(** The candidates of a search come from the list the branch of
    supplier_digikey.py:46-54 chose. *)
Lemma search_from_filtered (self : DigiKey.Self) (api : DigiKey.Api) (term : string)
  (a : ApiPart) :
  DigiKey.product_details api term = None ->
  In a (fst (DigiKey.search self api term)) ->
  exists p,
    In p (fst (DigiKey.filtered_results (DigiKey.keyword_search api term 10) term))
    /\ a = DigiKey.get_api_part self p.
Proof.
  intros E I. unfold DigiKey.search in I. rewrite E in I.
  destruct (DigiKey.filtered_results _ term) as [f c]. simpl.
  destruct (List.length (DigiKey.exact_matches f term) =? 1)%nat; simpl in I;
    apply in_map_iff in I; destruct I as (p & <- & I); exists p;
    (split; [|reflexivity]).
  - eapply In_exact_matches. exact I.
  - exact I.
Qed.

(** X3. A DigiKey keyword search (the term is no product number): when
    the response counts no exact manufacturer product, every candidate is
    made of a listed product whose manufacturer part number starts with
    the term, compared in lower case; when it counts some, the candidates
    are made of the exact manufacturer products, whatever their number.
    In both cases the candidates are at most as many as the products of
    the list they are taken from. *)
Theorem digikey_keyword_candidates (self : DigiKey.Self) (api : DigiKey.Api)
  (term : string) :
  DigiKey.product_details api term = None ->
  let results := DigiKey.keyword_search api term 10 in
  (DigiKey.exact_manufacturer_products_count results <= 0 ->
   (forall a, In a (fst (DigiKey.search self api term)) ->
      exists p, In p (DigiKey.products results)
                /\ a = DigiKey.get_api_part self p
                /\ Str.startswith (Str.lower (MPN a)) (Str.lower term) = true)
   /\ (List.length (fst (DigiKey.search self api term))
       <= List.length (DigiKey.products results))%nat)
  /\ (0 < DigiKey.exact_manufacturer_products_count results ->
      (forall a, In a (fst (DigiKey.search self api term)) ->
         exists p, In p (DigiKey.exact_manufacturer_products results)
                   /\ a = DigiKey.get_api_part self p)
      /\ (List.length (fst (DigiKey.search self api term))
          <= List.length (DigiKey.exact_manufacturer_products results))%nat).
Proof.
  intros E results.
  assert (Len : forall f c,
             DigiKey.filtered_results results term = (f, c) ->
             (List.length (fst (DigiKey.search self api term)) <= List.length f)%nat).
  { intros f c F. unfold DigiKey.search. rewrite E. fold results. rewrite F.
    destruct (List.length (DigiKey.exact_matches f term) =? 1)%nat; simpl;
      rewrite length_map; [|apply Nat.le_refl].
    unfold DigiKey.exact_matches. apply filter_length_le. }
  split.
  - intros C.
    assert (F : DigiKey.filtered_results results term
                = (filter
                     (fun p =>
                        Str.startswith (Str.lower (DigiKey.manufacturer_part_number p))
                                       (Str.lower term))
                     (DigiKey.products results),
                   DigiKey.products_count results)).
    { unfold DigiKey.filtered_results.
      destruct (Z.gtb_spec (DigiKey.exact_manufacturer_products_count results) 0);
        [lia | reflexivity]. }
    split.
    + intros a I. destruct (search_from_filtered self api term a E I) as (p & J & ->).
      fold results in J. rewrite F in J. simpl in J. apply filter_In in J.
      exists p. split; [tauto|]. split; [reflexivity|]. simpl. tauto.
    + eapply Nat.le_trans; [eapply Len; exact F|]. apply filter_length_le.
  - intros C.
    assert (F : DigiKey.filtered_results results term
                = (DigiKey.exact_manufacturer_products results,
                   DigiKey.exact_manufacturer_products_count results)).
    { unfold DigiKey.filtered_results.
      destruct (Z.gtb_spec (DigiKey.exact_manufacturer_products_count results) 0);
        [reflexivity | lia]. }
    split.
    + intros a I. destruct (search_from_filtered self api term a E I) as (p & J & ->).
      fold results in J. rewrite F in J. exists p. split; [exact J | reflexivity].
    + eapply Len. exact F.
Qed.

Lemma digikey_keyword_candidates_witness :
  Forall (fun a => Str.startswith (Str.lower (MPN a)) "rc0603" = true)
         (fst (DigiKey.search dk_self (dk_api dk_listed) "RC0603"))
  /\ (List.length (fst (DigiKey.search dk_self (dk_api dk_listed) "RC0603")) <= 3)%nat.
Proof.
  destruct (digikey_keyword_candidates dk_self (dk_api dk_listed) "RC0603" eq_refl)
    as [Prefix _].
  destruct Prefix as [P L]; [simpl; lia|].
  split; [|exact L].
  apply Forall_forall. intros a I. destruct (P a I) as (p & _ & _ & S). exact S.
Defined.

(** X4. [setup] always answers [True], leaves the sandbox of the client
    switched off whatever the environment held, and every candidate of a
    search after it carries the currency it was given. *)
Theorem digikey_setup_currency (environ : list (string * string))
  (cache client_id client_secret currency_ language location : string)
  (api : DigiKey.Api) (term : string) :
  let '(environ', self, ok) :=
    digikey_setup environ cache client_id client_secret currency_ language location in
  ok = true
  /\ Dict.get environ' "DIGIKEY_CLIENT_SANDBOX" = Some "False"
  /\ Dict.get environ' "DIGIKEY_CLIENT_ID" = Some client_id
  /\ Forall (fun a => currency a = currency_) (fst (DigiKey.search self api term)).
Proof.
  unfold digikey_setup. split; [reflexivity|].
  split; [rewrite !get_set; reflexivity|].
  split; [rewrite !get_set; reflexivity|].
  unfold DigiKey.search.
  destruct (DigiKey.product_details api term) as [p|].
  - repeat constructor.
  - destruct (DigiKey.filtered_results _ term) as [f c].
    destruct (List.length (DigiKey.exact_matches f term) =? 1)%nat; simpl;
      apply Forall_forall; intros a I; apply in_map_iff in I;
      destruct I as (p & <- & _); reflexivity.
Qed.

(** ** The sanitizer *)

Lemma occurs_app (c : ascii) (a b : string) :
  occurs c (a ++ b) = occurs c a || occurs c b.
Proof.
  induction a as [|x a IH]; simpl; [reflexivity|].
  rewrite IH, orb_assoc. reflexivity.
Qed.

(** [str.replace] brings in no character that is neither in the text nor
    in the replacement. *)
Lemma occurs_replace_scan (c : ascii) (old new : string) (s : string) :
  occurs c new = false -> occurs c s = false ->
  forall skip, occurs c (Str.replace_scan old new skip s) = false.
Proof.
  intros Hn. induction s as [|x s IH]; simpl; intros Hs skip; [reflexivity|].
  apply orb_false_iff in Hs. destruct Hs as [Hx Hs].
  destruct skip as [|k]; [|apply IH; exact Hs].
  match goal with |- context [if ?b then _ else _] => destruct b end.
  - rewrite occurs_app, Hn. apply IH. exact Hs.
  - simpl. rewrite Hx. apply IH. exact Hs.
Qed.

Lemma startswith_nil (s : string) : Str.startswith s "" = true.
Proof. destruct s; reflexivity. Qed.

(** Replacing a one-character pattern by nothing leaves no occurrence of
    the character. *)
Lemma occurs_removed (c : ascii) (s : string) :
  occurs c (Str.replace (String c EmptyString) "" s) = false.
Proof.
  simpl. induction s as [|x s IH]; simpl; [reflexivity|].
  destruct (Ascii.eqb c x) eqn:E; simpl.
  - rewrite startswith_nil. exact IH.
  - rewrite E. exact IH.
Qed.

(** X5. Whatever the value, the sanitized value does not contain the
    tolerance glyph. *)
Theorem sanitize_removes_every_glyph (value_ : string) :
  occurs (ascii_of_nat 177) (sanitize_parameter_value value_) = false.
Proof.
  unfold sanitize_parameter_value.
  destruct (String.eqb (Str.strip value_) "-"); [reflexivity|].
  unfold Str.replace at 1 2.
  apply occurs_replace_scan; [reflexivity|].
  apply occurs_replace_scan; [reflexivity|].
  apply (occurs_removed (ascii_of_nat 177)).
Qed.

Lemma lstrip_blank (pad s : string) :
  blank pad = true -> Str.lstrip (pad ++ s) = Str.lstrip s.
Proof.
  induction pad as [|c pad IH]; simpl; [reflexivity|].
  intros B. apply andb_true_iff in B. destruct B as [Bc B].
  rewrite Bc. apply IH. exact B.
Qed.

Lemma rstrip_blank (pad : string) : blank pad = true -> Str.rstrip pad = "".
Proof.
  induction pad as [|c pad IH]; simpl; [reflexivity|].
  intros B. apply andb_true_iff in B. destruct B as [Bc B].
  rewrite (IH B), Bc. reflexivity.
Qed.

Lemma strip_blank (pad : string) : blank pad = true -> Str.strip pad = "".
Proof.
  intros B. unfold Str.strip.
  assert (L : Str.lstrip pad = "").
  { induction pad as [|c pad IH]; simpl in *; [reflexivity|].
    apply andb_true_iff in B. destruct B as [Bc B]. rewrite Bc. exact (IH B). }
  rewrite L. reflexivity.
Qed.

(** X6. A value of whitespace only, and a dash with whitespace around
    it, are sanitized to the empty value, the value [setup_parameters]
    passes over. *)
Theorem sanitize_blank_or_dash (before after : string) :
  blank before = true -> blank after = true ->
  sanitize_parameter_value before = ""
  /\ sanitize_parameter_value (before ++ "-" ++ after) = ""
  /\ Str.truthy (sanitize_parameter_value (before ++ "-" ++ after)) = false.
Proof.
  intros Bb Ba.
  assert (D : sanitize_parameter_value (before ++ "-" ++ after) = "").
  { unfold sanitize_parameter_value, Str.strip.
    rewrite (lstrip_blank before _ Bb). simpl. rewrite (rstrip_blank after Ba).
    reflexivity. }
  split; [|split; [exact D | rewrite D; reflexivity]].
  unfold sanitize_parameter_value. rewrite (strip_blank before Bb). reflexivity.
Qed.

Lemma sanitize_blank_or_dash_witness :
  sanitize_parameter_value "  " = ""
  /\ sanitize_parameter_value "  - " = ""
  /\ Str.truthy (sanitize_parameter_value "  - ") = false.
Proof.
  apply (sanitize_blank_or_dash "  " " "); reflexivity.
Defined.

(** ** Splitting the family of a DigiKey product *)

Lemma startswith_prefix (p s : string) :
  Str.startswith s p = true -> exists rest, s = p ++ rest.
Proof.
  revert s. induction p as [|a p IH]; intros s E.
  - exists s. reflexivity.
  - destruct s as [|b s]; simpl in E; [discriminate|].
    apply andb_true_iff in E. destruct E as [Eab E].
    apply Ascii.eqb_eq in Eab. subst b.
    destruct (IH s E) as (rest & ->). exists rest. reflexivity.
Qed.

Lemma split_scan_skip (sep : string) (pre rest cur : string) :
  Str.split_scan sep (String.length pre) cur (pre ++ rest)
  = Str.split_scan sep 0 cur rest.
Proof.
  induction pre as [|c pre IH]; simpl.
  - destruct rest; reflexivity.
  - exact IH.
Qed.

Lemma split_scan_not_nil (sep : string) (s : string) :
  forall skip cur, Str.split_scan sep skip cur s <> [].
Proof.
  induction s as [|c s IH]; simpl; intros skip cur; [discriminate|].
  destruct skip as [|k]; [|apply IH].
  match goal with |- context [if ?b then _ else _] => destruct b end;
    [discriminate | apply IH].
Qed.

Lemma append_assoc (a b c : string) : (a ++ b) ++ c = a ++ (b ++ c).
Proof. induction a as [|x a IH]; simpl; [reflexivity | rewrite IH; reflexivity]. Qed.

Lemma length_append (a b : string) :
  String.length (a ++ b) = (String.length a + String.length b)%nat.
Proof. induction a as [|x a IH]; simpl; [reflexivity | rewrite IH; reflexivity]. Qed.

(** Joining the pieces of a split with the separator gives the text
    back. *)
Lemma join_split_scan (a : ascii) (sep' : string) (n : nat) :
  forall s cur,
    (String.length s <= n)%nat ->
    join (String a sep') (Str.split_scan (String a sep') 0 cur s) = cur ++ s.
Proof.
  set (sep := String a sep').
  induction n as [|n IH]; intros s cur L.
  - destruct s; [|simpl in L; lia]. simpl.
    induction cur as [|x cur IHc]; simpl; [reflexivity | rewrite <- IHc; reflexivity].
  - destruct s as [|c s].
    + simpl. induction cur as [|x cur IHc]; simpl;
        [reflexivity | rewrite <- IHc; reflexivity].
    + cbn [Str.split_scan].
      destruct (Str.startswith (String c s) sep) eqn:E.
      * destruct (startswith_prefix _ _ E) as (rest & R).
        unfold sep in R. simpl in R. inversion R. subst c s.
        replace (String.length sep - 1)%nat with (String.length sep')
          by (unfold sep; simpl; lia).
        rewrite split_scan_skip.
        assert (Lr : (String.length rest <= n)%nat).
        { simpl in L. rewrite length_append in L. lia. }
        specialize (IH rest "" Lr). simpl in IH.
        unfold join in *. simpl.
        destruct (Str.split_scan sep 0 "" rest) as [|y ys] eqn:S.
        -- exfalso. exact (split_scan_not_nil sep rest 0%nat "" S).
        -- rewrite IH. reflexivity.
      * rewrite IH by (simpl in L; lia).
        rewrite append_assoc. reflexivity.
Qed.

(** X7. The category path of a DigiKey candidate is the category of the
    product followed by the pieces of its family split at " - ": there
    is at least one piece, and the pieces joined with " - " give the
    family back. *)
Theorem digikey_category_path (self : DigiKey.Self) (p : DigiKey.Product) :
  exists pieces,
    category_path (DigiKey.get_api_part self p)
    = DigiKey.category_value p :: pieces
    /\ pieces <> []
    /\ join " - " pieces = DigiKey.family_value p
    /\ (occurs "-" (DigiKey.family_value p) = false ->
        pieces = [DigiKey.family_value p]).
Proof.
  exists (Str.split " - " (DigiKey.family_value p)).
  split; [reflexivity|]. split; [apply split_scan_not_nil|]. split.
  - unfold Str.split.
    exact (join_split_scan " " "- " (String.length (DigiKey.family_value p))
             (DigiKey.family_value p) "" (Nat.le_refl _)).
  - unfold Str.split. generalize (DigiKey.family_value p) as s.
    assert (G : forall s cur,
               occurs "-" s = false ->
               Str.split_scan " - " 0 cur s = [cur ++ s]).
    { induction s as [|c s IH]; intros cur O.
      - simpl. f_equal.
        induction cur as [|x cur IHc]; simpl; [reflexivity | rewrite <- IHc; reflexivity].
      - simpl in O. apply orb_false_iff in O. destruct O as [Oc O].
        cbn [Str.split_scan].
        destruct (Str.startswith (String c s) " - ") eqn:E.
        + destruct (startswith_prefix _ _ E) as (rest & R).
          simpl in R. inversion R. subst. simpl in O. discriminate O.
        + rewrite (IH _ O), append_assoc. reflexivity. }
    intros s O. exact (G s "" O).
Qed.

(** ** The selections of the user *)

Lemma In_insert_desc {A} (key : A -> Z) (x y : A) (l : list A) :
  In y (insert_desc key x l) <-> y = x \/ In y l.
Proof.
  induction l as [|z l IH]; simpl.
  - intuition.
  - destruct (key z <=? key x); simpl; [intuition|].
    rewrite IH. intuition.
Qed.

Lemma In_sorted_desc {A} (key : A -> Z) (y : A) (l : list A) :
  In y (sorted_desc key l) <-> In y l.
Proof.
  induction l as [|x l IH]; simpl; [tauto|].
  rewrite In_insert_desc, IH. intuition.
Qed.

Lemma In_unique {A} (eqb : A -> A -> bool) (x : A) (l : list A) :
  In x (unique eqb l) -> In x l.
Proof.
  induction l as [|y l IH]; simpl; [tauto|].
  intros [E|I]; [left; exact E | right].
  apply filter_In in I. apply IH. tauto.
Qed.

Lemma get_In_values {K V} `{Key K} (d : list (K * V)) (k : K) (v : V) :
  Dict.get d k = Some v -> In v (Dict.values d).
Proof.
  intros G. apply get_In in G.
  change (In (snd (k, v)) (map snd d)). apply in_map. exact G.
Qed.

(** The choice of index [k] among the entries of [l] and a last entry
    for none. *)
Lemma nth_offered {A} (l : list A) :
  forall k, nth (Nat.min k (List.length l)) (map Some l ++ [None]) None
            = nth_error l k.
Proof.
  induction l as [|x l IH]; intros k; simpl.
  - rewrite Nat.min_0_r. destruct k; reflexivity.
  - destruct k as [|k]; simpl; [reflexivity | apply IH].
Qed.

(** X8. [select_api_part] gives one of the candidates it shows or, for
    "Skip ...", none, and takes one answer of the user; without a
    candidate to show it raises (the [max()] of an empty sequence), and
    without an answer it does not return. *)
Theorem select_api_part_offered :
  (forall s, select_api_part [] s = Raise ValueError s)
  /\ (forall api_parts s r s',
         select_api_part api_parts s = Ret r s' ->
         exists k ks,
           keys s = k :: ks /\ s' = set_keys ks s
           /\ match r with
              | Some a => nth_error api_parts k = Some a
              | None => (List.length api_parts <= k)%nat
              end)
  /\ (forall a api_parts s,
         keys s = [] -> select_api_part (a :: api_parts) s = Blocked s).
Proof.
  split; [reflexivity|]. split.
  - intros api_parts s r s' R. destruct api_parts as [|a l]; [discriminate R|].
    unfold select_api_part in R.
    apply bind_Ret in R. destruct R as (i & s1 & R1 & R).
    apply select_Ret in R1. destruct R1 as (k & ks & Ek & -> & ->).
    set (parts := a :: l) in *.
    replace (List.length parts + 1 - 1)%nat with (List.length parts) in R by lia.
    rewrite nth_offered in R. unfold ret in R.
    exists k, ks. split; [exact Ek|].
    assert (E : s' = set_keys ks s) by congruence.
    assert (N : nth_error parts k = r) by congruence.
    split; [exact E|]. rewrite <- N.
    destruct (nth_error parts k) eqn:X; [reflexivity|].
    apply nth_error_None. exact X.
  - intros a api_parts s E. unfold select_api_part, bind, select. rewrite E.
    reflexivity.
Qed.

Lemma select_category_loop_configured (matches : list Category) (n : nat)
  (rounds : nat) :
  forall s s' c,
    (forall x, In x matches -> In x (Dict.values (category_map s))) ->
    select_category_loop rounds matches n s = Ret (Some c) s' ->
    In c (Dict.values (category_map s))
    /\ category_map s' = category_map s /\ repo s' = repo s
    /\ writes s' = writes s.
Proof.
  induction rounds as [|rounds IH]; intros s s' c M R; simpl in R; [discriminate R|].
  apply bind_Ret in R. destruct R as (i & s1 & R1 & R).
  apply select_Ret in R1. destruct R1 as (k & ks & _ & -> & _).
  destruct (i =? n + 1)%nat; [inversion R|].
  destruct (i <? n)%nat.
  - inversion R as [[N E]]. subst s'.
    split; [apply M; eapply nth_error_In; exact N|]. repeat split.
  - apply bind_Ret in R. destruct R as (name & s2 & R2 & R).
    apply prompt_input_Ret in R2. destruct R2 as (ts & _ & ->).
    rewrite bind_gets in R. fields.
    destruct (Dict.get (category_map s) name) as [category|] eqn:G.
    + destruct (String.eqb (cat_name category) name).
      * inversion R. subst. split; [eapply get_In_values; exact G|].
        repeat split.
      * unfold warning, prompt in R. rewrite bind_say, bind_say in R.
        apply IH in R; [|exact M]. exact R.
    + unfold warning, prompt in R. rewrite bind_say, bind_say in R.
      apply IH in R; [|exact M]. exact R.
Qed.

(** X9. A category [select_category] gives is a category of the
    configuration, picked from the list or named by the user with its
    own name; the selection changes neither the configuration nor the
    repository. For an empty path it raises ([category_path[-1]]). *)
Theorem select_category_configured :
  (forall s, select_category [] s = Raise IndexError s)
  /\ (forall category_path s s' c,
         select_category category_path s = Ret (Some c) s' ->
         In c (Dict.values (category_map s))
         /\ category_map s' = category_map s /\ repo s' = repo s
         /\ writes s' = writes s).
Proof.
  split; [reflexivity|].
  intros category_path s s' c R. unfold select_category in R.
  destruct (rev category_path) as [|leaf rest]; [discriminate R|].
  rewrite bind_gets, bind_gets, bind_gets in R.
  eapply select_category_loop_configured; [|exact R].
  intros x I. apply In_sorted_desc in I. unfold categories in I.
  apply In_unique in I. exact I.
Qed.

(** X10. [select_parameter] gives an alias only together with the value
    the candidate has under that name; a value without alias is the line
    the user typed; for a candidate without parameters it raises (the
    [max()] of an empty sequence). Nothing but the answers of the user is
    used up. *)
Theorem select_parameter_offered :
  (forall name s, select_parameter name [] s = Raise ValueError s)
  /\ (forall name parameters_ s r s',
         select_parameter name parameters_ s = Ret r s' ->
         repo s' = repo s /\ parameter_map s' = parameter_map s
         /\ match r with
            | (Some alias, Some v) => In (alias, v) parameters_
            | (Some _, None) => False
            | (None, Some v) => exists ts, typed s = v :: ts
            | (None, None) => True
            end).
Proof.
  split; [reflexivity|].
  intros name parameters_ s r s' R. unfold select_parameter in R.
  rewrite bind_gets in R.
  destruct (firstn _ _) as [|x xs]; [discriminate R|].
  apply bind_Ret in R. destruct R as (i & s1 & R1 & R).
  apply select_Ret in R1. destruct R1 as (k & ks & _ & -> & _).
  destruct (i =? _)%nat; [inversion R; subst; repeat split|].
  destruct (i <? _)%nat.
  - destruct (nth_error _ i) as [[alias v]|] eqn:N; [|discriminate R].
    inversion R. subst. repeat split.
    apply nth_error_In in N. apply In_sorted_desc in N. exact N.
  - apply bind_Ret in R. destruct R as (v & s2 & R2 & R).
    apply prompt_input_Ret in R2. destruct R2 as (ts & T & ->).
    inversion R. subst. repeat split. exists ts. exact T.
Qed.

(** ** The result of [import_part] *)

(** What [import_part] does with a selected candidate: it ends with
    ERROR, or it goes on with the loop. *)
Lemma import_selected_Ret (all : list (Company * AsyncResult)) (supplier : Company)
  (a : ApiPart) (part : option Part) (loc : option Z) (amount : Z)
  (ir : ImportResult) (continue_ : ImportResult -> M ImportResult)
  (s s' : St) (r : ImportResult) :
  import_selected all supplier a part loc amount ir continue_ s = Ret r s' ->
  (r = ERROR
   /\ exists s1, for_each all (fun other => wait (snd other)) s1 = Ret tt s')
  \/ (exists r1 s1,
         import_supplier_part supplier a part loc amount s = Ret r1 s1
         /\ continue_ (ir |r r1) s1 = Ret r s').
Proof.
  unfold import_selected. intros R.
  apply bind_Ret in R. destruct R as (ir1 & s1 & R1 & R).
  destruct (ImportResult_eqb ir1 ERROR) eqn:E.
  - left. apply bind_Ret in R. destruct R as ([] & s2 & W & R).
    inversion R. subst. split; [reflexivity|]. exists s1. exact W.
  - right. unfold catch in R1.
    destruct (bind (import_supplier_part supplier a part loc amount)
                   (fun result => ret (ir |r result)) s)
      as [x sx|[e| | | | |] sx|sx] eqn:B; try discriminate R1.
    + inversion R1. subst. apply bind_Ret in B.
      destruct B as (r1 & s2 & B1 & B2). inversion B2. subst.
      exists r1, s1. split; [exact B1 | exact R].
    + exfalso. apply bind_Ret in R1. destruct R1 as (detail & s0 & _ & R1).
      unfold error in R1. rewrite bind_say, bind_gets in R1.
      apply bind_Ret in R1. destruct R1 as (u & s2 & _ & R1).
      inversion R1. subst. discriminate E.
Qed.

Lemma import_part_loop_verdict (all : list (Company * AsyncResult))
  (part : option Part) (loc : option Z) (amount : Z)
  (rest : list (Company * AsyncResult)) :
  forall ir s r s',
    import_part_loop all rest part loc amount ir s = Ret r s' ->
    existing_manufacturer_part s' = None -> r = FAILURE \/ r = ERROR.
Proof.
  induction rest as [|[supplier ar] rest IH]; intros ir s r s' R N.
  - simpl in R. rewrite bind_gets in R. inversion R. subst.
    rewrite N. simpl. destruct ir; simpl; auto.
  - simpl in R. unfold info in R. rewrite bind_say in R.
    apply bind_Ret in R. destruct R as ([results count] & s1 & _ & R).
    assert (Sel : forall a s2,
               import_selected all supplier a part loc amount ir
                 (import_part_loop all rest part loc amount) s2 = Ret r s' ->
               r = FAILURE \/ r = ERROR).
    { intros a s2 Q. apply import_selected_Ret in Q.
      destruct Q as [[-> _]|(r1 & s3 & _ & Q)]; [right; reflexivity|].
      eapply IH; eauto. }
    destruct results as [|a [|b results]].
    + unfold hint in R. rewrite bind_say in R. eapply IH; eauto.
    + eapply Sel; eauto.
    + rewrite bind_gets in R. destruct (interactive s1).
      * unfold prompt in R. rewrite bind_say, bind_gets in R.
        apply bind_Ret in R. destruct R as (u & s2 & _ & R).
        apply bind_Ret in R. destruct R as ([x|] & s3 & _ & R).
        -- eapply Sel; eauto.
        -- eapply IH; eauto.
      * unfold warning in R. rewrite bind_say in R. eapply IH; eauto.
Qed.

(** X11. When [import_part] returns SUCCESS or INCOMPLETE, a
    manufacturer-part was established in the call; an import that
    established none is a FAILURE, or an ERROR. *)
Theorem import_part_verdict (term : string) (part : option Part)
  (supplier_id : option string) (only : bool) (loc : option Z) (amount : Z)
  (s s' : St) (r : ImportResult) :
  import_part term part supplier_id only loc amount s = Ret r s' ->
  (existing_manufacturer_part s' = None -> r = FAILURE \/ r = ERROR)
  /\ (r = SUCCESS \/ r = INCOMPLETE ->
      exists mp, existing_manufacturer_part s' = Some mp).
Proof.
  intros R. unfold import_part, info in R.
  rewrite bind_say, bind_modify, bind_gets in R.
  pose proof (import_part_loop_verdict _ _ _ _ _ _ _ _ _ R) as V.
  split; [exact V|].
  intros G. destruct (existing_manufacturer_part s') as [mp|]; [exists mp; reflexivity|].
  destruct (V eq_refl) as [->| ->]; destruct G; discriminate.
Qed.

Lemma import_part_verdict_witness :
  exists mp,
    existing_manufacturer_part
      (final (import_part "RC0603" None None false None 0 ex_fresh)) = Some mp.
Proof.
  apply (proj2 (import_part_verdict "RC0603" None None false None 0 ex_fresh
                  (final (import_part "RC0603" None None false None 0 ex_fresh))
                  INCOMPLETE ltac:(vm_compute; reflexivity))).
  right. reflexivity.
Defined.

Lemma import_part_loop_skips (all : list (Company * AsyncResult))
  (part : option Part) (loc : option Z) (amount : Z)
  (rest : list (Company * AsyncResult)) :
  forall ir s,
    interactive s = false -> existing_manufacturer_part s = None -> mild ir ->
    Forall (fun x => List.length (fst (search_result (snd x))) <> 1%nat) rest ->
    exists s',
      import_part_loop all rest part loc amount ir s = Ret FAILURE s'
      /\ repo s' = repo s /\ writes s' = writes s
      /\ keys s' = keys s /\ typed s' = typed s
      /\ (forall h, In h (joined s) -> In h (joined s'))
      /\ (forall x, In x rest -> In (handle (snd x)) (joined s')).
Proof.
  induction rest as [|[supplier ar] rest IH]; intros ir s I N G F.
  - exists s. simpl. rewrite bind_gets, N. simpl.
    split; [destruct G as [->| ->]; reflexivity|].
    repeat split; auto. intros x [].
  - inversion F as [|x l Fx Fl]. subst. simpl in Fx.
    simpl. unfold info. rewrite bind_say. unfold get, wait.
    rewrite bind_bind, bind_modify, bind_ret.
    set (s1 := set_joined _ _).
    assert (Go : forall ir' c, mild ir' ->
               exists s',
                 import_part_loop all rest part loc amount ir' (set_console c s1)
                 = Ret FAILURE s'
                 /\ repo s' = repo s /\ writes s' = writes s
                 /\ keys s' = keys s /\ typed s' = typed s
                 /\ (forall h, In h (joined s) -> In h (joined s'))
                 /\ (forall x, In x ((supplier, ar) :: rest) ->
                               In (handle (snd x)) (joined s'))).
    { intros ir' c G'.
      destruct (IH ir' (set_console c s1) I N G' Fl)
        as (s' & R & Rp & W & K & T & J & Jr).
      exists s'. split; [exact R|]. repeat split; auto.
      - intros h Ih. apply J. right. exact Ih.
      - intros x [<-|Ix]; [apply J; left; reflexivity | apply Jr; exact Ix]. }
    destruct (search_result ar) as [results count].
    destruct results as [|a [|b results]].
    + unfold hint. rewrite bind_say.
      destruct (Go ir ((L_hint, Msg_no_results (company_name supplier)) :: console s1) G)
        as (s' & R & Rest).
      exists s'. split; [exact R | exact Rest].
    + contradiction Fx. reflexivity.
    + rewrite bind_gets. change (interactive s1) with (interactive s). rewrite I.
      unfold warning. rewrite bind_say.
      destruct (Go (ir |r INCOMPLETE)
                  ((L_warning,
                    Msg_skipping_import count (company_name supplier)) :: console s1)
                  (or_mild ir G)) as (s' & R & Rest).
      exists s'. split; [exact R | exact Rest].
Qed.

(** X12. Without a user to ask, a supplier with no candidate is passed
    over with a hint and a supplier with several candidates with a
    warning: when no supplier has exactly one candidate, [import_part]
    is a FAILURE that has waited for every search and has touched
    neither the repository nor the answers of the user. *)
Theorem import_part_nothing_to_import (term : string) (part : option Part)
  (supplier_id : option string) (only : bool) (loc : option Z) (amount : Z)
  (s : St) :
  interactive s = false ->
  Forall (fun x => List.length (fst (search_result (snd x))) <> 1%nat)
         (search (lib s) term supplier_id only) ->
  exists s',
    import_part term part supplier_id only loc amount s = Ret FAILURE s'
    /\ repo s' = repo s /\ writes s' = writes s
    /\ keys s' = keys s /\ typed s' = typed s
    /\ (forall x, In x (search (lib s) term supplier_id only) ->
                  In (handle (snd x)) (joined s')).
Proof.
  intros I F. unfold import_part, info.
  rewrite bind_say, bind_modify, bind_gets.
  match goal with |- context [import_part_loop ?all ?all part loc amount SUCCESS ?s0] =>
    destruct (import_part_loop_skips all part loc amount all SUCCESS s0 I eq_refl
                (or_introl eq_refl) F) as (s' & R & Rp & W & K & T & _ & J)
  end.
  exists s'. split; [exact R|]. repeat split; auto.
Qed.

Lemma import_part_nothing_to_import_witness :
  exists s',
    import_part "RC" None None false None 0 ex_ambiguous = Ret FAILURE s'
    /\ repo s' = repo ex_ambiguous /\ writes s' = []
    /\ In 0%nat (joined s') /\ In 1%nat (joined s').
Proof.
  destruct (import_part_nothing_to_import "RC" None None false None 0 ex_ambiguous)
    as (s' & R & Rp & W & _ & _ & J).
  - reflexivity.
  - simpl. repeat constructor; simpl; lia.
  - exists s'. split; [exact R|]. split; [exact Rp|]. split; [exact W|]. split.
    + apply (J (ex_supplier 1 "Alpha", {| handle := 0%nat; search_result := ([], 0) |})).
      left. reflexivity.
    + apply (J (ex_supplier 2 "Beta",
                {| handle := 1%nat;
                   search_result := ([ex_part "B-1" "RC0603"; ex_part "B-2" "RC0805"], 2) |})).
      right. left. reflexivity.
Defined.

Lemma select_api_part_keys (api_parts : list ApiPart) (s s' : St)
  (r : option ApiPart) :
  select_api_part api_parts s = Ret r s' -> exists ks, s' = set_keys ks s.
Proof.
  destruct api_parts as [|a l]; [discriminate|].
  unfold select_api_part. intros R.
  apply bind_Ret in R. destruct R as (i & s1 & R1 & R).
  apply select_Ret in R1. destruct R1 as (k & ks & _ & -> & _).
  inversion R. exists ks. reflexivity.
Qed.

Lemma import_supplier_part_joined (supplier : Company) (a : ApiPart)
  (part : option Part) (loc : option Z) (amount : Z) (s s' : St)
  (r : ImportResult) :
  import_supplier_part supplier a part loc amount s = Ret r s' ->
  joined s' = joined s /\ settings s' = settings s.
Proof.
  intros R. apply import_supplier_part_Ret in R.
  destruct R as [(_ & S & _ & J & _)|(mp & part2 & ir & s2 & (S & _ & J & _) & R)].
  - split; assumption.
  - apply store_supplier_part_effect in R. destruct R as (_ & _ & S' & J' & _).
    split; congruence.
Qed.

Lemma wait_all_joined (all : list (Company * AsyncResult)) (s s' : St) :
  for_each all (fun other => wait (snd other)) s = Ret tt s' ->
  forall x, In x all -> In (handle (snd x)) (joined s').
Proof.
  intros R. destruct (wait_all all s) as (s'' & R' & J & _).
  rewrite R in R'. inversion R'. subst. exact J.
Qed.

Lemma import_part_loop_joins (all : list (Company * AsyncResult))
  (part : option Part) (loc : option Z) (amount : Z)
  (rest : list (Company * AsyncResult)) :
  forall ir s r s',
    import_part_loop all rest part loc amount ir s = Ret r s' ->
    (forall x, In x all -> In (handle (snd x)) (joined s'))
    \/ ((forall h, In h (joined s) -> In h (joined s'))
        /\ (forall x, In x rest -> In (handle (snd x)) (joined s'))).
Proof.
  induction rest as [|[supplier ar] rest IH]; intros ir s r s' R.
  - simpl in R. rewrite bind_gets in R. inversion R. subst.
    right. split; [auto | intros x []].
  - simpl in R. unfold info in R. rewrite bind_say in R.
    unfold get, wait in R. rewrite bind_bind, bind_modify, bind_ret in R.
    set (s1 := set_joined _ _) in R.
    assert (Go : forall ir' s2,
               joined s2 = joined s1 ->
               import_part_loop all rest part loc amount ir' s2 = Ret r s' ->
               (forall x, In x all -> In (handle (snd x)) (joined s'))
               \/ ((forall h, In h (joined s) -> In h (joined s'))
                   /\ (forall x, In x ((supplier, ar) :: rest) ->
                                 In (handle (snd x)) (joined s')))).
    { intros ir' s2 J Q. destruct (IH _ _ _ _ Q) as [A|[Mo Re]]; [left; exact A|].
      right. rewrite J in Mo. split.
      - intros h I. apply Mo. right. exact I.
      - intros x [<-|I]; [apply Mo; left; reflexivity | apply Re; exact I]. }
    assert (Sel : forall a s2,
               joined s2 = joined s1 ->
               import_selected all supplier a part loc amount ir
                 (import_part_loop all rest part loc amount) s2 = Ret r s' ->
               (forall x, In x all -> In (handle (snd x)) (joined s'))
               \/ ((forall h, In h (joined s) -> In h (joined s'))
                   /\ (forall x, In x ((supplier, ar) :: rest) ->
                                 In (handle (snd x)) (joined s')))).
    { intros a s2 J Q. apply import_selected_Ret in Q.
      destruct Q as [(_ & sx & W)|(r1 & s3 & Q1 & Q)].
      - left. eapply wait_all_joined. exact W.
      - apply import_supplier_part_joined in Q1. destruct Q1 as [J3 _].
        eapply Go; [|exact Q]. congruence. }
    destruct (search_result ar) as [results count].
    destruct results as [|a [|b results]].
    + unfold hint in R. rewrite bind_say in R. eapply Go; [|exact R]. reflexivity.
    + eapply Sel; [|exact R]. reflexivity.
    + rewrite bind_gets in R. destruct (interactive s1).
      * unfold prompt in R. rewrite bind_say, bind_gets in R.
        apply bind_Ret in R. destruct R as (u & s2 & R2 & R).
        assert (J2 : joined s2 = joined s1).
        { match type of R2 with (if ?c then _ else _) _ = _ => destruct c end;
            [unfold hint, say, modify in R2|]; inversion R2; reflexivity. }
        apply bind_Ret in R. destruct R as (sel & s3 & R3 & R).
        destruct (select_api_part_keys _ _ _ _ R3) as (ks & ->).
        destruct sel as [x|].
        -- eapply Sel; [|exact R]. exact J2.
        -- eapply Go; [|exact R]. exact J2.
      * unfold warning in R. rewrite bind_say in R. eapply Go; [|exact R].
        reflexivity.
Qed.

(** X13. Whenever [import_part] returns, with whatever result, every
    search call of the import has been waited for. *)
Theorem import_part_joins_every_search (term : string) (part : option Part)
  (supplier_id : option string) (only : bool) (loc : option Z) (amount : Z)
  (s s' : St) (r : ImportResult) :
  import_part term part supplier_id only loc amount s = Ret r s' ->
  forall x, In x (search (lib s) term supplier_id only) ->
            In (handle (snd x)) (joined s').
Proof.
  intros R. unfold import_part, info in R.
  rewrite bind_say, bind_modify, bind_gets in R. fields.
  destruct (import_part_loop_joins _ _ _ _ _ _ _ _ _ R) as [A|[_ A]]; exact A.
Qed.

Lemma import_part_joins_every_search_witness :
  In 0%nat (joined (final (import_part "RC0603" None None false None 0 ex_fresh)))
  /\ In 1%nat (joined (final (import_part "RC0603" None None false None 0 ex_fresh))).
Proof.
  pose proof (import_part_joins_every_search "RC0603" None None false None 0 ex_fresh
                (final (import_part "RC0603" None None false None 0 ex_fresh))
                INCOMPLETE ltac:(vm_compute; reflexivity)) as J.
  split.
  - apply (J (ex_supplier 1 "Alpha", ex_async 0 (ex_part "A-1" "RC0603"))).
    left. reflexivity.
  - apply (J (ex_supplier 2 "Beta", ex_async 1 (ex_part "B-1" "RC0603"))).
    right. left. reflexivity.
Defined.

(** X14. When the SKU of the candidate has a supplier-part,
    [import_supplier_part] makes no second one: the supplier-parts keep
    their identifiers, a dry run leaves them as they are, and a real run
    that does not end in FAILURE has brought the supplier-part of that
    identifier to the SKU, the supplier and the manufacturer-part it
    established. *)
Theorem import_supplier_part_known_sku (supplier : Company) (a : ApiPart)
  (part : option Part) (loc : option Z) (amount : Z) (sp0 : SupplierPart)
  (s s' : St) (r : ImportResult) :
  find (fun p => String.eqb (sp_SKU p) (SKU a)) (supplier_parts (repo s)) = Some sp0 ->
  import_supplier_part supplier a part loc amount s = Ret r s' ->
  map sp_pk (supplier_parts (repo s')) = map sp_pk (supplier_parts (repo s))
  /\ (dry_run s = true -> supplier_parts (repo s') = supplier_parts (repo s))
  /\ (dry_run s = false -> r <> FAILURE ->
      exists mp sp',
        existing_manufacturer_part s' = Some mp
        /\ In sp' (supplier_parts (repo s'))
        /\ sp_pk sp' = sp_pk sp0 /\ sp_SKU sp' = SKU a
        /\ sp_manufacturer_part sp' = Some (mp_pk mp)
        /\ sp_supplier sp' = company_pk supplier).
Proof.
  intros F R. apply import_supplier_part_Ret in R. rewrite F in R.
  destruct R as [(-> & S & _ & _ & L & _)|(mp & part2 & ir & s2 & Fr & R)].
  - split; [rewrite L; reflexivity|]. split; [intros _; exact L|].
    intros _ N. contradiction N. reflexivity.
  - destruct Fr as (S2 & _ & _ & L2 & _).
    apply store_supplier_part_effect in R.
    destruct R as (_ & E & _ & _ & _ & Dry & Real).
    rewrite (settings_dry_run _ _ S2) in Dry, Real.
    destruct (dry_run s) eqn:D.
    + pose proof (Dry eq_refl) as L. rewrite L, L2.
      split; [reflexivity|]. split; [reflexivity | discriminate].
    + destruct (Real eq_refl) as (p & sp' & _ & K1 & K2 & _ & K4 & (P1 & P2 & P3)).
      split; [congruence|]. split; [discriminate|].
      intros _ _. exists mp, sp'. split; [exact E|].
      split; [|repeat split; assumption].
      apply P3. rewrite L2. apply find_some in F. tauto.
Qed.

Lemma import_supplier_part_known_sku_witness :
  let s' := final (import_supplier_part (ex_supplier 1 "Alpha") ex_candidate None
                                        None 0 ex_known_sku) in
  map sp_pk (supplier_parts (repo s')) = [8]
  /\ exists mp sp',
       existing_manufacturer_part s' = Some mp
       /\ In sp' (supplier_parts (repo s'))
       /\ sp_pk sp' = 8 /\ sp_SKU sp' = "S-1"
       /\ sp_manufacturer_part sp' = Some (mp_pk mp)
       /\ sp_supplier sp' = 1.
Proof.
  cbv zeta.
  destruct (import_supplier_part_known_sku (ex_supplier 1 "Alpha") ex_candidate None
              None 0 ex_unlinked_supplier_part ex_known_sku
              (final (import_supplier_part (ex_supplier 1 "Alpha") ex_candidate None
                                           None 0 ex_known_sku))
              INCOMPLETE eq_refl ltac:(vm_compute; reflexivity))
    as (Pk & _ & Real).
  split; [exact Pk|]. apply Real; [reflexivity | discriminate].
Defined.

(** X15. [import_supplier_part] calls [add_stock] at most once: not at
    all without a stock location, for the location 0, or when the
    candidate fails before its supplier-part is stored; otherwise once,
    with the location and the amount it is given and the part of the
    supplier-part data, which is the part of the supplier-part stored for
    the SKU in a real run and 0 in a dry run, where the call is made all
    the same. *)
Theorem import_supplier_part_stock (supplier : Company) (a : ApiPart)
  (part : option Part) (loc : option Z) (amount : Z) (s s' : St)
  (r : ImportResult) :
  import_supplier_part supplier a part loc amount s = Ret r s' ->
  (truthy_Z loc = false -> stocked s' = stocked s)
  /\ (truthy_Z loc = true ->
      (r = FAILURE /\ stocked s' = stocked s
       /\ supplier_parts (repo s') = supplier_parts (repo s))
      \/ exists z part_id,
           loc = Some z
           /\ stocked s' = (z, part_id, amount) :: stocked s
           /\ (dry_run s = true ->
               part_id = 0 /\ supplier_parts (repo s') = supplier_parts (repo s))
           /\ (dry_run s = false ->
               exists sp',
                 In sp' (supplier_parts (repo s'))
                 /\ sp_SKU sp' = SKU a /\ sp_part sp' = part_id)).
Proof.
  intros R. apply import_supplier_part_Ret in R.
  destruct R as [(-> & S & _ & _ & L & T & _)|(mp & part2 & ir & s2 & Fr & R)].
  - split; [intros _; exact T|]. intros _. left. auto.
  - destruct Fr as (S2 & _ & _ & L2 & T2 & _).
    apply store_supplier_part_effect in R.
    destruct R as (_ & _ & _ & _ & T & Dry & Real).
    rewrite (settings_dry_run _ _ S2) in T, Dry, Real.
    split; [intros Z; rewrite Z in T; simpl in T; congruence|].
    intros Z. right. rewrite Z in T. destruct loc as [z|]; [|discriminate Z].
    eexists z, _. split; [reflexivity|]. split; [rewrite T, T2; reflexivity|].
    split.
    + intros D. rewrite D. split; [reflexivity|]. rewrite (Dry D). exact L2.
    + intros D. rewrite D.
      destruct (Real D) as (p & sp' & -> & K1 & _ & K3 & _ & Sp).
      exists sp'. split; [|split; [exact K1 | exact K3]].
      destruct (find (fun q => String.eqb (sp_SKU q) (SKU a)) (supplier_parts (repo s)))
        as [sp0|] eqn:F.
      * destruct Sp as (_ & _ & P3). apply P3. rewrite L2.
        apply find_some in F. tauto.
      * rewrite Sp. apply in_or_app. right. left. reflexivity.
Qed.

Lemma import_supplier_part_stock_witness :
  stocked (final (import_supplier_part (ex_supplier 1 "Alpha") ex_candidate None
                                       (Some 0) 10 ex_fresh)) = []
  /\ (exists part_id,
         stocked (final (import_supplier_part (ex_supplier 1 "Alpha") ex_candidate
                                              None (Some 5) 10 ex_fresh))
         = [(5, part_id, 10)]
         /\ part_id <> 0)
  /\ stocked (final (import_supplier_part (ex_supplier 1 "Alpha") ex_candidate None
                                          (Some 5) 10 (set_dry_run true ex_fresh)))
     = [(5, 0, 10)].
Proof.
  split; [|split].
  - apply (proj1 (import_supplier_part_stock (ex_supplier 1 "Alpha") ex_candidate None
                    (Some 0) 10 ex_fresh _ INCOMPLETE
                    ltac:(vm_compute; reflexivity))).
    reflexivity.
  - destruct (proj2 (import_supplier_part_stock (ex_supplier 1 "Alpha")
                       ex_candidate None (Some 5) 10 ex_fresh _ INCOMPLETE
                       ltac:(vm_compute; reflexivity)) eq_refl)
      as [(F & _)|(z & part_id & L & T & _ & Real)]; [discriminate F|].
    inversion L. subst z. exists part_id. split; [exact T|].
    destruct (Real eq_refl) as (sp' & I & _ & P).
    vm_compute in I. destruct I as [<-|[]]. vm_compute in P. subst part_id.
    discriminate.
  - destruct (proj2 (import_supplier_part_stock (ex_supplier 1 "Alpha")
                       ex_candidate None (Some 5) 10 (set_dry_run true ex_fresh) _
                       INCOMPLETE ltac:(vm_compute; reflexivity)) eq_refl)
      as [(F & _)|(z & part_id & L & T & Dry & _)]; [discriminate F|].
    inversion L. subst z. destruct (Dry eq_refl) as [-> _]. exact T.
Defined.

(** ** What parameter reconciliation does to the parameters *)

Lemma rows_kept_refl (pk : Z) (s : St) : rows_kept pk s s.
Proof. exists []. simpl. rewrite app_nil_r. split; [reflexivity | constructor]. Qed.

Lemma rows_kept_trans (pk : Z) (a b c : St) :
  rows_kept pk a b -> rows_kept pk b c -> rows_kept pk a c.
Proof.
  intros (x & Ex & Fx) (y & Ey & Fy). exists (x ++ y)%list.
  split; [|apply Forall_app; split; assumption].
  rewrite Ey, Ex, map_app, app_assoc. reflexivity.
Qed.

Lemma rows_added_refl (pk : Z) (s : St) : rows_added pk s s.
Proof. exists []. rewrite app_nil_r. split; [reflexivity | constructor]. Qed.

Lemma rows_added_trans (pk : Z) (a b c : St) :
  rows_added pk a b -> rows_added pk b c -> rows_added pk a c.
Proof.
  intros (x & Ex & Fx) (y & Ey & Fy). exists (x ++ y)%list.
  split; [|apply Forall_app; split; assumption].
  rewrite Ey, Ex, app_assoc. reflexivity.
Qed.

Ltac unf_rows :=
  first
    [ exists []; simpl; rewrite ?app_nil_r;
      split; [first [reflexivity | apply map_patch_same; reflexivity] | constructor]
    | eexists [_]; simpl; rewrite ?map_app;
      split; [reflexivity | repeat constructor] ].

Ltac leaf_kept pk :=
  leaf_of (rows_kept_refl pk) (rows_kept_trans pk) ltac:(unfold rows_kept; unf_rows).

Ltac leaf_added pk :=
  leaf_of (rows_added_refl pk) (rows_added_trans pk) ltac:(unfold rows_added; unf_rows).

Lemma select_parameter_kept (pk : Z) (name : string) (ps : list (string * string)) :
  keeps (rows_kept pk) (select_parameter name ps).
Proof. keeps_with ltac:(leaf_kept pk). Qed.

#[local] Hint Resolve select_parameter_kept : keeps.

Lemma resolve_parameters_kept (pk : Z) (names : list string) (a : ApiPart)
  (matched : list (string * string)) (unassigned : list string) :
  keeps (rows_kept pk) (resolve_parameters names a matched unassigned).
Proof.
  revert matched unassigned.
  induction names as [|n names IH]; intros matched unassigned; simpl;
    keeps_with ltac:(leaf_kept pk).
Qed.

#[local] Hint Resolve resolve_parameters_kept : keeps.

Lemma apply_parameters_kept (p : Part) (existing : list (string * PartParameter))
  (upd : bool) (items : list (string * string)) (async : list TaskResult)
  (ir : ImportResult) :
  keeps (rows_kept (part_pk p)) (apply_parameters items p existing upd async ir).
Proof.
  revert async ir. induction items as [|[name v] items IH]; intros async ir; simpl;
    keeps_with ltac:(leaf_kept (part_pk p)).
Qed.

#[local] Hint Resolve apply_parameters_kept : keeps.

Lemma collect_results_kept (pk : Z) (async : list TaskResult)
  (ir : ImportResult) :
  keeps (rows_kept pk) (collect_results async ir).
Proof.
  revert ir. induction async as [|result async IH]; intros ir; simpl;
    keeps_with ltac:(leaf_kept pk).
Qed.

#[local] Hint Resolve collect_results_kept : keeps.

Lemma select_parameter_added (pk : Z) (name : string) (ps : list (string * string)) :
  keeps (rows_added pk) (select_parameter name ps).
Proof. keeps_with ltac:(leaf_added pk). Qed.

#[local] Hint Resolve select_parameter_added : keeps.

Lemma resolve_parameters_added (pk : Z) (names : list string) (a : ApiPart)
  (matched : list (string * string)) (unassigned : list string) :
  keeps (rows_added pk) (resolve_parameters names a matched unassigned).
Proof.
  revert matched unassigned.
  induction names as [|n names IH]; intros matched unassigned; simpl;
    keeps_with ltac:(leaf_added pk).
Qed.

#[local] Hint Resolve resolve_parameters_added : keeps.

Lemma apply_parameters_added (p : Part) (existing : list (string * PartParameter))
  (items : list (string * string)) (async : list TaskResult)
  (ir : ImportResult) :
  keeps (rows_added (part_pk p)) (apply_parameters items p existing false async ir).
Proof.
  revert async ir. induction items as [|[name v] items IH]; intros async ir; simpl;
    keeps_with ltac:(leaf_added (part_pk p)).
Qed.

#[local] Hint Resolve apply_parameters_added : keeps.

Lemma collect_results_added (pk : Z) (async : list TaskResult)
  (ir : ImportResult) :
  keeps (rows_added pk) (collect_results async ir).
Proof.
  revert ir. induction async as [|result async IH]; intros ir; simpl;
    keeps_with ltac:(leaf_added pk).
Qed.

#[local] Hint Resolve collect_results_added : keeps.

(** X16. However it ends, [setup_parameters] deletes no parameter and
    changes of none the identifier, the part or the name; the parameters
    it adds belong to the part; and with [update_existing] false it
    changes none at all. *)
Theorem setup_parameters_keeps_rows (p : Part) (a : ApiPart) (s : St) :
  (forall upd, rows_kept (part_pk p) s (final (setup_parameters (Some p) a upd s)))
  /\ rows_added (part_pk p) s (final (setup_parameters (Some p) a false s)).
Proof.
  split.
  - intros upd.
    assert (K : keeps (rows_kept (part_pk p)) (setup_parameters (Some p) a upd))
      by keeps_with ltac:(leaf_kept (part_pk p)).
    apply K.
  - assert (K : keeps (rows_added (part_pk p)) (setup_parameters (Some p) a false))
      by keeps_with ltac:(leaf_added (part_pk p)).
    apply K.
Qed.

(** ** Failing requests in parameter reconciliation *)

Lemma contained_ret {A} (a : A) : contained (ret a).
Proof. intros s e s'. discriminate. Qed.

Lemma contained_gets {A} (f : St -> A) : contained (gets f).
Proof. intros s e s'. discriminate. Qed.

Lemma contained_modify (f : St -> St) : contained (modify f).
Proof. intros s e s'. discriminate. Qed.

Lemma contained_select (n : nat) : contained (select n).
Proof. intros s e s'. unfold select. destruct (keys s); discriminate. Qed.

Lemma contained_prompt_input : contained prompt_input.
Proof. intros s e s'. unfold prompt_input. destruct (typed s); discriminate. Qed.

Lemma contained_bind {A B} (m : M A) (k : A -> M B) :
  contained m -> (forall a, contained (k a)) -> contained (bind m k).
Proof.
  intros Hm Hk s e s'. unfold bind.
  destruct (m s) as [a s1|x s1|s1] eqn:E.
  - apply Hk.
  - intros Q. inversion Q. subst. exact (Hm s e s' E).
  - discriminate.
Qed.

Lemma contained_catch {A} (m : M A) (h : HTTPError -> M A) :
  (forall e, contained (h e)) -> contained (catch m h).
Proof.
  intros Hh s e s'. unfold catch.
  destruct (m s) as [a s1|[x| | | | |] s1|s1]; try discriminate. apply Hh.
Qed.

Lemma contained_apply_async (task : M (option Message)) :
  contained (apply_async task).
Proof. intros s e s'. unfold apply_async. destruct (task s); discriminate. Qed.

Lemma contained_for_each {A} (l : list A) (body : A -> M unit) :
  (forall x, contained (body x)) -> contained (for_each l body).
Proof.
  intros H. induction l as [|x l IH]; simpl.
  - apply contained_ret.
  - apply contained_bind; [apply H | intros _; exact IH].
Qed.

Ltac contained_step :=
  lazymatch goal with
  | |- contained (bind _ _) => apply contained_bind; [|intro]
  | |- contained (ret _) => apply contained_ret
  | |- contained (gets _) => apply contained_gets
  | |- contained (modify _) => apply contained_modify
  | |- contained (select _) => apply contained_select
  | |- contained prompt_input => apply contained_prompt_input
  | |- contained (catch _ _) => apply contained_catch; intro
  | |- contained (apply_async _) => apply contained_apply_async
  | |- contained (for_each _ _) => apply contained_for_each; intro
  | |- contained (raise _) => let s := fresh in intros s ? ?; discriminate
  | |- contained (fun s => Blocked s) => let s := fresh in intros s ? ?; discriminate
  | |- contained (match ?x with _ => _ end) => destruct x
  | |- contained ?m =>
      first [ solve [auto with contained]
            | let h := head_of m in progress unfold h ]
  end.

Ltac contained_auto := repeat contained_step.

Create HintDb contained.

Lemma select_parameter_contained (name : string) (ps : list (string * string)) :
  contained (select_parameter name ps).
Proof. contained_auto. Qed.

#[local] Hint Resolve select_parameter_contained : contained.

Lemma resolve_parameters_contained (names : list string) (a : ApiPart) :
  forall matched unassigned,
    contained (resolve_parameters names a matched unassigned).
Proof.
  induction names as [|n names IH]; intros matched unassigned; simpl;
    contained_auto.
Qed.

#[local] Hint Resolve resolve_parameters_contained : contained.

Lemma apply_parameters_contained (p : Part) (existing : list (string * PartParameter))
  (upd : bool) (items : list (string * string)) :
  forall async ir, contained (apply_parameters items p existing upd async ir).
Proof.
  induction items as [|[name v] items IH]; intros async ir; simpl;
    contained_auto.
Qed.

#[local] Hint Resolve apply_parameters_contained : contained.

Lemma bind_Raise_inv {A B} (m : M A) (k : A -> M B) (s s' : St) (e : Exception) :
  bind m k s = Raise e s' ->
  m s = Raise e s' \/ exists a s1, m s = Ret a s1 /\ k a s1 = Raise e s'.
Proof.
  unfold bind. destruct (m s) as [a s1|x s1|s1]; intros R.
  - right. exists a, s1. split; [reflexivity | exact R].
  - left. inversion R. reflexivity.
  - discriminate R.
Qed.

(** What a parameter task is left with. *)
Lemma create_parameter_task (p : Part) (t : ParameterTemplate) (v : string) (s : St) :
  exists r s1,
    apply_async (create_parameter p t v) s = Ret r s1 /\ task_result r.
Proof.
  unfold apply_async, create_parameter, catch, bind, Parameter_create, mutating.
  destruct (dry_run s).
  - eexists _, _. split; [reflexivity | exact I].
  - destruct (faults s) as [|[[|m|[b|]]|] fs]; eexists _, _;
      (split; [reflexivity|]); simpl; unfold task_exception; auto.
Qed.

Lemma update_parameter_task (e : PartParameter) (v : string) (s : St) :
  exists r s1,
    apply_async (update_parameter e v) s = Ret r s1 /\ task_result r.
Proof.
  unfold apply_async, update_parameter, catch, bind, parameter_save, mutating.
  destruct (dry_run s).
  - eexists _, _. split; [reflexivity | exact I].
  - destruct (faults s) as [|[[|m|[b|]]|] fs]; simpl;
      try destruct (parameter_name _ e); eexists _, _;
      (split; [reflexivity|]); simpl; unfold task_exception; auto.
Qed.

Lemma apply_parameters_tasks (p : Part) (existing : list (string * PartParameter))
  (upd : bool) (items : list (string * string)) :
  forall s async ir,
    Forall task_result async ->
    exists async' ir' s',
      apply_parameters items p existing upd async ir s = Ret (async', ir') s'
      /\ Forall task_result async'.
Proof.
  induction items as [|[name v] items IH]; intros s async ir Fa; simpl.
  - eexists _, _, _. split; [reflexivity | exact Fa].
  - destruct (negb (Str.truthy (sanitize_parameter_value v))); [apply IH; assumption|].
    destruct (Dict.get existing name) as [e|].
    + destruct (upd && _); [|apply IH; assumption].
      destruct (update_parameter_task e (sanitize_parameter_value v) s)
        as (r1 & s1 & R1 & T1).
      rewrite (bind_of_Ret _ _ _ _ _ R1). apply IH.
      apply Forall_app. split; [exact Fa | repeat constructor; exact T1].
    + rewrite bind_gets. destruct (Dict.get (parameter_templates s) name) as [t|].
      * destruct (create_parameter_task p t (sanitize_parameter_value v) s)
          as (r1 & s1 & R1 & T1).
        rewrite (bind_of_Ret _ _ _ _ _ R1). apply IH.
        apply Forall_app. split; [exact Fa | repeat constructor; exact T1].
      * rewrite bind_gets. destruct (negb (dry_run s)); [|apply IH; assumption].
        unfold warning. rewrite bind_say. apply IH; assumption.
Qed.

Lemma or_INCOMPLETE_twice (ir : ImportResult) :
  (ir |r INCOMPLETE) |r INCOMPLETE = ir |r INCOMPLETE.
Proof. destruct ir; reflexivity. Qed.

(** [collect_results] over answers: every warning is printed, in the
    order of the tasks. *)
Lemma collect_results_run (async : list TaskResult) :
  Forall returned async ->
  forall ir s,
    exists s',
      collect_results async ir s
      = Ret (if existsb has_warning async then ir |r INCOMPLETE else ir) s'
      /\ repo s' = repo s /\ faults s' = faults s
      /\ console s'
         = (rev (map (fun w => (L_warning, w)) (warnings_of async)) ++ console s)%list.
Proof.
  induction async as [|[[w|]|e] async IH]; intros Fa ir s; simpl.
  - exists s. repeat split.
  - inversion Fa. subst. rewrite bind_ret. unfold warning. rewrite bind_say.
    destruct (IH ltac:(assumption) (ir |r INCOMPLETE)
                 (set_console ((L_warning, w) :: console s) s))
      as (s' & R & Rp & F & C).
    exists s'. split.
    + rewrite R. destruct (existsb has_warning async);
        [rewrite or_INCOMPLETE_twice|]; reflexivity.
    + split; [exact Rp|]. split; [exact F|]. rewrite C. simpl.
      rewrite <- app_assoc. reflexivity.
  - inversion Fa. subst. rewrite bind_ret. apply IH. assumption.
  - inversion Fa as [|? ? X]. destruct X.
Qed.

(** [collect_results] at the first task left with an exception: the
    exception is raised, after the warnings of the tasks before it. *)
Lemma collect_results_raises (before : list TaskResult) (e : Exception)
  (after : list TaskResult) :
  Forall returned before ->
  forall ir s,
    exists s',
      collect_results (before ++ Failed e :: after) ir s = Raise e s'
      /\ repo s' = repo s /\ faults s' = faults s
      /\ console s'
         = (rev (map (fun w => (L_warning, w)) (warnings_of before)) ++ console s)%list.
Proof.
  induction before as [|[[w|]|x] before IH]; intros Fa ir s; simpl.
  - exists s. repeat split.
  - inversion Fa. subst. rewrite bind_ret. unfold warning. rewrite bind_say.
    destruct (IH ltac:(assumption) (ir |r INCOMPLETE)
                 (set_console ((L_warning, w) :: console s) s))
      as (s' & R & Rp & F & C).
    exists s'. split; [exact R|]. split; [exact Rp|]. split; [exact F|].
    rewrite C. simpl. rewrite <- app_assoc. reflexivity.
  - inversion Fa. subst. rewrite bind_ret. apply IH. assumption.
  - inversion Fa as [|? ? X]. destruct X.
Qed.

Lemma collect_results_exception (async : list TaskResult) :
  Forall task_result async ->
  forall ir s exn s',
    collect_results async ir s = Raise exn s' -> task_exception exn.
Proof.
  induction async as [|[[w|]|e] async IH]; intros Fa ir s exn s' R; simpl in R.
  - discriminate R.
  - inversion Fa. subst. rewrite bind_ret in R. unfold warning in R.
    rewrite bind_say in R. eapply IH; eauto.
  - inversion Fa. subst. rewrite bind_ret in R. eapply IH; eauto.
  - inversion Fa as [|? ? X]. subst. inversion R. subst. exact X.
Qed.

(** What [finish_parameters] raises is what asking the user raises or
    the exception a task was left with. *)
Lemma finish_parameters_raises (p : Part) (a : ApiPart) (upd : bool)
  (existing : list (string * PartParameter)) (matched : list (string * string))
  (unassigned : list string) (i : bool) (s s' : St) (exn : Exception) :
  finish_parameters p a upd existing matched unassigned i s = Raise exn s' ->
  ask_parameters a matched unassigned i s = Raise exn s' \/ task_exception exn.
Proof.
  unfold finish_parameters. intros R.
  apply bind_Raise_inv in R. destruct R as [R|([m1 u1] & s1 & _ & R)]; [left; exact R|].
  right.
  destruct (apply_parameters_tasks p existing upd m1 s1 [] SUCCESS (Forall_nil _))
    as (async & ir & s2 & R2 & Fa).
  rewrite (bind_of_Ret _ _ _ _ _ R2) in R.
  apply bind_Raise_inv in R. destruct R as [R|([] & s3 & _ & R)].
  { destruct (negb (is_nil async)); discriminate R. }
  apply bind_Raise_inv in R. destruct R as [R|(ir4 & s4 & _ & R)].
  - eapply collect_results_exception; eauto.
  - destruct (negb (is_nil u1)); [|discriminate R].
    unfold warning in R. rewrite bind_say in R. discriminate R.
Qed.

Lemma task_exception_not_HTTP (e : HTTPError) : ~ task_exception (HTTP e).
Proof. intros [H|[H|[H|H]]]; discriminate H. Qed.

(** X17. No HTTP error of a request that fails in [setup_parameters]
    gets out of it, since [create_parameter] and [update_parameter]
    catch it, and its result is never ERROR. Without a user to ask it
    returns when every parameter task gives an answer: in a dry run,
    when no request fails, or when it updates no parameter and the
    failing requests carry a body. What it raises otherwise is the
    exception of a handler that found no body in the error or no
    [name] on the parameter: IndexError, TypeError, KeyError or
    AttributeError. *)
Theorem setup_parameters_contains_failures (part : option Part) (a : ApiPart)
  (upd : bool) (s : St) :
  (forall e s', setup_parameters part a upd s <> Raise (HTTP e) s')
  /\ (forall r s', setup_parameters part a upd s = Ret r s' -> r <> ERROR)
  /\ (forall p, part = Some p -> interactive s = false -> tasks_answer upd s ->
        exists r s', setup_parameters part a upd s = Ret r s')
  /\ (forall p exn s', part = Some p -> interactive s = false ->
        setup_parameters part a upd s = Raise exn s' -> task_exception exn).
Proof.
  split; [|split; [|split]].
  - intros e s' R. destruct part as [p|].
    + destruct (Dict.get (part_category_to_category s) (part_category p)) as [c|] eqn:G.
      * rewrite (setup_parameters_eq _ _ _ _ _ G) in R.
        apply finish_parameters_raises in R. destruct R as [R|R].
        -- assert (C : contained (ask_parameters a (matched_by_alias s c a)
                                                 (unassigned_of s p c a) (interactive s)))
             by contained_auto.
           exact (C _ _ _ R).
        -- exact (task_exception_not_HTTP e R).
      * unfold setup_parameters in R. rewrite bind_gets, bind_gets, G in R.
        unfold error in R. rewrite bind_say in R. discriminate R.
    + unfold setup_parameters in R. rewrite bind_gets in R.
      destruct (dry_run s); discriminate R.
  - intros r s' R -> . apply setup_parameters_not_error in R. apply R. reflexivity.
  - intros p -> I A. apply setup_parameters_returns; assumption.
  - intros p exn s' -> I R.
    destruct (Dict.get (part_category_to_category s) (part_category p)) as [c|] eqn:G.
    + rewrite (setup_parameters_eq _ _ _ _ _ G), I in R.
      apply finish_parameters_raises in R. destruct R as [R|R]; [|exact R].
      unfold ask_parameters in R. rewrite andb_false_r in R. discriminate R.
    + unfold setup_parameters in R. rewrite bind_gets, bind_gets, G in R.
      unfold error in R. rewrite bind_say in R. discriminate R.
Qed.

(** The request that creates the resistance fails: with a body the
    reconciliation returns, without a body it ends in the KeyError of
    the handler. *)
Lemma setup_parameters_contains_failures_witness :
  (exists r s',
      setup_parameters (Some ex_stored_part) ex_candidate false
        (set_faults [Some (Args_dict (Some "unavailable"))] ex_stored) = Ret r s')
  /\ task_exception KeyError
  /\ exists s',
       setup_parameters (Some ex_stored_part) ex_candidate false
         (set_faults [Some (Args_dict None)] ex_stored) = Raise KeyError s'.
Proof.
  assert (R : setup_parameters (Some ex_stored_part) ex_candidate false
                (set_faults [Some (Args_dict None)] ex_stored)
              = Raise KeyError
                  (final (setup_parameters (Some ex_stored_part) ex_candidate false
                            (set_faults [Some (Args_dict None)] ex_stored))))
    by (vm_compute; reflexivity).
  split; [|split].
  - apply (proj1 (proj2 (proj2 (setup_parameters_contains_failures
                                  (Some ex_stored_part) ex_candidate false
                                  (set_faults [Some (Args_dict (Some "unavailable"))]
                                              ex_stored))))
             ex_stored_part eq_refl eq_refl).
    right. right. split; [reflexivity | repeat constructor].
  - exact (proj2 (proj2 (proj2 (setup_parameters_contains_failures
                                  (Some ex_stored_part) ex_candidate false
                                  (set_faults [Some (Args_dict None)] ex_stored))))
             ex_stored_part KeyError _ eq_refl eq_refl R).
  - eexists. exact R.
Defined.

(** X18. A parameter request that fails is answered by its task with a
    warning text that holds the body of the error, when the error
    carries one and, for an update, the parameter has a [name];
    otherwise the task is left with the exception of its handler. Either
    way nothing is written. [setup_parameters] then prints the warnings
    in the order of the tasks and makes the result INCOMPLETE when there
    is one; at the first task left with an exception it raises that
    exception, after the warnings of the tasks before it. *)
Theorem parameter_task_failures :
  (forall p t v s e fs,
      dry_run s = false -> faults s = Some e :: fs ->
      apply_async (create_parameter p t v) s
      = Ret (create_failed (tpl_name t) e) (set_faults fs s))
  /\ (forall row v s e fs,
         dry_run s = false -> faults s = Some e :: fs ->
         apply_async (update_parameter row v) s
         = Ret (update_failed (parameter_name (lib s) row) v e) (set_faults fs s))
  /\ (forall async ir s,
         Forall returned async ->
         exists s',
           collect_results async ir s
           = Ret (if existsb has_warning async then ir |r INCOMPLETE else ir) s'
           /\ repo s' = repo s
           /\ console s'
              = (rev (map (fun w => (L_warning, w)) (warnings_of async))
                 ++ console s)%list)
  /\ (forall before e after ir s,
         Forall returned before ->
         exists s',
           collect_results (before ++ Failed e :: after) ir s = Raise e s'
           /\ repo s' = repo s
           /\ console s'
              = (rev (map (fun w => (L_warning, w)) (warnings_of before))
                 ++ console s)%list).
Proof.
  split; [|split; [|split]].
  - intros p t v s e fs D F.
    unfold apply_async, create_parameter, catch, bind, Parameter_create, mutating.
    rewrite D, F. destruct e as [|m|[b|]]; reflexivity.
  - intros row v s e fs D F.
    unfold apply_async, update_parameter, catch, bind, parameter_save, mutating.
    rewrite D, F. destruct e as [|m|[b|]]; simpl; try reflexivity.
    destruct (parameter_name (lib s) row); reflexivity.
  - intros async ir s Fa.
    destruct (collect_results_run async Fa ir s) as (s' & R & Rp & _ & C).
    exists s'. repeat split; assumption.
  - intros before e after ir s Fa.
    destruct (collect_results_raises before e after Fa ir s) as (s' & R & Rp & _ & C).
    exists s'. repeat split; assumption.
Qed.

(** ** Asking the user for a category *)

Lemma frame_choice_refl (s : St) : frame_choice s s.
Proof. unfold frame_choice. intuition. Qed.

Lemma frame_choice_trans (a b c : St) :
  frame_choice a b -> frame_choice b c -> frame_choice a c.
Proof. unfold frame_choice. intuition congruence. Qed.

Ltac leaf_choice :=
  leaf_of frame_choice_refl frame_choice_trans
          ltac:(unfold frame_choice; simpl; intuition congruence).

Lemma select_category_loop_choice (cats : list Category) (n : nat) (rounds : nat) :
  keeps frame_choice (select_category_loop rounds cats n).
Proof.
  revert cats n. induction rounds as [|rounds IH]; intros cats n; simpl;
    keeps_with leaf_choice.
Qed.

#[local] Hint Resolve select_category_loop_choice : keeps.

Lemma select_category_choice (path : list string) :
  keeps frame_choice (select_category path).
Proof. keeps_with leaf_choice. Qed.

Lemma select_category_In (category_path : list string) (s s' : St) (c : Category) :
  select_category category_path s = Ret (Some c) s' ->
  In c (Dict.values (category_map s)).
Proof.
  intros R. unfold select_category in R.
  destruct (rev category_path) as [|leaf rest]; [discriminate R|].
  rewrite bind_gets, bind_gets, bind_gets in R.
  eapply select_category_loop_configured; [|exact R].
  intros x I. apply In_sorted_desc in I. unfold categories in I.
  apply In_unique in I. exact I.
Qed.

(** X19. When no part can be reused, no segment of the path has an alias
    and there is a user, [create_manufacturer_part] asks: for "Skip ..."
    it is a FAILURE that has made nothing and learnt nothing; for a
    category, which is one of the configuration, the last segment of the
    path becomes an alias of it, the only one added, and the part is made
    in that category. *)
Theorem create_manufacturer_part_asks (a : ApiPart) (s : St) :
  find (fun p => String.eqb (part_name p) (MPN a)) (parts (repo s)) = None ->
  first_category (category_map s) (rev (category_path a)) = None ->
  interactive s = true ->
  let asked :=
    select_category (category_path a)
      (set_console ((L_prompt, Msg_select_category (category_path a)) :: console s) s) in
  (forall s2,
      asked = Ret None s2 ->
      create_manufacturer_part a None s = Ret (inl FAILURE) s2
      /\ repo s2 = repo s /\ writes s2 = writes s /\ aliases s2 = aliases s)
  /\ (forall c s2,
         asked = Ret (Some c) s2 ->
         In c (Dict.values (category_map s))
         /\ forall x s',
              create_manufacturer_part a None s = Ret x s' ->
              aliases s' = (cat_name c, last (category_path a) "") :: aliases s
              /\ exists mp p,
                   x = inr (mp, p)
                   /\ part_category p = pc_pk (part_category_of c)
                   /\ part_name p = MPN a).
Proof.
  intros N H I asked.
  assert (E : create_manufacturer_part a None s
              = bind (fun s1 => asked)
                     (fun selected =>
                        match selected with
                        | None => ret (inl FAILURE)
                        | Some category =>
                            add_alias (cat_name category) (last (category_path a) "") ;;
                            create_in_category a category
                        end)
                     s).
  { unfold create_manufacturer_part, get_part.
    rewrite bind_gets, N, bind_gets, H, bind_gets, I. cbn [negb].
    unfold prompt. rewrite bind_say. reflexivity. }
  pose proof (select_category_choice (category_path a)
                (set_console ((L_prompt, Msg_select_category (category_path a))
                              :: console s) s)) as K.
  fold asked in K. split.
  - intros s2 A. rewrite A in K. simpl in K.
    destruct K as (_ & Rp & W & _ & Al).
    split; [rewrite E; unfold bind; rewrite A; reflexivity|].
    repeat split; assumption.
  - intros c s2 A. split.
    + apply select_category_In in A. exact A.
    + intros x s' R. rewrite E in R. unfold bind at 1 in R. rewrite A in R.
      unfold add_alias in R. rewrite bind_modify in R.
      rewrite A in K. simpl in K. destruct K as (_ & _ & _ & _ & Al).
      pose proof (create_in_category_quiet a c
                    (set_aliases ((cat_name c, last (category_path a) "") :: aliases s2)
                                 s2)) as Q.
      rewrite R in Q. simpl in Q. destruct Q as (_ & _ & Al' & _).
      split; [rewrite Al', Al; reflexivity|].
      apply create_in_category_result in R.
      destruct R as (mp & p & -> & C & Nm & _). exists mp, p. repeat split; assumption.
Qed.

Lemma create_manufacturer_part_asks_witness :
  exists x s',
    create_manufacturer_part ex_candidate None ex_asking = Ret x s'
    /\ aliases s' = [("Resistors", "Surface Mount")]
    /\ exists mp p, x = inr (mp, p) /\ part_category p = 10 /\ part_name p = "RC0603".
Proof.
  destruct (create_manufacturer_part_asks ex_candidate ex_asking eq_refl eq_refl eq_refl)
    as [_ Picked].
  destruct (Picked ex_resistors _ ltac:(vm_compute; reflexivity)) as [_ Made].
  eexists _, _. split; [vm_compute; reflexivity|].
  apply Made. vm_compute. reflexivity.
Defined.

(** ** Price breaks that are in sync *)

(** Nothing is requested for a candidate whose tiers are all stored with
    an equal price. *)
Lemma price_break_loop_in_sync (existing : list (Z * SupplierPriceBreak))
  (sp : SupplierPart) (a : ApiPart) (items : list (Z * Q)) :
  (forall q p, In (q, p) items ->
     exists b, Dict.get existing q = Some b /\ Qeq_bool p (pb_price b) = true) ->
  forall u s, price_break_loop existing sp a items u s = Ret u s.
Proof.
  induction items as [|[q p] items IH]; intros H u s; simpl; [reflexivity|].
  destruct (H q p (or_introl eq_refl)) as (b & G & E). rewrite G, E.
  apply IH. intros q' p' I. apply H. right. exact I.
Qed.

Lemma setup_price_breaks_in_sync (sp : SupplierPart) (a : ApiPart) (s : St) :
  in_sync (repo s) sp a -> setup_price_breaks sp a s = Ret tt s.
Proof.
  intros H. unfold setup_price_breaks, SupplierPriceBreak_list.
  rewrite bind_gets.
  erewrite bind_of_Ret by (apply price_break_loop_in_sync; exact H).
  reflexivity.
Qed.

(** The loop of [setup_price_breaks] when every request succeeds. *)
Lemma price_break_loop_synced (existing : list (Z * SupplierPriceBreak))
  (sp : SupplierPart) (a : ApiPart) (items : list (Z * Q)) :
  forall s u,
    dry_run s = false -> faults s = [] ->
    exists s' u',
      price_break_loop existing sp a items u s = Ret u' s'
      /\ dry_run s' = false /\ faults s' = []
      /\ (price_breaks (repo s'), next_pk (repo s'))
         = synced_tiers existing (sp_pk sp) (currency a) items
                        (next_pk (repo s)) (price_breaks (repo s)).
Proof.
  induction items as [|[q p] items IH]; intros s u D F; simpl.
  - exists s, u. repeat split; assumption.
  - destruct (Dict.get existing q) as [b|].
    + destruct (Qeq_bool p (pb_price b)); [apply IH; assumption|].
      erewrite bind_of_Ret by (apply price_break_save_ok; assumption).
      match goal with |- context [price_break_loop _ _ _ _ true ?s1] =>
        destruct (IH s1 true D F) as (s' & u' & R & D' & F' & E)
      end.
      exists s', u'. repeat split; assumption.
    + erewrite bind_of_Ret by (apply SupplierPriceBreak_create_ok; assumption).
      match goal with |- context [price_break_loop _ _ _ _ true ?s1] =>
        destruct (IH s1 true D F) as (s' & u' & R & D' & F' & E)
      end.
      exists s', u'. repeat split; assumption.
Qed.

Lemma map_filter_map {A B} (h : A -> A) (g : A -> bool) (k : A -> B) (l : list A) :
  (forall x, g (h x) = g x) -> (forall x, k (h x) = k x) ->
  map k (filter g (map h l)) = map k (filter g l).
Proof.
  intros Hg Hk. induction l as [|x l IH]; simpl; [reflexivity|].
  rewrite Hg. destruct (g x); simpl; rewrite ?Hk, IH; reflexivity.
Qed.

Lemma In_patch_inv {A} (pk_of : A -> Z) (k : Z) (f : A -> A) (l : list A) (y : A) :
  In y (patch pk_of k f l) -> exists x, In x l /\ (y = x \/ y = f x).
Proof.
  unfold patch. intros I. apply in_map_iff in I. destruct I as (x & E & I).
  exists x. split; [exact I|]. destruct (pk_of x =? k); auto.
Qed.

Lemma NoDup_snoc {A} (l : list A) (x : A) :
  NoDup l -> ~ In x l -> NoDup (l ++ [x]).
Proof.
  intros N I. apply NoDup_app; [exact N | repeat constructor; intros [] |].
  intros y J [<-|[]]. exact (I J).
Qed.

Lemma tiers_wf_patch (l : list SupplierPriceBreak) (next part k : Z) (p : Q)
  (cur : string) :
  tiers_wf l next part ->
  tiers_wf (patch pb_pk k (repriced p cur) l) next part.
Proof.
  intros (N & B & U). split; [|split].
  - rewrite map_patch_same by reflexivity. exact N.
  - intros y I. apply In_patch_inv in I. destruct I as (x & I & [->| ->]);
      [|simpl]; apply B; exact I.
  - unfold patch.
    rewrite (map_filter_map
               (fun x => if pb_pk x =? k then repriced p cur x else x)
               (fun b => pb_part b =? part) pb_quantity l); [exact U| |];
      intros x; destruct (pb_pk x =? k); reflexivity.
Qed.

Lemma tiers_wf_new (l : list SupplierPriceBreak) (next part q : Z) (p : Q)
  (cur : string) :
  tiers_wf l next part ->
  (forall b, In b l -> pb_part b = part -> pb_quantity b <> q) ->
  tiers_wf (l ++ [{| pb_pk := next; pb_part := part; pb_quantity := q;
                     pb_price := p; pb_currency := cur |}])
           (next + 1) part.
Proof.
  intros (N & B & U) Fresh. split; [|split].
  - rewrite map_app. simpl. apply NoDup_snoc; [exact N|].
    intros I. apply in_map_iff in I. destruct I as (b & E & I).
    apply B in I. lia.
  - intros b I. apply in_app_iff in I. destruct I as [I|[<-|[]]].
    + apply B in I. lia.
    + simpl. lia.
  - rewrite filter_app. simpl. rewrite Z.eqb_refl, map_app. simpl.
    apply NoDup_snoc; [exact U|].
    intros I. apply in_map_iff in I. destruct I as (b & E & I).
    apply filter_In in I. destruct I as [I P]. apply Z.eqb_eq in P.
    exact (Fresh b I P E).
Qed.

(** The loop brings every tier of the candidate in sync and keeps the
    price breaks well formed. *)
Lemma synced_tiers_spec (existing : list (Z * SupplierPriceBreak)) (part : Z)
  (cur : string) (items : list (Z * Q)) :
  NoDup (map fst items) ->
  forall next l,
    tiers_wf l next part ->
    (forall q p, In (q, p) items ->
       match Dict.get existing q with
       | Some b => In b l /\ pb_part b = part /\ pb_quantity b = q
       | None => forall b, In b l -> pb_part b = part -> pb_quantity b <> q
       end) ->
    let result := synced_tiers existing part cur items next l in
    tiers_wf (fst result) (snd result) part
    /\ (forall q p, In (q, p) items ->
          exists b, In b (fst result) /\ pb_part b = part /\ pb_quantity b = q
                    /\ Qeq_bool p (pb_price b) = true)
    /\ (forall b, In b l -> pb_part b = part ->
                  ~ In (pb_quantity b) (map fst items) -> In b (fst result)).
Proof.
  induction items as [|[q p] items IH]; intros ND next l WF J; cbv zeta.
  - simpl. split; [exact WF|]. split; [intros q p []|auto].
  - inversion ND as [|x xs Nq ND']. subst. simpl in Nq.
    assert (Jrest : forall q0 p0, In (q0, p0) items ->
               match Dict.get existing q0 with
               | Some b => In b l /\ pb_part b = part /\ pb_quantity b = q0
               | None => forall b, In b l -> pb_part b = part -> pb_quantity b <> q0
               end) by (intros q0 p0 I; apply (J q0 p0); right; exact I).
    assert (Other : forall q0 p0, In (q0, p0) items -> q0 <> q).
    { intros q0 p0 I ->. apply Nq.
      change (In (fst (q, p0)) (map fst items)). apply in_map. exact I. }
    pose proof (J q p (or_introl eq_refl)) as Jq.
    simpl. destruct (Dict.get existing q) as [b|] eqn:G.
    + destruct Jq as (Ib & Pb & Qb).
      destruct (Qeq_bool p (pb_price b)) eqn:E.
      * destruct (IH ND' next l WF Jrest) as (WF' & Sy & St).
        split; [exact WF'|]. split.
        -- intros q0 p0 [X|I]; [|apply Sy; exact I].
           inversion X. subst q0 p0. exists b.
           split; [apply St; auto; rewrite Qb; exact Nq|]. auto.
        -- intros b0 I0 P0 N0. apply St; auto.
           all: intros X; apply N0; right; exact X.
      * set (l1 := patch pb_pk (pb_pk b) (repriced p cur) l).
        assert (WF1 : tiers_wf l1 next part) by (apply tiers_wf_patch; exact WF).
        assert (Keep : forall b0, In b0 l -> pb_quantity b0 <> q ->
                                  pb_part b0 = part -> In b0 l1).
        { intros b0 I0 Q0 P0. apply In_patch_other; [exact I0|].
          intros X. apply Q0. rewrite <- Qb. f_equal.
          destruct WF as (N & _). eapply NoDup_map_eq; eauto. }
        assert (J1 : forall q0 p0, In (q0, p0) items ->
                   match Dict.get existing q0 with
                   | Some b0 => In b0 l1 /\ pb_part b0 = part /\ pb_quantity b0 = q0
                   | None => forall b0, In b0 l1 -> pb_part b0 = part ->
                                        pb_quantity b0 <> q0
                   end).
        { intros q0 p0 I. pose proof (Jrest q0 p0 I) as Jq0.
          destruct (Dict.get existing q0) as [b0|].
          - destruct Jq0 as (I0 & P0 & Q0). split; [|auto].
            apply Keep; auto. rewrite Q0. eapply Other. exact I.
          - intros b0 I0 P0. apply In_patch_inv in I0.
            destruct I0 as (x & Ix & [->| ->]); [apply Jq0; auto|].
            simpl in *. apply Jq0; auto. }
        destruct (IH ND' next l1 WF1 J1) as (WF' & Sy & St).
        split; [exact WF'|]. split.
        -- intros q0 p0 [X|I]; [|apply Sy; exact I].
           inversion X. subst q0 p0. exists (repriced p cur b).
           split; [|simpl; repeat split; auto; apply Qeq_bool_refl].
           assert (K0 : In (repriced p cur b) l1)
             by apply (In_patch_same pb_pk (repriced p cur) l b Ib).
           apply St; [exact K0 | simpl; auto | simpl; rewrite Qb; exact Nq].
        -- intros b0 I0 P0 N0.
           assert (K0 : In b0 l1).
           { apply Keep; auto; intros X; apply N0; left; symmetry; exact X. }
           assert (R0 : ~ In (pb_quantity b0) (map fst items)).
           { intros X. apply N0. right. exact X. }
           apply St; assumption.
    + set (new := {| pb_pk := next; pb_part := part; pb_quantity := q;
                     pb_price := p; pb_currency := cur |}).
      assert (WF1 : tiers_wf (l ++ [new]) (next + 1) part)
        by (apply tiers_wf_new; assumption).
      assert (J1 : forall q0 p0, In (q0, p0) items ->
                 match Dict.get existing q0 with
                 | Some b0 => In b0 (l ++ [new]) /\ pb_part b0 = part
                              /\ pb_quantity b0 = q0
                 | None => forall b0, In b0 (l ++ [new]) -> pb_part b0 = part ->
                                      pb_quantity b0 <> q0
                 end).
      { intros q0 p0 I. pose proof (Jrest q0 p0 I) as Jq0.
        destruct (Dict.get existing q0) as [b0|].
        - destruct Jq0 as (I0 & P0 & Q0). split; [|auto].
          apply in_or_app. left. exact I0.
        - intros b0 I0 P0. apply in_app_iff in I0. destruct I0 as [I0|[<-|[]]].
          + apply Jq0; auto.
          + simpl. intros X. symmetry in X. revert X. eapply Other. exact I. }
      destruct (IH ND' (next + 1) (l ++ [new])%list WF1 J1) as (WF' & Sy & St).
      split; [exact WF'|]. split.
      * intros q0 p0 [X|I]; [|apply Sy; exact I].
        inversion X. subst q0 p0. exists new.
        split; [|simpl; repeat split; auto; apply Qeq_bool_refl].
        apply St; [apply in_or_app; right; left; reflexivity | reflexivity
                  | exact Nq].
      * intros b0 I0 P0 N0.
        assert (K0 : In b0 (l ++ [new])%list) by (apply in_or_app; left; exact I0).
        assert (R0 : ~ In (pb_quantity b0) (map fst items)).
        { intros X. apply N0. right. exact X. }
        apply St; assumption.
Qed.

(** A supplier-part with one tier per quantity: the dictionary of
    [setup_price_breaks] holds each of its tiers. *)
Lemma by_quantity_In (r : Repo) (sp : SupplierPart) (b : SupplierPriceBreak) :
  NoDup (map pb_quantity
             (filter (fun x => pb_part x =? sp_pk sp) (price_breaks r))) ->
  In b (price_breaks r) -> pb_part b = sp_pk sp ->
  Dict.get (price_breaks_by_quantity r sp) (pb_quantity b) = Some b.
Proof.
  intros U I P. unfold price_breaks_by_quantity.
  set (mine := filter (fun x => pb_part x =? sp_pk sp) (price_breaks r)) in *.
  assert (Ib : In b mine) by (apply filter_In; split; [exact I | apply Z.eqb_eq; exact P]).
  destruct (get_of_items_Some (map (fun x => (pb_quantity x, x)) mine) (pb_quantity b))
    as (b' & G & J).
  - rewrite map_map. simpl. apply in_map. exact Ib.
  - rewrite G. f_equal. apply in_map_iff in J. destruct J as (x & E & Ix).
    inversion E. subst. eapply NoDup_map_eq; eauto.
Qed.

(** X20. [setup_price_breaks] is idempotent, part_importer.py:294-317.
    In a repository that holds at most one price break for each
    supplier-part and quantity (with distinct identifiers below the next
    one to be given), a run that is neither dry nor faulty returns; it
    leaves the repository in the same shape, with every quantity of the
    candidate stored for the supplier-part at the candidate's price; and a
    second run from the state it ends in returns in that very state: it
    creates and saves nothing and prints nothing. *)
Theorem setup_price_breaks_idempotent (s : St) (sp : SupplierPart) (a : ApiPart) :
  steady s ->
  tiers_wf (price_breaks (repo s)) (next_pk (repo s)) (sp_pk sp) ->
  NoDup (map fst (api_price_breaks a)) ->
  exists s',
    setup_price_breaks sp a s = Ret tt s'
    /\ tiers_wf (price_breaks (repo s')) (next_pk (repo s')) (sp_pk sp)
    /\ in_sync (repo s') sp a
    /\ setup_price_breaks sp a s' = Ret tt s'.
Proof.
  intros [D F] WF ND.
  set (existing := price_breaks_by_quantity (repo s) sp).
  destruct (price_break_loop_synced existing sp a (api_price_breaks a) s false D F)
    as (s1 & u & R & D1 & F1 & E).
  assert (J : forall q p, In (q, p) (api_price_breaks a) ->
             match Dict.get existing q with
             | Some b => In b (price_breaks (repo s)) /\ pb_part b = sp_pk sp
                         /\ pb_quantity b = q
             | None => forall b, In b (price_breaks (repo s)) ->
                                 pb_part b = sp_pk sp -> pb_quantity b <> q
             end).
  { intros q p _. destruct (Dict.get existing q) as [b|] eqn:G.
    - apply by_quantity_Some. exact G.
    - apply by_quantity_None. exact G. }
  pose proof (synced_tiers_spec existing (sp_pk sp) (currency a)
                (api_price_breaks a) ND (next_pk (repo s))
                (price_breaks (repo s)) WF J) as S.
  cbv zeta in S. rewrite <- E in S. simpl in S.
  destruct S as (WF1 & Sy & _).
  assert (Sync : in_sync (repo s1) sp a).
  { intros q p I. destruct (Sy q p I) as (b & Ib & Pb & Qb & Eb).
    exists b. split; [|exact Eb]. rewrite <- Qb.
    apply by_quantity_In; [|exact Ib|exact Pb].
    destruct WF1 as (_ & _ & U). exact U. }
  assert (Run : exists s',
             (if u then info Msg_updating_price_breaks else ret tt) s1 = Ret tt s'
             /\ repo s' = repo s1).
  { destruct u; eexists; split; reflexivity. }
  destruct Run as (s' & Fin & Er).
  exists s'. split; [|rewrite Er; split; [exact WF1|]; split; [exact Sync|]].
  - unfold setup_price_breaks, SupplierPriceBreak_list. rewrite bind_gets.
    change (Dict.of_items _) with existing.
    rewrite (bind_of_Ret _ _ _ _ _ R). exact Fin.
  - apply setup_price_breaks_in_sync. rewrite Er. exact Sync.
Qed.

Lemma setup_price_breaks_idempotent_witness :
  exists s',
    setup_price_breaks ex_supplier_part ex_candidate ex_priced = Ret tt s'
    /\ tiers_wf (price_breaks (repo s')) (next_pk (repo s')) 8
    /\ in_sync (repo s') ex_supplier_part ex_candidate
    /\ setup_price_breaks ex_supplier_part ex_candidate s' = Ret tt s'.
Proof.
  apply (setup_price_breaks_idempotent ex_priced ex_supplier_part ex_candidate).
  - split; reflexivity.
  - unfold tiers_wf. simpl. split; [|split].
    + repeat constructor; simpl; intuition lia.
    + intros b [<-|[<-|[]]]; simpl; lia.
    + repeat constructor; simpl; intuition lia.
  - simpl. repeat constructor; simpl; intuition lia.
Defined.
